(* ===== verification/_CoqProject ===== *)
-Q . S2P
Prelude.v
Wire.v
CanId.v
Crc16.v
SpiFrame.v
Safety.v
SafetySpec.v
Rtos.v
Txq.v
Can.v
CanSpec.v
CanOps.v
SafetyEsp.v
Router.v
SpiBridge.v
Adpcm.v
Audio.v
EnergyGate.v
Gateway.v
HubLink.v
Float32.v
FloatVal.v
Ctl.v
CtlSpec.v
Imu.v
Bms.v
BmsSpec.v
BmsProps.v
Flight.v
FlightSpec.v
Limb.v
LimbSpec.v
Led.v
Helmet.v
HelmetSpec.v
Uros.v
Boot.v
BootSpec.v
Entities.v
EntitiesSpec.v
Loopback.v
LoopbackSpec.v
Vectors.v
Selftest.v
Realtime.v
Bench.v
Float64.v
Bridge.v
BridgeSpec.v
Demux.v
DemuxSpec.v
Relay.v
Telem.v
TelemSpec.v
Orch.v
OrchSpec.v
OrchBeats.v
OrchSafety.v
XrcePath.v
Main.v
