(* ===== verification/Prelude.v ===== *)
(** * The powersuit firmware

    A verification of the C firmware of the suit (src/firmware, src/common/c) and of the
    C++ bridge on the orchestrator (src/orchestrator/ros2_ws/src/suit_canspi_bridge): a
    network of microcontrollers on two CAN buses, a hub that joins the buses and talks to
    the orchestrator over SPI, a safety state machine on every node, and the process that
    sends them their heartbeat.  The development is a shallow embedding: each function is a
    Rocq function on explicit state, each task or thread is the function of one turn of its
    loop or of the steps of one, and concurrency is the interleaving of steps.

    ** Parts and files

    Shared protocol (src/common/c):
    - [Wire]: the packed structs of wire.h, as a class [WireStruct] of layouts with one
      instance per struct; [CanId]: can_id.h; [Crc16]: crc16.c; [SpiFrame]: spi_frame.c;
      [Adpcm]: adpcm_ima.c.

    Components (src/firmware/components):
    - [Safety]: ps_safety_core.c, with [SafetySpec] its specification and properties;
      [SafetyEsp]: ps_safety_esp.c, the glue between the core and CAN.
    - [Rtos]: the FreeRTOS queue as the class [RtosQueue], and the error codes.
    - [Txq]: ps_can_txq.c; [Can]: ps_can.c, with its tasks, interrupts and senders as a
      machine of atomic sections; [CanSpec] and [CanOps]: its invariants and operations.
    - [Router]: ps_router.c; [SpiBridge]: ps_spibridge.c; [Audio]: audio_pkt.c;
      [EnergyGate]: energy_gate.c.
    - [Ctl]: ps_ctl (pid.c, foc_math.c, imu_mahony.c, foc_drv_mcpwm.c), with [CtlSpec].
    - [Uros]: ps_uros (transport and session task).

    Nodes (src/firmware/apps):
    - the hub: [Gateway] (gateway_task.c), [Bms] (bms_task.c) with [BmsSpec] and
      [BmsProps], [Led] (led_task.c);
    - the flight node: [Flight] (servo_task.c, comms_task.c, aero_task.c, safety_glue.c)
      with [FlightSpec]; the limb nodes: [Limb] (control_task.c, comms_task.c,
      safety_glue.c, board_limb.h) with [LimbSpec]; [Imu]: the IMU driver of both;
    - the helmet: [Helmet] (hud_model.c, hud_task.c, safety_glue.c, audio_in_task.c,
      audio_out_task.c, comms_task.c, espnow_diag.c) with [HelmetSpec];
    - start-up: [Boot] (the app_main.c files, the start functions they call and the checks
      with which the new tasks set up their hardware) with [BootSpec], a small logic of
      triples for computations that may abort the node;
    - micro-ROS: [Entities] (the entities and callbacks in the comms_task.c of the edge
      nodes, as applications of the session task of [Uros]) with [EntitiesSpec];
    - test programs: [Bench] (bench_main.c, both roles); [Loopback] (can_selftest.c, the
      self-test of the CAN driver) with [LoopbackSpec]; [Selftest] (the checks of
      node_qemu_test, run on the definitions here) with [Vectors], the shared test vectors,
      and [Realtime] (its check of the watchdog on a real timer).

    The bridge of the orchestrator (suit_canspi_bridge/src and its headers):
    - [Bridge]: frame_parser.cpp, heartbeat.cpp, estop_service.cpp and the queue and command
      subscriptions of main.cpp, with [BridgeSpec];
    - [Demux]: the interface of spi_transport.hpp as the class [SpiTransport],
      mock_transport.cpp and spidev_transport.cpp as its instances, and xrce_demux.cpp, with
      [DemuxSpec]; [Relay]: audio_relay.cpp; [Telem]: telem_synth.cpp, with [TelemSpec];
    - [Orch]: the transport thread of main.cpp, a turn of which is four steps, interleaved
      with the callbacks and the effects of the e-stop service; [OrchSpec]: what a step
      does, the records; [OrchBeats]: the heartbeats, made and leaving; [HubLink]: the hub's
      end of a frame; [OrchSafety]: the bridge and the hub together; [XrcePath]: the byte
      streams of micro-ROS through bridge, hub and node; [Main]: the process from start to
      exit.

    Support: this file (machine integers, buffers, rings and generic lemmas), [Float32] and
    [Float64] (the floating-point operations of the code on the Standard Library's
    [SpecFloat]) and [FloatVal] (the meaning of single precision as integers scaled by
    2^149, for bounds on rounded results).

    The parts meet where the code makes them meet: the glue calls the core and the CAN
    driver; the gateway runs a core of its own as the mirror of the suit and calls router,
    bridge and driver; the nodes hold a glue and act on the transitions it reports; the
    limb's control turn goes through the library of [Ctl] to the output stage; the bridge
    frames with the C code of [SpiFrame], speaks the codec of [Adpcm] and feeds the hub's
    SPI pump and downlink task.

    ** What is shown

    - Safety: the core refines an abstract machine over unbounded time, across the wrap of
      the 32-bit clock ([safety_refines]); no node is OPERATIONAL without a recent
      heartbeat, up to the actuation gate of the whole node ([operational_needs_heartbeat],
      [actuate_needs_heartbeat]); ESTOP latches, is left only by an accepted clear and one
      second of heartbeats ([estop_latches], [estop_exit]) and, raised anywhere, reaches
      every node ([estop_reaches_everyone], [gw_estop_cut_through], [bms_trip_stops_suit]).
    - CAN: over every interleaving, with reports of the driver at any time, each transmit
      slot is in one place and the highest class goes first, up to the one step that breaks
      it, a refusal of a frame whose slot a late report has claimed
      ([can_slots_conserved], [can_highest_class_first]); the flush at bus-off terminates
      and empties the transport's queue, though not the driver ([can_flush_drops_all]);
      close gives back all that open took ([can_close_releases]); the queue refines bounded lists
      ([txq_refines]), and the whole driver, looped back, one list served by class and then
      by age ([loopback_refines]), so that its self-test finds the order it looks for under
      every schedule ([selftest_order]).
    - The bridge: a heartbeat is made exactly under the conditions of the dead-man switch,
      and what leaves are those made ([bridge_dead_man]); an operator's e-stop reaches hub,
      buses and nodes ([operator_estop_stops_suit]) and under a latch none is made
      ([bridge_latched_silent]); records keep their form, and are lost only with a frame
      whose exchange failed ([bridge_frames], [frame_parser_exact]); XRCE bytes reach their
      node and their terminal, and no other ([xrce_downlink], [xrce_uplink]); voice arrives
      ([relay_downlink_heard], [relay_uplink_exact]); telemetry stays in
      its arrays and updates what it should ([telem_handles_any],
      [telem_updates_exactly]); clear counters and pacing ([clear_counters_accepted],
      [pacing]); the process ends with nothing left open ([bridge_process]).
    - Coding: round trips of structs, SPI frames and audio, the checksum as the remainder of
      a polynomial division, and detection of damage ([wire_roundtrip], [spi_build_parse],
      [crc_is_remainder], [spi_parse_detects_damage], [crc_detects_burst],
      [audio_stream_exact], [voice_uplink_exact], [uros_stream_exact]).
    - Hub: the routing table as exactly the rules of the network map, the SPI bridge as two bounded lists, the ESTOP bit of the SPI
      header, battery trips and the re-arm interlock, the status ring ([router_policy],
      [spib_refines], [gw_flag_tracks_estop], [bms_trips_iff], [bms_rearm_interlock],
      [bms_conversions], [led_tells_the_truth]).
    - Actuation: flap envelopes and the return to neutral ([servo_joint_envelope],
      [flight_actuation_envelope], [flight_estop_neutral]); controllers that stay within
      their limits, rounding included ([pid_bounded], [foc_step_sound]); an output stage
      wired so that the two switches of a phase are never on within the dead time of each
      other ([focdrv_no_shoot_through]); joint limits, the gate, limpness after a
      drop and the overcurrent trip ([limb_limits], [limb_gate],
      [limb_limp_until_commanded], [limb_overcurrent]).
    - Start-up: whatever the platform answers, a node comes up exactly if the calls it and
      its new tasks check succeed, safe and with its handlers wired, and aborts with nothing
      driven ([edge_boot_safe], [hub_boot_routes], [bench_boot]).
    - Test programs: the light of the bench is a dead-man switch, and the self-test passes on
      the model, codecs equal to the Python implementation's on its vectors and the watchdog
      on every timely target ([bench_dead_man], [selftest_passes], [realtime_passes]).
    - Helmet and sessions: the banner is the state, the warning list is shown exactly,
      sessions are set up and torn down whole ([hud_banner_is_the_state],
      [hud_warnings_exact], [uros_session_lifecycle]); the parameters of a node are one
      store that outlives its sessions, and which nodes finalise the entities of a lost
      session ([params_survive_reconnect], [entities_finalised]).

    Where the code deviates from what its comments or documents say, a theorem pins the
    behaviour down ([latched_request_survives], [servo_transient_overlap],
    [flight_param_check], [bms_stale_bits], [gw_publish_race], [spib_data_ready],
    [limb_nan_gain], [relay_sync_unchecked], [xrce_holds_back_safety],
    [stale_heartbeat_leaves], [xrce_overflow_reorders], [limb_board_defect]).

    ** Conventions and bounds

    Integers are [Z] with the wrap-around of their C type written out ([u8] to [i32]).
    Loops with a bound in the code are folds or structural recursion; the remaining ones
    take fuel that is shown to suffice: the length of the buffer for loops that consume a
    byte or sample per turn, the number of transmit slots for the flush.  Clocks are
    arguments; theorems on time assume runs shorter than half the range of the 32-bit
    clock where the code compares signed differences.

    Floating point is rounded per operation, without contraction into fused operations.
    The C library's [sinf], [cosf] and [logf], the threshold [pow] of the energy gate and
    conversions that C leaves undefined are parameters; a theorem that needs something of
    them says so, and otherwise holds for all.

    FreeRTOS, ESP-IDF, the motor-control peripheral, the micro-ROS client, ROS, Linux and
    the mechanics are outside the repository: queues, stream buffers and the dead-time module
    of the motor-control peripheral are classes with their documented behaviour and an
    instance each, everything else is an argument of the turn that asks for it.  Steps are as atomic as the locks of the code make them; where code
    runs without a lock the steps are finer and the interleavings are part of the model
    ([Can], [SpiBridge], [Gateway], [Orch]).  In [Led], [Limb], [Flight] and [Helmet] a turn of a
    task is one step.

    ** Not modelled

    The configurations of pins, buses, timers, display and radio, of which only the
    answers of the platform are kept; the idle loops of the app_main.c files; what the
    micro-ROS client does with the calls it gets; what a forced level of a generator does to
    the pins behind the dead-time module; the control turn of the limb node in the bench
    configuration, which replaces its motors; the latency measurements of can_selftest.c and the light
    probe of the bench, which are about the hardware; the checks of node_qemu_test on cores
    and stacks and on the round trip through [sinf]; and the host tests, which are tests of
    the components here. Of the bridge: real-time scheduling, the ROS executor and
    publishers. The Python services of the orchestrator and the cloud, which talk to the
    suit through the bridge. *)
From Stdlib Require Export ZArith Lia.
From stdpp Require Export base list numbers tactics decidable option.

#[global] Open Scope Z_scope.

(** [lia] decides goals with [/] and [mod] by a literal once the division
    equations are made explicit. *)
Ltac Zify.zify_post_hook ::= Z.to_euclidean_division_equations.

(** ** Machine integers *)

Declare Scope cint_scope.
Delimit Scope cint_scope with cint.

(** Conversions of C: [uN x] is [(uintN_t)x], [iN x] is [(intN_t)x]. *)
Definition u8 (z : Z) : Z := z mod 256.
Definition u16 (z : Z) : Z := z mod 65536.
Definition u32 (z : Z) : Z := z mod 4294967296.
Definition i8 (z : Z) : Z := (z + 128) mod 256 - 128.
Definition i16 (z : Z) : Z := (z + 32768) mod 65536 - 32768.
Definition i32 (z : Z) : Z := (z + 2147483648) mod 4294967296 - 2147483648.

Definition is_u8 (z : Z) : Prop := 0 <= z < 256.
Definition is_u16 (z : Z) : Prop := 0 <= z < 65536.
Definition is_u32 (z : Z) : Prop := 0 <= z < 4294967296.
Definition is_i8 (z : Z) : Prop := -128 <= z < 128.
Definition is_i16 (z : Z) : Prop := -32768 <= z < 32768.
Definition is_i32 (z : Z) : Prop := -2147483648 <= z < 2147483648.

(** [x & y], [x | y], [x ^ y], [x << n], [x >> n] of C on non-negative values,
    and the truth value of a mask test [x & m]. *)
Notation "x .& y" := (Z.land x y) (at level 40, left associativity) : cint_scope.
Notation "x .| y" := (Z.lor x y) (at level 50, left associativity) : cint_scope.
Notation "x .^ y" := (Z.lxor x y) (at level 45, left associativity) : cint_scope.
Notation "x .<< n" := (Z.shiftl x n) (at level 38, left associativity) : cint_scope.
Notation "x .>> n" := (Z.shiftr x n) (at level 38, left associativity) : cint_scope.
#[global] Open Scope cint_scope.

Definition has (x m : Z) : bool := negb (x .& m =? 0).

(** Unfolds the machine-integer conversions and their ranges. *)
Ltac cint := unfold u8, u16, u32, i8, i16, i32,
  is_u8, is_u16, is_u32, is_i8, is_i16, is_i32 in *.
Ltac clia := cint; lia.

(** Splits on every boolean an [if] of the goal, or of a hypothesis, tests. *)
Ltac ifs := repeat match goal with
  | |- context [if ?b then _ else _] => destruct b eqn:?
  end.
Ltac ifs_in H := repeat match type of H with
  | context [if ?b then _ else _] => destruct b eqn:?
  end.
(** Turns boolean conjunctions, disjunctions and negations of the context into
    propositional ones. *)
Ltac bools := repeat match goal with
  | H : _ && _ = true |- _ => apply andb_true_iff in H; destruct H
  | H : _ || _ = false |- _ => apply orb_false_iff in H; destruct H
  | H : negb _ = true |- _ => apply negb_true_iff in H
  | H : negb _ = false |- _ => apply negb_false_iff in H
  end.

Create HintDb cint discriminated.

Lemma u8_range z : is_u8 (u8 z).
Proof. clia. Qed.
Lemma u16_range z : is_u16 (u16 z).
Proof. clia. Qed.
Lemma u32_range z : is_u32 (u32 z).
Proof. clia. Qed.
Lemma i16_range z : is_i16 (i16 z).
Proof. clia. Qed.
Lemma i32_range z : is_i32 (i32 z).
Proof. clia. Qed.
#[export] Hint Resolve u8_range u16_range u32_range i16_range i32_range : cint.

Lemma u8_id z : is_u8 z -> u8 z = z.
Proof. clia. Qed.
Lemma u16_id z : is_u16 z -> u16 z = z.
Proof. clia. Qed.
Lemma u32_id z : is_u32 z -> u32 z = z.
Proof. clia. Qed.
Lemma i16_id z : is_i16 z -> i16 z = z.
Proof. clia. Qed.
Lemma i32_id z : is_i32 z -> i32 z = z.
Proof. clia. Qed.

(** ** Bit fields as arithmetic *)

Lemma land_mask x n m : 0 <= n -> m = Z.ones n -> x .& m = x mod 2 ^ n.
Proof. intros Hn ->. by apply Z.land_ones. Qed.

Lemma testbit_high b n i : 0 <= b < 2 ^ n -> n <= i -> Z.testbit b i = false.
Proof.
  intros Hb Hi. destruct (decide (0 <= n)) as [Hn|Hn].
  - rewrite <- (Z.mod_small b (2 ^ n)) by done. by apply Z.mod_pow2_bits_high.
  - rewrite Z.pow_neg_r in Hb by lia. lia.
Qed.

Lemma land_shiftl_low a b n : 0 <= n -> 0 <= b < 2 ^ n -> (a .<< n) .& b = 0.
Proof.
  intros Hn Hb. apply Z.bits_inj'. intros i Hi. rewrite Z.land_spec, Z.bits_0.
  destruct (decide (i < n)).
  - by rewrite Z.shiftl_spec_low.
  - by rewrite (testbit_high b n), andb_false_r by lia.
Qed.

(** A left shift joined to a value that fits below it is a sum. *)
Lemma lor_shiftl_add a b n : 0 <= n -> 0 <= b < 2 ^ n -> (a .<< n) .| b = a * 2 ^ n + b.
Proof.
  intros Hn Hb. pose proof (land_shiftl_low a b n Hn Hb) as Hd.
  rewrite <- Z.shiftl_mul_pow2, Z.add_nocarry_lxor by done. by rewrite Z.lxor_lor.
Qed.

Lemma lor_range a b n : 0 <= n -> 0 <= a < 2 ^ n -> 0 <= b < 2 ^ n -> 0 <= a .| b < 2 ^ n.
Proof.
  intros Hn Ha Hb.
  assert (a .| b = (a .| b) mod 2 ^ n) as ->; [|apply Z.mod_pos_bound; lia].
  rewrite <- Z.land_ones, Z.land_lor_distr_l, !Z.land_ones by done.
  by rewrite !Z.mod_small.
Qed.

(** ** Lists *)

Lemma Forall_total {A} `{Inhabited A} (P : A -> Prop) (l : list A) i :
  Forall P l -> (i < length l)%nat -> P (l !!! i).
Proof.
  intros HF Hi. destruct (lookup_lt_is_Some_2 l i Hi) as [x Hx].
  rewrite (list_lookup_total_correct _ _ _ Hx). by eapply Forall_lookup_1.
Qed.

(** A list of bytes can be checked by computation. *)
Lemma Forall_u8_check l :
  forallb (fun z => (0 <=? z) && (z <? 256)) l = true -> Forall is_u8 l.
Proof.
  induction l as [|z l IH]; cbn [forallb]; intros H; constructor; bools; [clia|auto].
Qed.

(** ** Byte buffers

    A C buffer is the list of its bytes.  [bput off l buf] is the buffer after the
    bytes [l] are stored at offset [off] ([memcpy(buf + off, l, sizeof l)]); it is
    meaningful where the store is in range, [off + length l <= length buf]. *)
Definition bput (off : nat) (l buf : list Z) : list Z :=
  take off buf ++ l ++ drop (off + length l) buf.

Lemma length_bput off l buf :
  (off + length l <= length buf)%nat -> length (bput off l buf) = length buf.
Proof. intros. unfold bput. rewrite !length_app, length_take, length_drop. lia. Qed.

Lemma bput_app_r a b k l : bput (length a + k) l (a ++ b) = a ++ bput k l b.
Proof.
  unfold bput. rewrite take_app_add, <- app_assoc. f_equal. f_equal. f_equal.
  by rewrite <- Nat.add_assoc, drop_app_add.
Qed.

Lemma bput_app_0 a b l : bput (length a) l (a ++ b) = a ++ bput 0 l b.
Proof. by rewrite <- (Nat.add_0_r (length a)), bput_app_r. Qed.

(** Storing over a prefix of the same length replaces it. *)
Lemma bput_0 a l b : length a = length l -> bput 0 l (a ++ b) = l ++ b.
Proof. intros H. unfold bput. cbn [take app Nat.add]. by rewrite <- H, drop_app_length. Qed.

Lemma bput_at off a m l b : length a = off -> length m = length l ->
  bput off l (a ++ m ++ b) = a ++ l ++ b.
Proof.
  intros <- Hm. rewrite <- (Nat.add_0_r (length a)), bput_app_r. f_equal. by apply bput_0.
Qed.

Lemma replicate_split {A} n m (x : A) : (m <= n)%nat ->
  replicate n x = replicate m x ++ replicate (n - m) x.
Proof. intros. rewrite <- replicate_add. f_equal. lia. Qed.

Lemma lookup_total_insert_dec {A} `{Inhabited A} (l : list A) i j x : (i < length l)%nat ->
  <[i := x]> l !!! j = if decide (i = j) then x else l !!! j.
Proof.
  intros Hi. case_decide; subst; [by apply list_lookup_total_insert_eq|].
  by apply list_lookup_total_insert_ne.
Qed.

(** ** Ring buffers

    The [n] items of a ring of [m] cells from cell [h] on, oldest first. *)
Definition contents (m : Z) (r : list Z) (h n : Z) : list Z :=
  (fun i => r !!! Z.to_nat ((h + Z.of_nat i) mod m)) <$> seq 0 (Z.to_nat n).

Lemma length_contents m r h n : length (contents m r h n) = Z.to_nat n.
Proof. unfold contents. by rewrite length_fmap, length_seq. Qed.

Lemma mod_distinct m h i n : 0 <= i < n -> n < m -> (h + i) mod m <> (h + n) mod m.
Proof.
  intros Hi Hn Heq. assert ((n - i) mod m = 0) as H.
  { replace (n - i) with ((h + n) - (h + i)) by lia. rewrite Zminus_mod, Heq, Z.sub_diag. apply Z.mod_0_l. lia. }
  rewrite Z.mod_small in H by lia. lia.
Qed.

Lemma contents_push m r h n x : length r = Z.to_nat m -> 0 <= n < m ->
  contents m (<[Z.to_nat ((h + n) mod m) := x]> r) h (n + 1) = contents m r h n ++ [x].
Proof.
  intros Hr Hn. unfold contents. replace (Z.to_nat (n + 1)) with (S (Z.to_nat n)) by lia.
  assert (forall z, 0 <= z mod m < m) as Hm by (intros; apply Z.mod_pos_bound; lia).
  rewrite seq_S, fmap_app. f_equal.
  - apply list_fmap_ext. intros i y Hy. apply lookup_seq in Hy as [-> Hi].
    rewrite list_lookup_total_insert_ne; [done|]. pose proof (mod_distinct m h (Z.of_nat (0 + i)) n).
    pose proof (Hm (h + n)). pose proof (Hm (h + Z.of_nat (0 + i))). lia.
  - cbn [fmap list_fmap]. f_equal. replace (h + Z.of_nat (0 + Z.to_nat n)) with (h + n) by lia.
    apply list_lookup_total_insert_eq. pose proof (Hm (h + n)). lia.
Qed.

Lemma contents_pop m r h n : 0 < m -> 0 <= h < m -> 0 < n ->
  contents m r h n = r !!! Z.to_nat h :: contents m r ((h + 1) mod m) (n - 1).
Proof.
  intros Hm Hh Hn. unfold contents. replace (Z.to_nat n) with (S (Z.to_nat (n - 1))) by lia.
  cbn [seq fmap list_fmap]. f_equal.
  - do 2 f_equal. change (Z.of_nat 0) with 0. rewrite Z.add_0_r. by apply Z.mod_small.
  - rewrite <- (fmap_S_seq 0), <- list_fmap_compose. apply list_fmap_ext. intros i y Hy.
    cbn. do 2 f_equal. rewrite Z.add_mod_idemp_l by lia. f_equal. lia.
Qed.
