(* ===== verification/Wire.v ===== *)
(** Wire payloads (src/common/c/include/powersuit_proto/wire.h).

    Every payload is a packed little-endian C struct of at most eight bytes that
    the code copies to and from a byte buffer with [memcpy].  A struct is a
    record here, its packed layout a list of field types, and
    [PS_WIRE_WRITE]/[PS_WIRE_READ] are derived once and for all from the layout
    ([wire_write], [wire_read]); class [WireStruct] holds the layout of each
    struct and the two laws the codec theorems need. *)
From S2P Require Import Prelude.

(** ** Contract constants *)
Definition PS_HEARTBEAT_PERIOD_MS : Z := 10.
Definition PS_HEARTBEAT_TIMEOUT_MS : Z := 50.
Definition PS_REARM_WINDOW_MS : Z := 250.
Definition PS_CMD_STALE_MS : Z := 200.
Definition PS_ESTOP_REARM_MS : Z := 1000.
Definition PS_ESTOP_REPEAT : nat := 3.
Definition PS_CLEAR_ESTOP_MAGIC : Z := 0x52A4C13A.

Definition PS_STATE_BOOT : Z := 0.
Definition PS_STATE_STANDBY : Z := 1.
Definition PS_STATE_OPERATIONAL : Z := 2.
Definition PS_STATE_PASSIVE : Z := 3.
Definition PS_STATE_ESTOP : Z := 4.
Definition PS_STATE_FAULT : Z := 5.

Definition PS_ESTOP_BMS_SHORT : Z := 1.
Definition PS_ESTOP_BMS_OVERVOLT : Z := 2.
Definition PS_ESTOP_BMS_UNDERVOLT : Z := 3.
Definition PS_ESTOP_OPERATOR : Z := 4.
Definition PS_ESTOP_THERMAL : Z := 5.
Definition PS_ESTOP_COMM_LOSS : Z := 6.
Definition PS_ESTOP_SOFTWARE : Z := 7.

Definition PS_JMODE_PASSIVE : Z := 0.
Definition PS_JMODE_POSITION : Z := 1.
Definition PS_JMODE_VELOCITY : Z := 2.
Definition PS_JMODE_TORQUE : Z := 3.
Definition PS_JMODE_IMPEDANCE : Z := 4.

Definition PS_HB_ESTOP_LATCHED : Z := 1 .<< 0.
Definition PS_HB_DEGRADED : Z := 1 .<< 1.
Definition PS_HB_CLOUD_UP : Z := 1 .<< 2.

Definition PS_BMSF_SHORT_LATCH : Z := 1 .<< 0.
Definition PS_BMSF_OV : Z := 1 .<< 1.
Definition PS_BMSF_UV : Z := 1 .<< 2.
Definition PS_BMSF_OT : Z := 1 .<< 3.
Definition PS_BMSF_UT : Z := 1 .<< 4.
Definition PS_BMSF_OC_CHARGE : Z := 1 .<< 5.
Definition PS_BMSF_OC_DISCHARGE : Z := 1 .<< 6.
Definition PS_BMSF_COMP_ARMED : Z := 1 .<< 7.

(** ** Packed layouts *)
Inductive fty := U8 | U16 | U32 | I8 | I16.

Definition fsize (f : fty) : nat :=
  match f with U8 | I8 => 1 | U16 | I16 => 2 | U32 => 4 end.

Definition fwidth (f : fty) : Z := 256 ^ Z.of_nat (fsize f).

Definition fsigned (f : fty) : bool := match f with I8 | I16 => true | _ => false end.

(** The values a field of the given type can hold. *)
Definition fok (f : fty) (v : Z) : Prop :=
  match f with
  | U8 => is_u8 v | U16 => is_u16 v | U32 => is_u32 v | I8 => is_i8 v | I16 => is_i16 v
  end.

(** Little-endian bytes of a value, and the value of little-endian bytes. *)
Fixpoint le_bytes (n : nat) (v : Z) : list Z :=
  match n with O => [] | S n => u8 v :: le_bytes n (v / 256) end.

Fixpoint le_val (bs : list Z) : Z :=
  match bs with [] => 0 | b :: bs => b + 256 * le_val bs end.

Definition fenc (f : fty) (v : Z) : list Z := le_bytes (fsize f) v.

Definition fdec (f : fty) (bs : list Z) : Z :=
  let v := le_val bs in
  if fsigned f && (fwidth f / 2 <=? v) then v - fwidth f else v.

Fixpoint enc (l : list fty) (vs : list Z) : list Z :=
  match l, vs with f :: l, v :: vs => fenc f v ++ enc l vs | _, _ => [] end.

Fixpoint dec (l : list fty) (bs : list Z) : list Z :=
  match l with
  | [] => []
  | f :: l => fdec f (take (fsize f) bs) :: dec l (drop (fsize f) bs)
  end.

Fixpoint layout_size (l : list fty) : nat :=
  match l with [] => 0 | f :: l => fsize f + layout_size l end.

Fixpoint all_ok (l : list fty) (vs : list Z) : Prop :=
  match l, vs with
  | [], [] => True
  | f :: l, v :: vs => fok f v /\ all_ok l vs
  | _, _ => False
  end.

Lemma length_le_bytes n v : length (le_bytes n v) = n.
Proof. revert v. induction n; intros; simpl; auto. Qed.

Lemma le_bytes_u8 n v : Forall is_u8 (le_bytes n v).
Proof. revert v. induction n; intros; simpl; constructor; auto with cint. Qed.
#[export] Hint Resolve le_bytes_u8 : cint.

Lemma le_val_bytes n v : le_val (le_bytes n v) = v mod 256 ^ Z.of_nat n.
Proof.
  revert v. induction n as [|n IH]; intros v; [simpl; by rewrite Z.mod_1_r|].
  cbn [le_bytes le_val]. rewrite IH, Nat2Z.inj_succ, Z.pow_succ_r by lia.
  rewrite Z.rem_mul_r by (try apply Z.pow_nonzero; lia). reflexivity.
Qed.

Lemma le_bytes_val bs : Forall is_u8 bs -> le_bytes (length bs) (le_val bs) = bs.
Proof.
  induction 1 as [|b bs Hb _ IH]; [done|]. cbn [length le_bytes le_val].
  assert ((b + 256 * le_val bs) / 256 = le_val bs) as -> by clia. rewrite IH. f_equal. clia.
Qed.

Lemma le_val_range bs : Forall is_u8 bs -> 0 <= le_val bs < 256 ^ Z.of_nat (length bs).
Proof.
  intros H. rewrite <- (le_bytes_val bs H), length_le_bytes, le_val_bytes.
  apply Z.mod_pos_bound. lia.
Qed.

Lemma fwidth_eq f : 256 ^ Z.of_nat (fsize f) =
  match f with U8 | I8 => 256 | U16 | I16 => 65536 | U32 => 4294967296 end.
Proof. by destruct f. Qed.

Lemma fdec_fenc f v : fok f v -> fdec f (fenc f v) = v.
Proof.
  unfold fdec, fenc, fwidth. rewrite le_val_bytes, fwidth_eq.
  destruct f; cbn -[Z.div Z.modulo]; cint; intros; ifs; lia.
Qed.

Lemma fdec_ok f bs : Forall is_u8 bs -> length bs = fsize f -> fok f (fdec f bs).
Proof.
  intros Hb Hl. pose proof (le_val_range bs Hb) as R. rewrite Hl in R.
  unfold fdec, fwidth. rewrite fwidth_eq in *.
  destruct f; cbn -[Z.div] in *; cint; ifs; lia.
Qed.

Lemma fenc_fdec f bs : Forall is_u8 bs -> length bs = fsize f -> fenc f (fdec f bs) = bs.
Proof.
  intros Hb Hl. rewrite <- (le_bytes_val bs Hb) at 2. rewrite Hl.
  unfold fenc, fdec, fwidth. rewrite fwidth_eq. case_match; [|done].
  destruct f; try done; cbn [fsize le_bytes]; repeat (f_equal; try clia).
Qed.

Lemma length_enc l vs : length l = length vs -> length (enc l vs) = layout_size l.
Proof.
  revert vs. induction l as [|f l IH]; intros [|v vs]; cbn; try done.
  intros [= H]. rewrite length_app, IH by done. unfold fenc. by rewrite length_le_bytes.
Qed.

Lemma all_ok_length l vs : all_ok l vs -> length l = length vs.
Proof. revert vs. induction l as [|f l IH]; intros [|v vs]; cbn; try done. intros [_ ?]. f_equal. auto. Qed.

Lemma enc_u8 l vs : Forall is_u8 (enc l vs).
Proof.
  revert vs. induction l as [|f l IH]; intros [|v vs]; cbn; auto.
  apply Forall_app; split; [unfold fenc; auto with cint|apply IH].
Qed.

Lemma dec_enc l vs rest : all_ok l vs -> dec l (enc l vs ++ rest) = vs.
Proof.
  revert vs. induction l as [|f l IH]; intros [|v vs]; cbn; try done.
  intros [Hv Hvs]. rewrite <- app_assoc.
  rewrite take_app_length', drop_app_length' by (unfold fenc; by rewrite length_le_bytes).
  by rewrite fdec_fenc, IH.
Qed.

Lemma enc_dec l bs : Forall is_u8 bs -> (layout_size l <= length bs)%nat ->
  enc l (dec l bs) = take (layout_size l) bs.
Proof.
  revert bs. induction l as [|f l IH]; intros bs Hb Hl; cbn in *; [done|].
  rewrite fenc_fdec, IH; try (rewrite ?length_drop, ?length_take; lia).
  - by rewrite take_take_drop.
  - by apply Forall_drop.
  - by apply Forall_take.
Qed.

Lemma dec_ok l bs : Forall is_u8 bs -> (layout_size l <= length bs)%nat -> all_ok l (dec l bs).
Proof.
  revert bs. induction l as [|f l IH]; intros bs Hb Hl; cbn in *; [done|]. split.
  - apply fdec_ok; [by apply Forall_take|]. rewrite length_take. lia.
  - apply IH; [by apply Forall_drop|]. rewrite length_drop. lia.
Qed.

(** ** Structs and the copy helpers *)

(** A packed struct: its layout, the values of its fields in declaration order
    and the struct with given field values.  [ws_fits] is the size lock
    [PS_WIRE_SIZE_ASSERT] of the header. *)
Class WireStruct (A : Type) := {
  ws_layout : list fty;
  ws_fields : A -> list Z;
  ws_make : list Z -> A;
  ws_fits : (layout_size ws_layout <= 8)%nat;
  ws_make_fields x : ws_make (ws_fields x) = x;
  ws_fields_make vs : length vs = length ws_layout -> ws_fields (ws_make vs) = vs;
}.

Ltac solve_wire_struct :=
  first [ cbn; lia | by intros [] | intros vs; do 9 (destruct vs as [|? vs]; try done) ].

(** [sizeof(A)]. *)
Definition wire_size (A : Type) `{WireStruct A} : nat := layout_size ws_layout.

(** The values a struct of type [A] can hold, field by field. *)
Definition wire_ok {A} `{WireStruct A} (x : A) : Prop := all_ok ws_layout (ws_fields x).

(** [PS_WIRE_WRITE]: the bytes [memcpy] copies out of the struct. *)
Definition wire_write {A} `{WireStruct A} (x : A) : list Z := enc ws_layout (ws_fields x).

(** [PS_WIRE_READ]: the struct [memcpy] fills from the buffer. *)
Definition wire_read {A} `{WireStruct A} (buf : list Z) : A := ws_make (dec ws_layout buf).

Record ps_heartbeat_t := { hb_seq : Z; hb_flags : Z; hb_src_state : Z; hb_uptime_ms : Z }.
#[export] Instance wire_heartbeat : WireStruct ps_heartbeat_t.
Proof.
  refine {|
    ws_layout := [U16; U8; U8; U32];
    ws_fields x := [hb_seq x; hb_flags x; hb_src_state x; hb_uptime_ms x];
    ws_make vs := {| hb_seq := vs !!! 0%nat; hb_flags := vs !!! 1%nat; hb_src_state := vs !!! 2%nat; hb_uptime_ms := vs !!! 3%nat |} |}.
  all: solve_wire_struct.
Defined.

Record ps_estop_t := { es_cause : Z; es_origin_node : Z; es_seq : Z; es_uptime_ms : Z }.
#[export] Instance wire_estop : WireStruct ps_estop_t.
Proof.
  refine {|
    ws_layout := [U8; U8; U16; U32];
    ws_fields x := [es_cause x; es_origin_node x; es_seq x; es_uptime_ms x];
    ws_make vs := {| es_cause := vs !!! 0%nat; es_origin_node := vs !!! 1%nat; es_seq := vs !!! 2%nat; es_uptime_ms := vs !!! 3%nat |} |}.
  all: solve_wire_struct.
Defined.

Record ps_clear_estop_t := { ce_magic : Z; ce_counter : Z }.
#[export] Instance wire_clear_estop : WireStruct ps_clear_estop_t.
Proof.
  refine {|
    ws_layout := [U32; U32];
    ws_fields x := [ce_magic x; ce_counter x];
    ws_make vs := {| ce_magic := vs !!! 0%nat; ce_counter := vs !!! 1%nat |} |}.
  all: solve_wire_struct.
Defined.

Record ps_node_fault_t := { nf_fault_code : Z; nf_severity : Z; nf_detail : Z; nf_uptime_ms : Z }.
#[export] Instance wire_node_fault : WireStruct ps_node_fault_t.
Proof.
  refine {|
    ws_layout := [U8; U8; U16; U32];
    ws_fields x := [nf_fault_code x; nf_severity x; nf_detail x; nf_uptime_ms x];
    ws_make vs := {| nf_fault_code := vs !!! 0%nat; nf_severity := vs !!! 1%nat; nf_detail := vs !!! 2%nat; nf_uptime_ms := vs !!! 3%nat |} |}.
  all: solve_wire_struct.
Defined.

Record ps_joint_cmd_t := { jc_joint : Z; jc_mode : Z; jc_pos_crad : Z; jc_vel_crad_s : Z; jc_eff_cNm : Z }.
#[export] Instance wire_joint_cmd : WireStruct ps_joint_cmd_t.
Proof.
  refine {|
    ws_layout := [U8; U8; I16; I16; I16];
    ws_fields x := [jc_joint x; jc_mode x; jc_pos_crad x; jc_vel_crad_s x; jc_eff_cNm x];
    ws_make vs := {| jc_joint := vs !!! 0%nat; jc_mode := vs !!! 1%nat; jc_pos_crad := vs !!! 2%nat; jc_vel_crad_s := vs !!! 3%nat; jc_eff_cNm := vs !!! 4%nat |} |}.
  all: solve_wire_struct.
Defined.

Record ps_flap_cmd_t := { fc_flap : Z; fc_rate_lim : Z; fc_pos_pm : Z; fc_flags : Z; fc_rsvd : Z }.
#[export] Instance wire_flap_cmd : WireStruct ps_flap_cmd_t.
Proof.
  refine {|
    ws_layout := [U8; U8; I16; U16; U16];
    ws_fields x := [fc_flap x; fc_rate_lim x; fc_pos_pm x; fc_flags x; fc_rsvd x];
    ws_make vs := {| fc_flap := vs !!! 0%nat; fc_rate_lim := vs !!! 1%nat; fc_pos_pm := vs !!! 2%nat; fc_flags := vs !!! 3%nat; fc_rsvd := vs !!! 4%nat |} |}.
  all: solve_wire_struct.
Defined.

Record ps_mode_set_t := { ms_target_state : Z; ms_rsvd0 : Z; ms_rsvd1 : Z; ms_rsvd2 : Z; ms_rsvd3 : Z; ms_rsvd4 : Z; ms_rsvd5 : Z; ms_rsvd6 : Z }.
#[export] Instance wire_mode_set : WireStruct ps_mode_set_t.
Proof.
  refine {|
    ws_layout := [U8; U8; U8; U8; U8; U8; U8; U8];
    ws_fields x := [ms_target_state x; ms_rsvd0 x; ms_rsvd1 x; ms_rsvd2 x; ms_rsvd3 x; ms_rsvd4 x; ms_rsvd5 x; ms_rsvd6 x];
    ws_make vs := {| ms_target_state := vs !!! 0%nat; ms_rsvd0 := vs !!! 1%nat; ms_rsvd1 := vs !!! 2%nat; ms_rsvd2 := vs !!! 3%nat; ms_rsvd3 := vs !!! 4%nat; ms_rsvd4 := vs !!! 5%nat; ms_rsvd5 := vs !!! 6%nat; ms_rsvd6 := vs !!! 7%nat |} |}.
  all: solve_wire_struct.
Defined.

Record ps_led_pattern_t := { lp_pattern : Z; lp_brightness : Z; lp_r : Z; lp_g : Z; lp_b : Z; lp_speed : Z; lp_rsvd : Z }.
#[export] Instance wire_led_pattern : WireStruct ps_led_pattern_t.
Proof.
  refine {|
    ws_layout := [U8; U8; U8; U8; U8; U8; U16];
    ws_fields x := [lp_pattern x; lp_brightness x; lp_r x; lp_g x; lp_b x; lp_speed x; lp_rsvd x];
    ws_make vs := {| lp_pattern := vs !!! 0%nat; lp_brightness := vs !!! 1%nat; lp_r := vs !!! 2%nat; lp_g := vs !!! 3%nat; lp_b := vs !!! 4%nat; lp_speed := vs !!! 5%nat; lp_rsvd := vs !!! 6%nat |} |}.
  all: solve_wire_struct.
Defined.

Record ps_joint_state_t := { js_joint : Z; js_flags : Z; js_pos_crad : Z; js_vel_crad_s : Z; js_eff_cNm : Z }.
#[export] Instance wire_joint_state : WireStruct ps_joint_state_t.
Proof.
  refine {|
    ws_layout := [U8; U8; I16; I16; I16];
    ws_fields x := [js_joint x; js_flags x; js_pos_crad x; js_vel_crad_s x; js_eff_cNm x];
    ws_make vs := {| js_joint := vs !!! 0%nat; js_flags := vs !!! 1%nat; js_pos_crad := vs !!! 2%nat; js_vel_crad_s := vs !!! 3%nat; js_eff_cNm := vs !!! 4%nat |} |}.
  all: solve_wire_struct.
Defined.

Record ps_imu_quat_t := { iq_qw : Z; iq_qx : Z; iq_qy : Z; iq_qz : Z }.
#[export] Instance wire_imu_quat : WireStruct ps_imu_quat_t.
Proof.
  refine {|
    ws_layout := [I16; I16; I16; I16];
    ws_fields x := [iq_qw x; iq_qx x; iq_qy x; iq_qz x];
    ws_make vs := {| iq_qw := vs !!! 0%nat; iq_qx := vs !!! 1%nat; iq_qy := vs !!! 2%nat; iq_qz := vs !!! 3%nat |} |}.
  all: solve_wire_struct.
Defined.

Record ps_imu_acc_t := { ia_ax : Z; ia_ay : Z; ia_az : Z; ia_rsvd : Z }.
#[export] Instance wire_imu_acc : WireStruct ps_imu_acc_t.
Proof.
  refine {|
    ws_layout := [I16; I16; I16; U16];
    ws_fields x := [ia_ax x; ia_ay x; ia_az x; ia_rsvd x];
    ws_make vs := {| ia_ax := vs !!! 0%nat; ia_ay := vs !!! 1%nat; ia_az := vs !!! 2%nat; ia_rsvd := vs !!! 3%nat |} |}.
  all: solve_wire_struct.
Defined.

Record ps_imu_gyr_t := { ig_gx : Z; ig_gy : Z; ig_gz : Z; ig_rsvd : Z }.
#[export] Instance wire_imu_gyr : WireStruct ps_imu_gyr_t.
Proof.
  refine {|
    ws_layout := [I16; I16; I16; U16];
    ws_fields x := [ig_gx x; ig_gy x; ig_gz x; ig_rsvd x];
    ws_make vs := {| ig_gx := vs !!! 0%nat; ig_gy := vs !!! 1%nat; ig_gz := vs !!! 2%nat; ig_rsvd := vs !!! 3%nat |} |}.
  all: solve_wire_struct.
Defined.

Record ps_force_t := { fo_ch0 : Z; fo_ch1 : Z; fo_ch2 : Z; fo_ch3 : Z }.
#[export] Instance wire_force : WireStruct ps_force_t.
Proof.
  refine {|
    ws_layout := [I16; I16; I16; I16];
    ws_fields x := [fo_ch0 x; fo_ch1 x; fo_ch2 x; fo_ch3 x];
    ws_make vs := {| fo_ch0 := vs !!! 0%nat; fo_ch1 := vs !!! 1%nat; fo_ch2 := vs !!! 2%nat; fo_ch3 := vs !!! 3%nat |} |}.
  all: solve_wire_struct.
Defined.

Record ps_bms_summary_t := { bs_pack_cV : Z; bs_current_cA : Z; bs_soc_pct : Z; bs_temp_max_C : Z; bs_fault_bits : Z }.
#[export] Instance wire_bms_summary : WireStruct ps_bms_summary_t.
Proof.
  refine {|
    ws_layout := [U16; I16; U8; I8; U16];
    ws_fields x := [bs_pack_cV x; bs_current_cA x; bs_soc_pct x; bs_temp_max_C x; bs_fault_bits x];
    ws_make vs := {| bs_pack_cV := vs !!! 0%nat; bs_current_cA := vs !!! 1%nat; bs_soc_pct := vs !!! 2%nat; bs_temp_max_C := vs !!! 3%nat; bs_fault_bits := vs !!! 4%nat |} |}.
  all: solve_wire_struct.
Defined.

Record ps_bms_cells_t := { bc_group : Z; bc_rsvd : Z; bc_mv0 : Z; bc_mv1 : Z; bc_mv2 : Z }.
#[export] Instance wire_bms_cells : WireStruct ps_bms_cells_t.
Proof.
  refine {|
    ws_layout := [U8; U8; U16; U16; U16];
    ws_fields x := [bc_group x; bc_rsvd x; bc_mv0 x; bc_mv1 x; bc_mv2 x];
    ws_make vs := {| bc_group := vs !!! 0%nat; bc_rsvd := vs !!! 1%nat; bc_mv0 := vs !!! 2%nat; bc_mv1 := vs !!! 3%nat; bc_mv2 := vs !!! 4%nat |} |}.
  all: solve_wire_struct.
Defined.

Record ps_aero_state_t := { ae_ias_cms : Z; ae_q_pa : Z; ae_aoa_cdeg : Z; ae_flags : Z }.
#[export] Instance wire_aero_state : WireStruct ps_aero_state_t.
Proof.
  refine {|
    ws_layout := [U16; U16; I16; U16];
    ws_fields x := [ae_ias_cms x; ae_q_pa x; ae_aoa_cdeg x; ae_flags x];
    ws_make vs := {| ae_ias_cms := vs !!! 0%nat; ae_q_pa := vs !!! 1%nat; ae_aoa_cdeg := vs !!! 2%nat; ae_flags := vs !!! 3%nat |} |}.
  all: solve_wire_struct.
Defined.

Record ps_flap_state_t := { fs_flap : Z; fs_flags : Z; fs_pos_pm : Z; fs_target_pm : Z; fs_rsvd : Z }.
#[export] Instance wire_flap_state : WireStruct ps_flap_state_t.
Proof.
  refine {|
    ws_layout := [U8; U8; I16; I16; U16];
    ws_fields x := [fs_flap x; fs_flags x; fs_pos_pm x; fs_target_pm x; fs_rsvd x];
    ws_make vs := {| fs_flap := vs !!! 0%nat; fs_flags := vs !!! 1%nat; fs_pos_pm := vs !!! 2%nat; fs_target_pm := vs !!! 3%nat; fs_rsvd := vs !!! 4%nat |} |}.
  all: solve_wire_struct.
Defined.

Record ps_env_t := { en_temp_cC : Z; en_rh_pm : Z; en_press_dhPa : Z; en_rsvd : Z }.
#[export] Instance wire_env : WireStruct ps_env_t.
Proof.
  refine {|
    ws_layout := [I16; U16; U16; U16];
    ws_fields x := [en_temp_cC x; en_rh_pm x; en_press_dhPa x; en_rsvd x];
    ws_make vs := {| en_temp_cC := vs !!! 0%nat; en_rh_pm := vs !!! 1%nat; en_press_dhPa := vs !!! 2%nat; en_rsvd := vs !!! 3%nat |} |}.
  all: solve_wire_struct.
Defined.

Record ps_node_stats_t := { ns_cpu_pct : Z; ns_state : Z; ns_rx_fps : Z; ns_tx_fps : Z; ns_err_cnt : Z }.
#[export] Instance wire_node_stats : WireStruct ps_node_stats_t.
Proof.
  refine {|
    ws_layout := [U8; U8; U16; U16; U16];
    ws_fields x := [ns_cpu_pct x; ns_state x; ns_rx_fps x; ns_tx_fps x; ns_err_cnt x];
    ws_make vs := {| ns_cpu_pct := vs !!! 0%nat; ns_state := vs !!! 1%nat; ns_rx_fps := vs !!! 2%nat; ns_tx_fps := vs !!! 3%nat; ns_err_cnt := vs !!! 4%nat |} |}.
  all: solve_wire_struct.
Defined.

Record ps_audio_sync_t := { as_dir : Z; as_step_index : Z; as_predictor : Z; as_frame_seq : Z; as_rsvd : Z }.
#[export] Instance wire_audio_sync : WireStruct ps_audio_sync_t.
Proof.
  refine {|
    ws_layout := [U8; U8; I16; U16; U16];
    ws_fields x := [as_dir x; as_step_index x; as_predictor x; as_frame_seq x; as_rsvd x];
    ws_make vs := {| as_dir := vs !!! 0%nat; as_step_index := vs !!! 1%nat; as_predictor := vs !!! 2%nat; as_frame_seq := vs !!! 3%nat; as_rsvd := vs !!! 4%nat |} |}.
  all: solve_wire_struct.
Defined.

Record ps_audio_ctl_t := { ac_dir : Z; ac_cmd : Z; ac_sample_rate : Z; ac_rsvd : Z }.
#[export] Instance wire_audio_ctl : WireStruct ps_audio_ctl_t.
Proof.
  refine {|
    ws_layout := [U8; U8; U16; U32];
    ws_fields x := [ac_dir x; ac_cmd x; ac_sample_rate x; ac_rsvd x];
    ws_make vs := {| ac_dir := vs !!! 0%nat; ac_cmd := vs !!! 1%nat; ac_sample_rate := vs !!! 2%nat; ac_rsvd := vs !!! 3%nat |} |}.
  all: solve_wire_struct.
Defined.

Record ps_time_sync_t := { ts_epoch_ms_lo : Z; ts_seq : Z; ts_rsvd : Z }.
#[export] Instance wire_time_sync : WireStruct ps_time_sync_t.
Proof.
  refine {|
    ws_layout := [U32; U16; U16];
    ws_fields x := [ts_epoch_ms_lo x; ts_seq x; ts_rsvd x];
    ws_make vs := {| ts_epoch_ms_lo := vs !!! 0%nat; ts_seq := vs !!! 1%nat; ts_rsvd := vs !!! 2%nat |} |}.
  all: solve_wire_struct.
Defined.

Record ps_flow_ctl_t := { fl_plane : Z; fl_level : Z; fl_rsvd : Z; fl_rsvd2 : Z }.
#[export] Instance wire_flow_ctl : WireStruct ps_flow_ctl_t.
Proof.
  refine {|
    ws_layout := [U8; U8; U16; U32];
    ws_fields x := [fl_plane x; fl_level x; fl_rsvd x; fl_rsvd2 x];
    ws_make vs := {| fl_plane := vs !!! 0%nat; fl_level := vs !!! 1%nat; fl_rsvd := vs !!! 2%nat; fl_rsvd2 := vs !!! 3%nat |} |}.
  all: solve_wire_struct.
Defined.

Record ps_version_t := { ve_major : Z; ve_minor : Z; ve_patch : Z; ve_node_state : Z; ve_git_short : Z }.
#[export] Instance wire_version : WireStruct ps_version_t.
Proof.
  refine {|
    ws_layout := [U8; U8; U8; U8; U32];
    ws_fields x := [ve_major x; ve_minor x; ve_patch x; ve_node_state x; ve_git_short x];
    ws_make vs := {| ve_major := vs !!! 0%nat; ve_minor := vs !!! 1%nat; ve_patch := vs !!! 2%nat; ve_node_state := vs !!! 3%nat; ve_git_short := vs !!! 4%nat |} |}.
  all: solve_wire_struct.
Defined.

Lemma length_wire_write {A} `{WireStruct A} (x : A) :
  wire_ok x -> length (wire_write x) = wire_size A.
Proof. intros Hx. apply length_enc. by apply all_ok_length. Qed.

Lemma wire_write_u8 {A} `{WireStruct A} (x : A) : Forall is_u8 (wire_write x).
Proof. apply enc_u8. Qed.
#[export] Hint Resolve wire_write_u8 : cint.

Lemma length_dec l bs : length (dec l bs) = length l.
Proof. revert bs. induction l; intros; cbn; auto. Qed.

Lemma wire_read_write_app {A} `{WireStruct A} (x : A) rest :
  wire_ok x -> wire_read (wire_write x ++ rest) = x.
Proof.
  intros Hx. unfold wire_read, wire_write. rewrite dec_enc by done. apply ws_make_fields.
Qed.

Lemma wire_read_ok {A} `{WireStruct A} bs :
  Forall is_u8 bs -> (wire_size A <= length bs)%nat -> wire_ok (wire_read (A := A) bs).
Proof.
  intros Hb Hl. unfold wire_ok, wire_read. rewrite ws_fields_make by apply length_dec.
  by apply dec_ok.
Qed.

(** Every wire struct survives its copy to a buffer and back: a struct whose fields
    are in range is written as exactly [sizeof] bytes, at most the eight of a CAN
    payload, and read back unchanged whatever follows it in the buffer; and any
    buffer of bytes long enough reads as an in-range struct that writes the same
    bytes again. *)
Theorem wire_roundtrip {A} `{WireStruct A} :
  (wire_size A <= 8)%nat /\
  (forall (x : A) rest, wire_ok x ->
     length (wire_write x) = wire_size A /\ wire_read (wire_write x ++ rest) = x) /\
  (forall bs, Forall is_u8 bs -> (wire_size A <= length bs)%nat ->
     wire_ok (wire_read (A := A) bs) /\
     wire_write (wire_read (A := A) bs) = take (wire_size A) bs).
Proof.
  split; [apply ws_fits|split].
  - intros x rest Hx. split; [by apply length_wire_write|by apply wire_read_write_app].
  - intros bs Hb Hl. split; [by apply wire_read_ok|].
    unfold wire_write, wire_read. rewrite ws_fields_make by apply length_dec.
    by apply enc_dec.
Qed.
