(* ===== verification/CanId.v ===== *)
(** CAN identifiers (src/common/c/include/powersuit_proto/can_id.h).

    The 29-bit extended identifier [class(3) | src(5) | dst(5) | type(8) | low(8)],
    its packing and unpacking, and the order bus arbitration gives it. *)
From S2P Require Import Prelude.

Definition PS_CLS_SAFETY : Z := 0.
Definition PS_CLS_CONTROL : Z := 1.
Definition PS_CLS_TELEM : Z := 2.
Definition PS_CLS_XRCE : Z := 3.
Definition PS_CLS_AUDIO : Z := 4.
Definition PS_CLS_MGMT : Z := 5.

Definition PS_NODE_BROADCAST : Z := 0.
Definition PS_NODE_ARM_R : Z := 1.
Definition PS_NODE_ARM_L : Z := 2.
Definition PS_NODE_LEG_R : Z := 3.
Definition PS_NODE_LEG_L : Z := 4.
Definition PS_NODE_FLIGHT : Z := 5.
Definition PS_NODE_HELMET : Z := 6.
Definition PS_NODE_HUB : Z := 7.
Definition PS_NODE_ORCH : Z := 8.

Definition PS_T_HEARTBEAT : Z := 0x01.
Definition PS_T_ESTOP : Z := 0x02.
Definition PS_T_CLEAR_ESTOP : Z := 0x03.
Definition PS_T_NODE_FAULT : Z := 0x04.
Definition PS_T_JOINT_CMD : Z := 0x10.
Definition PS_T_FLAP_CMD : Z := 0x11.
Definition PS_T_MODE_SET : Z := 0x12.
Definition PS_T_LED_PATTERN : Z := 0x13.
Definition PS_T_JOINT_STATE : Z := 0x20.
Definition PS_T_IMU_QUAT : Z := 0x21.
Definition PS_T_IMU_ACC : Z := 0x22.
Definition PS_T_IMU_GYR : Z := 0x23.
Definition PS_T_FORCE : Z := 0x24.
Definition PS_T_BMS_SUMMARY : Z := 0x25.
Definition PS_T_BMS_CELLS : Z := 0x26.
Definition PS_T_AERO_STATE : Z := 0x27.
Definition PS_T_FLAP_STATE : Z := 0x28.
Definition PS_T_ENV : Z := 0x29.
Definition PS_T_NODE_STATS : Z := 0x2A.
Definition PS_T_XRCE_STREAM : Z := 0x30.
Definition PS_T_AUDIO_DOWN : Z := 0x40.
Definition PS_T_AUDIO_UP : Z := 0x41.
Definition PS_T_AUDIO_SYNC : Z := 0x42.
Definition PS_T_AUDIO_CTL : Z := 0x43.
Definition PS_T_TIME_SYNC : Z := 0x50.
Definition PS_T_FLOW_CTL : Z := 0x51.
Definition PS_T_STATS_REQ : Z := 0x52.
Definition PS_T_LOG : Z := 0x53.
Definition PS_T_VERSION : Z := 0x54.

Record ps_can_id_t := { cls : Z; src : Z; dst : Z; type : Z; low : Z }.

Definition PS_CAN_ID_MASK : Z := 0x1FFFFFFF.

Definition ps_can_id_pack (cls src dst type low : Z) : Z :=
  ((cls .& 0x7) .<< 26) .| ((src .& 0x1F) .<< 21) .| ((dst .& 0x1F) .<< 16) .|
  (type .<< 8) .| low.

Definition ps_can_id_cls (id : Z) : Z := u8 ((id .>> 26) .& 0x7).
Definition ps_can_id_src (id : Z) : Z := u8 ((id .>> 21) .& 0x1F).
Definition ps_can_id_dst (id : Z) : Z := u8 ((id .>> 16) .& 0x1F).
Definition ps_can_id_type (id : Z) : Z := u8 ((id .>> 8) .& 0xFF).
Definition ps_can_id_low (id : Z) : Z := u8 (id .& 0xFF).

Definition ps_can_id_unpack (id : Z) : ps_can_id_t :=
  {| cls := u8 ((id .>> 26) .& 0x7);
     src := u8 ((id .>> 21) .& 0x1F);
     dst := u8 ((id .>> 16) .& 0x1F);
     type := u8 ((id .>> 8) .& 0xFF);
     low := u8 (id .& 0xFF) |}.

(** The fields an identifier can carry. *)
Definition id_ok (f : ps_can_id_t) : Prop :=
  0 <= cls f < 8 /\ 0 <= src f < 32 /\ 0 <= dst f < 32 /\ is_u8 (type f) /\ is_u8 (low f).

(** Bus arbitration: the frame whose identifier has the dominant (zero) bit at the
    first position where the two differ, most significant bit first, wins. *)
Fixpoint arbitration_wins (n : nat) (a b : Z) : bool :=
  match n with
  | O => false
  | S n => if Bool.eqb (Z.testbit a (Z.of_nat n)) (Z.testbit b (Z.of_nat n))
           then arbitration_wins n a b
           else negb (Z.testbit a (Z.of_nat n))
  end.

(** ** Packing as arithmetic *)

Lemma pack_arith c s d t l : is_u8 t -> is_u8 l ->
  ps_can_id_pack c s d t l =
  (c mod 8) * 67108864 + (s mod 32) * 2097152 + (d mod 32) * 65536 + t * 256 + l.
Proof.
  intros Ht Hl. unfold ps_can_id_pack.
  rewrite !(land_mask _ 3 0x7), !(land_mask _ 5 0x1F) by done. cint.
  rewrite <- !Z.lor_assoc.
  rewrite (lor_shiftl_add t), (lor_shiftl_add (d mod _)), (lor_shiftl_add (s mod _)),
    (lor_shiftl_add (c mod _)) by lia. lia.
Qed.

Lemma unpack_arith id : 0 <= id ->
  ps_can_id_unpack id =
  {| cls := id / 67108864 mod 8; src := id / 2097152 mod 32; dst := id / 65536 mod 32;
     type := id / 256 mod 256; low := id mod 256 |}.
Proof.
  intros Hid. unfold ps_can_id_unpack.
  rewrite !(land_mask _ 3 0x7), !(land_mask _ 5 0x1F), !(land_mask _ 8 0xFF) by done.
  rewrite !Z.shiftr_div_pow2 by lia. cint. f_equal; lia.
Qed.

Lemma unpack_pack c s d t l : 0 <= c < 8 -> 0 <= s < 32 -> 0 <= d < 32 -> is_u8 t -> is_u8 l ->
  ps_can_id_unpack (ps_can_id_pack c s d t l) =
  {| cls := c; src := s; dst := d; type := t; low := l |}.
Proof.
  intros. rewrite pack_arith by done. rewrite unpack_arith by clia. f_equal; clia.
Qed.

Lemma pack_range c s d t l : is_u8 t -> is_u8 l -> 0 <= ps_can_id_pack c s d t l < 536870912.
Proof. intros. rewrite pack_arith by done. clia. Qed.

Lemma cls_pack c s d t l : 0 <= c < 8 -> 0 <= s < 32 -> 0 <= d < 32 -> is_u8 t -> is_u8 l ->
  ps_can_id_cls (ps_can_id_pack c s d t l) = c.
Proof. intros. by pose proof (f_equal cls (unpack_pack c s d t l ltac:(done) ltac:(done) ltac:(done) ltac:(done) ltac:(done))). Qed.
Lemma type_pack c s d t l : 0 <= c < 8 -> 0 <= s < 32 -> 0 <= d < 32 -> is_u8 t -> is_u8 l ->
  ps_can_id_type (ps_can_id_pack c s d t l) = t.
Proof. intros. by pose proof (f_equal type (unpack_pack c s d t l ltac:(done) ltac:(done) ltac:(done) ltac:(done) ltac:(done))). Qed.
Lemma low_pack c s d t l : 0 <= c < 8 -> 0 <= s < 32 -> 0 <= d < 32 -> is_u8 t -> is_u8 l ->
  ps_can_id_low (ps_can_id_pack c s d t l) = l.
Proof. intros. by pose proof (f_equal low (unpack_pack c s d t l ltac:(done) ltac:(done) ltac:(done) ltac:(done) ltac:(done))). Qed.

Lemma dst_pack c s d t l : 0 <= c < 8 -> 0 <= s < 32 -> 0 <= d < 32 -> is_u8 t -> is_u8 l ->
  ps_can_id_dst (ps_can_id_pack c s d t l) = d.
Proof. intros. by pose proof (f_equal dst (unpack_pack c s d t l ltac:(done) ltac:(done) ltac:(done) ltac:(done) ltac:(done))). Qed.
Lemma src_pack c s d t l : 0 <= c < 8 -> 0 <= s < 32 -> 0 <= d < 32 -> is_u8 t -> is_u8 l ->
  ps_can_id_src (ps_can_id_pack c s d t l) = s.
Proof. intros. by pose proof (f_equal src (unpack_pack c s d t l ltac:(done) ltac:(done) ltac:(done) ltac:(done) ltac:(done))). Qed.

Lemma cls_range id : 0 <= ps_can_id_cls id < 8.
Proof. unfold ps_can_id_cls. rewrite (land_mask _ 3 0x7) by done. clia. Qed.
#[export] Hint Resolve cls_range : cint.

(** ** Arbitration *)

Lemma testbit_sub_pow2 x m n : (m < n)%nat ->
  Z.testbit (x - 2 ^ Z.of_nat n) (Z.of_nat m) = Z.testbit x (Z.of_nat m).
Proof.
  intros Hm. rewrite !Z.testbit_odd, !Z.shiftr_div_pow2 by lia.
  replace (Z.of_nat n) with (Z.of_nat m + Z.succ (Z.of_nat n - Z.of_nat m - 1)) by lia.
  rewrite Z.pow_add_r, (Z.pow_succ_r 2) by lia. set (q := 2 ^ (_ - 1)).
  replace (x - 2 ^ Z.of_nat m * (2 * q)) with (x + (2 * - q) * 2 ^ Z.of_nat m) by ring.
  rewrite Z.div_add by (apply Z.pow_nonzero; lia). apply Z.odd_add_mul_2.
Qed.

(** Arbitration only looks at the low bits. *)
Lemma arbitration_sub_pow2 m n x y : (m <= n)%nat ->
  arbitration_wins m (x - 2 ^ Z.of_nat n) (y - 2 ^ Z.of_nat n) = arbitration_wins m x y.
Proof.
  induction m as [|m IH]; intros Hm; [done|]. cbn [arbitration_wins].
  rewrite !testbit_sub_pow2 by lia. by rewrite IH by lia.
Qed.

Lemma testbit_top x n : 0 <= x < 2 * 2 ^ Z.of_nat n ->
  Z.testbit x (Z.of_nat n) = (2 ^ Z.of_nat n <=? x).
Proof.
  intros Hx. rewrite Z.testbit_eqb by lia. set (w := 2 ^ Z.of_nat n) in *.
  destruct (Z.leb_spec w x).
  - by rewrite <- (Z.div_unique x w 1 (x - w)) by lia.
  - by rewrite Z.div_small by lia.
Qed.

Lemma arbitration_lt n a b : 0 <= a < 2 ^ Z.of_nat n -> 0 <= b < 2 ^ Z.of_nat n ->
  arbitration_wins n a b = (a <? b).
Proof.
  revert a b. induction n as [|n IH]; intros a b Ha Hb; [cbn in *; lia|].
  rewrite Nat2Z.inj_succ, Z.pow_succ_r in * by lia. cbn [arbitration_wins].
  rewrite !testbit_top by done.
  destruct (Z.leb_spec (2 ^ Z.of_nat n) a), (Z.leb_spec (2 ^ Z.of_nat n) b);
    cbn [Bool.eqb negb]; try lia; try (apply IH; lia).
  rewrite <- (arbitration_sub_pow2 n n) by done. rewrite IH; lia.
Qed.

(** Packing and unpacking an identifier are inverse on fields in range, and
    unpacking agrees with the five single-field accessors; packing again what was
    unpacked from any 29-bit identifier gives the identifier back. *)
Theorem can_id_roundtrip (f : ps_can_id_t) (id : Z) (Hf : id_ok f)
  (Hid : 0 <= id <= PS_CAN_ID_MASK) :
  let packed := ps_can_id_pack (cls f) (src f) (dst f) (type f) (low f) in
  let g := ps_can_id_unpack id in
  0 <= packed <= PS_CAN_ID_MASK /\ ps_can_id_unpack packed = f /\
  id_ok g /\ ps_can_id_pack (cls g) (src g) (dst g) (type g) (low g) = id /\
  g = {| cls := ps_can_id_cls id; src := ps_can_id_src id; dst := ps_can_id_dst id;
         type := ps_can_id_type id; low := ps_can_id_low id |}.
Proof.
  destruct Hf as (Hc & Hs & Hd & Ht & Hl). unfold PS_CAN_ID_MASK in *.
  pose proof (pack_range (cls f) (src f) (dst f) (type f) (low f) Ht Hl).
  cbv zeta. split; [lia|]. split; [rewrite unpack_pack by done; by destruct f|].
  split; [|split; [|done]]; rewrite unpack_arith by lia.
  - unfold id_ok; cbn -[Z.div Z.modulo]. clia.
  - cbn -[Z.div Z.modulo ps_can_id_pack]. rewrite pack_arith by clia. lia.
Qed.

Lemma can_id_roundtrip_witness :
  let f := {| cls := 0; src := 8; dst := 0; type := 1; low := 42 |} in
  ps_can_id_unpack (ps_can_id_pack 0 8 0 1 42) = f /\ ps_can_id_pack 2 7 8 0x25 9 = 0x8E82509.
Proof.
  split; [|vm_compute; reflexivity].
  refine (proj1 (proj2 (can_id_roundtrip {| cls := 0; src := 8; dst := 0; type := 1; low := 42 |}
    0x8E82509 _ _))); [unfold id_ok; cbn; clia|unfold PS_CAN_ID_MASK; lia].
Defined.

(** A frame of a lower class value wins bus arbitration against every frame of a
    higher class value, whatever their other fields: the class field ranks first,
    SAFETY before everything; and among all frames arbitration picks the smaller
    identifier. *)
Theorem class_wins_arbitration (f g : ps_can_id_t) (Hf : id_ok f) (Hg : id_ok g)
  (Hcls : cls f < cls g) :
  arbitration_wins 29 (ps_can_id_pack (cls f) (src f) (dst f) (type f) (low f))
    (ps_can_id_pack (cls g) (src g) (dst g) (type g) (low g)) = true.
Proof.
  destruct Hf as (? & ? & ? & ? & ?), Hg as (? & ? & ? & ? & ?).
  rewrite !pack_arith by done. rewrite arbitration_lt; clia.
Qed.

Lemma class_wins_arbitration_witness :
  arbitration_wins 29 (ps_can_id_pack 0 31 31 255 255) (ps_can_id_pack 1 0 0 0 0) = true.
Proof.
  apply (class_wins_arbitration {| cls := 0; src := 31; dst := 31; type := 255; low := 255 |}
    {| cls := 1; src := 0; dst := 0; type := 0; low := 0 |}); [..|cbn; lia];
    unfold id_ok; cbn; clia.
Defined.
