(* ===== verification/Crc16.v ===== *)
(** CRC16-CCITT-FALSE (src/common/c/src/crc16.c): the bitwise shift register of the
    code, its meaning as a remainder of polynomials over GF(2), and the errors it
    is sure to detect. *)
From S2P Require Import Prelude.

(** One iteration of the inner loop of [ps_crc16_update]. *)
Definition crc_bit (crc : Z) : Z :=
  if has crc 0x8000 then u16 ((crc .<< 1) .^ 0x1021) else u16 (crc .<< 1).

(** The inner loop, [n] iterations of it. *)
Fixpoint crc_clock (n : nat) (crc : Z) : Z :=
  match n with O => crc | S n => crc_bit (crc_clock n crc) end.

(** One iteration of the outer loop: a byte joins the top of the register, which
    is then clocked eight times. *)
Definition crc_byte (crc b : Z) : Z :=
  crc_clock 8 (crc .^ u16 (u16 b .<< 8)).

Definition ps_crc16_update (crc : Z) (data : list Z) (len : nat) : Z :=
  fold_left crc_byte (take len data) crc.

Definition ps_crc16 (data : list Z) (len : nat) : Z := ps_crc16_update 0xFFFF data len.

Example crc_check_value : ps_crc16 [49;50;51;52;53;54;55;56;57] 9 = 0x29B1.
Proof. reflexivity. Qed.

(** Conversion compares calls of the register before it runs it. *)
#[global] Strategy 100 [crc_byte crc_clock crc_bit].

(** ** Reference: the remainder modulo the generator polynomial

    A polynomial over GF(2) is the integer whose bits are its coefficients;
    addition is [xor] and multiplication by a power of x is a left shift. *)
Definition CRC_POLY : Z := 0x11021.

(** The multiples of the generator: sums of shifted copies of it. *)
Definition poly_multiple (m : Z) : Prop :=
  exists ks : list nat, m = foldr (fun k acc => (CRC_POLY .<< Z.of_nat k) .^ acc) 0 ks.

(** The message as a polynomial, most significant byte first. *)
Definition be_val (data : list Z) : Z := fold_left (fun acc b => (acc .<< 8) .^ b) data 0.

Definition xor_bytes (a b : list Z) : list Z := zip_with Z.lxor a b.

(** ** Xor and shift *)

Lemma lxor_swap a b c : a .^ b .^ c = a .^ c .^ b.
Proof. rewrite !Z.lxor_assoc. f_equal. apply Z.lxor_comm. Qed.

Lemma lxor_4 a b c d : (a .^ b) .^ (c .^ d) = (a .^ c) .^ (b .^ d).
Proof. rewrite <- !Z.lxor_assoc. f_equal. apply lxor_swap. Qed.

Lemma lxor_range a b n : 0 <= n -> 0 <= a < 2 ^ n -> 0 <= b < 2 ^ n -> 0 <= a .^ b < 2 ^ n.
Proof.
  intros Hn Ha Hb.
  assert (a .^ b = (a .^ b) mod 2 ^ n) as ->; [|apply Z.mod_pos_bound; lia].
  apply Z.bits_inj'. intros i Hi. destruct (decide (i < n)).
  - by rewrite Z.mod_pow2_bits_low.
  - rewrite Z.mod_pow2_bits_high, Z.lxor_spec, !(testbit_high _ n) by lia. done.
Qed.

Lemma lxor_u16 a b : is_u16 a -> is_u16 b -> is_u16 (a .^ b).
Proof. intros. by apply (lxor_range a b 16). Qed.

Lemma shiftl8_u16 b : is_u8 b -> u16 (u16 b .<< 8) = b * 256.
Proof. intros. rewrite Z.shiftl_mul_pow2 by lia. change (2 ^ 8) with 256. clia. Qed.

Lemma mod_lxor a b n : 0 <= n -> (a .^ b) mod 2 ^ n = (a mod 2 ^ n) .^ (b mod 2 ^ n).
Proof.
  intros Hn. apply Z.bits_inj'. intros i Hi. rewrite Z.lxor_spec.
  destruct (decide (i < n)).
  - by rewrite !Z.mod_pow2_bits_low, Z.lxor_spec by lia.
  - by rewrite !Z.mod_pow2_bits_high by lia.
Qed.

(** ** One clock of the register *)

Lemma has_8000 c : is_u16 c -> has c 0x8000 = Z.testbit c 15.
Proof.
  intros Hc. unfold has.
  replace (c .& 0x8000) with (Z.b2z (Z.testbit c 15) .<< 15).
  - destruct (Z.testbit c 15); reflexivity.
  - apply Z.bits_inj'. intros i Hi. rewrite Z.land_spec. change 0x8000 with (2 ^ 15).
    rewrite Z.pow2_bits_eqb, Z.shiftl_spec by lia.
    destruct (Z.eqb_spec 15 i) as [<-|Hne]; [by destruct (Z.testbit c 15)|].
    rewrite andb_false_r. destruct (Z.testbit c 15); [|by rewrite Z.testbit_0_l].
    change (Z.b2z true) with (2 ^ 0). rewrite Z.pow2_bits_eqb by lia. lia.
Qed.

(** The register clocked: shifted, cut to 16 bits, and reduced when a bit left. *)
Lemma crc_bit_eq c : is_u16 c ->
  crc_bit c = ((c .<< 1) mod 2 ^ 16) .^ (if Z.testbit c 15 then 0x1021 else 0).
Proof.
  intros Hc. unfold crc_bit. rewrite has_8000 by done. unfold u16.
  change 65536 with (2 ^ 16). destruct (Z.testbit c 15).
  - by rewrite mod_lxor by lia.
  - by rewrite Z.lxor_0_r.
Qed.

Lemma crc_bit_range c : is_u16 (crc_bit c).
Proof. unfold crc_bit. case_match; auto with cint. Qed.
#[export] Hint Resolve crc_bit_range lxor_u16 : cint.

Lemma crc_bit_lxor a b : is_u16 a -> is_u16 b -> crc_bit (a .^ b) = crc_bit a .^ crc_bit b.
Proof.
  intros Ha Hb. rewrite !crc_bit_eq by auto with cint.
  rewrite lxor_4. f_equal.
  - by rewrite Z.shiftl_lxor, mod_lxor by lia.
  - rewrite Z.lxor_spec. by destruct (Z.testbit a 15), (Z.testbit b 15).
Qed.

Lemma crc_bit_zero c : is_u16 c -> crc_bit c = 0 -> c = 0.
Proof.
  intros Hc. rewrite crc_bit_eq by done. rewrite Z.shiftl_mul_pow2 by lia.
  destruct (Z.testbit c 15) eqn:E; intros H.
  - apply Z.lxor_eq in H. cint. change (2 ^ 1) with 2 in H. change (2 ^ 16) with 65536 in H. lia.
  - rewrite Z.lxor_0_r in H. rewrite Z.testbit_eqb in E by lia. cint.
    change (2 ^ 1) with 2 in H. change (2 ^ 16) with 65536 in H.
    change (2 ^ 15) with 32768 in E. lia.
Qed.

Lemma crc_clock_range n c : is_u16 c -> is_u16 (crc_clock n c).
Proof. destruct n; cbn; auto with cint. Qed.
#[export] Hint Resolve crc_clock_range : cint.

Lemma crc_clock_lxor n a b : is_u16 a -> is_u16 b ->
  crc_clock n (a .^ b) = crc_clock n a .^ crc_clock n b.
Proof.
  intros. induction n as [|n IH]; cbn; [done|]. by rewrite IH, crc_bit_lxor by auto with cint.
Qed.

Lemma crc_clock_zero n c : is_u16 c -> crc_clock n c = 0 -> c = 0.
Proof.
  intros Hc. induction n as [|n IH]; cbn; [done|]. intros H.
  apply IH, crc_bit_zero; auto with cint.
Qed.

(** A byte alone in the low half is only shifted: nothing leaves the register. *)
Lemma iter8_low b : is_u8 b -> crc_clock 8 b = b * 256.
Proof.
  intros Hb.
  enough (forall n, (n <= 8)%nat -> crc_clock n b = b * 2 ^ Z.of_nat n) as H
    by (by rewrite (H 8%nat)).
  induction n as [|n IH]; intros Hn; [cbn; lia|]. cbn [crc_clock].
  rewrite IH by lia. assert (2 ^ Z.of_nat n <= 128).
  { change 128 with (2 ^ 7). apply Z.pow_le_mono_r; lia. }
  assert (0 < 2 ^ Z.of_nat n) by lia.
  rewrite Nat2Z.inj_succ, Z.pow_succ_r by lia. unfold is_u8 in Hb.
  rewrite crc_bit_eq by (unfold is_u16; nia).
  rewrite Z.testbit_eqb, Z.div_small by (change (2 ^ 15) with 32768; nia || lia).
  rewrite Z.lxor_0_r, Z.shiftl_mul_pow2, Z.mod_small by (change (2^16) with 65536; nia || lia).
  lia.
Qed.

Lemma crc_byte_range c b : is_u16 c -> is_u8 b -> is_u16 (crc_byte c b).
Proof. intros. unfold crc_byte. auto with cint. Qed.
#[export] Hint Resolve crc_byte_range : cint.

Lemma fold_crc_range data c :
  is_u16 c -> Forall is_u8 data -> is_u16 (fold_left crc_byte data c).
Proof.
  intros Hc HF. revert c Hc. induction HF; intros c Hc; cbn [fold_left]; auto with cint.
Qed.
#[export] Hint Resolve fold_crc_range : cint.

(** ** Linearity and error detection *)

Lemma lxor_u8 a b : is_u8 a -> is_u8 b -> is_u8 (a .^ b).
Proof. intros. by apply (lxor_range a b 8). Qed.

Lemma crc_byte_lxor c d a b : is_u16 c -> is_u16 d -> is_u8 a -> is_u8 b ->
  crc_byte (c .^ d) (a .^ b) = crc_byte c a .^ crc_byte d b.
Proof.
  intros Hc Hd Ha Hb. unfold crc_byte. rewrite <- crc_clock_lxor by auto with cint.
  f_equal. rewrite !shiftl8_u16 by auto using lxor_u8. rewrite lxor_4. f_equal.
  change 256 with (2 ^ 8). rewrite <- !Z.shiftl_mul_pow2 by lia. by rewrite Z.shiftl_lxor.
Qed.

Lemma fold_crc_lxor m1 m2 c d : is_u16 c -> is_u16 d -> Forall is_u8 m1 -> Forall is_u8 m2 ->
  length m1 = length m2 ->
  fold_left crc_byte (xor_bytes m1 m2) (c .^ d) =
  fold_left crc_byte m1 c .^ fold_left crc_byte m2 d.
Proof.
  intros Hc Hd H1. revert m2 c d Hc Hd.
  induction H1 as [|a m1 Ha _ IH]; intros [|b m2] c d Hc Hd H2 Hl; try done.
  inversion H2; subst. unfold xor_bytes in *. cbn [zip_with fold_left].
  rewrite crc_byte_lxor by done. apply IH; auto with cint.
Qed.

Lemma fold_crc_zero data : Forall is_u8 data -> forall c, is_u16 c ->
  fold_left crc_byte data c = 0 -> Forall (eq 0) data -> c = 0.
Proof.
  induction 1 as [|b data Hb Hd IH]; intros c Hc E Hz; [done|].
  inversion Hz; subst. cbn [fold_left] in E. apply IH in E; [|auto with cint|done].
  unfold crc_byte in E. change (u16 (u16 0 .<< 8)) with 0 in E. rewrite Z.lxor_0_r in E.
  by eapply crc_clock_zero.
Qed.

Lemma fold_crc_zeros n : fold_left crc_byte (replicate n 0) 0 = 0.
Proof. induction n; [done|]. cbn [replicate fold_left]. done. Qed.

(** Two bytes into an empty register: the register ends at zero only if both are. *)
Lemma crc_two_bytes e1 e2 : is_u8 e1 -> is_u8 e2 ->
  crc_byte (crc_byte 0 e1) e2 = 0 -> e1 = 0 /\ e2 = 0.
Proof.
  intros H1 H2. unfold crc_byte. rewrite Z.lxor_0_l, !shiftl8_u16 by done.
  rewrite <- (iter8_low e2) by done.
  assert (is_u16 (e1 * 256)) by clia. assert (is_u16 e2) by clia.
  rewrite <- crc_clock_lxor by done. intros E.
  apply crc_clock_zero in E; [|auto with cint]. apply crc_clock_zero in E; [|auto with cint].
  apply Z.lxor_eq in E. clia.
Qed.

Lemma xor_bytes_same s : Forall (eq 0) (xor_bytes s s).
Proof. induction s; constructor; [by rewrite Z.lxor_nilpotent|done]. Qed.

Lemma xor_bytes_u8 a b : Forall is_u8 a -> Forall is_u8 b -> Forall is_u8 (xor_bytes a b).
Proof.
  intros Ha. revert b. induction Ha; intros [|y b] Hb; constructor;
    inversion Hb; subst; auto using lxor_u8.
Qed.

Lemma crc_one_byte e : is_u8 e -> crc_byte 0 e = 0 -> e = 0.
Proof.
  intros He. unfold crc_byte. rewrite Z.lxor_0_l, shiftl8_u16 by done.
  intros E. apply crc_clock_zero in E; clia.
Qed.

Lemma crc_window w : (length w <= 2)%nat -> Forall is_u8 w ->
  fold_left crc_byte w 0 = 0 -> Forall (eq 0) w.
Proof.
  intros Hl HF. destruct w as [|a [|b [|c w]]]; [constructor| | |cbn in Hl; lia];
    decompose_Forall_hyps; intros E.
  - apply crc_one_byte in E as ->; auto.
  - apply crc_two_bytes in E as [-> ->]; auto.
Qed.

Lemma xor_bytes_zero a b : length a = length b -> Forall (eq 0) (xor_bytes a b) -> a = b.
Proof.
  revert b. induction a as [|x a IH]; intros [|y b] Hl H; try done.
  cbn in H. inversion H as [|? ? Hx Ht]; subst. symmetry in Hx. apply Z.lxor_eq in Hx as ->.
  f_equal. apply IH; [by injection Hl|done].
Qed.

Lemma fold_crc_burst c p wa wb s : is_u16 c ->
  Forall is_u8 p -> Forall is_u8 wa -> Forall is_u8 wb -> Forall is_u8 s ->
  length wa = length wb -> (length wa <= 2)%nat -> wa <> wb ->
  fold_left crc_byte (p ++ wa ++ s) c <> fold_left crc_byte (p ++ wb ++ s) c.
Proof.
  intros Hc Hp Ha Hb Hs Hlen Hwin Hne. rewrite !(fold_left_app crc_byte p).
  set (c' := fold_left crc_byte p c). assert (is_u16 c') by (subst c'; auto with cint).
  intros Heq. apply Hne, xor_bytes_zero; [done|]. rewrite !fold_left_app in Heq.
  apply crc_window; [unfold xor_bytes; rewrite length_zip_with; lia|by apply xor_bytes_u8|].
  eapply (fold_crc_zero (xor_bytes s s)); [by apply xor_bytes_u8| | |apply xor_bytes_same].
  - apply fold_crc_range; [clia|by apply xor_bytes_u8].
  - rewrite <- (Z.lxor_nilpotent c') at 1. rewrite fold_crc_lxor by done.
    rewrite fold_crc_lxor by auto with cint. by rewrite Heq, Z.lxor_nilpotent.
Qed.

(** A single changed byte. *)
Lemma fold_crc_insert c l k b : is_u16 c -> Forall is_u8 l -> is_u8 b ->
  (k < length l)%nat -> b <> l !!! k ->
  fold_left crc_byte (<[k:=b]> l) c <> fold_left crc_byte l c.
Proof.
  intros Hc Hl Hb Hk Hne. destruct (lookup_lt_is_Some_2 l k Hk) as [x Hx].
  rewrite (list_lookup_total_correct _ _ _ Hx) in Hne.
  rewrite <- (take_drop_middle l k x Hx) at 2. rewrite insert_take_drop by done.
  pose proof (Forall_lookup_1 _ _ _ _ Hl Hx).
  apply (fold_crc_burst c (take k l) [b] [x] (drop (S k) l));
    auto using Forall_take, Forall_drop; congruence.
Qed.

(** Burst errors are detected: changing the contents of a window of at most two
    adjacent bytes anywhere in a message changes its checksum, from any starting
    register. *)
Theorem crc_detects_burst (c : Z) (p wa wb s : list Z) (Hc : is_u16 c)
  (Hp : Forall is_u8 p) (Ha : Forall is_u8 wa) (Hb : Forall is_u8 wb) (Hs : Forall is_u8 s)
  (Hlen : length wa = length wb) (Hwin : (length wa <= 2)%nat) (Hne : wa <> wb) :
  ps_crc16_update c (p ++ wa ++ s) (length (p ++ wa ++ s)) <>
  ps_crc16_update c (p ++ wb ++ s) (length (p ++ wb ++ s)).
Proof. unfold ps_crc16_update. rewrite !firstn_all. by apply fold_crc_burst. Qed.

Lemma crc_detects_burst_witness :
  ps_crc16_update 0xFFFF [49; 50; 51; 52] 4 <> ps_crc16_update 0xFFFF [49; 7; 0; 52] 4.
Proof.
  apply (crc_detects_burst 0xFFFF [49] [50; 51] [7; 0] [52]);
    try (repeat constructor; clia); done.
Defined.

(** ** The register holds the remainder *)

Lemma poly_multiple_0 : poly_multiple 0.
Proof. by exists []. Qed.

Lemma poly_multiple_lxor a b : poly_multiple a -> poly_multiple b -> poly_multiple (a .^ b).
Proof.
  intros [ka ->] [kb ->]. exists (ka ++ kb).
  induction ka as [|k ka IH]; cbn [app foldr]; [apply Z.lxor_0_l|].
  rewrite <- IH, Z.lxor_assoc. done.
Qed.

Lemma poly_multiple_shiftl a n : poly_multiple a -> poly_multiple (a .<< Z.of_nat n).
Proof.
  intros [ka ->]. exists ((fun k => (k + n)%nat) <$> ka).
  induction ka as [|k ka IH]; cbn [fmap list_fmap foldr]; [apply Z.shiftl_0_l|].
  rewrite <- IH, Z.shiftl_lxor, Z.shiftl_shiftl, Nat2Z.inj_add by lia. done.
Qed.

Lemma crc_bit_cong c : is_u16 c -> poly_multiple ((c .<< 1) .^ crc_bit c).
Proof.
  intros Hc. rewrite crc_bit_eq by done.
  assert ((c .<< 1) mod 2 ^ 16 = (c .<< 1) .^ (if Z.testbit c 15 then 0x10000 else 0)) as ->.
  - rewrite Z.testbit_eqb, Z.shiftl_mul_pow2 by lia. change (2 ^ 1) with 2.
    change (2 ^ 15) with 32768. change (2 ^ 16) with 65536.
    destruct (Z.eqb_spec (c / 32768 mod 2) 1) as [E|E]; cint; [|rewrite Z.lxor_0_r; lia].
    set (d := c * 2 - 65536). assert (0 <= d < 2 ^ 16) as Hd by (subst d; cbn; lia).
    replace (c * 2) with ((1 .<< 16) .^ d) at 2.
    + change 65536 with (1 .<< 16) at 2. rewrite lxor_swap, Z.lxor_nilpotent, Z.lxor_0_l.
      subst d. lia.
    + rewrite <- Z.add_nocarry_lxor by (apply land_shiftl_low; lia). subst d.
      change (1 .<< 16) with 65536. lia.
  - rewrite Z.lxor_assoc, <- Z.lxor_assoc, Z.lxor_nilpotent, Z.lxor_0_l.
    destruct (Z.testbit c 15); [by exists [0%nat]|apply poly_multiple_0].
Qed.

Lemma crc_clock_cong n c : is_u16 c -> poly_multiple ((c .<< Z.of_nat n) .^ crc_clock n c).
Proof.
  intros Hc. induction n as [|n IH]; cbn [crc_clock].
  { change (Z.of_nat 0) with 0. rewrite Z.shiftl_0_r, Z.lxor_nilpotent.
    apply poly_multiple_0. }
  pose proof (poly_multiple_lxor _ _ (poly_multiple_shiftl _ 1 IH)
    (crc_bit_cong (crc_clock n c) ltac:(auto with cint))) as H.
  change (Z.of_nat 1) with 1 in H.
  rewrite Z.shiftl_lxor, Z.shiftl_shiftl, Z.lxor_assoc, <- (Z.lxor_assoc (_ .<< 1)),
    Z.lxor_nilpotent, Z.lxor_0_l in H by lia.
  by replace (Z.of_nat (S n)) with (Z.of_nat n + 1) by lia.
Qed.

(** A byte into the register is multiplication by x^8 plus the byte times x^16. *)
Lemma crc_byte_cong c b : is_u16 c -> is_u8 b ->
  poly_multiple ((c .<< 8) .^ (b .<< 16) .^ crc_byte c b).
Proof.
  intros Hc Hb. unfold crc_byte. rewrite shiftl8_u16 by done.
  assert (is_u16 (b * 256)) by clia.
  pose proof (crc_clock_cong 8 (c .^ (b * 256)) ltac:(auto with cint)) as H8.
  change (Z.of_nat 8) with 8 in H8. rewrite Z.shiftl_lxor in H8.
  replace ((b * 256) .<< 8) with (b .<< 16) in H8; [done|].
  rewrite !Z.shiftl_mul_pow2 by lia. lia.
Qed.

Lemma be_val_app acc data :
  fold_left (fun acc b => (acc .<< 8) .^ b) data acc =
  (acc .<< (8 * Z.of_nat (length data))) .^ be_val data.
Proof.
  unfold be_val. revert acc. induction data as [|b data IH]; intros acc; cbn [fold_left length].
  - change (8 * Z.of_nat 0) with 0. by rewrite Z.shiftl_0_r, Z.lxor_0_r.
  - rewrite IH, (IH ((0 .<< 8) .^ b)), !Z.shiftl_lxor, !Z.shiftl_0_l, Z.lxor_0_l.
    rewrite Z.shiftl_shiftl, Z.lxor_assoc by lia. f_equal. f_equal. lia.
Qed.

(** C16: The checksum is the remainder of the message modulo the CCITT polynomial
    x^16 + x^12 + x^5 + 1: the message shifted by 16 bits, plus the starting register
    shifted past the message, differs from the checksum by a multiple of the
    generator, and the checksum fits in 16 bits. *)
Theorem crc_is_remainder (c : Z) (data : list Z) (Hc : is_u16 c) (Hd : Forall is_u8 data) :
  let r := ps_crc16_update c data (length data) in
  is_u16 r /\
  poly_multiple ((c .<< (8 * Z.of_nat (length data))) .^ (be_val data .<< 16) .^ r).
Proof.
  unfold ps_crc16_update. rewrite firstn_all. split; [auto with cint|].
  revert c Hc. induction Hd as [|b data Hb Hd IH]; intros c Hc; cbn [fold_left length].
  { change (8 * Z.of_nat 0) with 0. rewrite Z.shiftl_0_r. unfold be_val; cbn [fold_left].
    rewrite Z.shiftl_0_l, Z.lxor_0_r, Z.lxor_nilpotent. apply poly_multiple_0. }
  specialize (IH (crc_byte c b) ltac:(auto with cint)).
  pose proof (poly_multiple_lxor _ _ IH
    (poly_multiple_shiftl _ (8 * length data) (crc_byte_cong c b Hc Hb))) as H.
  rewrite Nat2Z.inj_mul in H. change (Z.of_nat 8) with 8 in H.
  unfold be_val. cbn [fold_left]. rewrite be_val_app, Z.shiftl_0_l, Z.lxor_0_l.
  set (n := 8 * Z.of_nat (length data)) in *. set (r := fold_left _ _ _) in *.
  rewrite !Z.shiftl_lxor, !Z.shiftl_shiftl in H by lia.
  rewrite !Z.shiftl_lxor, Z.shiftl_shiftl by lia.
  replace (8 * Z.of_nat (S (length data))) with (8 + n) by lia.
  rewrite (Z.add_comm n 16). set (k := crc_byte c b .<< n) in *.
  set (A := c .<< (8 + n)) in *. set (B := b .<< (16 + n)) in *.
  set (D := be_val data .<< 16) in *.
  replace (A .^ (B .^ D) .^ r) with (k .^ D .^ r .^ (A .^ B .^ k)); [done|].
  apply Z.bits_inj'. intros i _. rewrite !Z.lxor_spec. by destruct (Z.testbit k i),
    (Z.testbit D i), (Z.testbit r i), (Z.testbit A i), (Z.testbit B i).
Qed.

Lemma crc_is_remainder_witness : is_u16 (ps_crc16_update 0xFFFF [49; 50] 2).
Proof. apply (crc_is_remainder 0xFFFF [49; 50]); [clia|repeat constructor; clia]. Defined.
