(* ===== verification/SpiFrame.v ===== *)
(** SPI bridge framing (src/common/c/src/spi_frame.c and its header): 512-byte
    transactions of an 8-byte header and up to 31 16-byte CAN records, with a CRC
    over version..sequence and the records. *)
From S2P Require Import Prelude Wire Crc16.

Definition PS_SPI_MAGIC : Z := 0xA55A.
Definition PS_SPI_VER : Z := 1.
Definition PS_SPI_XFER_SIZE : nat := 512.
Definition PS_SPI_HDR_SIZE : nat := 8.
Definition PS_SPI_REC_SIZE : nat := 16.
Definition PS_SPI_MAX_RECORDS : nat := 31.

Definition PS_SPIF_ESTOP_LATCHED : Z := 1 .<< 0.
Definition PS_SPIF_OVERFLOW : Z := 1 .<< 1.
Definition PS_SPIF_MORE_PENDING : Z := 1 .<< 2.
Definition PS_SPIF_HUB_FAULT : Z := 1 .<< 3.

Definition PS_SPI_BUS_CAN1 : Z := 0.
Definition PS_SPI_BUS_CAN2 : Z := 1.
Definition PS_SPI_BUS_HUB_LOCAL : Z := 3.

Definition PS_SPI_OK : Z := 0.
Definition PS_SPI_EBADMAGIC : Z := -1.
Definition PS_SPI_EBADVER : Z := -2.
Definition PS_SPI_EBADCOUNT : Z := -3.
Definition PS_SPI_EBADCRC : Z := -4.
Definition PS_SPI_ESHORT : Z := -5.

Record ps_can_record_t := { r_id : Z; r_bus : Z; r_dlc : Z; r_ts_ms : Z; r_data : list Z }.
#[export] Instance ps_can_record_inhabited : Inhabited ps_can_record_t :=
  populate {| r_id := 0; r_bus := 0; r_dlc := 0; r_ts_ms := 0; r_data := replicate 8 0 |}.

(** A parsed view; [v_records] is the buffer from the first record on. *)
Record ps_spi_view_t := { v_flags : Z; v_count : Z; v_seq : Z; v_records : list Z }.

(** ** Little-endian accessors; a pointer [p] is the buffer from its target on *)
Definition rd_u16 (p : list Z) : Z := u16 (p !!! 0%nat .| (p !!! 1%nat .<< 8)).
Definition rd_u32 (p : list Z) : Z :=
  p !!! 0%nat .| (p !!! 1%nat .<< 8) .| (p !!! 2%nat .<< 16) .| (p !!! 3%nat .<< 24).
Definition wr_u16 (off : nat) (v : Z) (buf : list Z) : list Z :=
  bput off [u8 v; u8 (v .>> 8)] buf.
Definition wr_u32 (off : nat) (v : Z) (buf : list Z) : list Z :=
  bput off [u8 v; u8 (v .>> 8); u8 (v .>> 16); u8 (v .>> 24)] buf.

(** ** Records *)
Definition ps_spi_record_write (off : nat) (rec : ps_can_record_t) (buf : list Z) : list Z :=
  let buf := wr_u32 off (r_id rec .& 0x1FFFFFFF) buf in
  let buf := bput (off + 4) [u8 (((r_bus rec .& 0xF) .<< 4) .| (r_dlc rec .& 0xF))] buf in
  let buf := bput (off + 5) [0] buf in
  let buf := wr_u16 (off + 6) (r_ts_ms rec) buf in
  bput (off + 8) (take 8 (r_data rec)) buf.

Definition ps_spi_record_read (in_ : list Z) : Z * ps_can_record_t :=
  let rec := {| r_id := rd_u32 in_ .& 0x1FFFFFFF;
                r_bus := u8 (in_ !!! 4%nat .>> 4);
                r_dlc := u8 (in_ !!! 4%nat .& 0xF);
                r_ts_ms := rd_u16 (drop 6 in_);
                r_data := take 8 (drop 8 in_) |} in
  (if r_dlc rec <=? 8 then PS_SPI_OK else PS_SPI_EBADCOUNT, rec).

(** ** Frames *)

(** The loop that writes records [i .. n-1]. *)
Definition write_records (recs : list ps_can_record_t) (n : nat) (buf : list Z) : list Z :=
  fold_left (fun buf i =>
    ps_spi_record_write (PS_SPI_HDR_SIZE + i * PS_SPI_REC_SIZE) (recs !!! i) buf) (seq 0 n) buf.

(** The checksum [build] and [parse] compute over a buffer of [n] records. *)
Definition frame_crc (buf : list Z) (n : nat) : Z :=
  let crc := ps_crc16_update 0xFFFF (drop 2 buf) 4 in
  ps_crc16_update crc (drop PS_SPI_HDR_SIZE buf) (n * PS_SPI_REC_SIZE).

Definition ps_spi_frame_build (buf : list Z) (flags seq : Z) (recs : list ps_can_record_t)
    (n : nat) : list Z * nat :=
  if (PS_SPI_MAX_RECORDS <? n)%nat then (buf, 0%nat) else
  let buf := bput 0 (replicate PS_SPI_XFER_SIZE 0) buf in
  let buf := wr_u16 0 PS_SPI_MAGIC buf in
  let buf := bput 2 [PS_SPI_VER] buf in
  let buf := bput 3 [flags] buf in
  let buf := bput 4 [u8 (Z.of_nat n)] buf in
  let buf := bput 5 [seq] buf in
  let buf := write_records recs n buf in
  let buf := wr_u16 6 (frame_crc buf n) buf in
  (buf, (PS_SPI_HDR_SIZE + n * PS_SPI_REC_SIZE)%nat).

Definition ps_spi_frame_parse (buf : list Z) (len : nat) : Z + ps_spi_view_t :=
  if (len <? PS_SPI_HDR_SIZE)%nat then inl PS_SPI_ESHORT else
  if negb (rd_u16 buf =? PS_SPI_MAGIC) then inl PS_SPI_EBADMAGIC else
  if negb (buf !!! 2%nat =? PS_SPI_VER) then inl PS_SPI_EBADVER else
  let count := buf !!! 4%nat in
  if Z.of_nat PS_SPI_MAX_RECORDS <? count then inl PS_SPI_EBADCOUNT else
  let need := (PS_SPI_HDR_SIZE + Z.to_nat count * PS_SPI_REC_SIZE)%nat in
  if (len <? need)%nat then inl PS_SPI_ESHORT else
  if negb (frame_crc buf (Z.to_nat count) =? rd_u16 (drop 6 buf)) then inl PS_SPI_EBADCRC else
  inr {| v_flags := buf !!! 3%nat; v_count := count; v_seq := buf !!! 5%nat;
         v_records := drop PS_SPI_HDR_SIZE buf |}.

(** The returned code and, where the record was filled, the record. *)
Definition ps_spi_view_record (view : ps_spi_view_t) (i : nat) : Z * option ps_can_record_t :=
  if v_count view <=? Z.of_nat i then (PS_SPI_EBADCOUNT, None) else
  let '(rc, rec) := ps_spi_record_read (drop (i * PS_SPI_REC_SIZE) (v_records view)) in
  (rc, Some rec).

(** The search loop from offset [i] on, at most [fuel] iterations. *)
Fixpoint scan_loop (fuel : nat) (buf : list Z) (len i : nat) : Z :=
  match fuel with
  | O => -1
  | S fuel =>
    if (i + 1 <? len)%nat then
      if (buf !!! i =? u8 (PS_SPI_MAGIC .& 0xFF)) && (buf !!! (i + 1)%nat =? u8 (PS_SPI_MAGIC .>> 8))
      then Z.of_nat i
      else scan_loop fuel buf len (i + 1)
    else -1
  end.

Definition ps_spi_frame_scan (buf : list Z) (len from : nat) : Z :=
  if (len <? 2)%nat then -1 else scan_loop len buf len from.

(** The records the frame format can carry. *)
Definition record_ok (r : ps_can_record_t) : Prop :=
  0 <= r_id r <= 0x1FFFFFFF /\ 0 <= r_bus r < 16 /\ 0 <= r_dlc r <= 8 /\
  is_u16 (r_ts_ms r) /\ length (r_data r) = 8%nat /\ Forall is_u8 (r_data r).

(** The 16 bytes of a record. *)
Definition record_bytes (r : ps_can_record_t) : list Z :=
  let id := r_id r .& 0x1FFFFFFF in
  [u8 id; u8 (id .>> 8); u8 (id .>> 16); u8 (id .>> 24);
   u8 (((r_bus r .& 0xF) .<< 4) .| (r_dlc r .& 0xF)); 0;
   u8 (r_ts_ms r); u8 (r_ts_ms r .>> 8)] ++ take 8 (r_data r).

(** ** The bytes [build] produces *)

Definition body_bytes (recs : list ps_can_record_t) : list Z := flat_map record_bytes recs.

Definition hdr_bytes (flags seq : Z) (n : nat) : list Z :=
  [PS_SPI_VER; flags; u8 (Z.of_nat n); seq].

Definition frame_bytes (flags seq : Z) (recs : list ps_can_record_t) : list Z :=
  let h := hdr_bytes flags seq (length recs) in
  let crc := fold_left crc_byte (h ++ body_bytes recs) 0xFFFF in
  [0x5A; 0xA5] ++ h ++ [u8 crc; u8 (crc .>> 8)] ++ body_bytes recs ++
  replicate (PS_SPI_XFER_SIZE - PS_SPI_HDR_SIZE - length (body_bytes recs)) 0.

Lemma length_record_bytes r : length (r_data r) = 8%nat -> length (record_bytes r) = 16%nat.
Proof. intros H. cbn. rewrite length_take. lia. Qed.

Lemma record_bytes_u8 r : Forall is_u8 (r_data r) -> Forall is_u8 (record_bytes r).
Proof.
  intros H. apply Forall_app; split; [|by apply Forall_take].
  repeat apply Forall_cons; auto with cint. clia.
Qed.

Lemma record_write_at off r a m b : length a = off -> length m = 16%nat ->
  length (r_data r) = 8%nat ->
  ps_spi_record_write off r (a ++ m ++ b) = a ++ record_bytes r ++ b.
Proof.
  intros <- Hm Hd. do 16 (destruct m as [|? m]; [done|]). destruct m; [|done].
  unfold ps_spi_record_write, wr_u16, wr_u32. cbv zeta.
  rewrite bput_app_0, !bput_app_r. f_equal.
  unfold record_bytes, bput at 1. rewrite length_take, Hd. reflexivity.
Qed.

Lemma length_body recs : Forall record_ok recs ->
  length (body_bytes recs) = (16 * length recs)%nat.
Proof.
  induction 1 as [|r recs Hr _ IH]; [done|]. unfold body_bytes in *. cbn [flat_map].
  rewrite length_app, IH, length_record_bytes by apply Hr. cbn [length]. lia.
Qed.

Lemma body_u8 recs : Forall record_ok recs -> Forall is_u8 (body_bytes recs).
Proof.
  induction 1 as [|r recs Hr _ IH]; [constructor|].
  apply Forall_app; split; [apply record_bytes_u8, Hr|apply IH].
Qed.

Lemma body_app r1 r2 : body_bytes (r1 ++ r2) = body_bytes r1 ++ body_bytes r2.
Proof. unfold body_bytes. apply flat_map_app. Qed.

(** The loop invariant of the record loop. *)
Lemma write_records_eq recs h n z : Forall record_ok recs -> length h = 8%nat ->
  (n <= length recs)%nat -> (16 * n <= z)%nat ->
  write_records recs n (h ++ replicate z 0) =
  h ++ body_bytes (take n recs) ++ replicate (z - 16 * n) 0.
Proof.
  intros HF Hh. induction n as [|n IH]; intros Hn Hz.
  { cbn. by rewrite Nat.sub_0_r. }
  unfold write_records in *. rewrite seq_S, fold_left_app, IH by lia. cbn [fold_left Nat.add].
  destruct (lookup_lt_is_Some_2 recs n ltac:(lia)) as [r Hr].
  pose proof (Forall_lookup_1 _ _ _ _ HF Hr) as Hok.
  rewrite (list_lookup_total_correct _ _ _ Hr), (take_S_r _ _ _ Hr), body_app.
  rewrite (replicate_split (z - 16 * n) 16) by lia. rewrite (app_assoc h).
  rewrite record_write_at; [|rewrite length_app, length_body by (by apply Forall_take);
    rewrite Hh, length_take; unfold PS_SPI_HDR_SIZE, PS_SPI_REC_SIZE; lia|done|apply Hok].
  rewrite <- !app_assoc. do 3 f_equal.
  - unfold body_bytes. cbn [flat_map]. by rewrite app_nil_r.
  - f_equal. lia.
Qed.

Lemma frame_crc_eq (x y p q : Z) h body tl n : length h = 4%nat -> length body = (16 * n)%nat ->
  frame_crc ([x; y] ++ h ++ [p; q] ++ body ++ tl) n = fold_left crc_byte (h ++ body) 0xFFFF.
Proof.
  intros Hh Hb. unfold frame_crc, ps_crc16_update, PS_SPI_HDR_SIZE, PS_SPI_REC_SIZE.
  rewrite fold_left_app. do 4 (destruct h as [|? h]; [done|]). destruct h; [|done].
  cbn [app drop take]. f_equal. rewrite drop_0, take_app_length'; [done|lia].
Qed.

Lemma build_eq buf flags seq recs : length buf = PS_SPI_XFER_SIZE -> Forall record_ok recs ->
  (length recs <= PS_SPI_MAX_RECORDS)%nat ->
  ps_spi_frame_build buf flags seq recs (length recs) =
  (frame_bytes flags seq recs, (8 + 16 * length recs)%nat).
Proof.
  intros Hbuf HF Hn. unfold ps_spi_frame_build, PS_SPI_MAX_RECORDS in *.
  destruct (Nat.ltb_spec 31 (length recs)); [lia|].
  replace (bput 0 (replicate PS_SPI_XFER_SIZE 0) buf) with (replicate PS_SPI_XFER_SIZE 0).
  2: { unfold bput. cbn [Nat.add take]. rewrite length_replicate, <- Hbuf, drop_all.
       by rewrite app_nil_r. }
  change PS_SPI_XFER_SIZE with (8 + 504)%nat at 1. rewrite replicate_add. cbv zeta.
  change (bput 5 _ _) with ([0x5A; 0xA5; PS_SPI_VER; flags; u8 (Z.of_nat (length recs)); seq; 0; 0]
    ++ replicate 504 0).
  rewrite write_records_eq, firstn_all by (done || lia).
  set (z := replicate _ _). unfold frame_bytes. rewrite length_body by done.
  change (PS_SPI_XFER_SIZE - PS_SPI_HDR_SIZE - 16 * length recs)%nat
    with (504 - 16 * length recs)%nat. fold z.
  pose proof (frame_crc_eq 0x5A 0xA5 0 0 (hdr_bytes flags seq (length recs)) (body_bytes recs) z
    (length recs) eq_refl (length_body recs HF)) as Hcrc.
  match type of Hcrc with _ = ?c => match goal with |- context [frame_crc ?b ?k] =>
    change (frame_crc b k = c) in Hcrc end end.
  rewrite Hcrc.
  f_equal. unfold PS_SPI_REC_SIZE, PS_SPI_HDR_SIZE. lia.
Qed.

(** ** Reading back *)

Lemma length_frame_bytes flags seq recs : Forall record_ok recs ->
  (length recs <= PS_SPI_MAX_RECORDS)%nat -> length (frame_bytes flags seq recs) = PS_SPI_XFER_SIZE.
Proof.
  intros HF Hn. unfold frame_bytes, hdr_bytes, PS_SPI_MAX_RECORDS, PS_SPI_XFER_SIZE in *.
  cbn [length app]. rewrite length_app, length_replicate, length_body by done. unfold PS_SPI_HDR_SIZE. lia.
Qed.

Lemma rd_u16_bytes a b l : is_u8 a -> is_u8 b -> rd_u16 (a :: b :: l) = a + b * 256.
Proof.
  intros Ha Hb. unfold rd_u16. cbn [lookup_total list_lookup_total].
  rewrite Z.lor_comm, (lor_shiftl_add b a 8) by (cint; lia). clia.
Qed.

Lemma rd_u32_bytes a b c d l : is_u8 a -> is_u8 b -> is_u8 c -> is_u8 d ->
  rd_u32 (a :: b :: c :: d :: l) = a + b * 256 + c * 65536 + d * 16777216.
Proof.
  intros Ha Hb Hc Hd. unfold rd_u32. cbn [lookup_total list_lookup_total].
  rewrite (Z.lor_comm a), (lor_shiftl_add b a 8) by (cint; lia).
  rewrite (Z.lor_comm _ (c .<< 16)), (lor_shiftl_add c _ 16) by (cint; lia).
  rewrite (Z.lor_comm _ (d .<< 24)), (lor_shiftl_add d _ 24) by (cint; lia). lia.
Qed.

Lemma u16_bytes v l : is_u16 v -> rd_u16 (u8 v :: u8 (v .>> 8) :: l) = v.
Proof.
  intros Hv. rewrite rd_u16_bytes by auto with cint.
  rewrite Z.shiftr_div_pow2 by lia. change (2 ^ 8) with 256. clia.
Qed.

Lemma u32_bytes v l : is_u32 v ->
  rd_u32 (u8 v :: u8 (v .>> 8) :: u8 (v .>> 16) :: u8 (v .>> 24) :: l) = v.
Proof.
  intros Hv. rewrite rd_u32_bytes by auto with cint. rewrite !Z.shiftr_div_pow2 by lia.
  change (2 ^ 8) with 256. change (2 ^ 16) with 65536. change (2 ^ 24) with 16777216. clia.
Qed.

Lemma record_read_bytes r rest : record_ok r ->
  ps_spi_record_read (record_bytes r ++ rest) = (PS_SPI_OK, r).
Proof.
  intros (Hid & Hbus & Hdlc & Hts & Hlen & Hd). destruct r as [id bus dlc ts data]; cbn in *.
  unfold ps_spi_record_read, record_bytes. cbn [r_id r_bus r_dlc r_ts_ms r_data].
  rewrite !(land_mask id 29 0x1FFFFFFF), !(land_mask bus 4 0xF), !(land_mask dlc 4 0xF) by done.
  rewrite !Z.mod_small by lia. cbn [app drop].
  rewrite u32_bytes, u16_bytes by (unfold is_u32; done || lia).
  cbn [lookup_total list_lookup_total].
  rewrite (lor_shiftl_add bus dlc 4) by lia.
  rewrite !(land_mask _ 4 0xF), !(land_mask _ 29 0x1FFFFFFF), !Z.shiftr_div_pow2 by (done || lia).
  rewrite drop_0, take_app_length', firstn_all2 by (rewrite ?length_take; lia).
  assert (u8 (u8 (bus * 2 ^ 4 + dlc) mod 2 ^ 4) = dlc) as -> by (change (2 ^ 4) with 16; clia).
  assert (u8 (u8 (bus * 2 ^ 4 + dlc) / 2 ^ 4) = bus) as -> by (change (2 ^ 4) with 16; clia).
  rewrite Z.mod_small by lia. destruct (Z.leb_spec dlc 8); [done|lia].
Qed.

Lemma drop_body recs i r tl : Forall record_ok recs -> recs !! i = Some r ->
  exists tl', drop (i * 16) (body_bytes recs ++ tl) = record_bytes r ++ tl'.
Proof.
  intros HF Hr. exists (body_bytes (drop (S i) recs) ++ tl).
  rewrite <- (take_drop_middle recs i r Hr) at 1. rewrite body_app, <- app_assoc.
  rewrite drop_app_length'; [by rewrite (app_assoc (record_bytes r))|].
  rewrite length_body by (by apply Forall_take). rewrite length_take.
  apply lookup_lt_Some in Hr. lia.
Qed.

Lemma parse_frame_bytes flags seq recs len : is_u8 flags -> is_u8 seq ->
  Forall record_ok recs -> (length recs <= PS_SPI_MAX_RECORDS)%nat ->
  (8 + 16 * length recs <= len)%nat ->
  exists tl, ps_spi_frame_parse (frame_bytes flags seq recs) len =
    inr {| v_flags := flags; v_count := Z.of_nat (length recs); v_seq := seq;
           v_records := body_bytes recs ++ tl |}.
Proof.
  intros Hf Hs HF Hn Hlen. unfold PS_SPI_MAX_RECORDS in Hn.
  pose proof (length_body recs HF) as Hlb. pose proof (body_u8 recs HF) as Hbu.
  unfold frame_bytes. set (h := hdr_bytes flags seq (length recs)).
  assert (u8 (Z.of_nat (length recs)) = Z.of_nat (length recs)) as Hcnt by clia.
  set (crc := fold_left _ _ _). set (tl := replicate _ _). exists tl.
  assert (is_u16 crc) as Hcrc.
  { subst crc. apply fold_crc_range; [clia|]. apply Forall_app; split; [|done].
    subst h. unfold hdr_bytes. repeat apply Forall_cons; auto with cint; unfold PS_SPI_VER; clia. }
  unfold ps_spi_frame_parse.
  destruct (Nat.ltb_spec len PS_SPI_HDR_SIZE); [unfold PS_SPI_HDR_SIZE in *; lia|].
  change (rd_u16 _ =? PS_SPI_MAGIC) with true. cbn [negb].
  subst h. cbn [app hdr_bytes lookup_total list_lookup_total]. cbn [Z.eqb PS_SPI_VER Pos.eqb negb].
  rewrite Hcnt, Nat2Z.id.
  destruct (Z.ltb_spec (Z.of_nat PS_SPI_MAX_RECORDS) (Z.of_nat (length recs)));
    [unfold PS_SPI_MAX_RECORDS in *; lia|].
  destruct (Nat.ltb_spec len (PS_SPI_HDR_SIZE + length recs * PS_SPI_REC_SIZE));
    [unfold PS_SPI_HDR_SIZE, PS_SPI_REC_SIZE in *; lia|].
  pose proof (frame_crc_eq 0x5A 0xA5 (u8 crc) (u8 (crc .>> 8)) (hdr_bytes flags seq (length recs))
    (body_bytes recs) tl (length recs) eq_refl Hlb) as Hc.
  cbn [app hdr_bytes] in Hc. rewrite Hcnt in Hc. rewrite Hc.
  subst crc. unfold hdr_bytes in *. rewrite Hcnt in *. cbn [drop app].
  rewrite u16_bytes by done. by rewrite Z.eqb_refl.
Qed.

(** C14: What [build] frames, [parse] accepts and reads back: for up to 31 well-formed
    records the buffer built in any 512-byte buffer has length 512, is accepted at
    every length from the returned size up, the view carries the flags, the record
    count and the sequence number, and record [i] of the view is record [i] of the
    input; more records than 31 are refused with size 0 and the buffer untouched. *)
Theorem spi_build_parse (buf : list Z) (flags seq : Z) (recs : list ps_can_record_t) (len : nat)
  (Hbuf : length buf = PS_SPI_XFER_SIZE) (Hf : is_u8 flags) (Hs : is_u8 seq)
  (HF : Forall record_ok recs) :
  let '(out, used) := ps_spi_frame_build buf flags seq recs (length recs) in
  if (length recs <=? PS_SPI_MAX_RECORDS)%nat then
    used = (8 + 16 * length recs)%nat /\ length out = PS_SPI_XFER_SIZE /\
    ((used <= len)%nat -> exists view, ps_spi_frame_parse out len = inr view /\
      v_flags view = flags /\ v_count view = Z.of_nat (length recs) /\ v_seq view = seq /\
      forall i r, recs !! i = Some r -> ps_spi_view_record view i = (PS_SPI_OK, Some r))
  else out = buf /\ used = 0%nat.
Proof.
  destruct (Nat.leb_spec (length recs) PS_SPI_MAX_RECORDS) as [Hn|Hn].
  2: { unfold ps_spi_frame_build. by destruct (Nat.ltb_spec PS_SPI_MAX_RECORDS (length recs)); [|lia]. }
  rewrite build_eq by done. split; [done|]. split.
  { by apply length_frame_bytes. }
  intros Hlen. destruct (parse_frame_bytes flags seq recs len) as [tl Hp]; [done..|].
  eexists. split; [exact Hp|]. do 3 (split; [done|]). intros i r Hr.
  unfold ps_spi_view_record. cbn [v_count v_records]. pose proof (lookup_lt_Some _ _ _ Hr).
  destruct (Z.leb_spec (Z.of_nat (length recs)) (Z.of_nat i)); [lia|].
  destruct (drop_body recs i r tl HF Hr) as [tl' Htl].
  unfold PS_SPI_REC_SIZE. rewrite Htl, record_read_bytes; [done|].
  by eapply Forall_lookup_1.
Qed.

Definition demo_record : ps_can_record_t :=
  {| r_id := 0x100208; r_bus := 1; r_dlc := 8; r_ts_ms := 1234; r_data := [1;2;3;4;5;6;7;8] |}.

Lemma demo_record_ok : record_ok demo_record.
Proof. unfold record_ok, demo_record; cbn. repeat split; try clia. repeat constructor; clia. Qed.

Lemma spi_build_parse_witness :
  exists view, ps_spi_frame_parse
    (fst (ps_spi_frame_build (replicate 512 7) 4 200 [demo_record; demo_record] 2)) 40 = inr view /\
  ps_spi_view_record view 1 = (PS_SPI_OK, Some demo_record).
Proof.
  assert (is_u8 4 /\ is_u8 200) as [H4 H200] by clia.
  pose proof (spi_build_parse (replicate 512 7) 4 200 [demo_record; demo_record] 40 eq_refl
    H4 H200 (Forall_cons_2 _ _ _ demo_record_ok (Forall_cons_2 _ _ _ demo_record_ok (Forall_nil_2 _))))
    as H.
  cbn [length] in H. destruct (ps_spi_frame_build _ _ _ _ _) as [out used].
  cbn [Nat.leb PS_SPI_MAX_RECORDS fst] in *. destruct H as (Hu & _ & H).
  destruct (H ltac:(lia)) as (view & Hv & _ & _ & _ & Hr). exists view. split; [exact Hv|].
  by apply (Hr 1%nat).
Defined.

Lemma parse_inv buf len view : ps_spi_frame_parse buf len = inr view ->
  let n := Z.to_nat (v_count view) in
  rd_u16 buf = PS_SPI_MAGIC /\ buf !!! 2%nat = PS_SPI_VER /\ v_count view = buf !!! 4%nat /\
  v_count view <= 31 /\ (8 + n * 16 <= len)%nat /\ frame_crc buf n = rd_u16 (drop 6 buf).
Proof.
  unfold ps_spi_frame_parse. intros H. ifs_in H; try discriminate. injection H as <-.
  unfold PS_SPI_MAX_RECORDS, PS_SPI_HDR_SIZE, PS_SPI_REC_SIZE in *. cbn [v_count]. bools.
  repeat match goal with
  | E : (_ <? _)%nat = false |- _ => apply Nat.ltb_ge in E
  | E : (_ <? _) = false |- _ => apply Z.ltb_ge in E
  | E : (_ =? _) = true |- _ => apply Z.eqb_eq in E
  end. repeat split; (done || lia).
Qed.

(** The bytes the checksum covers, as one list. *)
Definition protected (buf : list Z) (n : nat) : list Z :=
  take 4 (drop 2 buf) ++ take (n * 16) (drop 8 buf).

Lemma frame_crc_protected buf n : frame_crc buf n = fold_left crc_byte (protected buf n) 0xFFFF.
Proof. unfold frame_crc, ps_crc16_update, protected. by rewrite fold_left_app. Qed.

Lemma protected_u8 buf n : Forall is_u8 buf -> Forall is_u8 (protected buf n).
Proof. intros. apply Forall_app; auto using Forall_take, Forall_drop. Qed.

(** A changed byte of the header or the records is a changed byte of the protected
    list; the two checksum bytes are not in it. *)
Lemma protected_insert buf n j b : (8 + n * 16 <= length buf)%nat -> (j < 8 + n * 16)%nat ->
  (2 <= j)%nat -> j <> 6%nat -> j <> 7%nat ->
  exists k, (k < length (protected buf n))%nat /\ protected buf n !!! k = buf !!! j /\
            protected (<[j:=b]> buf) n = <[k:=b]> (protected buf n).
Proof.
  intros Hl Hj H2 H6 H7. unfold protected.
  assert (length (take 4 (drop 2 buf)) = 4%nat) as L4 by (rewrite length_take, length_drop; lia).
  assert (length (take (n * 16) (drop 8 buf)) = (n * 16)%nat) as LB
    by (rewrite length_take, length_drop; lia).
  destruct (decide (j < 6)%nat).
  - exists (j - 2)%nat. rewrite length_app, L4. split; [lia|]. split.
    + rewrite lookup_total_app_l, lookup_total_take_lt, lookup_total_drop by lia. f_equal. lia.
    + rewrite drop_insert_ge, drop_insert_lt, take_insert_lt by lia. by rewrite insert_app_l by lia.
  - exists (4 + (j - 8))%nat. rewrite length_app, L4, LB. split; [lia|]. split.
    + rewrite lookup_total_app_r, L4 by lia.
      rewrite lookup_total_take_lt, lookup_total_drop by lia. f_equal. lia.
    + rewrite drop_insert_ge, take_insert_ge by lia.
      rewrite drop_insert_ge, take_insert_lt by lia. replace (4 + (j - 8))%nat with (length (take 4 (drop 2 buf)) + (j - 8))%nat by lia.
      by rewrite insert_app_r.
Qed.

Lemma protected_insert_crc buf n j b : j = 6%nat \/ j = 7%nat ->
  protected (<[j:=b]> buf) n = protected buf n.
Proof.
  intros Hj. unfold protected. rewrite drop_insert_ge, take_insert_ge, drop_insert_lt by lia. done.
Qed.

Lemma rd_u16_at buf k : Forall is_u8 buf -> (k + 1 < length buf)%nat ->
  rd_u16 (drop k buf) = buf !!! k + buf !!! (k + 1)%nat * 256.
Proof.
  intros HF Hk. pose proof (Forall_total _ buf k HF ltac:(lia)).
  pose proof (Forall_total _ buf (k + 1) HF ltac:(lia)).
  rewrite <- (rd_u16_bytes _ _ []) by done. unfold rd_u16.
  rewrite !lookup_total_drop. by rewrite Nat.add_0_r.
Qed.

Lemma parse_error_negative buf len code : ps_spi_frame_parse buf len = inl code -> code < 0.
Proof. unfold ps_spi_frame_parse. intros H. ifs_in H; try discriminate; injection H as <-; done. Qed.

(** A damaged byte other than the record count. *)
Lemma damage_refused (buf : list Z) (len j : nat) (b : Z) (view : ps_spi_view_t)
  (Hbytes : Forall is_u8 buf) (Hlen : length buf = len)
  (Hp : ps_spi_frame_parse buf len = inr view)
  (Hj : (j < 8 + 16 * Z.to_nat (v_count view))%nat) (Hcount : j <> 4%nat)
  (Hb : is_u8 b) (Hne : b <> buf !!! j) :
  exists code, ps_spi_frame_parse (<[j:=b]> buf) len = inl code /\ code < 0.
Proof.
  destruct (ps_spi_frame_parse (<[j:=b]> buf) len) as [code|view'] eqn:Hp'.
  { eauto using parse_error_negative. }
  exfalso. apply parse_inv in Hp as (Hm & Hv & Hc & Hc31 & Hl & Hcrc).
  apply parse_inv in Hp' as (Hm' & Hv' & Hc' & _ & _ & Hcrc').
  rewrite list_lookup_total_insert_ne in Hc' by lia. rewrite <- Hc in Hc'. rewrite Hc' in *.
  set (n := Z.to_nat (v_count view)) in *. rewrite !frame_crc_protected in *.
  assert (Forall is_u8 (<[j:=b]> buf)) as Hbytes' by by apply Forall_insert.
  change buf with (drop 0 buf) in Hm at 1. change (<[j:=b]> buf) with (drop 0 (<[j:=b]> buf)) in Hm'.
  rewrite !rd_u16_at in * by (rewrite ?length_insert; done || lia).
  pose proof (list_lookup_total_insert_eq buf j b ltac:(lia)) as Hat.
  assert (forall k, k <> j -> <[j:=b]> buf !!! k = buf !!! k) as Hoff
    by (intros; by apply list_lookup_total_insert_ne).
  destruct (decide (j < 2)%nat) as [H2|H2].
  { destruct (decide (j = 0)%nat) as [->|]; [|assert (j = 1)%nat as -> by lia];
      cbn [Nat.add] in *; rewrite Hat, Hoff in Hm' by lia; lia. }
  destruct (decide (j = 2)%nat) as [->|]; [congruence|].
  destruct (decide (j = 6 \/ j = 7)%nat) as [H67|H67].
  { rewrite protected_insert_crc in Hcrc' by done.
    destruct H67 as [->| ->]; cbn [Nat.add] in *; rewrite Hat, Hoff in Hcrc' by lia; lia. }
  destruct (protected_insert buf n j b) as (k & Hk & Hkj & Hpi); [lia..|].
  rewrite Hpi, !Hoff in Hcrc' by lia.
  apply (fold_crc_insert 0xFFFF (protected buf n) k b); [clia|by apply protected_u8|done..| |].
  - by rewrite Hkj.
  - congruence.
Qed.

(** C15: What a damaged byte does to an accepted frame.  Change any one byte of the header
    or of the records to any other value: if it is not the record count (byte 4), the
    result is refused with an error code.  A changed count moves the end of the bytes the
    checksum covers, so there the checksum gives no guarantee: the result is accepted
    exactly if the new count is at most 31, its records lie in the buffer, and the
    checksum over them happens to be the one stored; otherwise it is refused. *)
Theorem spi_parse_detects_damage (buf : list Z) (len j : nat) (b : Z) (view : ps_spi_view_t)
  (Hbytes : Forall is_u8 buf) (Hlen : length buf = len)
  (Hp : ps_spi_frame_parse buf len = inr view)
  (Hj : (j < 8 + 16 * Z.to_nat (v_count view))%nat) (Hb : is_u8 b) (Hne : b <> buf !!! j) :
  match ps_spi_frame_parse (<[j:=b]> buf) len with
  | inl code => code < 0
  | inr view' => j = 4%nat /\ v_count view' = b
  end /\
  (j = 4%nat ->
     (exists view', ps_spi_frame_parse (<[4%nat:=b]> buf) len = inr view') <->
     b <= 31 /\ (8 + 16 * Z.to_nat b <= len)%nat /\
     frame_crc (<[4%nat:=b]> buf) (Z.to_nat b) = frame_crc buf (Z.to_nat (v_count view))).
Proof.
  pose proof (parse_inv _ _ _ Hp) as (Hm & Hv & Hc & Hc31 & Hl & Hcrc). split.
  - destruct (ps_spi_frame_parse (<[j:=b]> buf) len) as [code|view'] eqn:E; [by eapply parse_error_negative|].
    destruct (decide (j = 4%nat)) as [->|Hj4].
    + apply parse_inv in E as (_ & _ & -> & _). split; [done|]. apply list_lookup_total_insert_eq. lia.
    + destruct (damage_refused buf len j b view) as (code & E' & _); try done. congruence.
  - intros ->. unfold ps_spi_frame_parse, PS_SPI_MAX_RECORDS, PS_SPI_HDR_SIZE, PS_SPI_REC_SIZE.
    assert (rd_u16 (<[4%nat:=b]> buf) = rd_u16 buf) as ->
      by (unfold rd_u16; by rewrite !list_lookup_total_insert_ne by lia).
    assert (rd_u16 (drop 6 (<[4%nat:=b]> buf)) = rd_u16 (drop 6 buf)) as ->
      by (by rewrite drop_insert_lt by lia).
    rewrite (list_lookup_total_insert_ne _ 4 2) by lia. rewrite list_lookup_total_insert_eq by lia.
    rewrite Hm, Hv, !Z.eqb_refl. cbn [negb].
    destruct (Nat.ltb_spec len 8); [lia|]. destruct (Z.ltb_spec (Z.of_nat 31) b).
    { split; [by intros [? ?]|lia]. }
    destruct (Nat.ltb_spec len (8 + Z.to_nat b * 16)); [split; [by intros [? ?]|lia]|].
    rewrite <- Hcrc. destruct (Z.eqb_spec (frame_crc (<[4%nat:=b]> buf) (Z.to_nat b))
      (frame_crc buf (Z.to_nat (v_count view)))) as [E|E]; cbn [negb].
    + split; [|by eexists]. intros _. split_and!; [lia|lia|done].
    + split; [by intros [? ?]|]. intros (_ & _ & ?). done.
Qed.

(** A frame of one record (identifier 0, eight bytes) whose checksum is also that of the
    frame without records. *)
Definition colliding_record : ps_can_record_t :=
  {| r_id := 0; r_bus := 0; r_dlc := 8; r_ts_ms := 0; r_data := [109; 186; 0; 0; 0; 0; 0; 0] |}.
Definition demo_frame : list Z := take 24 (fst (ps_spi_frame_build (replicate 512 0) 1 9 [demo_record] 1)).
Definition colliding_frame : list Z :=
  take 24 (fst (ps_spi_frame_build (replicate 512 0) 0 0 [colliding_record] 1)).

(** A damaged record is refused; of the colliding frame, the count byte set to 0 is
    accepted and the record is gone. *)
Lemma spi_parse_detects_damage_witness :
  match ps_spi_frame_parse (<[19%nat:=0]> demo_frame) 24 with
  | inl code => code < 0 | inr view' => 19%nat = 4%nat /\ v_count view' = 0 end /\
  exists view', ps_spi_frame_parse (<[4%nat:=0]> colliding_frame) 24 = inr view'.
Proof.
  split.
  - apply (spi_parse_detects_damage demo_frame 24 19 0
      {| v_flags := 1; v_count := 1; v_seq := 9; v_records := drop 8 demo_frame |}).
    + apply Forall_u8_check. vm_compute. reflexivity.
    + reflexivity.
    + vm_compute. reflexivity.
    + cbn [v_count]. lia.
    + clia.
    + vm_compute. discriminate.
  - apply (spi_parse_detects_damage colliding_frame 24 4 0
      {| v_flags := 0; v_count := 1; v_seq := 0; v_records := drop 8 colliding_frame |}).
    + apply Forall_u8_check. vm_compute. reflexivity.
    + reflexivity.
    + vm_compute. reflexivity.
    + cbn [v_count]. lia.
    + clia.
    + vm_compute. discriminate.
    + reflexivity.
    + split; [lia|]. split; [cbn; lia|]. vm_compute. reflexivity.
Defined.

(** ** Resynchronisation *)

Definition magic_at (buf : list Z) (i : nat) : Prop :=
  buf !!! i = 0x5A /\ buf !!! (i + 1)%nat = 0xA5.

Lemma scan_loop_spec fuel buf len i : (len <= i + fuel)%nat ->
  let r := scan_loop fuel buf len i in
  (r = -1 /\ forall k, (i <= k)%nat -> (k + 1 < len)%nat -> ~ magic_at buf k) \/
  exists k, r = Z.of_nat k /\ (i <= k)%nat /\ (k + 1 < len)%nat /\ magic_at buf k /\
    forall k', (i <= k' < k)%nat -> ~ magic_at buf k'.
Proof.
  revert i. induction fuel as [|fuel IH]; intros i Hf; cbn [scan_loop].
  { left. split; [done|]. intros. lia. }
  destruct (Nat.ltb_spec (i + 1) len); [|left; split; [done|lia]].
  change (u8 (PS_SPI_MAGIC .& 255)) with 0x5A. change (u8 (PS_SPI_MAGIC .>> 8)) with 0xA5.
  destruct ((buf !!! i =? 0x5A) && (buf !!! (i + 1)%nat =? 0xA5)) eqn:E.
  { right. exists i. unfold magic_at. repeat split; lia. }
  assert (~ magic_at buf i) by (unfold magic_at; lia).
  destruct (IH (i + 1)%nat ltac:(lia)) as [[-> Hno]|(k & -> & Hk & Hkl & Hm & Hfirst)].
  - left. split; [done|]. intros k Hk Hkl. destruct (decide (k = i)) as [->|]; [done|].
    apply Hno; lia.
  - right. exists k. repeat split; try (lia || apply Hm). intros k' Hk'.
    destruct (decide (k' = i)) as [->|]; [done|]. apply Hfirst. lia.
Qed.

(** The resynchronisation search terminates with the first offset at or after
    [from] whose two bytes, both inside the stream, are the frame magic, and with -1
    exactly when there is none. *)
Theorem spi_scan_first (buf : list Z) (len from : nat) :
  let r := ps_spi_frame_scan buf len from in
  (r = -1 <-> forall k, (from <= k)%nat -> (k + 1 < len)%nat -> ~ magic_at buf k) /\
  (r <> -1 -> exists k, r = Z.of_nat k /\ (from <= k)%nat /\ (k + 1 < len)%nat /\
     magic_at buf k /\ forall k', (from <= k' < k)%nat -> ~ magic_at buf k').
Proof.
  cbv zeta. unfold ps_spi_frame_scan. destruct (Nat.ltb_spec len 2).
  { split; [|done]. split; [lia|done]. }
  destruct (scan_loop_spec len buf len from ltac:(lia)) as [[-> Hno]|(k & -> & Hk & Hkl & Hm & Hf)].
  - split; [|done]. by split.
  - split; [|intros _; by exists k]. split; [lia|]. intros Hno. by destruct (Hno k Hk Hkl).
Qed.
