(* ===== verification/Safety.v ===== *)
(** The node safety state machine
    (src/firmware/components/ps_safety/src/ps_safety_core.c and its header).

    Every operation takes the core and the current time and returns the new core
    with the transition callbacks it makes, in order.  Times are the [uint32_t]
    milliseconds of the code, wrap-around included. *)
From S2P Require Import Prelude Wire.

(** A call of the transition callback: which function pointer, with which
    arguments. *)
Record transition := {
  tr_cb : Z; tr_old : Z; tr_new : Z; tr_cause : Z; tr_arg : Z }.

Record ps_safety_core_t := {
  state : Z;
  estop_cause : Z;
  last_hb_seq : Z;
  last_hb_ms : Z;
  hb_streak_start_ms : Z;
  last_cmd_ms : Z;
  clear_counter : Z;
  estop_since_ms : Z;
  have_hb : bool;
  want_operational : bool;
  on_transition : option Z;    (** [None] is the null pointer *)
  cb_arg : Z;
}.

Definition elapsed (now_ms then_ms : Z) : Z := i32 (u32 (now_ms - then_ms)).

Definition go (c : ps_safety_core_t) (next cause : Z) : ps_safety_core_t * list transition :=
  if state c =? next then (c, []) else
  let old := state c in
  let c := {| c with state := next |} in
  match on_transition c with
  | Some cb => (c, [{| tr_cb := cb; tr_old := old; tr_new := next; tr_cause := cause;
                       tr_arg := cb_arg c |}])
  | None => (c, [])
  end.

Definition heartbeat_ok (c : ps_safety_core_t) (now_ms : Z) : bool :=
  have_hb c && (elapsed now_ms (last_hb_ms c) <=? PS_HEARTBEAT_TIMEOUT_MS).

Definition streak_ms (c : ps_safety_core_t) (now_ms : Z) : Z :=
  if have_hb c then elapsed now_ms (hb_streak_start_ms c) else 0.

Definition ps_safety_core_init (now_ms : Z) (cb : option Z) (arg : Z) : ps_safety_core_t :=
  {| state := PS_STATE_BOOT;
     estop_cause := 0;
     last_hb_seq := 0;
     last_hb_ms := u32 (now_ms - PS_HEARTBEAT_TIMEOUT_MS - 1);
     hb_streak_start_ms := u32 (now_ms - PS_HEARTBEAT_TIMEOUT_MS - 1);
     last_cmd_ms := u32 (now_ms - PS_CMD_STALE_MS - 1);
     clear_counter := 0;
     estop_since_ms := 0;
     have_hb := false;
     want_operational := false;
     on_transition := cb;
     cb_arg := arg |}.

Definition ps_safety_core_on_estop (c : ps_safety_core_t) (now_ms cause : Z)
    : ps_safety_core_t * list transition :=
  if (state c =? PS_STATE_ESTOP) && negb (estop_cause c =? 0) then (c, []) else
  let c := {| c with estop_cause := (if cause =? 0 then PS_ESTOP_SOFTWARE else cause);
                     estop_since_ms := now_ms;
                     want_operational := false |} in
  go c PS_STATE_ESTOP (estop_cause c).

Definition ps_safety_core_on_heartbeat (c : ps_safety_core_t) (now_ms : Z) (hb : ps_heartbeat_t)
    : ps_safety_core_t * list transition :=
  if have_hb c && (hb_seq hb =? last_hb_seq c) then (c, []) else
  let c := if negb (have_hb c) || (PS_HEARTBEAT_TIMEOUT_MS <? elapsed now_ms (last_hb_ms c))
           then {| c with hb_streak_start_ms := now_ms |} else c in
  let c := {| c with have_hb := true; last_hb_ms := now_ms; last_hb_seq := hb_seq hb |} in
  if has (hb_flags hb) PS_HB_ESTOP_LATCHED
  then ps_safety_core_on_estop c now_ms PS_ESTOP_OPERATOR
  else (c, []).

Definition ps_safety_core_on_clear (c : ps_safety_core_t) (now_ms magic counter : Z)
    : ps_safety_core_t * bool :=
  if negb (magic =? PS_CLEAR_ESTOP_MAGIC) then (c, false) else
  if counter <=? clear_counter c then (c, false) else
  let c := {| c with clear_counter := counter |} in
  if state c =? PS_STATE_ESTOP
  then ({| c with estop_cause := 0; estop_since_ms := now_ms |}, true)
  else (c, true).

Definition ps_safety_core_on_cmd (c : ps_safety_core_t) (now_ms : Z) : ps_safety_core_t :=
  {| c with last_cmd_ms := now_ms |}.

Definition ps_safety_core_on_mode_set (c : ps_safety_core_t) (now_ms target_state : Z)
    : ps_safety_core_t * list transition :=
  if target_state =? PS_STATE_OPERATIONAL then ({| c with want_operational := true |}, [])
  else if target_state =? PS_STATE_STANDBY then
    let c := {| c with want_operational := false |} in
    if (state c =? PS_STATE_OPERATIONAL) || (state c =? PS_STATE_PASSIVE)
    then go c PS_STATE_STANDBY 0 else (c, [])
  else if target_state =? PS_STATE_PASSIVE then
    let c := {| c with want_operational := false |} in
    if (state c =? PS_STATE_OPERATIONAL) || (state c =? PS_STATE_STANDBY)
    then go c PS_STATE_PASSIVE 0 else (c, [])
  else if target_state =? PS_STATE_ESTOP then
    ps_safety_core_on_estop c now_ms PS_ESTOP_OPERATOR
  else (c, []).

Definition ps_safety_core_on_local_fault (c : ps_safety_core_t) (now_ms estop_cause : Z)
    : ps_safety_core_t * list transition :=
  ps_safety_core_on_estop c now_ms estop_cause.

Definition ps_safety_core_on_bus_down (c : ps_safety_core_t) (now_ms : Z)
    : ps_safety_core_t * list transition :=
  let c := {| c with have_hb := false |} in
  if state c =? PS_STATE_OPERATIONAL then go c PS_STATE_PASSIVE PS_ESTOP_COMM_LOSS
  else (c, []).

Definition ps_safety_core_cmd_fresh (c : ps_safety_core_t) (now_ms : Z) : bool :=
  elapsed now_ms (last_cmd_ms c) <? PS_CMD_STALE_MS.

(** The returned state is the [state] of the new core. *)
Definition ps_safety_core_tick (c : ps_safety_core_t) (now_ms : Z)
    : ps_safety_core_t * list transition :=
  if state c =? PS_STATE_BOOT then go c PS_STATE_STANDBY 0
  else if state c =? PS_STATE_ESTOP then
    if (estop_cause c =? 0) && heartbeat_ok c now_ms &&
       (PS_ESTOP_REARM_MS <=? streak_ms c now_ms)
    then go c PS_STATE_STANDBY 0 else (c, [])
  else if state c =? PS_STATE_OPERATIONAL then
    if negb (heartbeat_ok c now_ms) then go c PS_STATE_PASSIVE PS_ESTOP_COMM_LOSS else (c, [])
  else if state c =? PS_STATE_STANDBY then
    if want_operational c && heartbeat_ok c now_ms
    then go c PS_STATE_OPERATIONAL 0 else (c, [])
  else if state c =? PS_STATE_PASSIVE then
    if want_operational c && heartbeat_ok c now_ms &&
       (PS_REARM_WINDOW_MS <=? streak_ms c now_ms) &&
       (0 <=? elapsed (last_cmd_ms c) (hb_streak_start_ms c)) &&
       ps_safety_core_cmd_fresh c now_ms
    then go c PS_STATE_OPERATIONAL 0 else (c, [])
  else (c, []).
