(* ===== verification/SafetySpec.v ===== *)
(** What the safety state machine promises.

    [ev]/[step]/[run] drive the core of [Safety] with timed events.  The abstract
    machine [aspec] has unbounded time and remembers the history of accepted
    heartbeats instead of the core's two timestamps; [safety_refines] shows that
    the core implements it over any run shorter than 2^31 ms (about 24 days), the
    span for which the code's signed time differences are exact. *)
From S2P Require Import Prelude Wire Safety.

Inductive ev :=
  | EvHeartbeat (hb : ps_heartbeat_t)
  | EvEstop (cause : Z)
  | EvClear (magic counter : Z)
  | EvCmd
  | EvModeSet (target : Z)
  | EvLocalFault (cause : Z)
  | EvBusDown
  | EvTick.

(** The core operation an event calls, at time [now]. *)
Definition step (c : ps_safety_core_t) (now : Z) (e : ev) : ps_safety_core_t * list transition :=
  match e with
  | EvHeartbeat hb => ps_safety_core_on_heartbeat c now hb
  | EvEstop cause => ps_safety_core_on_estop c now cause
  | EvClear magic counter => (fst (ps_safety_core_on_clear c now magic counter), [])
  | EvCmd => (ps_safety_core_on_cmd c now, [])
  | EvModeSet target => ps_safety_core_on_mode_set c now target
  | EvLocalFault cause => ps_safety_core_on_local_fault c now cause
  | EvBusDown => ps_safety_core_on_bus_down c now
  | EvTick => ps_safety_core_tick c now
  end.

(** Events carry true time; the core sees it cut to 32 bits. *)
Fixpoint run (c : ps_safety_core_t) (tr : list (Z * ev)) : ps_safety_core_t :=
  match tr with [] => c | (t, e) :: tr => run (fst (step c (u32 t) e)) tr end.

(** The transition callbacks of a run, in order. *)
Fixpoint run_log (c : ps_safety_core_t) (tr : list (Z * ev)) : list transition :=
  match tr with
  | [] => []
  | (t, e) :: tr => let '(c', l) := step c (u32 t) e in l ++ run_log c' tr
  end.

(** Times never go back, start at [t0] and stay within [span] of it. *)
Fixpoint timed (t0 span now : Z) (tr : list (Z * ev)) : Prop :=
  match tr with
  | [] => True
  | (t, _) :: tr => now <= t /\ t - t0 < span /\ timed t0 span t tr
  end.

(** ** The abstract machine *)

Inductive astate := Boot | Standby | Operational | Passive | Estop.
#[export] Instance astate_eq_dec : EqDecision astate.
Proof. solve_decision. Defined.

Record aspec := {
  a_state : astate;
  a_latched : bool;                (** in [Estop]: no clear accepted since it was entered *)
  a_want : bool;                   (** operation was requested *)
  a_counter : Z;                   (** highest clear counter accepted *)
  a_beats : list (Z * Z);          (** accepted beats since the bus was last down: (time, seq), newest first *)
  a_cmd : option Z;                (** time of the last command *)
}.

Definition a_init : aspec :=
  {| a_state := Boot; a_latched := false; a_want := false; a_counter := 0; a_beats := [];
     a_cmd := None |}.

(** A beat at most 50 ms before [t]. *)
Definition alive (bs : list (Z * Z)) (t : Z) : bool :=
  match bs with [] => false | (b, _) :: _ => t - b <=? 50 end.

(** Beats without a gap of more than 50 ms all the way from [from] to [t]. *)
Fixpoint covers (bs : list (Z * Z)) (t from : Z) : bool :=
  match bs with
  | [] => false
  | (b, _) :: bs => (t - b <=? 50) && ((b <=? from) || covers bs b from)
  end.

Definition fresh (cmd : option Z) (t : Z) : bool :=
  match cmd with Some tc => t - tc <? 200 | None => false end.

Definition a_estop (a : aspec) : aspec :=
  match a_state a with
  | Estop => if a_latched a then a else {| a with a_latched := true; a_want := false |}
  | _ => {| a with a_state := Estop; a_latched := true; a_want := false |}
  end.

Definition a_duplicate (bs : list (Z * Z)) (seq : Z) : bool :=
  match bs with (_, s) :: _ => seq =? s | [] => false end.

Definition astep (a : aspec) (t : Z) (e : ev) : aspec :=
  match e with
  | EvHeartbeat hb =>
      if a_duplicate (a_beats a) (hb_seq hb) then a else
      let a := {| a with a_beats := (t, hb_seq hb) :: a_beats a |} in
      if has (hb_flags hb) PS_HB_ESTOP_LATCHED then a_estop a else a
  | EvEstop _ | EvLocalFault _ => a_estop a
  | EvClear magic counter =>
      if (magic =? PS_CLEAR_ESTOP_MAGIC) && (a_counter a <? counter)
      then {| a with a_counter := counter; a_latched := false |} else a
  | EvCmd => {| a with a_cmd := Some t |}
  | EvModeSet target =>
      if target =? PS_STATE_OPERATIONAL then {| a with a_want := true |}
      else if target =? PS_STATE_STANDBY then
        let a := {| a with a_want := false |} in
        match a_state a with Operational | Passive => {| a with a_state := Standby |} | _ => a end
      else if target =? PS_STATE_PASSIVE then
        let a := {| a with a_want := false |} in
        match a_state a with Operational | Standby => {| a with a_state := Passive |} | _ => a end
      else if target =? PS_STATE_ESTOP then a_estop a
      else a
  | EvBusDown =>
      let a := {| a with a_beats := [] |} in
      match a_state a with Operational => {| a with a_state := Passive |} | _ => a end
  | EvTick =>
      match a_state a with
      | Boot => {| a with a_state := Standby |}
      | Estop => if negb (a_latched a) && covers (a_beats a) t (t - 1000)
                 then {| a with a_state := Standby |} else a
      | Operational => if alive (a_beats a) t then a else {| a with a_state := Passive |}
      | Standby => if a_want a && alive (a_beats a) t
                   then {| a with a_state := Operational |} else a
      | Passive => if a_want a && covers (a_beats a) t (t - 250) && fresh (a_cmd a) t
                   then {| a with a_state := Operational |} else a
      end
  end.

Fixpoint arun (a : aspec) (tr : list (Z * ev)) : aspec :=
  match tr with [] => a | (t, e) :: tr => arun (astep a t e) tr end.

Definition state_code (s : astate) : Z :=
  match s with
  | Boot => PS_STATE_BOOT | Standby => PS_STATE_STANDBY | Operational => PS_STATE_OPERATIONAL
  | Passive => PS_STATE_PASSIVE | Estop => PS_STATE_ESTOP
  end.

(** ** Time differences are exact within the span *)

Lemma elapsed_exact t x : -2147483648 <= t - x < 2147483648 -> elapsed (u32 t) (u32 x) = t - x.
Proof. intros. unfold elapsed. clia. Qed.

Lemma elapsed_self_range now x : is_i32 (elapsed now x).
Proof. unfold elapsed. auto with cint. Qed.

Lemma fst_go c next cause : fst (go c next cause) = {| c with state := next |}.
Proof.
  unfold go. destruct (Z.eqb_spec (state c) next) as [<-|_]; [by destruct c|].
  cbn. by destruct (on_transition c).
Qed.

(** ** The start of the current streak *)

Fixpoint streak (bs : list (Z * Z)) : Z :=
  match bs with
  | [] => 0
  | (b, _) :: r => match r with [] => b | (b', _) :: _ => if 50 <? b - b' then b else streak r end
  end.

(** Beats are newest first, not before [t0] and not after [now]. *)
Fixpoint desc (t0 now : Z) (bs : list (Z * Z)) : Prop :=
  match bs with [] => True | (b, _) :: r => t0 <= b <= now /\ desc t0 b r end.

Lemma desc_mono t0 now now' bs : now <= now' -> desc t0 now bs -> desc t0 now' bs.
Proof. destruct bs as [|[b s] r]; cbn; [done|]. intros ? [? ?]. split; [lia|done]. Qed.

Lemma streak_range t0 now bs : bs <> [] -> desc t0 now bs -> t0 <= streak bs <= now.
Proof.
  revert now. induction bs as [|[b s] r IH]; intros now Hne Hd; [done|].
  destruct Hd as [Hb Hd]. cbn. destruct r as [|[b' s'] r]; [done|]. ifs; [done|].
  specialize (IH b ltac:(done) Hd). lia.
Qed.

Lemma covers_streak t0 t from b s r : desc t0 t ((b, s) :: r) ->
  covers ((b, s) :: r) t from = (t - b <=? 50) && (streak ((b, s) :: r) <=? from).
Proof.
  revert t b s. induction r as [|[b' s'] r IH]; intros t b s [Hb Hd].
  { cbn. by rewrite orb_false_r. }
  cbn [covers]. f_equal.
  change ((b - b' <=? 50) && ((b' <=? from) || covers r b' from))
    with (covers ((b', s') :: r) b from).
  rewrite (IH b b' s' Hd). cbn [streak].
  pose proof (streak_range t0 b ((b', s') :: r) ltac:(done) Hd) as Hr. cbn [streak] in Hr.
  destruct (50 <? b - b') eqn:E; destruct (b - b' <=? 50) eqn:E'; try lia;
    cbn [andb]; lia.
Qed.

(** ** The simulation *)

Record sim (t0 now : Z) (c : ps_safety_core_t) (a : aspec) : Prop := {
  sim_state : state c = state_code (a_state a);
  sim_latched : a_state a = Estop -> (estop_cause c =? 0) = negb (a_latched a);
  sim_want : want_operational c = a_want a;
  sim_counter : clear_counter c = a_counter a;
  sim_have : have_hb c = match a_beats a with [] => false | _ => true end;
  sim_last : forall b s r, a_beats a = (b, s) :: r -> last_hb_ms c = u32 b /\ last_hb_seq c = s /\
    hb_streak_start_ms c = u32 (streak (a_beats a));
  sim_desc : desc t0 now (a_beats a);
  sim_cmd : match a_cmd a with
            | None => last_cmd_ms c = u32 (t0 - 201)
            | Some tc => last_cmd_ms c = u32 tc /\ t0 <= tc <= now end;
}.

(** The longest run the theorems speak about, with room for the seeded timestamps. *)
Definition SPAN : Z := 2147483648 - 1000.

Lemma sim_init t0 cb arg : sim t0 t0 (ps_safety_core_init (u32 t0) cb arg) a_init.
Proof.
  constructor; cbn; try done. unfold PS_CMD_STALE_MS. clia.
Qed.

Lemma sim_later t0 now t c a : now <= t -> sim t0 now c a -> sim t0 t c a.
Proof.
  intros Ht [? ? ? ? ? ? ? Hcmd]. constructor; try done.
  - by eapply desc_mono.
  - destruct (a_cmd a); [|done]. split; [apply Hcmd|]. lia.
Qed.

Section Step.
Context (t0 t : Z) (c : ps_safety_core_t) (a : aspec).
Context (Hsim : sim t0 t c a) (Hspan : t0 <= t < t0 + SPAN).

Lemma sim_alive : heartbeat_ok c (u32 t) = alive (a_beats a) t.
Proof.
  destruct Hsim as [_ _ _ _ Hh Hl Hd _]. unfold heartbeat_ok, alive. rewrite Hh.
  destruct (a_beats a) as [|[b s] r]; [done|].
  destruct (Hl b s r eq_refl) as (-> & _ & _). destruct Hd as [Hb _]. unfold SPAN in *.
  rewrite elapsed_exact by lia. reflexivity.
Qed.

Lemma sim_covers d : 0 < d -> heartbeat_ok c (u32 t) && (d <=? streak_ms c (u32 t)) =
  covers (a_beats a) t (t - d).
Proof.
  intros Hpos. rewrite sim_alive. destruct Hsim as [_ _ _ _ Hh Hl Hd _]. unfold streak_ms.
  rewrite Hh. destruct (a_beats a) as [|[b s] r] eqn:E; [done|].
  destruct (Hl b s r eq_refl) as (_ & _ & ->).
  pose proof (streak_range t0 t ((b, s) :: r) ltac:(done) Hd) as Hr.
  rewrite (covers_streak t0) by done. cbn [alive]. f_equal. unfold SPAN in *.
  rewrite elapsed_exact by lia. lia.
Qed.

Lemma sim_fresh : ps_safety_core_cmd_fresh c (u32 t) = fresh (a_cmd a) t.
Proof.
  destruct Hsim as [_ _ _ _ _ _ _ Hc]. unfold ps_safety_core_cmd_fresh, fresh, PS_CMD_STALE_MS, SPAN in *.
  destruct (a_cmd a) as [tc|].
  - destruct Hc as [-> ?]. rewrite elapsed_exact by lia. reflexivity.
  - rewrite Hc, elapsed_exact by lia. lia.
Qed.

(** A fresh command lies inside any streak of 250 ms. *)
Lemma sim_cmd_in_streak :
  covers (a_beats a) t (t - 250) = true -> fresh (a_cmd a) t = true ->
  0 <= elapsed (last_cmd_ms c) (hb_streak_start_ms c).
Proof.
  destruct Hsim as [_ _ _ _ _ Hl Hd Hc]. intros Hcov Hf. unfold fresh in Hf.
  destruct (a_cmd a) as [tc|]; [|done]. destruct (a_beats a) as [|[b s] r] eqn:E; [done|].
  destruct (Hl b s r eq_refl) as (_ & _ & ->). destruct Hc as [-> Htc].
  pose proof (streak_range t0 t ((b, s) :: r) ltac:(done) Hd) as Hr.
  rewrite (covers_streak t0) in Hcov by done. unfold SPAN in *. rewrite elapsed_exact; lia.
Qed.
End Step.

Lemma sim_set_state t0 t c a s (Hs : s <> Estop) (H : sim t0 t c a) :
  sim t0 t {| c with state := state_code s |} {| a with a_state := s |}.
Proof. destruct H. by constructor. Qed.

Lemma sim_set_want t0 t c a w : sim t0 t c a ->
  sim t0 t {| c with want_operational := w |} {| a with a_want := w |}.
Proof. intros []. by constructor. Qed.

Lemma estop_cause_nonzero cause :
  ((if cause =? 0 then PS_ESTOP_SOFTWARE else cause) =? 0) = false.
Proof. destruct (Z.eqb_spec cause 0); [done|]. by apply Z.eqb_neq. Qed.

Lemma sim_estop t0 t c a now cause : sim t0 t c a ->
  sim t0 t (fst (ps_safety_core_on_estop c now cause)) (a_estop a).
Proof.
  intros H. pose proof H as [Hs Hlat Hw Hc Hh Hl Hd Hcmd].
  unfold ps_safety_core_on_estop, a_estop. rewrite Hs.
  destruct (a_state a) eqn:E; cbn -[go]; rewrite ?fst_go.
  5: rewrite Hlat, negb_involutive by done; destruct (a_latched a) eqn:E2; [done|]; cbn -[go];
     rewrite fst_go.
  all: constructor; cbn; rewrite ?estop_cause_nonzero; done.
Qed.

Lemma sim_heartbeat t0 t c a hb : sim t0 t c a -> t0 <= t < t0 + SPAN ->
  sim t0 t (fst (ps_safety_core_on_heartbeat c (u32 t) hb)) (astep a t (EvHeartbeat hb)).
Proof.
  intros H Ht. pose proof H as [Hs Hlat Hw Hc Hh Hl Hd Hcmd].
  unfold ps_safety_core_on_heartbeat. cbn [astep].
  assert (have_hb c && (hb_seq hb =? last_hb_seq c) = a_duplicate (a_beats a) (hb_seq hb)) as ->.
  { rewrite Hh. destruct (a_beats a) as [|[b s] r]; [done|].
    by destruct (Hl b s r eq_refl) as (_ & -> & _). }
  destruct (a_duplicate _ _) eqn:Edup; [done|]. cbv zeta.
  set (c1 := if _ : bool then _ else c).
  assert (sim t0 t {| c1 with have_hb := true; last_hb_ms := u32 t; last_hb_seq := hb_seq hb |}
    {| a with a_beats := (t, hb_seq hb) :: a_beats a |}) as H1.
  { assert (hb_streak_start_ms c1 = u32 (streak ((t, hb_seq hb) :: a_beats a))) as Hstreak.
    { subst c1. rewrite Hh. cbn [streak]. destruct (a_beats a) as [|[b s] r]; [done|].
      destruct (Hl b s r eq_refl) as (-> & _ & Hst). destruct Hd as [Hb Hd]. unfold SPAN in *.
      rewrite elapsed_exact by lia. cbn [negb orb]. unfold PS_HEARTBEAT_TIMEOUT_MS.
      by destruct (50 <? t - b). }
    constructor; cbn [state estop_cause want_operational clear_counter have_hb last_hb_ms
      last_hb_seq hb_streak_start_ms last_cmd_ms a_state a_latched a_want a_counter a_beats a_cmd];
      try (subst c1; case_match; done).
    - intros b s r [= <- <- <-]. done.
    - split; [lia|done]. }
  destruct (has _ _); [by apply sim_estop|done].
Qed.

Lemma sim_mode_set t0 t c a now target : sim t0 t c a ->
  sim t0 t (fst (ps_safety_core_on_mode_set c now target)) (astep a t (EvModeSet target)).
Proof.
  intros H. pose proof (sim_state _ _ _ _ H) as Hs. unfold ps_safety_core_on_mode_set.
  cbn [astep]. pose proof (sim_set_want _ _ _ _ false H) as Hw.
  destruct a as [sa la wa ca ba cm], c; cbn -[go] in *; subst.
  destruct (target =? PS_STATE_OPERATIONAL); [exact (sim_set_want _ _ _ _ true H)|].
  destruct (target =? PS_STATE_STANDBY).
  { destruct sa; cbn -[go]; try done;
      rewrite fst_go; by apply (sim_set_state _ _ _ _ Standby ltac:(done) Hw). }
  destruct (target =? PS_STATE_PASSIVE).
  { destruct sa; cbn -[go]; try done;
      rewrite fst_go; by apply (sim_set_state _ _ _ _ Passive ltac:(done) Hw). }
  destruct (target =? PS_STATE_ESTOP); [by apply sim_estop|done].
Qed.

Lemma sim_tick t0 t c a : sim t0 t c a -> t0 <= t < t0 + SPAN ->
  sim t0 t (fst (ps_safety_core_tick c (u32 t))) (astep a t EvTick).
Proof.
  intros H Ht. pose proof (sim_state _ _ _ _ H) as Hs.
  pose proof (sim_alive t0 t c a H Ht) as Hal.
  pose proof (sim_covers t0 t c a H Ht) as Hcov.
  pose proof (sim_fresh t0 t c a H Ht) as Hfr.
  pose proof (sim_cmd_in_streak t0 t c a H Ht) as Hin.
  unfold ps_safety_core_tick. cbn [astep]. rewrite Hs.
  destruct (a_state a) eqn:E; cbn [state_code]; cbn -[go heartbeat_ok streak_ms covers alive fresh].
  - rewrite fst_go. by apply (sim_set_state _ _ _ _ Standby ltac:(done) H).
  - rewrite (sim_want _ _ _ _ H), Hal. case_match; [|done]. rewrite fst_go.
    by apply (sim_set_state _ _ _ _ Operational ltac:(done) H).
  - rewrite Hal. destruct (alive _ _); [done|]. cbn [negb]. rewrite fst_go.
    by apply (sim_set_state _ _ _ _ Passive ltac:(done) H).
  - rewrite (sim_want _ _ _ _ H), Hfr. unfold PS_REARM_WINDOW_MS.
    rewrite <- (andb_assoc (a_want a)), Hcov by lia.
    assert (forall b, b && (0 <=? elapsed (last_cmd_ms c) (hb_streak_start_ms c)) &&
      fresh (a_cmd a) t = b && fresh (a_cmd a) t \/ covers (a_beats a) t (t - 250) = false) as Hb.
    { intros b. destruct (covers _ _ _); [|by right]. left. destruct (fresh _ _);
        [|by rewrite !andb_false_r]. rewrite (proj2 (Z.leb_le _ _) (Hin eq_refl eq_refl)).
      by rewrite andb_true_r. }
    destruct (Hb (a_want a && covers (a_beats a) t (t - 250))) as [-> | ->];
      [|by rewrite andb_false_r]. case_match; [|done].
    rewrite fst_go. by apply (sim_set_state _ _ _ _ Operational ltac:(done) H).
  - rewrite (sim_latched _ _ _ _ H E). unfold PS_ESTOP_REARM_MS.
    rewrite <- (andb_assoc (negb _)), Hcov by lia. case_match; [|done]. rewrite fst_go.
    by apply (sim_set_state _ _ _ _ Standby ltac:(done) H).
Qed.

Lemma sim_step t0 t c a e : sim t0 t c a -> t0 <= t < t0 + SPAN ->
  sim t0 t (fst (step c (u32 t) e)) (astep a t e).
Proof.
  intros H Ht. destruct e; cbn [step fst].
  - by apply sim_heartbeat.
  - by apply sim_estop.
  - pose proof H as [Hs Hlat Hw Hc Hh Hl Hd Hcmd]. unfold ps_safety_core_on_clear. cbn [astep].
    rewrite <- Hc, Z.leb_antisym. destruct (magic =? _); [|done]. cbn [negb andb].
    destruct (clear_counter c <? counter); [|done]. cbn [negb state]. rewrite Hs.
    destruct a as [sa la wa ca ba cm], c; cbn in *; subst. destruct sa; constructor; done.
  - destruct H. constructor; cbn; try done. split; [done|lia].
  - by apply sim_mode_set.
  - by apply sim_estop.
  - pose proof H as [Hs Hlat Hw Hc Hh Hl Hd Hcmd]. unfold ps_safety_core_on_bus_down. cbn [astep].
    assert (sim t0 t {| c with have_hb := false |} {| a with a_beats := [] |}) as H1
      by (constructor; cbn; done).
    destruct a as [sa la wa ca ba cm], c; cbn -[go] in *; subst.
    destruct sa; cbn -[go]; try done.
    rewrite fst_go. by apply (sim_set_state _ _ _ _ Passive ltac:(done) H1).
  - by apply sim_tick.
Qed.

Lemma sim_run t0 now c a tr : sim t0 now c a -> t0 <= now -> timed t0 SPAN now tr ->
  exists now', sim t0 now' (run c tr) (arun a tr).
Proof.
  revert now c a. induction tr as [|[t e] tr IH]; intros now c a H Hn Ht; [by exists now|].
  destruct Ht as (H1 & H2 & H3). cbn [run arun]. apply (IH t); [|lia|done].
  apply sim_step; [by eapply sim_later|lia].
Qed.

Lemma sim_run_init t0 cb arg tr : timed t0 SPAN t0 tr ->
  exists now, sim t0 now (run (ps_safety_core_init (u32 t0) cb arg) tr) (arun a_init tr).
Proof. intros H. eapply sim_run; [apply sim_init|lia|done]. Qed.

Lemma run_app c tr1 tr2 : run c (tr1 ++ tr2) = run (run c tr1) tr2.
Proof. revert c. induction tr1 as [|[t e] tr1 IH]; intros c; cbn; auto. Qed.
Lemma arun_app a tr1 tr2 : arun a (tr1 ++ tr2) = arun (arun a tr1) tr2.
Proof. revert a. induction tr1 as [|[t e] tr1 IH]; intros a; cbn; auto. Qed.
Lemma timed_app t0 span now tr1 tr2 : timed t0 span now (tr1 ++ tr2) -> timed t0 span now tr1.
Proof. revert now. induction tr1 as [|[t e] tr1 IH]; intros now; cbn; [done|].
  intros (? & ? & ?). auto. Qed.

Lemma sim_run_snoc t0 now c a tr t e : sim t0 now c a -> t0 <= now ->
  timed t0 SPAN now (tr ++ [(t, e)]) -> sim t0 t (run c tr) (arun a tr) /\ t0 <= t < t0 + SPAN.
Proof.
  revert now c a. induction tr as [|[t1 e1] tr IH]; intros now c a H Hn Ht.
  - destruct Ht as (H1 & H2 & _). split; [by eapply sim_later|lia].
  - destruct Ht as (H1 & H2 & H3). cbn [run arun]. apply (IH t1); [|lia|done].
    apply sim_step; [by eapply sim_later|lia].
Qed.

(** C1: The state machine of the code refines the abstract one: over any run of events
    from initialisation, with times that never go back and span less than 2^31 ms
    (wrap-around of the 32-bit clock included), the code's state, its operation
    request, its clear counter and its latch are those of the machine that remembers
    every accepted heartbeat and decides on the history. *)
Theorem safety_refines (t0 : Z) (cb : option Z) (arg : Z) (tr : list (Z * ev))
  (Ht : timed t0 SPAN t0 tr) :
  let c := run (ps_safety_core_init (u32 t0) cb arg) tr in
  let a := arun a_init tr in
  state c = state_code (a_state a) /\ want_operational c = a_want a /\
  clear_counter c = a_counter a /\
  (a_state a = Estop -> (estop_cause c =? 0) = negb (a_latched a)) /\
  (have_hb c = true <-> a_beats a <> []).
Proof.
  destruct (sim_run_init t0 cb arg tr Ht) as [now [Hs Hlat Hw Hc Hh _ _ _]]. cbv zeta.
  rewrite Hs, Hw, Hc, Hh. do 4 (split; [done|]). by destruct (a_beats _).
Qed.

(** ** The dead-man switch *)

(** The time of the last tick of a run. *)
Definition last_tick (tr : list (Z * ev)) : option Z :=
  foldl (fun acc '(t, e) => match e with EvTick => Some t | _ => acc end) None tr.

(** Some heartbeat frame arrived at [b], and the bus was not down after it. *)
Definition beat_since (tr : list (Z * ev)) (b : Z) : Prop :=
  exists tr1 hb tr2, tr = tr1 ++ (b, EvHeartbeat hb) :: tr2 /\
    Forall (fun x => x.2 <> EvBusDown) tr2.

Lemma beat_since_snoc tr b t e : beat_since tr b -> e <> EvBusDown -> beat_since (tr ++ [(t, e)]) b.
Proof.
  intros (tr1 & hb & tr2 & -> & HF) He. exists tr1, hb, (tr2 ++ [(t, e)]).
  split; [by rewrite <- app_assoc|]. apply Forall_app; split; [done|]. by constructor.
Qed.

Lemma a_estop_beats a : a_beats (a_estop a) = a_beats a.
Proof. unfold a_estop. by repeat case_match. Qed.

Lemma a_estop_state a : a_state (a_estop a) = Estop.
Proof. unfold a_estop. destruct (a_state a) eqn:E; try done. by destruct (a_latched a). Qed.

Lemma astep_beats a t e : a_beats (astep a t e) =
  match e with
  | EvHeartbeat hb => if a_duplicate (a_beats a) (hb_seq hb) then a_beats a
                      else (t, hb_seq hb) :: a_beats a
  | EvBusDown => []
  | _ => a_beats a
  end.
Proof.
  destruct e; cbn [astep]; repeat case_match; cbn; rewrite ?a_estop_beats; try done.
Qed.

Lemma beats_in_trace tr b s r : a_beats (arun a_init tr) = (b, s) :: r -> beat_since tr b.
Proof.
  revert b s r. induction tr as [|[t e] tr IH] using rev_ind; intros b s r; [done|].
  rewrite arun_app. cbn [arun]. rewrite astep_beats. intros H.
  destruct e; try discriminate; try (eapply beat_since_snoc; [by eapply IH|done]).
  destruct (a_duplicate _ _); [eapply beat_since_snoc; [by eapply IH|done]|].
  injection H as <- _ _. exists tr, hb, []. split; [done|constructor].
Qed.

(** Only a tick enters OPERATIONAL, and only with a live link. *)
Lemma astep_operational a t e : a_state (astep a t e) = Operational ->
  match e with
  | EvTick => alive (a_beats a) t = true
  | EvBusDown => False
  | _ => a_state a = Operational
  end.
Proof.
  destruct e; cbn [astep]; intros H; repeat case_match; simplify_eq; cbn in *;
    rewrite ?a_estop_state in *; simplify_eq; bools; try congruence.
  destruct (a_beats a) as [|[b s] r]; cbn in *; lia.
Qed.

Lemma last_tick_snoc tr t e :
  last_tick (tr ++ [(t, e)]) = match e with EvTick => Some t | _ => last_tick tr end.
Proof. unfold last_tick. by rewrite foldl_app. Qed.

Lemma timed_snoc_le t0 span now tr t e : timed t0 span now (tr ++ [(t, e)]) ->
  now <= t /\ forall tk, last_tick tr = Some tk -> tk <= t.
Proof.
  intros H. assert (now <= t /\ Forall (fun x => x.1 <= t) tr) as [Hn HF].
  { revert now H. induction tr as [|[t1 e1] tr IH]; intros now; cbn.
    - intros (? & _). split; [done|constructor].
    - intros (? & _ & H). destruct (IH _ H). split; [lia|by constructor]. }
  split; [done|]. clear H Hn. induction tr as [|[t1 e1] tr IH] using rev_ind; [done|].
  apply Forall_app in HF as [HF H1]. inversion H1; subst. intros tk. rewrite last_tick_snoc.
  destruct e1; try (by apply IH). by intros [= <-].
Qed.

Lemma operational_beat t0 span tr : timed t0 span t0 tr -> a_state (arun a_init tr) = Operational ->
  exists tk b s r, last_tick tr = Some tk /\ a_beats (arun a_init tr) = (b, s) :: r /\ tk - b <= 50.
Proof.
  induction tr as [|[t e] tr IH] using rev_ind; [done|]. rewrite arun_app. cbn [arun].
  intros Ht H. pose proof (astep_operational _ _ _ H) as He. rewrite astep_beats, last_tick_snoc.
  destruct (timed_snoc_le _ _ _ _ _ _ Ht) as [_ Hle]. apply timed_app in Ht.
  destruct e; try done; try (by apply IH).
  - destruct (IH Ht He) as (tk & b & s & r & Htk & Hb & ?). specialize (Hle tk Htk).
    exists tk. destruct (a_duplicate _ _); [by exists b, s, r|].
    exists t, (hb_seq hb), (a_beats (arun a_init tr)). repeat split; [done|lia].
  - unfold alive in He. destruct (a_beats _) as [|[b s] r]; [done|].
    exists t, b, s, r. repeat split; lia.
Qed.

Lemma deadman (t0 p now : Z) (cb : option Z) (arg : Z) (tr : list (Z * ev)) :
  timed t0 SPAN t0 tr ->
  state (run (ps_safety_core_init (u32 t0) cb arg) tr) = PS_STATE_OPERATIONAL ->
  (forall tk, last_tick tr = Some tk -> now - tk <= p) ->
  exists b, beat_since tr b /\ now - b <= 50 + p.
Proof.
  intros Ht Hop Hp.
  destruct (sim_run_init t0 cb arg tr Ht) as [now' Hsim].
  rewrite (sim_state _ _ _ _ Hsim) in Hop.
  assert (a_state (arun a_init tr) = Operational) as Ha by by destruct (a_state _).
  destruct (operational_beat _ _ _ Ht Ha) as (tk & b & s & r & Htk & Hb & Hle).
  exists b. split; [by eapply beats_in_trace|]. specialize (Hp tk Htk). lia.
Qed.

(** C2: The heartbeat is a dead-man switch: whenever a node is OPERATIONAL, the only
    state in which it may actuate, some heartbeat frame arrived no more than 50 ms
    before the last tick, and the bus has not gone down since; so with ticks every
    [p] ms (5 ms in the glue) the node has left OPERATIONAL [50 + p] ms after the
    last heartbeat at the latest. *)
Theorem operational_needs_heartbeat (t0 p now : Z) (cb : option Z) (arg : Z) (tr : list (Z * ev))
  (Ht : timed t0 SPAN t0 tr)
  (Hop : state (run (ps_safety_core_init (u32 t0) cb arg) tr) = PS_STATE_OPERATIONAL)
  (Hp : forall tk, last_tick tr = Some tk -> now - tk <= p) :
  exists b, beat_since tr b /\ now - b <= 50 + p.
Proof. by eapply deadman. Qed.

(** A run across the wrap of the 32-bit millisecond clock. *)
Definition hb (n : Z) : ps_heartbeat_t :=
  {| hb_seq := n; hb_flags := 0; hb_src_state := 2; hb_uptime_ms := 0 |}.
Definition wrap_t0 : Z := 4294967290.
Definition demo_run : list (Z * ev) :=
  [(wrap_t0, EvTick); (wrap_t0 + 1, EvModeSet 2); (wrap_t0 + 5, EvHeartbeat (hb 1));
   (wrap_t0 + 10, EvTick)].

Ltac solve_timed := cbn [timed demo_run app]; unfold SPAN, wrap_t0; repeat split; lia.

Lemma safety_refines_witness :
  state (run (ps_safety_core_init (u32 wrap_t0) None 0) demo_run) = PS_STATE_OPERATIONAL.
Proof. apply (safety_refines wrap_t0 None 0 demo_run). solve_timed. Defined.

Lemma operational_needs_heartbeat_witness :
  exists b, beat_since demo_run b /\ wrap_t0 + 15 - b <= 55.
Proof.
  apply (operational_needs_heartbeat wrap_t0 5 (wrap_t0 + 15) None 0 demo_run).
  - solve_timed.
  - vm_compute. reflexivity.
  - intros tk [= <-]. lia.
Defined.

(** ** The e-stop latch *)

Definition no_valid_clear (c : ps_safety_core_t) (x : Z * ev) : Prop :=
  match x.2 with
  | EvClear magic counter => magic <> PS_CLEAR_ESTOP_MAGIC \/ counter <= clear_counter c
  | _ => True
  end.

Definition latched (c : ps_safety_core_t) : Prop :=
  state c = PS_STATE_ESTOP /\ estop_cause c <> 0.

Lemma on_estop_latched c now cause : latched c -> ps_safety_core_on_estop c now cause = (c, []).
Proof.
  intros [Hs Hc]. unfold ps_safety_core_on_estop. rewrite Hs. cbn.
  by rewrite (proj2 (Z.eqb_neq _ _) Hc).
Qed.

Lemma latched_step c now e : latched c -> no_valid_clear c (now, e) ->
  let '(c', l) := step c now e in
  latched c' /\ estop_cause c' = estop_cause c /\ clear_counter c' = clear_counter c /\ l = [].
Proof.
  intros H Hn. pose proof H as [Hs Hc]. destruct e; cbn [step].
  - unfold ps_safety_core_on_heartbeat. ifs; try done;
      rewrite on_estop_latched by (by split); done.
  - by rewrite on_estop_latched.
  - unfold ps_safety_core_on_clear. cbn in Hn.
    destruct (Z.eqb_spec magic PS_CLEAR_ESTOP_MAGIC); [|done]. cbn [negb].
    destruct (Z.leb_spec counter (clear_counter c)); [done|]. lia.
  - done.
  - unfold ps_safety_core_on_mode_set. cbn [state]. rewrite Hs. cbn.
    ifs; try done; rewrite ?on_estop_latched by done; done.
  - unfold ps_safety_core_on_local_fault. by rewrite on_estop_latched.
  - unfold ps_safety_core_on_bus_down. cbn [state]. rewrite Hs. done.
  - unfold ps_safety_core_tick. rewrite Hs. cbn. by rewrite (proj2 (Z.eqb_neq _ _) Hc).
Qed.

(** C3: The e-stop latches: from a latched e-stop no sequence of events, whatever their
    timing, that contains no CLEAR_ESTOP with the right magic and a counter above the
    last accepted one, leaves ESTOP, changes the recorded cause or makes a
    transition. *)
Theorem estop_latches (c : ps_safety_core_t) (tr : list (Z * ev)) (Hl : latched c)
  (Hn : Forall (no_valid_clear c) tr) :
  state (run c tr) = PS_STATE_ESTOP /\ estop_cause (run c tr) = estop_cause c /\ run_log c tr = [].
Proof.
  remember (clear_counter c) as k eqn:Hk.
  assert (forall c', clear_counter c' = k -> forall x, no_valid_clear c x -> no_valid_clear c' x) as Hkeep.
  { intros c' Hc' [t []]; cbn; try done. by rewrite Hc', Hk. }
  assert (forall c', latched c' -> clear_counter c' = k -> state (run c' tr) = PS_STATE_ESTOP /\
    estop_cause (run c' tr) = estop_cause c' /\ run_log c' tr = []) as H; [|by apply H].
  clear Hl. induction Hn as [|[t e] tr He _ IH]; intros c' Hl Hc'; [by destruct Hl|].
  cbn [run run_log]. pose proof (latched_step c' (u32 t) e Hl) as Hst.
  destruct (step c' (u32 t) e) as [c'' l]. destruct Hst as (Hl' & Hcause & Hcc & ->);
    [by apply (Hkeep c' Hc' (t, e))|].
  destruct (IH c'' Hl' ltac:(congruence)) as (? & ? & ->). cbn [fst]. by rewrite <- Hcause.
Qed.

Definition latched_core : ps_safety_core_t :=
  run (ps_safety_core_init 0 None 0) [(0, EvTick); (7, EvEstop 5)].

Lemma estop_latches_witness :
  state (run latched_core (demo_run ++ [(wrap_t0 + 20, EvClear PS_CLEAR_ESTOP_MAGIC 0)])) = PS_STATE_ESTOP.
Proof.
  apply (estop_latches latched_core).
  - split; vm_compute; [reflexivity|discriminate].
  - cbn [demo_run app]. repeat apply Forall_cons_2; try exact I; try apply Forall_nil_2.
    right. vm_compute. discriminate.
Defined.

(** C4: Leaving ESTOP takes an accepted clear and a second of life: if a run is in ESTOP
    and its next event takes it out, the event is a tick, the state entered is
    STANDBY, a clear has been accepted since the e-stop was latched, and accepted
    heartbeats cover the last 1000 ms up to the tick without a gap over 50 ms. *)
Theorem estop_exit (t0 t : Z) (e : ev) (cb : option Z) (arg : Z) (tr : list (Z * ev))
  (Ht : timed t0 SPAN t0 (tr ++ [(t, e)])) :
  let c := run (ps_safety_core_init (u32 t0) cb arg) tr in
  let c' := fst (step c (u32 t) e) in
  let a := arun a_init tr in
  state c = PS_STATE_ESTOP -> state c' <> PS_STATE_ESTOP ->
  e = EvTick /\ state c' = PS_STATE_STANDBY /\ estop_cause c = 0 /\ a_latched a = false /\
  covers (a_beats a) t (t - 1000) = true.
Proof.
  destruct (sim_run_snoc _ _ _ _ _ _ _ (sim_init t0 cb arg) ltac:(lia) Ht) as [Hsim Hr].
  intros c c' a. fold c a in Hsim.
  pose proof (sim_step _ _ _ _ e Hsim Hr) as Hsim'. fold c' in Hsim'.
  rewrite (sim_state _ _ _ _ Hsim), (sim_state _ _ _ _ Hsim'). intros Hc Hne.
  assert (a_state a = Estop) as Ha by by destruct (a_state a).
  pose proof (sim_latched _ _ _ _ Hsim Ha) as Hlat.
  destruct e; cbn [astep] in *; repeat case_match; cbn in *; rewrite ?a_estop_state in *;
    try congruence; try done;
    try match goal with E : a_state a = Estop |- _ => exfalso; apply Hne; by rewrite E end.
  bools. repeat split; try done. apply Z.eqb_eq. rewrite Hlat. by apply negb_true_iff.
Qed.

(** Re-arming after a loss of communication is exact: a tick takes a PASSIVE node to
    OPERATIONAL if and only if operation is requested, accepted heartbeats cover the
    last 250 ms without a gap over 50 ms, and a command arrived less than 200 ms ago;
    otherwise the node stays PASSIVE. *)
Theorem passive_rearm_iff (t0 t : Z) (cb : option Z) (arg : Z) (tr : list (Z * ev))
  (Ht : timed t0 SPAN t0 (tr ++ [(t, EvTick)])) :
  let c := run (ps_safety_core_init (u32 t0) cb arg) tr in
  let c' := fst (ps_safety_core_tick c (u32 t)) in
  let a := arun a_init tr in
  state c = PS_STATE_PASSIVE ->
  (state c' = PS_STATE_OPERATIONAL <->
     a_want a = true /\ covers (a_beats a) t (t - 250) = true /\ fresh (a_cmd a) t = true) /\
  (state c' = PS_STATE_OPERATIONAL \/ state c' = PS_STATE_PASSIVE).
Proof.
  destruct (sim_run_snoc _ _ _ _ _ _ _ (sim_init t0 cb arg) ltac:(lia) Ht) as [Hsim Hr].
  intros c c' a. fold c a in Hsim.
  pose proof (sim_tick _ _ _ _ Hsim Hr) as Hsim'. fold c' in Hsim'.
  rewrite (sim_state _ _ _ _ Hsim), (sim_state _ _ _ _ Hsim'). intros Hc.
  assert (a_state a = Passive) as Ha by by destruct (a_state a).
  cbn [astep]. rewrite Ha. destruct (a_want a), (covers _ _ _), (fresh _ _); cbn [andb];
    cbn; rewrite ?Ha; (split; [split; try done; intros; destruct_and?; done|]); auto.
Qed.

(** Beats every 40 ms, [n] of them from [t] on. *)
Fixpoint beats (n : nat) (t seq : Z) : list (Z * ev) :=
  match n with O => [] | S n => (t, EvHeartbeat (hb seq)) :: beats n (t + 40) (seq + 1) end.

Definition estop_run : list (Z * ev) :=
  [(0, EvTick); (5, EvEstop 1); (9, EvClear PS_CLEAR_ESTOP_MAGIC 1)] ++ beats 27 10 0.

Lemma estop_exit_witness :
  covers (a_beats (arun a_init estop_run)) 1060 60 = true.
Proof.
  apply (estop_exit 0 1060 EvTick None 0 estop_run).
  - cbn [estop_run beats app timed]. unfold SPAN. repeat split; lia.
  - vm_compute. reflexivity.
  - vm_compute. discriminate.
Defined.

Definition passive_run : list (Z * ev) :=
  [(0, EvTick); (1, EvModeSet 3); (2, EvModeSet 2)] ++ beats 8 10 0 ++ [(295, EvCmd)].

Lemma passive_rearm_iff_witness :
  state (fst (ps_safety_core_tick (run (ps_safety_core_init 0 None 0) passive_run) 300)) =
  PS_STATE_OPERATIONAL.
Proof.
  apply (passive_rearm_iff 0 300 None 0 passive_run).
  - cbn [passive_run beats app timed]. unfold SPAN. repeat split; lia.
  - vm_compute. reflexivity.
  - vm_compute. auto.
Defined.

(** ** Clears *)

Lemma clear_counter_mono_step c now e : clear_counter c <= clear_counter (fst (step c now e)).
Proof.
  assert (forall c n x, clear_counter (fst (go c n x)) = clear_counter c) as Hgo
    by (intros; by rewrite fst_go).
  assert (forall c n x, clear_counter (fst (ps_safety_core_on_estop c n x)) = clear_counter c) as He
    by (intros; unfold ps_safety_core_on_estop; case_match; [done|by rewrite Hgo]).
  destruct e; cbn [step]; unfold ps_safety_core_on_heartbeat, ps_safety_core_on_mode_set,
    ps_safety_core_on_local_fault, ps_safety_core_on_bus_down, ps_safety_core_tick,
    ps_safety_core_on_clear;
    repeat case_match; cbn [fst]; rewrite ?He, ?Hgo; cbn; lia.
Qed.

Lemma clear_counter_mono c tr : clear_counter c <= clear_counter (run c tr).
Proof.
  revert c. induction tr as [|[t e] tr IH]; intros c; cbn [run]; [lia|].
  pose proof (clear_counter_mono_step c (u32 t) e). specialize (IH (fst (step c (u32 t) e))). lia.
Qed.

(** A clear is accepted exactly when it carries the magic and a counter above every
    counter accepted before; a refused clear changes nothing, an accepted one records
    its counter and leaves the state as it is; and after any further events the same
    counter, or a smaller one, is refused: a replayed clear never works. *)
Theorem clear_no_replay (c : ps_safety_core_t) (now magic counter : Z) :
  let '(c', ok) := ps_safety_core_on_clear c now magic counter in
  (ok = true <-> magic = PS_CLEAR_ESTOP_MAGIC /\ clear_counter c < counter) /\
  state c' = state c /\
  (ok = false -> c' = c) /\
  (ok = true -> clear_counter c' = counter /\
     (state c = PS_STATE_ESTOP -> estop_cause c' = 0) /\
     forall tr now' magic' counter', counter' <= counter ->
       ps_safety_core_on_clear (run c' tr) now' magic' counter' = (run c' tr, false)).
Proof.
  destruct (ps_safety_core_on_clear c now magic counter) as [c' ok] eqn:E.
  assert (ok = true -> clear_counter c' = counter) as Hcc.
  { unfold ps_safety_core_on_clear in E. repeat case_match; by simplify_eq. }
  assert ((ok = true <-> magic = PS_CLEAR_ESTOP_MAGIC /\ clear_counter c < counter) /\
    state c' = state c /\ (ok = false -> c' = c) /\
    (ok = true -> state c = PS_STATE_ESTOP -> estop_cause c' = 0)) as (H1 & H2 & H3 & H4).
  { unfold ps_safety_core_on_clear in E. repeat case_match; simplify_eq; bools;
      repeat split; cbn in *; intros; try lia; try done; congruence. }
  do 3 (split; [done|]). intros ->. specialize (Hcc eq_refl). repeat split; auto.
  intros tr now' magic' counter' Hle. pose proof (clear_counter_mono c' tr).
  unfold ps_safety_core_on_clear. case_match; [done|].
  by rewrite (proj2 (Z.leb_le counter' (clear_counter (run c' tr)))) by lia.
Qed.

(** ** Transitions *)

(** The transitions the design allows. *)
Inductive edge : Z -> Z -> Prop :=
  | e_boot : edge PS_STATE_BOOT PS_STATE_STANDBY
  | e_arm : edge PS_STATE_STANDBY PS_STATE_OPERATIONAL
  | e_rearm : edge PS_STATE_PASSIVE PS_STATE_OPERATIONAL
  | e_passive s : s = PS_STATE_OPERATIONAL \/ s = PS_STATE_STANDBY -> edge s PS_STATE_PASSIVE
  | e_standby s : s = PS_STATE_OPERATIONAL \/ s = PS_STATE_PASSIVE -> edge s PS_STATE_STANDBY
  | e_clear : edge PS_STATE_ESTOP PS_STATE_STANDBY
  | e_estop s : s <> PS_STATE_ESTOP -> edge s PS_STATE_ESTOP.
#[local] Hint Constructors edge : core.

(** A log of callbacks that starts in [s], follows allowed transitions, each from the
    state the last one entered, and ends in [s']. *)
Fixpoint path (cb arg s : Z) (l : list transition) (s' : Z) : Prop :=
  match l with
  | [] => s = s'
  | x :: l => tr_cb x = cb /\ tr_arg x = arg /\ tr_old x = s /\ edge s (tr_new x) /\
              path cb arg (tr_new x) l s'
  end.

Lemma path_app cb arg s l1 s1 l2 s2 : path cb arg s l1 s1 -> path cb arg s1 l2 s2 ->
  path cb arg s (l1 ++ l2) s2.
Proof.
  revert s. induction l1 as [|x l1 IH]; intros s; cbn [app path]; [by intros ->|].
  intros (? & ? & ? & ? & ?) ?. repeat split; auto.
Qed.

(** What a core operation promises: the callback stays registered, and the callbacks
    made lead from the old state to the new one. *)
Definition reports (cb arg : Z) (c : ps_safety_core_t) (r : ps_safety_core_t * list transition) : Prop :=
  on_transition r.1 = Some cb /\ cb_arg r.1 = arg /\ path cb arg (state c) r.2 (state r.1).

Lemma reports_go cb arg c c0 next cause :
  on_transition c = Some cb -> cb_arg c = arg -> state c0 = state c ->
  (state c = next \/ edge (state c) next) -> reports cb arg c0 (go c next cause).
Proof.
  intros Hcb Harg Hs He. unfold reports, go. rewrite Hs.
  destruct (Z.eqb_spec (state c) next) as [Heq|Hne]; [done|]. cbn. rewrite Hcb. cbn.
  repeat split; try done. by destruct He.
Qed.

Lemma reports_estop cb arg c c0 now cause :
  on_transition c = Some cb -> cb_arg c = arg -> state c0 = state c ->
  reports cb arg c0 (ps_safety_core_on_estop c now cause).
Proof.
  intros Hcb Harg Hs. unfold ps_safety_core_on_estop. case_match; [by repeat split|].
  apply reports_go; try done. cbn. destruct (decide (state c = PS_STATE_ESTOP)); [by left|].
  right. by constructor.
Qed.

Lemma reports_step cb arg c now e : on_transition c = Some cb -> cb_arg c = arg ->
  reports cb arg c (step c now e).
Proof.
  intros Hcb Harg.
  assert (forall c', on_transition c' = on_transition c -> cb_arg c' = cb_arg c ->
    state c' = state c -> reports cb arg c (c', [])) as Hsame
    by (intros c' H1 H2 H3; repeat split; cbn; congruence).
  destruct e; cbn [step].
  - unfold ps_safety_core_on_heartbeat. repeat case_match; try (by apply reports_estop);
      by apply Hsame.
  - by apply reports_estop.
  - unfold ps_safety_core_on_clear. repeat case_match; by apply Hsame.
  - by apply Hsame.
  - unfold ps_safety_core_on_mode_set.
    repeat case_match; try (by apply reports_estop); try (by apply Hsame);
      apply reports_go; try done; right; constructor; cbn in *; lia.
  - by apply reports_estop.
  - unfold ps_safety_core_on_bus_down. case_match; [|by apply Hsame].
    apply reports_go; try done. right. constructor. cbn in *. lia.
  - unfold ps_safety_core_tick. repeat case_match; try (by apply Hsame);
      apply reports_go; try done; right;
      match goal with H : (state c =? _) = true |- _ => apply Z.eqb_eq in H; rewrite H end;
      auto.
Qed.

(** The callback is told every transition and nothing else: over any run the calls of
    the registered callback, with its argument, form a path of allowed transitions
    from the initial state to the current one; the states are BOOT to ESTOP, and FAULT
    is never entered. *)
Theorem transitions_reported (t0 cb arg : Z) (tr : list (Z * ev)) :
  let c0 := ps_safety_core_init (u32 t0) (Some cb) arg in
  path cb arg PS_STATE_BOOT (run_log c0 tr) (state (run c0 tr)) /\
  PS_STATE_BOOT <= state (run c0 tr) <= PS_STATE_ESTOP.
Proof.
  cbv zeta. assert (forall c, on_transition c = Some cb -> cb_arg c = arg ->
    path cb arg (state c) (run_log c tr) (state (run c tr))) as Hp.
  { induction tr as [|[t e] tr IH]; intros c Hcb Harg; [done|]. cbn [run run_log].
    destruct (reports_step cb arg c (u32 t) e Hcb Harg) as (H1 & H2 & H3).
    destruct (step c (u32 t) e) as [c' l]. eapply path_app; [exact H3|]. by apply IH. }
  specialize (Hp (ps_safety_core_init (u32 t0) (Some cb) arg) eq_refl eq_refl).
  split; [done|]. assert (forall l s s', PS_STATE_BOOT <= s <= PS_STATE_ESTOP ->
    path cb arg s l s' -> PS_STATE_BOOT <= s' <= PS_STATE_ESTOP) as Hin.
  { induction l as [|x l IH]; intros s s' Hs; cbn [path]; [by intros <-|].
    intros (_ & _ & _ & He & Hl). eapply IH; [|exact Hl].
    destruct He; unfold PS_STATE_BOOT, PS_STATE_STANDBY, PS_STATE_OPERATIONAL,
      PS_STATE_PASSIVE, PS_STATE_ESTOP in *; lia. }
  eapply Hin; [|exact Hp]. unfold PS_STATE_BOOT, PS_STATE_ESTOP. cbn. unfold PS_STATE_BOOT. lia.
Qed.

(** ** The limits of the 32-bit clock *)

(** What the watchdog test means for any pair of clock values: it holds exactly when a
    beat is on record and the 32-bit distance from it is at most 50 ms or at least
    2^31 ms: a beat 24.8 days old or older counts as fresh. *)
Theorem heartbeat_ok_exact (c : ps_safety_core_t) (now : Z) :
  heartbeat_ok c now = true <->
  have_hb c = true /\
  (u32 (now - last_hb_ms c) <= PS_HEARTBEAT_TIMEOUT_MS \/ 2147483648 <= u32 (now - last_hb_ms c)).
Proof.
  unfold heartbeat_ok, elapsed, PS_HEARTBEAT_TIMEOUT_MS. rewrite andb_true_iff, Z.leb_le.
  pose proof (u32_range (now - last_hb_ms c)). set (d := u32 _) in *.
  split; intros [? ?]; (split; [done|]); clia.
Qed.

(** ** A request made while latched survives the e-stop *)

(** An operation request received while the e-stop is latched is kept: after the
    clear and a second of heartbeats the node passes STANDBY and reaches OPERATIONAL
    with no MODE_SET after the clear; it actuates without the explicit request the
    safety design asks for. *)
Theorem latched_request_survives :
  exists tr1 tr2 : list (Z * ev),
    let c1 := run (ps_safety_core_init 0 None 0) tr1 in
    let c2 := run c1 tr2 in
    timed 0 SPAN 0 (tr1 ++ tr2) /\ latched c1 /\
    Forall (fun x => match x.2 with EvModeSet _ | EvCmd => False | _ => True end) tr2 /\
    state c2 = PS_STATE_OPERATIONAL.
Proof.
  exists [(0, EvTick); (5, EvEstop 1); (6, EvModeSet 2)],
    ([(9, EvClear PS_CLEAR_ESTOP_MAGIC 1)] ++ beats 27 10 0 ++ [(1060, EvTick); (1065, EvTick)]).
  cbn [app beats]. repeat split; try (unfold SPAN; lia); try (vm_compute; congruence).
  repeat apply Forall_cons_2; try exact I. apply Forall_nil_2.
Qed.
