(* ===== verification/Rtos.v ===== *)
(** What the firmware relies on of the platform underneath it: the FreeRTOS queue,
    as a class of operations with their documented behaviour, and the error codes
    of ESP-IDF.  The platform is not part of the repository; every component that
    uses a queue is proved against [RtosQueue], and [list_queue] shows that the
    interface can be implemented. *)
From S2P Require Import Prelude.

(** [esp_err_t], the values the firmware returns or tests. *)
Inductive esp_err_t :=
  ESP_OK | ESP_FAIL | ESP_ERR_NO_MEM | ESP_ERR_INVALID_ARG | ESP_ERR_INVALID_STATE |
  ESP_ERR_INVALID_SIZE | ESP_ERR_NOT_FOUND | ESP_ERR_TIMEOUT | ESP_ERR_INVALID_CRC |
  ESP_ERR_NOT_SUPPORTED | ESP_ERR_NVS_NO_FREE_PAGES | ESP_ERR_NVS_NEW_VERSION_FOUND.

#[global] Instance esp_err_eq_dec : EqDecision esp_err_t.
Proof. solve_decision. Defined.

(** [err == ESP_OK] *)
Definition is_ok (err : esp_err_t) : bool := match err with ESP_OK => true | _ => false end.

(** A bounded queue, used without waiting (a wait that ends in a message is a
    receive made later).  [waiting] is the queue's content, oldest first. *)
Class RtosQueue := {
  queue : Type -> Type;
  xQueueCreate : forall {A}, nat -> queue A;
  xQueueSend : forall {A}, queue A -> A -> queue A * bool;
  xQueueReceive : forall {A}, queue A -> queue A * option A;
  waiting : forall {A}, queue A -> list A;
  capacity : forall {A}, queue A -> nat;
  waiting_create : forall {A} n, waiting (xQueueCreate (A := A) n) = [];
  capacity_create : forall {A} n, capacity (xQueueCreate (A := A) n) = n;
  capacity_send : forall {A} (q : queue A) x, capacity (fst (xQueueSend q x)) = capacity q;
  capacity_receive : forall {A} (q : queue A), capacity (fst (xQueueReceive q)) = capacity q;
  (* a send appends, and fails without effect on a full queue *)
  send_room : forall {A} (q : queue A) x, (length (waiting q) < capacity q)%nat ->
    snd (xQueueSend q x) = true /\ waiting (fst (xQueueSend q x)) = waiting q ++ [x];
  send_full : forall {A} (q : queue A) x, (capacity q <= length (waiting q))%nat ->
    snd (xQueueSend q x) = false /\ waiting (fst (xQueueSend q x)) = waiting q;
  (* a receive takes the oldest message *)
  receive_head : forall {A} (q : queue A),
    snd (xQueueReceive q) = head (waiting q) /\
    waiting (fst (xQueueReceive q)) = tail (waiting q);
}.

(** [uxQueueMessagesWaiting] *)
Definition messages `{RtosQueue} {A} (q : queue A) : nat := length (waiting q).

Section Queue.
Context `{RtosQueue} {A : Type}.
Implicit Types q : queue A.

Lemma send_waiting q x : waiting (fst (xQueueSend q x)) =
  if (length (waiting q) <? capacity q)%nat then waiting q ++ [x] else waiting q.
Proof. destruct (Nat.ltb_spec (length (waiting q)) (capacity q)); [by apply send_room | by apply send_full]. Qed.

Lemma send_ok q x : snd (xQueueSend q x) = (length (waiting q) <? capacity q)%nat.
Proof. destruct (Nat.ltb_spec (length (waiting q)) (capacity q)); [by apply send_room | by apply send_full]. Qed.

Lemma receive_waiting q : waiting (fst (xQueueReceive q)) = tail (waiting q).
Proof. apply receive_head. Qed.

Lemma receive_some q : snd (xQueueReceive q) = head (waiting q).
Proof. apply receive_head. Qed.

(** Sending a list to a queue with room for it appends it. *)
Lemma foldl_send q l : (length (waiting q) + length l <= capacity q)%nat ->
  waiting (foldl (fun q x => fst (xQueueSend q x)) q l) = waiting q ++ l /\
  capacity (foldl (fun q x => fst (xQueueSend q x)) q l) = capacity q.
Proof.
  revert q. induction l as [|x l IH]; intros q Hl; cbn [foldl].
  { by rewrite app_nil_r. }
  cbn [length] in Hl. destruct (send_room q x ltac:(lia)) as [_ Hw].
  destruct (IH (fst (xQueueSend q x))) as [-> ->].
  - rewrite Hw, capacity_send, length_app. cbn [length]. lia.
  - by rewrite Hw, capacity_send, <- app_assoc.
Qed.
End Queue.

(** The interface implemented by a list and its bound. *)
Definition lqueue (A : Type) : Type := nat * list A.
#[export] Program Instance list_queue : RtosQueue := {|
  queue := lqueue;
  xQueueCreate A n := (n, []);
  xQueueSend A q x := if (length q.2 <? q.1)%nat then ((q.1, q.2 ++ [x]), true) else (q, false);
  xQueueReceive A q := ((q.1, tail q.2), head q.2);
  waiting A q := q.2;
  capacity A q := q.1;
|}.
Solve Obligations with (intros; cbn -[Nat.ltb] in *; try done; try (by case_match)).
Next Obligation.
  intros A [n l] x H. cbn -[Nat.ltb] in *. by rewrite (proj2 (Nat.ltb_lt _ _) H).
Qed.
Next Obligation.
  intros A [n l] x H. cbn -[Nat.ltb] in *. by rewrite (proj2 (Nat.ltb_ge _ _) H).
Qed.
