(* ===== verification/Txq.v ===== *)
(** The class-ordered transmit queue
    (src/firmware/components/ps_can/src/ps_can_txq.c and its header): eight rings of
    sixteen slots, refined to eight FIFO lists. *)
From S2P Require Import Prelude.

Definition PS_CAN_TXQ_CLASSES : Z := 8.
Definition PS_CAN_TXQ_DEPTH : Z := 16.

Record ps_can_txq_t := { ring : list (list Z); head : list Z; count : list Z }.

Definition ps_can_txq_init : ps_can_txq_t :=
  {| ring := replicate 8 (replicate 16 0); head := replicate 8 0; count := replicate 8 0 |}.

Definition ps_can_txq_push (q : ps_can_txq_t) (cls item : Z) : ps_can_txq_t * bool :=
  let k := Z.to_nat cls in
  if (PS_CAN_TXQ_CLASSES <=? cls) || (PS_CAN_TXQ_DEPTH <=? count q !!! k) then (q, false) else
  let tail := u8 ((head q !!! k + count q !!! k) mod PS_CAN_TXQ_DEPTH) in
  ({| ring := <[k := <[Z.to_nat tail := item]> (ring q !!! k)]> (ring q);
      head := head q;
      count := <[k := u8 (count q !!! k + 1)]> (count q) |}, true).

(** The loop of [ps_can_txq_pop] over the classes [k .. k + n - 1]. *)
Fixpoint pop_loop (q : ps_can_txq_t) (k n : nat) : ps_can_txq_t * Z :=
  match n with
  | O => (q, -1)
  | S n =>
    if 0 <? count q !!! k then
      let item := (ring q !!! k) !!! Z.to_nat (head q !!! k) in
      ({| ring := ring q;
          head := <[k := u8 ((head q !!! k + 1) mod PS_CAN_TXQ_DEPTH)]> (head q);
          count := <[k := u8 (count q !!! k - 1)]> (count q) |}, item)
    else pop_loop q (S k) n
  end.

Definition ps_can_txq_pop (q : ps_can_txq_t) : ps_can_txq_t * Z :=
  pop_loop q 0 (Z.to_nat PS_CAN_TXQ_CLASSES).

Definition ps_can_txq_len (q : ps_can_txq_t) : Z :=
  foldl (fun n k => n + count q !!! k) 0 (seq 0 (Z.to_nat PS_CAN_TXQ_CLASSES)).

(** ** Specification: one FIFO list per class *)

(** The pending items of class [k], oldest first. *)
Definition fifo (q : ps_can_txq_t) (k : nat) : list Z :=
  contents 16 (ring q !!! k) (head q !!! k) (count q !!! k).

(** All pending items, in the order they will leave. *)
Definition pending (q : ps_can_txq_t) : list Z := seq 0 8 ≫= fifo q.

Record txq_wf (q : ps_can_txq_t) : Prop := {
  wf_ring : length (ring q) = 8%nat;
  wf_rows : forall k, (k < 8)%nat -> length (ring q !!! k) = 16%nat;
  wf_head_len : length (head q) = 8%nat;
  wf_count_len : length (count q) = 8%nat;
  wf_head : forall k, (k < 8)%nat -> 0 <= head q !!! k < 16;
  wf_count : forall k, (k < 8)%nat -> 0 <= count q !!! k <= 16;
}.

Lemma txq_init_wf : txq_wf ps_can_txq_init.
Proof.
  constructor; try done; intros k Hk; do 8 (destruct k; [cbn; try done; lia|]); lia.
Qed.

Lemma txq_init_empty : pending ps_can_txq_init = [].
Proof. reflexivity. Qed.

(** ** Push *)

Lemma txq_push_spec q cls item : txq_wf q -> 0 <= cls ->
  let '(q', ok) := ps_can_txq_push q cls item in
  let k := Z.to_nat cls in
  txq_wf q' /\ ok = (cls <? 8) && (length (fifo q k) <? 16)%nat /\
  (ok = false -> q' = q) /\
  (ok = true -> forall j, (j < 8)%nat ->
     fifo q' j = if decide (j = k) then fifo q k ++ [item] else fifo q j).
Proof.
  intros Hwf Hc. unfold ps_can_txq_push, PS_CAN_TXQ_CLASSES, PS_CAN_TXQ_DEPTH.
  unfold fifo at 1. rewrite length_contents. cbv zeta.
  destruct (Z.leb_spec 8 cls).
  { cbn [orb]. split; [done|]. split; [|done]. by destruct (Z.ltb_spec cls 8); [lia|]. }
  set (k := Z.to_nat cls). assert (k < 8)%nat as Hk by lia.
  pose proof Hwf as [Hr Hrow Hhl Hcl Hh Hn]. specialize (Hh k Hk) as Hhk. specialize (Hn k Hk) as Hnk.
  destruct (Z.leb_spec 16 (count q !!! k)); cbn [orb].
  { split; [done|]. split; [|done]. destruct (Nat.ltb_spec (Z.to_nat (count q !!! k)) 16); [lia|].
    by rewrite andb_false_r. }
  assert (u8 ((head q !!! k + count q !!! k) mod 16) = (head q !!! k + count q !!! k) mod 16)
    as -> by clia.
  assert (u8 (count q !!! k + 1) = count q !!! k + 1) as -> by clia.
  split.
  - constructor; cbn [ring head count]; rewrite ?length_insert; try done; intros j Hj;
      rewrite ?lookup_total_insert_dec by lia; try case_decide; subst;
      rewrite ?length_insert; auto; lia.
  - split; [symmetry; apply andb_true_iff; split; [apply Z.ltb_lt | apply Nat.ltb_lt]; lia|].
    split; [done|]. intros _ j Hj. unfold fifo; cbn [ring head count].
    rewrite !lookup_total_insert_dec by lia.
    destruct (decide (k = j)) as [<-|]; [|by rewrite decide_False by congruence].
    rewrite decide_True by done. apply contents_push; auto; lia.
Qed.

(** ** Pop *)

Lemma pop_loop_spec q k n : txq_wf q -> (k + n = 8)%nat -> (forall j, (j < k)%nat -> fifo q j = []) ->
  let '(q', r) := pop_loop q k n in
  txq_wf q' /\
  ((r = -1 /\ q' = q /\ forall j, (j < 8)%nat -> fifo q j = []) \/
   exists j l, (j < 8)%nat /\ (forall i, (i < j)%nat -> fifo q i = []) /\ fifo q j = r :: l /\
     forall i, (i < 8)%nat -> fifo q' i = if decide (i = j) then l else fifo q i).
Proof.
  intros Hwf. revert k. induction n as [|n IH]; intros k Hk Hempty; cbn [pop_loop].
  { split; [done|]. left. repeat split; try done. intros j Hj. apply Hempty. lia. }
  pose proof Hwf as [Hr Hrow Hhl Hcl Hh Hn].
  assert (k < 8)%nat as Hk8 by lia. specialize (Hh k Hk8) as Hhk. specialize (Hn k Hk8) as Hnk.
  destruct (Z.ltb_spec 0 (count q !!! k)).
  - unfold PS_CAN_TXQ_DEPTH.
    assert (u8 ((head q !!! k + 1) mod 16) = (head q !!! k + 1) mod 16) as -> by clia.
    assert (u8 (count q !!! k - 1) = count q !!! k - 1) as -> by clia.
    split.
    + constructor; cbn [ring head count]; rewrite ?length_insert; try done; intros j Hj;
        rewrite ?lookup_total_insert_dec by lia; try case_decide; subst; auto; lia.
    + right. exists k, (contents 16 (ring q !!! k) ((head q !!! k + 1) mod 16) (count q !!! k - 1)).
      split; [done|]. split; [done|]. split; [by apply contents_pop|].
      intros i Hi. unfold fifo; cbn [ring head count]. rewrite !lookup_total_insert_dec by lia.
      destruct (decide (k = i)) as [<-|]; [by rewrite decide_True|].
      by rewrite decide_False by congruence.
  - apply IH; [lia|]. intros j Hj. destruct (decide (j = k)) as [->|]; [|apply Hempty; lia].
    unfold fifo. by replace (count q !!! k) with 0 by lia.
Qed.


(** ** Refinement: eight bounded FIFO lists, the lowest non-empty class served first *)

Inductive txq_op := Push (cls item : Z) | Pop.

Definition txq_step (q : ps_can_txq_t) (o : txq_op) : ps_can_txq_t * Z :=
  match o with
  | Push cls item => let '(q, ok) := ps_can_txq_push q cls item in (q, Z.b2z ok)
  | Pop => ps_can_txq_pop q
  end.

Fixpoint spec_pop (fs : list (list Z)) : list (list Z) * Z :=
  match fs with
  | [] => ([], -1)
  | (x :: l) :: fs => (l :: fs, x)
  | [] :: fs => let '(fs, x) := spec_pop fs in ([] :: fs, x)
  end.

Definition spec_step (fs : list (list Z)) (o : txq_op) : list (list Z) * Z :=
  match o with
  | Push cls item =>
      let k := Z.to_nat cls in
      if (cls <? 8) && (length (fs !!! k) <? 16)%nat
      then (<[k := (fs !!! k) ++ [item]]> fs, 1) else (fs, 0)
  | Pop => spec_pop fs
  end.

(** The answers of a sequence of operations. *)
Fixpoint answers {S} (step : S -> txq_op -> S * Z) (s : S) (ops : list txq_op) : list Z :=
  match ops with
  | [] => []
  | o :: ops => let '(s, r) := step s o in r :: answers step s ops
  end.

Definition op_ok (o : txq_op) : Prop := match o with Push cls _ => is_u8 cls | Pop => True end.

Definition fifos (q : ps_can_txq_t) : list (list Z) := fifo q <$> seq 0 8.

Lemma fifos_lookup q k : (k < 8)%nat -> fifos q !! k = Some (fifo q k).
Proof. intros. unfold fifos. by rewrite list_lookup_fmap, lookup_seq_lt. Qed.

Lemma fifos_lookup_total q k : (k < 8)%nat -> fifos q !!! k = fifo q k.
Proof. intros. apply list_lookup_total_correct. by apply fifos_lookup. Qed.

Lemma fifos_ext q fs : length fs = 8%nat -> (forall k, (k < 8)%nat -> fifo q k = fs !!! k) ->
  fifos q = fs.
Proof.
  intros Hl H. apply list_eq_same_length with (n := 8%nat); [done|done|].
  intros k x y Hk Hx Hy. rewrite fifos_lookup in Hx by done. simplify_eq.
  rewrite (H k Hk). by apply list_lookup_total_correct.
Qed.

(** Popping the lists serves the first non-empty one. *)
Lemma spec_pop_at fs j x l : (forall i, (i < j)%nat -> fs !! i = Some []) ->
  fs !! j = Some (x :: l) -> spec_pop fs = (<[j := l]> fs, x).
Proof.
  revert j. induction fs as [|f fs IH]; intros j Hlow Hj; [done|]. destruct j as [|j].
  - cbn in Hj. by simplify_eq/=.
  - specialize (Hlow 0%nat ltac:(lia)) as H0. cbn in H0. simplify_eq/=.
    rewrite (IH j); [done| |done]. intros i Hi. apply (Hlow (S i)). lia.
Qed.

Lemma spec_pop_empty fs : Forall (fun f => f = []) fs -> spec_pop fs = (fs, -1).
Proof. induction 1 as [|f fs -> H IH]; [done|]. cbn. by rewrite IH. Qed.

Lemma txq_step_refines q o : txq_wf q -> op_ok o ->
  txq_wf (fst (txq_step q o)) /\
  spec_step (fifos q) o = (fifos (fst (txq_step q o)), snd (txq_step q o)).
Proof.
  intros Hwf Ho. destruct o as [cls item|]; cbn [txq_step spec_step].
  - pose proof (txq_push_spec q cls item Hwf ltac:(cbn in Ho; clia)) as H.
    destruct (ps_can_txq_push q cls item) as [q' ok]. destruct H as (Hwf' & Hok & Hno & Hyes).
    split; [done|]. cbn [fst snd].
    destruct (Z.ltb_spec cls 8) as [Hc|Hc]; cbn [andb] in *; [|by subst ok; rewrite Hno].
    cbn in Ho. rewrite fifos_lookup_total, <- Hok by clia.
    destruct ok; [|by rewrite Hno]. f_equal. symmetry. apply fifos_ext.
    { unfold fifos. by rewrite length_insert. }
    intros k Hk. rewrite Hyes, lookup_total_insert_dec by (cbn; clia).
    destruct (decide (k = Z.to_nat cls)) as [->|]; [by rewrite decide_True|].
    rewrite decide_False by done. by rewrite fifos_lookup_total.
  - pose proof (pop_loop_spec q 0 8 Hwf eq_refl ltac:(lia)) as H. change (pop_loop q 0 8) with (ps_can_txq_pop q) in H.
    destruct (ps_can_txq_pop q) as [q' r]. destruct H as [Hwf' H]. split; [done|]. cbn [fst snd].
    destruct H as [(-> & -> & H)|(j & l & Hj & Hlow & Hjl & H)].
    + apply spec_pop_empty. unfold fifos. apply Forall_fmap, Forall_seq. intros i Hi. apply H. lia.
    + rewrite (spec_pop_at _ j r l).
      * f_equal. symmetry. apply fifos_ext; [by rewrite length_insert|]. intros k Hk.
        rewrite H, lookup_total_insert_dec by (cbn; lia).
        destruct (decide (k = j)) as [->|]; [by rewrite decide_True|].
        by rewrite decide_False, fifos_lookup_total.
      * intros i Hi. rewrite fifos_lookup by lia. by rewrite Hlow.
      * by rewrite fifos_lookup, Hjl.
Qed.

Lemma txq_answers q ops : txq_wf q -> Forall op_ok ops ->
  answers txq_step q ops = answers spec_step (fifos q) ops.
Proof.
  intros Hwf Hops. revert q Hwf. induction Hops as [|o ops Ho Hops IH]; intros q Hwf; [done|].
  cbn [answers]. destruct (txq_step_refines q o Hwf Ho) as [Hwf' ->].
  destruct (txq_step q o) as [q' r]. cbn [fst snd] in *. by rewrite IH.
Qed.

(** The transmit queue answers every sequence of pushes and pops, from its initial
    state, exactly as eight bounded FIFO lists of which a pop serves the first
    non-empty one: no item is lost, duplicated or reordered within its class, a push
    is refused exactly when the class is out of range or its sixteen slots are taken,
    and SAFETY (class 0) always leaves first. *)
Theorem txq_refines ops : Forall op_ok ops ->
  answers txq_step ps_can_txq_init ops = answers spec_step (replicate 8 []) ops.
Proof. intros. change (replicate 8 []) with (fifos ps_can_txq_init). apply txq_answers; [apply txq_init_wf | done]. Qed.

Lemma txq_refines_witness :
  let ops := [Push 4 40; Push 0 10; Push 4 41; Push 9 99; Pop; Pop; Pop; Pop] in
  Forall op_ok ops /\ answers txq_step ps_can_txq_init ops = [1; 1; 1; 0; 10; 40; 41; -1].
Proof.
  intros ops. assert (Forall op_ok ops) as Hok by (repeat constructor; cbn; clia).
  split; [done|]. rewrite (txq_refines ops Hok). reflexivity.
Defined.

(** [ps_can_txq_len] is the number of items pending. *)
Lemma txq_len_pending q : txq_wf q -> ps_can_txq_len q = Z.of_nat (length (pending q)).
Proof.
  intros [_ _ _ _ _ Hn]. unfold ps_can_txq_len, pending, PS_CAN_TXQ_CLASSES.
  change (Z.to_nat 8) with 8%nat. cbn [seq foldl mbind list_bind].
  rewrite !length_app; cbn [length]. unfold fifo. rewrite !length_contents.
  pose proof (Hn 0%nat ltac:(lia)). pose proof (Hn 1%nat ltac:(lia)). pose proof (Hn 2%nat ltac:(lia)).
  pose proof (Hn 3%nat ltac:(lia)). pose proof (Hn 4%nat ltac:(lia)). pose proof (Hn 5%nat ltac:(lia)).
  pose proof (Hn 6%nat ltac:(lia)). pose proof (Hn 7%nat ltac:(lia)). lia.
Qed.
