(* ===== verification/Can.v ===== *)
(** The CAN transport (src/firmware/components/ps_can/src/ps_can.c): the slot pool and
    the class-ordered queue between the senders, the transmit task, the receive task
    and the driver's interrupt callbacks.

    The atomic sections of each routine (a queue operation, a critical section, a
    driver call) are definitions of their own; the routines compose them, and [step]
    interleaves them.  The TWAI driver is outside the repository: its answers and its
    callbacks are inputs of the model. *)
From S2P Require Import Prelude CanId Rtos Txq.

Definition PS_CAN_TX_SLOTS : nat := 16.
Definition PS_CAN_RECOVER_MIN_MS : Z := 100.
Definition PS_CAN_RECOVER_MAX_MS : Z := 1600.
Definition PS_CAN_CLASS_COUNT : Z := 8.

Record ps_can_frame_t := { f_id : Z; f_dlc : Z; f_data : list Z }.

Definition PS_CAN_STATE_RUNNING : Z := 0.
Definition PS_CAN_STATE_ERR_PASSIVE : Z := 1.
Definition PS_CAN_STATE_BUS_OFF : Z := 2.
Definition PS_CAN_STATE_RECOVERING : Z := 3.

(** The destination of [memcpy(&x, f->data, dlc < sizeof(x) ? dlc : sizeof(x))] into a
    zeroed struct of [n] bytes. *)
Definition copy_short (n : nat) (f : ps_can_frame_t) : list Z :=
  let k := if f_dlc f <? Z.of_nat n then Z.to_nat (f_dlc f) else n in
  take k (f_data f) ++ replicate (n - k) 0.

Record ps_can_stats_t := {
  rx_frames : Z; tx_frames : Z; rx_dropped : Z; tx_timeouts : Z; bus_errors : Z; recoveries : Z }.

(** The counters are [uint32_t]. *)
Definition inc (z : Z) : Z := u32 (z + 1).

(** A transmit slot: the driver's frame header (identifier, DLC code, extended flag,
    buffer length) and the payload storage. *)
Record ps_can_tx_slot_t := {
  sl_id : Z; sl_dlc : Z; sl_ide : Z; sl_len : Z; sl_data : list Z }.
#[export] Instance slot_inhabited : Inhabited ps_can_tx_slot_t :=
  populate {| sl_id := 0; sl_dlc := 0; sl_ide := 0; sl_len := 0; sl_data := replicate 8 0 |}.

(** The driver's error states. *)
Inductive twai_error_state_t :=
  TWAI_ERROR_ACTIVE | TWAI_ERROR_WARNING | TWAI_ERROR_PASSIVE | TWAI_ERROR_BUS_OFF.

(** The driver's conversions between a payload length and its DLC code; they are
    inverse on the lengths of classic CAN. *)
Class TwaiDlc := {
  twaifd_len2dlc : Z -> Z;
  twaifd_dlc2len : Z -> Z;
  dlc2len_len2dlc : forall n, 0 <= n <= 8 -> twaifd_dlc2len (twaifd_len2dlc n) = n;
}.
#[export] Program Instance classic_dlc : TwaiDlc :=
  {| twaifd_len2dlc n := n; twaifd_dlc2len d := d |}.
Next Obligation. done. Qed.

Definition map_error_state (s : twai_error_state_t) : Z :=
  match s with
  | TWAI_ERROR_BUS_OFF => PS_CAN_STATE_BUS_OFF
  | TWAI_ERROR_PASSIVE => PS_CAN_STATE_ERR_PASSIVE
  | _ => PS_CAN_STATE_RUNNING
  end.

Section Can.
Context `{RtosQueue} `{TwaiDlc}.

(** [struct ps_can_ctx]; a callback with its argument is an opaque token. *)
Record ps_can_ctx := {
  node_id : Z; controller : Z;
  rx_q : queue ps_can_frame_t;
  free_slots : queue Z;
  slots : list ps_can_tx_slot_t;
  txq : ps_can_txq_t; tx_busy : bool; tx_slot : Z;
  cls_cb : list (option Z);
  state_cb : option Z;
  link_state : Z; pending_state : Z;
  recover_backoff_ms : Z; recover_at_ms : Z;
  stats : ps_can_stats_t;
  running : bool;
}.

Definition count_timeout (c : ps_can_ctx) : ps_can_ctx :=
  {| c with stats := {| (stats c) with tx_timeouts := inc (tx_timeouts (stats c)) |} |}.

Definition release_slot (c : ps_can_ctx) (slot : Z) : ps_can_ctx :=
  {| c with free_slots := fst (xQueueSend (free_slots c) slot) |}.

(** ** Interrupt callbacks *)

(** The frame the receive interrupt makes of the driver's header and the bytes
    stored in the zeroed buffer [buf] of 8. *)
Definition rx_frame (id dlc : Z) (buf : list Z) : ps_can_frame_t :=
  let len := twaifd_dlc2len dlc in
  let len := if 8 <? len then 8 else len in
  {| f_id := id; f_dlc := u8 len;
     f_data := take (Z.to_nat len) buf ++ replicate (8 - Z.to_nat len) 0 |}.

(** [received] is what [twai_node_receive_from_isr] delivered, if it answered
    [ESP_OK]: identifier, DLC code and the buffer. *)
Definition on_rx_done (c : ps_can_ctx) (received : option (Z * Z * list Z)) : ps_can_ctx :=
  match received with
  | None => c
  | Some (id, dlc, buf) =>
    let c := {| c with stats := {| (stats c) with rx_frames := inc (rx_frames (stats c)) |} |} in
    let '(q, ok) := xQueueSend (rx_q c) (rx_frame id dlc buf) in
    let c := {| c with rx_q := q |} in
    if ok then c
    else {| c with stats := {| (stats c) with rx_dropped := inc (rx_dropped (stats c)) |} |}
  end.

(** The critical section of [on_tx_done]: is the frame of slot [done] the one handed over? *)
Definition done_claim (c : ps_can_ctx) (done : Z) : ps_can_ctx * bool :=
  if tx_busy c && (done =? tx_slot c) then ({| c with tx_busy := false |}, true) else (c, false).

Definition done_finish (c : ps_can_ctx) (slot : Z) (is_tx_success : bool) : ps_can_ctx :=
  let c := {| c with free_slots := fst (xQueueSend (free_slots c) slot) |} in
  if is_tx_success
  then {| c with stats := {| (stats c) with tx_frames := inc (tx_frames (stats c)) |} |}
  else {| c with stats := {| (stats c) with bus_errors := inc (bus_errors (stats c)) |} |}.

(** The second component: does the callback wake the transmit task? *)
Definition on_tx_done (c : ps_can_ctx) (done : option Z) (is_tx_success : bool) : ps_can_ctx * bool :=
  match done with
  | None => (c, false)
  | Some d =>
    let slot := tx_slot c in
    let '(c, mine) := done_claim c d in
    if negb mine then (c, false) else (done_finish c slot is_tx_success, true)
  end.

Definition on_state_change (c : ps_can_ctx) (new_sta : option twai_error_state_t) : ps_can_ctx :=
  match new_sta with
  | None => c
  | Some s =>
    let mapped := map_error_state s in
    {| c with link_state := mapped; pending_state := mapped |}
  end.

Definition on_error (c : ps_can_ctx) : ps_can_ctx :=
  {| c with stats := {| (stats c) with bus_errors := inc (bus_errors (stats c)) |} |}.

(** ** Transmit task *)

(** The critical section of [tx_flush]. *)
Definition flush_pop (c : ps_can_ctx) : ps_can_ctx * Z :=
  let '(q, slot) := ps_can_txq_pop (txq c) in
  let c := {| c with txq := q |} in
  if (slot <? 0) && tx_busy c then ({| c with tx_busy := false |}, tx_slot c) else (c, slot).

Fixpoint tx_flush (fuel : nat) (c : ps_can_ctx) : option ps_can_ctx :=
  match fuel with
  | O => None
  | S fuel =>
    let '(c, slot) := flush_pop c in
    if slot <? 0 then Some c else tx_flush fuel (count_timeout (release_slot c (u8 slot)))
  end.

(** The critical section that picks the next frame. *)
Definition tx_pop (c : ps_can_ctx) : ps_can_ctx * Z :=
  if negb (tx_busy c) then
    let '(q, slot) := ps_can_txq_pop (txq c) in
    let c := {| c with txq := q |} in
    if 0 <=? slot then ({| c with tx_busy := true; tx_slot := u8 slot |}, slot) else (c, slot)
  else (c, -1).

Definition tx_clear (c : ps_can_ctx) : ps_can_ctx := {| c with tx_busy := false |}.

(** The inner loop: [accept slot] is the driver's answer to [twai_node_transmit]. *)
Fixpoint tx_serve (fuel : nat) (accept : Z -> bool) (c : ps_can_ctx) : option ps_can_ctx :=
  match fuel with
  | O => None
  | S fuel =>
    let '(c, slot) := tx_pop c in
    if slot <? 0 then Some c
    else if accept slot then Some c
    else tx_serve fuel accept (count_timeout (release_slot (tx_clear c) (u8 slot)))
  end.

(** One turn of [tx_task]'s loop. *)
Definition tx_task_turn (fuel : nat) (accept : Z -> bool) (c : ps_can_ctx) : option ps_can_ctx :=
  if negb (running c) then Some c
  else if link_state c =? PS_CAN_STATE_BUS_OFF then tx_flush fuel c
  else tx_serve fuel accept c.

(** ** Receive task *)

(** First half of [service_link]: the state reported to the callback, if any. *)
Definition report_pending (c : ps_can_ctx) : ps_can_ctx * option (Z * Z) :=
  let pending := pending_state c in
  if 0 <=? pending then
    let c := {| c with pending_state := -1 |} in
    let c := if pending =? PS_CAN_STATE_RUNNING
             then {| c with recover_backoff_ms := PS_CAN_RECOVER_MIN_MS |} else c in
    (c, (fun cb => (cb, pending)) <$> state_cb c)
  else (c, None).

(** Second half, bus-off recovery with backoff: [now_ms] is the clock and [recovered]
    whether [twai_node_recover] answered [ESP_OK]. *)
Definition recover_bus_off (c : ps_can_ctx) (now_ms : Z) (recovered : bool) : ps_can_ctx :=
  if link_state c =? PS_CAN_STATE_BUS_OFF then
    if recover_at_ms c <=? now_ms then
      let c := if recovered
               then {| c with link_state := PS_CAN_STATE_RECOVERING;
                        stats := {| (stats c) with recoveries := inc (recoveries (stats c)) |} |}
               else c in
      let c := {| c with recover_at_ms := now_ms + recover_backoff_ms c;
                    recover_backoff_ms := u32 (recover_backoff_ms c * 2) |} in
      if PS_CAN_RECOVER_MAX_MS <? recover_backoff_ms c
      then {| c with recover_backoff_ms := PS_CAN_RECOVER_MAX_MS |} else c
    else c
  else c.

Definition service_link (c : ps_can_ctx) (now_ms : Z) (recovered : bool) :
    ps_can_ctx * option (Z * Z) :=
  let '(c, report) := report_pending c in
  (recover_bus_off c now_ms recovered, report).

(** The software acceptance filter and the dispatch by class: the callback the
    frame goes to, if any. *)
Definition rx_dispatch (c : ps_can_ctx) (f : ps_can_frame_t) : ps_can_ctx * option (Z * ps_can_frame_t) :=
  let dst := ps_can_id_dst (f_id f) in
  if (node_id c =? 0) || (dst =? node_id c) || (dst =? PS_NODE_BROADCAST) then
    match cls_cb c !!! Z.to_nat (ps_can_id_cls (f_id f)) with
    | Some cb => (c, Some (cb, f))
    | None => ({| c with stats := {| (stats c) with rx_dropped := inc (rx_dropped (stats c)) |} |}, None)
    end
  else (c, None).

Definition rx_receive (c : ps_can_ctx) : ps_can_ctx * option (Z * ps_can_frame_t) :=
  let '(q, msg) := xQueueReceive (rx_q c) in
  let c := {| c with rx_q := q |} in
  match msg with Some f => rx_dispatch c f | None => (c, None) end.

(** One turn of [rx_task]'s loop: the frame handed to a class callback and the state
    handed to the state callback, if any. *)
Definition rx_task_turn (c : ps_can_ctx) (now_ms : Z) (recovered : bool) :
    ps_can_ctx * option (Z * ps_can_frame_t) * option (Z * Z) :=
  if negb (running c) then (c, None, None) else
  let '(c, call) := rx_receive c in
  let '(c, report) := service_link c now_ms recovered in
  (c, call, report).

(** ** Public operations *)

(** The context [ps_can_open] builds when every platform call succeeds. *)
Definition ps_can_open_ctx (cfg_node_id cfg_controller rx_queue_len : Z) : ps_can_ctx :=
  let rx_len := if rx_queue_len =? 0 then 64 else rx_queue_len in
  {| node_id := cfg_node_id; controller := cfg_controller;
     rx_q := xQueueCreate (Z.to_nat rx_len);
     free_slots := foldl (fun q i => fst (xQueueSend q i)) (xQueueCreate PS_CAN_TX_SLOTS)
                     (seqZ 0 (Z.of_nat PS_CAN_TX_SLOTS));
     slots := replicate PS_CAN_TX_SLOTS inhabitant;
     txq := ps_can_txq_init; tx_busy := false; tx_slot := 0;
     cls_cb := replicate (Z.to_nat PS_CAN_CLASS_COUNT) None; state_cb := None;
     link_state := PS_CAN_STATE_RUNNING; pending_state := -1;
     recover_backoff_ms := PS_CAN_RECOVER_MIN_MS; recover_at_ms := 0;
     stats := {| rx_frames := 0; tx_frames := 0; rx_dropped := 0; tx_timeouts := 0;
                 bus_errors := 0; recoveries := 0 |};
     running := true |}.

(** What [ps_can_open] acquires, and the platform's answers to it. *)
Inductive resource := Context | RxQueue | FreeQueue | Node | TxTask | Enabled | RxTask.
Record open_env := {
  calloc_ok : bool; rx_q_ok : bool; free_q_ok : bool; new_node_ok : bool; register_ok : bool;
  tx_task_ok : bool; enable_ok : bool; rx_task_ok : bool }.

(** The labels of [ps_can_open], each falling through to the next. *)
Definition fail (e : open_env) (held : list resource) : list resource :=
  filter (fun r => match r with
    | RxQueue => negb (rx_q_ok e) | FreeQueue => negb (free_q_ok e) | Context => false | _ => true
    end = true) held.
Definition fail_node (e : open_env) (held : list resource) : list resource :=
  fail e (filter (fun r => match r with Node => false | _ => true end = true) held).
Definition fail_tx (e : open_env) (held : list resource) : list resource :=
  fail_node e (filter (fun r => match r with TxTask => false | _ => true end = true) held).
Definition fail_enabled (e : open_env) (held : list resource) : list resource :=
  fail_tx e (filter (fun r => match r with Enabled => false | _ => true end = true) held).

(** [None] is a null pointer; the last component lists the resources still held. *)
Definition ps_can_open (cfg : option (Z * Z * Z)) (out_ok : bool) (e : open_env) :
    option ps_can_ctx * esp_err_t * list resource :=
  match cfg with
  | Some (id, ctl, rx_len) =>
    if negb out_ok then (None, ESP_ERR_INVALID_ARG, [])
    else if negb (calloc_ok e) then (None, ESP_ERR_NO_MEM, [])
    else
      let held := [Context] ++ (if rx_q_ok e then [RxQueue] else []) ++
                  (if free_q_ok e then [FreeQueue] else []) in
      if negb (rx_q_ok e) || negb (free_q_ok e) then (None, ESP_FAIL, fail e held)
      else if negb (new_node_ok e) then (None, ESP_FAIL, fail e held)
      else
        let held := Node :: held in
        if negb (register_ok e) then (None, ESP_FAIL, fail_node e held)
        else if negb (tx_task_ok e) then (None, ESP_FAIL, fail_node e held)
        else
          let held := TxTask :: held in
          if negb (enable_ok e) then (None, ESP_FAIL, fail_tx e held)
          else
            let held := Enabled :: held in
            if negb (rx_task_ok e) then (None, ESP_FAIL, fail_enabled e held)
            else (Some (ps_can_open_ctx id ctl rx_len), ESP_OK, RxTask :: held)
  | None => (None, ESP_ERR_INVALID_ARG, [])
  end.

#[export] Instance resource_dec : EqDecision resource.
Proof. solve_decision. Defined.

Definition give_back (r : resource) (held : list resource) : list resource :=
  filter (fun r' => r' <> r) held.

(** [ps_can_close] in its order: the flag ends both tasks within the 40 ms it waits (each
    of their waits is 20 ms), then the driver, the queues and the context go.  The answers
    of the driver are not looked at. *)
Definition ps_can_close (h : option ps_can_ctx) (held : list resource) :
    option ps_can_ctx * esp_err_t * list resource :=
  match h with
  | None => (None, ESP_ERR_INVALID_ARG, held)
  | Some _ =>
    let held := give_back RxTask (give_back TxTask held) in
    let held := give_back Enabled held in
    let held := give_back Node held in
    let held := give_back RxQueue held in
    let held := give_back FreeQueue held in
    (None, ESP_OK, give_back Context held)
  end.

(** The guards of [ps_can_send]. *)
Definition send_guard (c : ps_can_ctx) (f : ps_can_frame_t) : esp_err_t :=
  if (8 <? f_dlc f) || has (f_id f) (Z.lnot PS_CAN_ID_MASK) then ESP_ERR_INVALID_ARG
  else if link_state c =? PS_CAN_STATE_BUS_OFF then ESP_ERR_INVALID_STATE
  else ESP_OK.

Definition fill_slot (f : ps_can_frame_t) (s : ps_can_tx_slot_t) : ps_can_tx_slot_t :=
  {| sl_id := f_id f; sl_dlc := twaifd_len2dlc (f_dlc f); sl_ide := 1; sl_len := f_dlc f;
     sl_data := bput 0 (take (Z.to_nat (f_dlc f)) (f_data f)) (sl_data s) |}.

(** Taking a free slot and filling it, or the timeout. *)
Definition send_take (c : ps_can_ctx) (f : ps_can_frame_t) : ps_can_ctx * option Z :=
  let '(q, got) := xQueueReceive (free_slots c) in
  match got with
  | None => (count_timeout c, None)
  | Some slot =>
    let k := Z.to_nat slot in
    ({| c with free_slots := q; slots := <[k := fill_slot f (slots c !!! k)]> (slots c) |}, Some slot)
  end.

(** The critical section of [ps_can_send]. *)
Definition send_push (c : ps_can_ctx) (f : ps_can_frame_t) (slot : Z) : ps_can_ctx * bool :=
  let '(q, queued) := ps_can_txq_push (txq c) (ps_can_id_cls (f_id f)) slot in
  ({| c with txq := q |}, queued).

(** [None] is a null pointer. *)
Definition ps_can_send (h : option ps_can_ctx) (frame : option ps_can_frame_t) :
    option ps_can_ctx * esp_err_t :=
  match h, frame with
  | Some c, Some f =>
    match send_guard c f with
    | ESP_OK =>
      let '(c, got) := send_take c f in
      match got with
      | None => (Some c, ESP_ERR_TIMEOUT)
      | Some slot =>
        let '(c, queued) := send_push c f slot in
        if negb queued then (Some (count_timeout (release_slot c slot)), ESP_ERR_NO_MEM)
        else (Some c, ESP_OK)
      end
    | err => (Some c, err)
    end
  | _, _ => (h, ESP_ERR_INVALID_ARG)
  end.

Definition ps_can_register_class_cb (h : option ps_can_ctx) (cls : Z) (cb : option Z) :
    option ps_can_ctx * esp_err_t :=
  match h with
  | None => (None, ESP_ERR_INVALID_ARG)
  | Some c =>
    if PS_CAN_CLASS_COUNT <=? cls then (Some c, ESP_ERR_INVALID_ARG)
    else (Some {| c with cls_cb := <[Z.to_nat cls := cb]> (cls_cb c) |}, ESP_OK)
  end.

Definition ps_can_register_state_cb (h : option ps_can_ctx) (cb : option Z) :
    option ps_can_ctx * esp_err_t :=
  match h with
  | None => (None, ESP_ERR_INVALID_ARG)
  | Some c => (Some {| c with state_cb := cb |}, ESP_OK)
  end.

Definition ps_can_state (h : option ps_can_ctx) : Z :=
  match h with Some c => link_state c | None => PS_CAN_STATE_BUS_OFF end.

Definition ps_can_get_stats (h : option ps_can_ctx) (out : ps_can_stats_t) : ps_can_stats_t :=
  match h with Some c => stats c | None => out end.

(** ** Interleaving

    The state of the tasks between atomic sections: where the transmit task stands,
    the sends that hold a slot, and the tx-done interrupts that have claimed one. *)
Inductive tx_pc :=
  | TxWait                  (* ulTaskNotifyTake *)
  | TxLoop                  (* top of the inner loop *)
  | TxHave (slot : Z)       (* picked, about to call the driver *)
  | TxRefused (slot : Z)    (* the driver refused it *)
  | TxDrop (slot : Z)       (* tx_busy cleared, slot not yet released *)
  | TxFlush                 (* top of tx_flush's loop *)
  | TxFlushed (slot : Z).   (* taken by tx_flush, not yet released *)

Inductive sender := Filled (slot : Z) (f : ps_can_frame_t) | Unqueued (slot : Z).

Record sys := { ctx : ps_can_ctx; pc : tx_pc; senders : list sender; isr : list (Z * bool) }.

Inductive event :=
  | SendTake (f : ps_can_frame_t)        (* a send up to the slot it takes *)
  | SendPush (i : nat)                   (* sender i enters its critical section *)
  | SendRelease (i : nat)                (* sender i gives its slot back *)
  | TxWake | TxPop | TxTransmit (accepted : bool) | TxClear | TxRelease
  | FlushPop | FlushRelease
  | DoneClaim (slot : Z) (success : bool) | DoneRelease (i : nat)
  | RxDone (received : option (Z * Z * list Z))
  | StateChange (s : twai_error_state_t) | BusError
  | RxTurn (now_ms : Z) (recovered : bool).

(** One atomic section; [None] where it is not the next thing that can happen.  The
    driver may report any frame done at any time, also one it has not been given yet:
    a frame parked in its queue at a bus-off is sent after the recovery, from a slot
    that has been reclaimed and may be the one the transmit task holds. *)
Definition step (s : sys) (e : event) : option sys :=
  let c := ctx s in
  match e with
  | SendTake f =>
      match send_guard c f with
      | ESP_OK =>
        let '(c, got) := send_take c f in
        Some {| s with ctx := c;
                  senders := match got with Some k => Filled k f :: senders s | None => senders s end |}
      | _ => Some s
      end
  | SendPush i =>
      match senders s !! i with
      | Some (Filled k f) =>
        let '(c, queued) := send_push c f k in
        Some {| s with ctx := c;
                  senders := if queued then delete i (senders s) else <[i := Unqueued k]> (senders s) |}
      | _ => None
      end
  | SendRelease i =>
      match senders s !! i with
      | Some (Unqueued k) =>
        Some {| s with ctx := count_timeout (release_slot c k); senders := delete i (senders s) |}
      | _ => None
      end
  | TxWake =>
      match pc s with
      | TxWait => Some {| s with pc := if link_state c =? PS_CAN_STATE_BUS_OFF then TxFlush else TxLoop |}
      | _ => None
      end
  | TxPop =>
      match pc s with
      | TxLoop => let '(c, k) := tx_pop c in
                  Some {| s with ctx := c; pc := if k <? 0 then TxWait else TxHave k |}
      | _ => None
      end
  | TxTransmit accepted =>
      match pc s with
      | TxHave k => Some {| s with pc := if accepted then TxWait else TxRefused k |}
      | _ => None
      end
  | TxClear =>
      match pc s with
      | TxRefused k => Some {| s with ctx := tx_clear c; pc := TxDrop k |}
      | _ => None
      end
  | TxRelease =>
      match pc s with
      | TxDrop k => Some {| s with ctx := count_timeout (release_slot c (u8 k)); pc := TxLoop |}
      | _ => None
      end
  | FlushPop =>
      match pc s with
      | TxFlush => let '(c, k) := flush_pop c in
                   Some {| s with ctx := c; pc := if k <? 0 then TxWait else TxFlushed k |}
      | _ => None
      end
  | FlushRelease =>
      match pc s with
      | TxFlushed k => Some {| s with ctx := count_timeout (release_slot c (u8 k)); pc := TxFlush |}
      | _ => None
      end
  | DoneClaim k success =>
      let '(c', mine) := done_claim c k in
      Some {| s with ctx := c'; isr := if mine then (tx_slot c, success) :: isr s else isr s |}
  | DoneRelease i =>
      match isr s !! i with
      | Some (k, success) => Some {| s with ctx := done_finish c k success; isr := delete i (isr s) |}
      | None => None
      end
  | RxDone r => Some {| s with ctx := on_rx_done c r |}
  | StateChange st => Some {| s with ctx := on_state_change c (Some st) |}
  | BusError => Some {| s with ctx := on_error c |}
  | RxTurn now recovered => Some {| s with ctx := (rx_task_turn c now recovered).1.1 |}
  end.

Fixpoint exec (s : sys) (es : list event) : option sys :=
  match es with
  | [] => Some s
  | e :: es => match step s e with Some s => exec s es | None => None end
  end.

Definition opened (id ctl rx_len : Z) : sys :=
  {| ctx := ps_can_open_ctx id ctl rx_len; pc := TxWait; senders := []; isr := [] |}.

End Can.
