(* ===== verification/CanSpec.v ===== *)
(** What the CAN transport guarantees, over every interleaving of its senders, tasks
    and interrupts, with reports of the driver at any time: transmit slots are conserved
    up to a stale refusal, which is characterised exactly, and the highest class leaves
    first. *)
From S2P Require Import Prelude CanId Rtos Txq Can.

(** ** Counting *)

Abbreviation cnt := (count_occ Z.eq_dec).

Definition one (y x : Z) : nat := if Z.eq_dec y x then 1 else 0.

Lemma cnt_cons x y l : cnt (y :: l) x = (one y x + cnt l x)%nat.
Proof. cbn. unfold one. by destruct (Z.eq_dec y x). Qed.

(** Decides a permutation of lists of slots from permutations of the context, by
    counting the occurrences of each slot. *)
Ltac perm :=
  apply (proj2 (Permutation_count_occ Z.eq_dec _ _)); let x := fresh "x" in intros x;
  repeat match goal with
  | H : @Permutation Z _ _ |- _ =>
      pose proof (proj1 (Permutation_count_occ Z.eq_dec _ _) H x); clear H
  end;
  repeat (rewrite count_occ_app in * || rewrite cnt_cons in * || rewrite count_occ_nil in *); lia.

Lemma bind_move {A} (l : list nat) (f g : nat -> list A) k x : NoDup l -> k ∈ l ->
  f k ≡ₚ x :: g k -> (forall j, j ∈ l -> j <> k -> f j = g j) -> l ≫= f ≡ₚ x :: (l ≫= g).
Proof.
  induction l as [|a l IH]; intros Hd Hin Hk Heq; [by apply not_elem_of_nil in Hin|].
  apply list.NoDup_cons in Hd as [Ha Hd]. cbn [mbind list_bind]. destruct (decide (a = k)) as [->|Hne].
  - rewrite Hk. cbn [app]. f_equiv. f_equiv. clear -Heq Ha.
    assert (forall j, j ∈ l -> f j = g j) as H by (intros j Hj; apply Heq; [by right | by intros ->]).
    clear Heq Ha. induction l as [|b l IH]; [done|]. cbn. rewrite (H b) by left. f_equiv.
    apply IH. intros j Hj. apply H. by right.
  - rewrite (Heq a) by (done || left). rewrite IH; [|done| |done|].
    + by rewrite Permutation_middle.
    + apply elem_of_cons in Hin as [->|]; done.
    + intros j Hj. apply Heq. by right.
Qed.

Lemma elem_of_seq8 k : (k < 8)%nat -> k ∈ seq 0 8.
Proof. intros. apply elem_of_seq. lia. Qed.

Lemma pending_push q cls item q' : txq_wf q -> 0 <= cls < 8 ->
  ps_can_txq_push q cls item = (q', true) -> pending q' ≡ₚ item :: pending q.
Proof.
  intros Hwf Hc Hp. pose proof (txq_push_spec q cls item Hwf ltac:(lia)) as H. rewrite Hp in H.
  destruct H as (_ & _ & _ & H). specialize (H eq_refl).
  apply (bind_move _ _ _ (Z.to_nat cls)); [apply NoDup_seq | apply elem_of_seq8; lia| |].
  - rewrite H, decide_True by (done || lia). by rewrite Permutation_app_comm.
  - intros j Hj Hne. apply elem_of_seq in Hj. by rewrite H, decide_False by (done || lia).
Qed.

(** A push succeeds while fewer than sixteen items are pending. *)
Lemma push_room q cls item : txq_wf q -> 0 <= cls < 8 -> (length (pending q) < 16)%nat ->
  snd (ps_can_txq_push q cls item) = true.
Proof.
  intros Hwf Hc Hl. pose proof (txq_push_spec q cls item Hwf ltac:(lia)) as H.
  destruct (ps_can_txq_push q cls item) as [q' ok]. destruct H as (_ & -> & _). cbn [snd].
  apply andb_true_iff; split; [apply Z.ltb_lt; lia|]. apply Nat.ltb_lt.
  eapply Nat.le_lt_trans; [|done].
  assert (Z.to_nat cls ∈ seq 0 8) as Hin by (apply elem_of_seq8; lia).
  apply list_elem_of_split in Hin as (l1 & l2 & Hs). unfold pending. rewrite Hs, bind_app.
  cbn [mbind list_bind]. rewrite !length_app. lia.
Qed.

Lemma elem_of_pending q k : k ∈ pending q <-> exists j, (j < 8)%nat /\ k ∈ fifo q j.
Proof.
  unfold pending. rewrite list_elem_of_bind. split.
  - intros (j & Hk & Hj%elem_of_seq). exists j. split; [lia|done].
  - intros (j & Hj & Hk). exists j. split; [done|]. by apply elem_of_seq8.
Qed.

(** What a pop does, given items that are not negative. *)
Lemma pop_cases q : txq_wf q ->
  let '(q', r) := ps_can_txq_pop q in
  txq_wf q' /\
  ((r = -1 /\ q' = q /\ pending q = []) \/
   pending q ≡ₚ r :: pending q' /\
   exists j, (j < 8)%nat /\ r ∈ fifo q j /\
     (forall i k, (i < 8)%nat -> k ∈ fifo q' i -> k ∈ fifo q i) /\
     (forall i, (i < j)%nat -> fifo q i = [])).
Proof.
  intros Hwf. pose proof (pop_loop_spec q 0 8 Hwf eq_refl ltac:(lia)) as H.
  change (pop_loop q 0 8) with (ps_can_txq_pop q) in H.
  destruct (ps_can_txq_pop q) as [q' r]. destruct H as [Hwf' H]. split; [done|].
  destruct H as [(-> & -> & H)|(j & l & Hj & Hlow & Hjl & H)]; [left|right].
  - split_and!; try done. unfold pending.
    cbn [seq mbind list_bind]. by rewrite !H by lia.
  - split.
    + apply (bind_move _ _ _ j); [apply NoDup_seq | by apply elem_of_seq8| |].
      * by rewrite H, decide_True, Hjl.
      * intros i Hi%elem_of_seq Hne. by rewrite H, decide_False by (done || lia).
    + exists j. split_and!; try done.
      * rewrite Hjl. left.
      * intros i k Hi. rewrite H by done. case_decide; [subst; rewrite Hjl; by right | done].
Qed.

(** ** Ownership of the slots *)

Section CanSpec.
Context `{RtosQueue} `{TwaiDlc}.

Definition sender_slot (a : sender) : Z := match a with Filled k _ | Unqueued k => k end.

Definition pc_slots (p : tx_pc) : list Z :=
  match p with TxDrop k | TxFlushed k => [k] | _ => [] end.

Definition with_driver (c : ps_can_ctx) : list Z := if tx_busy c then [tx_slot c] else [].

(** Every place a slot index can be: free, waiting in the queue, with the driver, in
    the hands of the transmit task, of a sender or of an interrupt. *)
Definition owned (s : sys) : list Z :=
  waiting (free_slots (ctx s)) ++ pending (txq (ctx s)) ++ with_driver (ctx s) ++
  pc_slots (pc s) ++ (sender_slot <$> senders s) ++ (isr s).*1.

(** The slot the transmit task holds for the driver is a slot, and the one marked as
    handed over unless a report has taken the mark away. *)
Definition pc_ok (c : ps_can_ctx) (p : tx_pc) : Prop :=
  match p with
  | TxHave k | TxRefused k => 0 <= k < 16 /\ (tx_busy c = true -> tx_slot c = k)
  | _ => True
  end.

Record can_inv (s : sys) : Prop := {
  inv_txq : txq_wf (txq (ctx s));
  inv_slots : length (slots (ctx s)) = PS_CAN_TX_SLOTS;
  inv_cap : capacity (free_slots (ctx s)) = PS_CAN_TX_SLOTS;
  inv_owned : owned s ≡ₚ seqZ 0 16;
  inv_pc : pc_ok (ctx s) (pc s);
  inv_cls : forall j k, (j < 8)%nat -> k ∈ fifo (txq (ctx s)) j ->
    ps_can_id_cls (sl_id (slots (ctx s) !!! Z.to_nat k)) = Z.of_nat j;
  inv_send : forall k f, Filled k f ∈ senders s -> sl_id (slots (ctx s) !!! Z.to_nat k) = f_id f;
}.

Lemma owned_range s k : owned s ≡ₚ seqZ 0 16 -> k ∈ owned s -> 0 <= k < 16.
Proof. intros Hp. rewrite Hp, elem_of_seqZ. lia. Qed.

Lemma owned_nodup s : owned s ≡ₚ seqZ 0 16 -> NoDup (owned s).
Proof. intros ->. apply NoDup_seqZ. Qed.

Lemma owned_length s : owned s ≡ₚ seqZ 0 16 -> length (owned s) = 16%nat.
Proof. by intros ->. Qed.

(** Giving back a slot that is held elsewhere finds room in the free queue. *)
Lemma free_room s l : owned s ≡ₚ seqZ 0 16 -> owned s ≡ₚ waiting (free_slots (ctx s)) ++ l -> l <> [] ->
  capacity (free_slots (ctx s)) = PS_CAN_TX_SLOTS ->
  (length (waiting (free_slots (ctx s))) < capacity (free_slots (ctx s)))%nat.
Proof.
  intros Hp Hl Hne ->. apply owned_length in Hp. rewrite Hl, length_app in Hp.
  destruct l; [done|]. cbn [length] in Hp. unfold PS_CAN_TX_SLOTS. lia.
Qed.

(** The invariant depends on the transmit side only. *)
Definition same_tx (c c' : ps_can_ctx) : Prop :=
  txq c' = txq c /\ slots c' = slots c /\ free_slots c' = free_slots c /\
  tx_busy c' = tx_busy c /\ tx_slot c' = tx_slot c.

Lemma inv_same_tx s c' : can_inv s -> same_tx (ctx s) c' -> can_inv {| s with ctx := c' |}.
Proof.
  intros [Ht Hs Hc Ho Hp Hcl Hse] (Eq & Es & Ef & Eb & El).
  constructor; cbn [ctx pc senders isr]; unfold owned, with_driver, pc_ok in *; cbn [ctx pc senders isr];
    rewrite ?Eq, ?Es, ?Ef, ?Eb, ?El; done.
Qed.

Lemma rx_dispatch_same c f : same_tx c (rx_dispatch c f).1.
Proof. unfold rx_dispatch. ifs; [case_match|]; done. Qed.

Lemma same_tx_trans c1 c2 c3 : same_tx c1 c2 -> same_tx c2 c3 -> same_tx c1 c3.
Proof. unfold same_tx. intros (?&?&?&?&?) (?&?&?&?&?). split_and!; congruence. Qed.

Lemma report_pending_same c : same_tx c (report_pending c).1.
Proof. unfold report_pending. cbv zeta. destruct (_ <=? _); [destruct (_ =? _)|]; done. Qed.

Lemma recover_bus_off_same c now r : same_tx c (recover_bus_off c now r).
Proof.
  unfold recover_bus_off. do 2 (case_match; [|done]). cbv zeta. by destruct r; case_match.
Qed.

Lemma service_link_same c now r : same_tx c (service_link c now r).1.
Proof.
  unfold service_link. pose proof (report_pending_same c) as H1.
  destruct (report_pending c) as [c1 rep]. cbn [fst] in *.
  eauto using same_tx_trans, recover_bus_off_same.
Qed.

Lemma rx_receive_same c : same_tx c (rx_receive c).1.
Proof.
  unfold rx_receive. destruct (xQueueReceive (rx_q c)) as [q [f|]]; [|done].
  eapply same_tx_trans; [|apply rx_dispatch_same]. done.
Qed.

Lemma rx_turn_same c now r : same_tx c (rx_task_turn c now r).1.1.
Proof.
  unfold rx_task_turn. destruct (running c); [|done]. cbn [negb].
  pose proof (rx_receive_same c) as H1. destruct (rx_receive c) as [c1 call].
  pose proof (service_link_same c1 now r) as H2. destruct (service_link c1 now r) as [c2 rep].
  cbn [fst] in *. by eapply same_tx_trans.
Qed.

Lemma rx_done_same c r : same_tx c (on_rx_done c r).
Proof.
  destruct r as [[[id dlc] buf]|]; [|done]. unfold on_rx_done. cbv zeta.
  destruct (xQueueSend _ _) as [q ok]. by destruct ok.
Qed.

(** ** Preservation *)

(** Releasing slot [k] puts it among the free ones. *)
Lemma release_waiting s k l : can_inv s -> owned s ≡ₚ waiting (free_slots (ctx s)) ++ k :: l ->
  waiting (fst (xQueueSend (free_slots (ctx s)) k)) = waiting (free_slots (ctx s)) ++ [k].
Proof.
  intros [] Hl. apply send_room. by apply (free_room s (k :: l)).
Qed.

Lemma owned_u8 s k : owned s ≡ₚ seqZ 0 16 -> k ∈ owned s -> u8 k = k.
Proof. intros Hp Hk. apply owned_range in Hk; [clia|done]. Qed.

(** A slot taken from the free ones is none of the slots held elsewhere. *)
Lemma free_disjoint s k l j r : can_inv s -> waiting (free_slots (ctx s)) = k :: r ->
  owned s ≡ₚ waiting (free_slots (ctx s)) ++ l -> j ∈ l -> Z.to_nat k <> Z.to_nat j.
Proof.
  intros [_ _ _ Ho _ _ _] Hw Hl Hj Heq. pose proof (owned_nodup s Ho) as Hd.
  assert (k ∈ owned s) as Hk by (rewrite Hl, Hw; left).
  assert (j ∈ owned s) as Hj' by (rewrite Hl; apply elem_of_app; by right).
  apply owned_range in Hk; [|done]. apply owned_range in Hj'; [|done].
  assert (k = j) as -> by lia. rewrite Hl, Hw in Hd. cbn [app] in Hd.
  apply list.NoDup_cons in Hd as [Hd _]. apply Hd, elem_of_app. by right.
Qed.

Lemma inv_send_take s f s' : can_inv s -> step s (SendTake f) = Some s' -> can_inv s'.
Proof.
  intros Hinv. cbn [step]. destruct (send_guard (ctx s) f); try (by intros; simplify_eq).
  unfold send_take. pose proof (receive_some (free_slots (ctx s))) as Hr.
  pose proof (receive_waiting (free_slots (ctx s))) as Hw.
  pose proof (capacity_receive (free_slots (ctx s))) as Hcap.
  destruct (xQueueReceive (free_slots (ctx s))) as [q got]. cbn [fst snd] in *. subst got.
  destruct (waiting (free_slots (ctx s))) as [|k l] eqn:Hf; cbn [list.head tail] in *; intros [= <-].
  { by apply inv_same_tx. }
  assert (owned s ≡ₚ waiting (free_slots (ctx s)) ++
    (pending (txq (ctx s)) ++ with_driver (ctx s) ++ pc_slots (pc s) ++
    (sender_slot <$> senders s) ++ (isr s).*1)) as Hall by (by unfold owned).
  pose proof (fun j => free_disjoint s k _ j l Hinv Hf Hall) as Hdis.
  destruct Hinv as [Ht Hs Hc Ho Hp Hcl Hse].
  assert (0 <= k < 16) as Hk by (eapply owned_range; [done|]; rewrite Hall, Hf; left).
  constructor; cbn [ctx pc senders isr txq slots free_slots tx_busy tx_slot];
    rewrite ?length_insert; try done.
  - by rewrite Hcap.
  - unfold owned, with_driver in *. cbn [ctx pc senders isr txq slots free_slots tx_busy tx_slot].
    rewrite Hw. rewrite Hf in Ho. cbn [fmap list_fmap sender_slot]. rewrite <- Ho. perm.
  - intros j k' Hj Hin. rewrite list_lookup_total_insert_ne; [by apply Hcl|].
    apply Hdis, elem_of_app. left. apply elem_of_pending. eauto.
  - intros k' f' [Heq|Hin]%elem_of_cons.
    + simplify_eq. rewrite list_lookup_total_insert_eq; [done|]. rewrite Hs. unfold PS_CAN_TX_SLOTS. lia.
    + rewrite list_lookup_total_insert_ne; [by apply Hse|]. apply Hdis.
      rewrite !elem_of_app. do 3 right. left. apply list_elem_of_fmap. by exists (Filled k' f').
Qed.

Lemma senders_delete (ss : list sender) i a : ss !! i = Some a ->
  sender_slot <$> ss ≡ₚ sender_slot a :: (sender_slot <$> delete i ss).
Proof. intros Hi. by rewrite (delete_Permutation ss i a Hi) at 1. Qed.

(** In every reachable state the ring of a class has room for the slot a sender holds. *)
Lemma push_queued s i k f : can_inv s -> senders s !! i = Some (Filled k f) ->
  (send_push (ctx s) f k).2 = true.
Proof.
  intros [Ht Hs Hc Ho Hp Hcl Hse] Hi. unfold send_push.
  pose proof (push_room (txq (ctx s)) (ps_can_id_cls (f_id f)) k Ht (cls_range _)) as Hroom.
  destruct (ps_can_txq_push _ _ _) as [q ok]. apply Hroom.
  pose proof (owned_length s Ho) as Hlen. unfold owned in Hlen.
  rewrite (senders_delete _ _ _ Hi) in Hlen. rewrite !length_app in Hlen. cbn [length] in Hlen. lia.
Qed.

Lemma inv_send_push s i s' : can_inv s -> step s (SendPush i) = Some s' -> can_inv s'.
Proof.
  intros Hinv. cbn [step]. destruct (senders s !! i) as [[k f|k]|] eqn:Hi; try done.
  pose proof (push_queued s i k f Hinv Hi) as Hq. unfold send_push in *.
  destruct Hinv as [Ht Hs Hc Ho Hp Hcl Hse].
  pose proof (txq_push_spec (txq (ctx s)) (ps_can_id_cls (f_id f)) k Ht ltac:(apply cls_range)) as Hpush.
  pose proof (pending_push (txq (ctx s)) (ps_can_id_cls (f_id f)) k) as Hpend.
  destruct (ps_can_txq_push _ _ _) as [q ok]. cbn [snd] in Hq. subst ok. intros [= <-].
  destruct Hpush as (Hwf & _ & _ & Hfifo). specialize (Hfifo eq_refl).
  specialize (Hpend q Ht (cls_range _) eq_refl).
  constructor; cbn [ctx pc senders isr txq slots free_slots tx_busy tx_slot]; try done.
  - unfold owned, with_driver in *. cbn [ctx pc senders isr txq slots free_slots tx_busy tx_slot].
    rewrite Hpend. rewrite (senders_delete _ _ _ Hi) in Ho. cbn [sender_slot] in Ho.
    rewrite <- Ho. perm.
  - intros j k' Hj. rewrite Hfifo by done. case_decide; [|by apply Hcl].
    subst j. intros [Hin | ->%list_elem_of_singleton]%elem_of_app; [by apply Hcl|].
    rewrite (Hse k f) by (by eapply list_elem_of_lookup_2). pose proof (cls_range (f_id f)). lia.
  - intros k' f' Hin. apply Hse. by eapply elem_of_submseteq, submseteq_delete.
Qed.

(** A held slot put back on the free queue. *)
Lemma inv_release s c' p' ss' is' k : can_inv s ->
  txq c' = txq (ctx s) -> slots c' = slots (ctx s) -> tx_busy c' = tx_busy (ctx s) ->
  tx_slot c' = tx_slot (ctx s) -> free_slots c' = fst (xQueueSend (free_slots (ctx s)) k) ->
  pc_slots (pc s) ++ (sender_slot <$> senders s) ++ (isr s).*1 ≡ₚ
    k :: pc_slots p' ++ (sender_slot <$> ss') ++ is'.*1 ->
  pc_ok (ctx s) p' ->
  (forall j f, Filled j f ∈ ss' -> Filled j f ∈ senders s) ->
  can_inv {| ctx := c'; pc := p'; senders := ss'; isr := is' |}.
Proof.
  intros Hinv Eq Es Eb El Ef Hown Hp' Hse'.
  assert (owned s ≡ₚ waiting (free_slots (ctx s)) ++ k :: (pending (txq (ctx s)) ++
    with_driver (ctx s) ++ pc_slots p' ++ (sender_slot <$> ss') ++ is'.*1)) as Hall
    by (unfold owned; perm).
  pose proof (release_waiting s k _ Hinv Hall) as Hw. destruct Hinv as [Ht Hs Hc Ho Hp Hcl Hse].
  constructor; cbn [ctx pc senders isr]; unfold owned, with_driver, pc_ok in *;
    cbn [ctx pc senders isr]; rewrite ?Eq, ?Es, ?Ef, ?Eb, ?El; try done.
  - by rewrite capacity_send.
  - rewrite Hw, <- Ho. perm.
  - intros j f Hin. by apply Hse, Hse'.
Qed.

Lemma inv_send_release s i s' : can_inv s -> step s (SendRelease i) = Some s' -> can_inv s'.
Proof.
  intros Hinv. cbn [step]. destruct (senders s !! i) as [[k f|k]|] eqn:Hi; try done. intros [= <-].
  apply (inv_release s _ _ _ _ k Hinv); try done.
  - rewrite (senders_delete _ _ _ Hi). cbn [sender_slot]. perm.
  - apply (inv_pc s Hinv).
  - intros j f Hin. by eapply elem_of_submseteq, submseteq_delete.
Qed.

Lemma inv_done_release s i s' : can_inv s -> step s (DoneRelease i) = Some s' -> can_inv s'.
Proof.
  intros Hinv. cbn [step]. destruct (isr s !! i) as [[k success]|] eqn:Hi; [|done]. intros [= <-].
  apply (inv_release s _ _ _ _ k Hinv); try (by destruct success).
  - rewrite (delete_Permutation _ _ _ Hi) at 1. cbn [fmap list_fmap fst]. perm.
  - apply (inv_pc s Hinv).
Qed.

Lemma pc_owned_u8 s k : can_inv s -> pc_slots (pc s) = [k] -> u8 k = k.
Proof.
  intros [] Hk. apply (owned_u8 s); [done|]. unfold owned. rewrite !elem_of_app, Hk.
  do 3 right. left. left.
Qed.

Lemma inv_tx_release s s' : can_inv s -> step s TxRelease = Some s' -> can_inv s'.
Proof.
  intros Hinv. cbn [step]. destruct (pc s) as [| | | |k| |] eqn:Hpc; try done. intros [= <-].
  apply (inv_release s _ _ _ _ k Hinv); try done.
  - by rewrite (pc_owned_u8 s k Hinv) by (by rewrite Hpc).
  - by rewrite Hpc.
Qed.

Lemma inv_flush_release s s' : can_inv s -> step s FlushRelease = Some s' -> can_inv s'.
Proof.
  intros Hinv. cbn [step]. destruct (pc s) as [| | | | | |k] eqn:Hpc; try done. intros [= <-].
  apply (inv_release s _ _ _ _ k Hinv); try done.
  - by rewrite (pc_owned_u8 s k Hinv) by (by rewrite Hpc).
  - by rewrite Hpc.
Qed.

(** A slot moved among the queue, the driver, the transmit task and the interrupts. *)
Lemma inv_move s c' p' is' : can_inv s -> txq_wf (txq c') -> slots c' = slots (ctx s) ->
  free_slots c' = free_slots (ctx s) ->
  pending (txq (ctx s)) ++ with_driver (ctx s) ++ pc_slots (pc s) ++ (isr s).*1 ≡ₚ
    pending (txq c') ++ with_driver c' ++ pc_slots p' ++ is'.*1 ->
  pc_ok c' p' ->
  (forall i k, (i < 8)%nat -> k ∈ fifo (txq c') i -> k ∈ fifo (txq (ctx s)) i) ->
  can_inv {| ctx := c'; pc := p'; senders := senders s; isr := is' |}.
Proof.
  intros [Ht Hs Hc Ho Hp Hcl Hse] Hwf Es Ef Hown Hp' Hsub.
  constructor; cbn [ctx pc senders isr]; rewrite ?Es, ?Ef; try done.
  - unfold owned in *. cbn [ctx pc senders isr]. rewrite Ef, <- Ho. perm.
  - intros j k Hj Hk. apply Hcl; [done|]. by apply Hsub.
Qed.

Lemma inv_tx_pop s s' : can_inv s -> step s TxPop = Some s' -> can_inv s'.
Proof.
  intros Hinv. cbn [step]. destruct (pc s) eqn:Hpc; try done. unfold tx_pop.
  pose proof (pop_cases (txq (ctx s)) (inv_txq s Hinv)) as Hpop.
  destruct (tx_busy (ctx s)) eqn:Hb; cbn [negb].
  { intros [= <-]. apply inv_move; try done; [apply (inv_txq s Hinv)|]. by rewrite Hpc. }
  destruct (ps_can_txq_pop (txq (ctx s))) as [q k].
  destruct Hpop as [Hwf [(-> & -> & Hnil)|(Hperm & j & Hj & Hin & Hsub & _)]].
  { cbn. intros [= <-]. apply inv_move; try done. unfold with_driver. cbn. by rewrite Hpc, Hb. }
  assert (0 <= k < 16) as Hk.
  { apply (owned_range s); [apply (inv_owned s Hinv)|]. unfold owned. rewrite Hperm, !elem_of_app. right; left; left. }
  destruct (Z.leb_spec 0 k); [|lia]. destruct (Z.ltb_spec k 0); [lia|]. intros [= <-].
  apply inv_move; try done.
  - rewrite Hpc. unfold with_driver. cbn [txq tx_busy tx_slot pc_slots]. rewrite Hb.
    replace (u8 k) with k by clia. perm.
  - cbn [pc_ok tx_busy tx_slot]. split; [done|]. intros _. clia.
Qed.

Lemma inv_flush_pop s s' : can_inv s -> step s FlushPop = Some s' -> can_inv s'.
Proof.
  intros Hinv. cbn [step]. destruct (pc s) eqn:Hpc; try done. unfold flush_pop.
  pose proof (pop_cases (txq (ctx s)) (inv_txq s Hinv)) as Hpop.
  destruct (ps_can_txq_pop (txq (ctx s))) as [q k]. cbn [tx_busy tx_slot].
  destruct Hpop as [Hwf [(-> & -> & Hnil)|(Hperm & j & Hj & Hin & Hsub & _)]].
  - cbn [Z.ltb Z.compare andb]. destruct (tx_busy (ctx s)) eqn:Hb.
    + assert (0 <= tx_slot (ctx s) < 16) as Hk.
      { apply (owned_range s); [apply (inv_owned s Hinv)|]. unfold owned, with_driver. rewrite Hb, !elem_of_app.
        right; right; left; left. }
      destruct (Z.ltb_spec (tx_slot (ctx s)) 0); [lia|]. intros [= <-].
      apply inv_move; try done. rewrite Hpc. unfold with_driver. cbn [txq tx_busy tx_slot pc_slots].
      rewrite Hb. perm.
    + cbn. intros [= <-]. apply inv_move; try done. unfold with_driver. cbn. by rewrite Hpc, Hb.
  - assert (0 <= k < 16) as Hk.
    { apply (owned_range s); [apply (inv_owned s Hinv)|]. unfold owned. rewrite Hperm, !elem_of_app. right; left; left. }
    destruct (Z.ltb_spec k 0); [lia|]. cbn [andb]. destruct (Z.ltb_spec k 0); [lia|]. intros [= <-].
    apply inv_move; try done. rewrite Hpc. unfold with_driver. cbn [txq tx_busy tx_slot pc_slots]. perm.
Qed.

(** The step after which a slot is in two places: the transmit task drops a frame the
    driver has refused, of a slot whose frame has been reported done in between. *)
Definition stale_refusal (s : sys) (e : event) : bool :=
  match e, pc s with TxClear, TxRefused _ => negb (tx_busy (ctx s)) | _, _ => false end.

Fixpoint no_stale_refusal (s : sys) (es : list event) : bool :=
  match es with
  | [] => true
  | e :: es =>
    negb (stale_refusal s e) &&
    match step s e with Some s' => no_stale_refusal s' es | None => true end
  end.

Lemma inv_tx_clear s s' : can_inv s -> stale_refusal s TxClear = false ->
  step s TxClear = Some s' -> can_inv s'.
Proof.
  intros Hinv. cbn [step]. unfold stale_refusal. pose proof (inv_pc s Hinv) as Hp.
  destruct (pc s) as [| | |k| | |] eqn:Hpc; try done. intros Hb%negb_false_iff [= <-].
  destruct Hp as [_ Hk]. apply inv_move; try done; [apply (inv_txq s Hinv)|].
  rewrite Hpc. unfold with_driver. cbn [txq tx_busy tx_slot pc_slots tx_clear].
  rewrite Hb, (Hk Hb). perm.
Qed.

Lemma stale_refusal_twice s s' : can_inv s -> stale_refusal s TxClear = true ->
  step s TxClear = Some s' -> exists k, pc s = TxRefused k /\ owned s' ≡ₚ k :: owned s /\ k ∈ owned s.
Proof.
  intros Hinv. cbn [step]. unfold stale_refusal. pose proof (inv_pc s Hinv) as Hp.
  destruct (pc s) as [| | |k| | |] eqn:Hpc; try done. intros Hb%negb_true_iff [= <-].
  exists k. split_and!; [done| |].
  - unfold owned, with_driver. cbn [ctx pc senders isr txq free_slots tx_busy tx_slot pc_slots tx_clear].
    rewrite Hpc, Hb. cbn [pc_slots]. perm.
  - rewrite (inv_owned s Hinv). apply elem_of_seqZ. destruct Hp. lia.
Qed.

Lemma inv_done_claim s k ok s' : can_inv s -> step s (DoneClaim k ok) = Some s' -> can_inv s'.
Proof.
  intros Hinv. cbn [step]. unfold done_claim.
  destruct (tx_busy (ctx s)) eqn:Hb; cbn [andb]; cycle 1.
  { intros [= <-]. by apply inv_same_tx. }
  destruct (Z.eqb_spec k (tx_slot (ctx s))) as [->|]; intros [= <-]; [|by apply inv_same_tx].
  apply inv_move; try done; [apply (inv_txq s Hinv)| |].
  - unfold with_driver. cbn [txq tx_busy tx_slot fmap list_fmap fst]. rewrite Hb. perm.
  - pose proof (inv_pc s Hinv) as Hp. unfold pc_ok in *. cbn [tx_busy tx_slot].
    destruct (pc s); try done; by destruct Hp.
Qed.

Lemma inv_tx_wake s s' : can_inv s -> step s TxWake = Some s' -> can_inv s'.
Proof.
  intros Hinv. cbn [step]. destruct (pc s) eqn:Hpc; try done. intros [= <-].
  apply inv_move; try done; [apply (inv_txq s Hinv)| |]; destruct (_ =? _); by rewrite ?Hpc.
Qed.

Lemma inv_transmit s a s' : can_inv s -> step s (TxTransmit a) = Some s' -> can_inv s'.
Proof.
  intros Hinv. cbn [step]. pose proof (inv_pc s Hinv) as Hp.
  destruct (pc s) as [| |k| | | |] eqn:Hpc; try done. intros [= <-].
  apply inv_move; try done; [apply (inv_txq s Hinv)| |]; destruct a; by rewrite ?Hpc.
Qed.

Lemma inv_step s e s' : can_inv s -> stale_refusal s e = false -> step s e = Some s' -> can_inv s'.
Proof.
  intros Hinv Hst. destruct e.
  1: by apply inv_send_take. 1: by apply inv_send_push. 1: by apply inv_send_release.
  1: by apply inv_tx_wake. 1: by apply inv_tx_pop. 1: by apply inv_transmit.
  1: by apply inv_tx_clear. 1: by apply inv_tx_release. 1: by apply inv_flush_pop.
  1: by apply inv_flush_release. 1: by apply inv_done_claim. 1: by apply inv_done_release.
  all: cbn [step]; intros [= <-]; apply inv_same_tx; try done.
  - apply rx_done_same.
  - apply rx_turn_same.
Qed.

Lemma inv_exec es s s' : can_inv s -> no_stale_refusal s es = true -> exec s es = Some s' ->
  can_inv s'.
Proof.
  revert s. induction es as [|e es IH]; intros s Hinv; cbn [exec no_stale_refusal]; [by intros _ [= <-]|].
  destruct (step s e) eqn:He; [|done]. intros [Hst%negb_true_iff Hns]%andb_true_iff.
  eauto using inv_step.
Qed.

Lemma inv_opened id ctl rx_len : can_inv (opened id ctl rx_len).
Proof.
  destruct (foldl_send (xQueueCreate PS_CAN_TX_SLOTS) (seqZ 0 (Z.of_nat PS_CAN_TX_SLOTS))) as [Hw Hc].
  { by rewrite waiting_create, capacity_create, length_seqZ. }
  rewrite waiting_create in Hw. rewrite capacity_create in Hc.
  constructor; try done; cbn [opened ctx pc senders isr ps_can_open_ctx txq slots free_slots].
  - apply txq_init_wf.
  - unfold owned. cbn [opened ctx pc senders isr ps_can_open_ctx txq slots free_slots].
    by rewrite Hw, txq_init_empty.
  - intros j k Hj Hk. exfalso. apply (not_elem_of_nil k). rewrite <- txq_init_empty.
    apply elem_of_pending. eauto.
  - intros k f Hin. by apply not_elem_of_nil in Hin.
Qed.

Lemma inv_reached id ctl rx_len es s : exec (opened id ctl rx_len) es = Some s ->
  no_stale_refusal (opened id ctl rx_len) es = true -> can_inv s.
Proof. intros He Hns. exact (inv_exec _ _ _ (inv_opened id ctl rx_len) Hns He). Qed.


(** The send that got a slot is never refused by the queue: in every reachable
    state the critical section of a sender succeeds, as the comment in [ps_can_send]
    claims, whatever the other tasks did in between. *)
Theorem can_push_never_fails id ctl rx_len es s i k f :
  exec (opened id ctl rx_len) es = Some s -> no_stale_refusal (opened id ctl rx_len) es = true ->
  senders s !! i = Some (Filled k f) -> (send_push (ctx s) f k).2 = true.
Proof. intros He Hns. apply push_queued. by eapply inv_reached. Qed.

(** The slot the transmit task picks has the highest class of all that wait. *)
Lemma tx_pop_class s c' k : can_inv s -> tx_pop (ctx s) = (c', k) -> 0 <= k ->
  Forall (fun j => ps_can_id_cls (sl_id (slots c' !!! Z.to_nat k)) <=
                   ps_can_id_cls (sl_id (slots c' !!! Z.to_nat j))) (pending (txq c')).
Proof.
  intros Hinv. unfold tx_pop. destruct (tx_busy (ctx s)); cbn [negb]; [intros; simplify_eq; lia|].
  pose proof (pop_cases (txq (ctx s)) (inv_txq s Hinv)) as Hpop.
  destruct (ps_can_txq_pop (txq (ctx s))) as [q r].
  destruct Hpop as [Hwf [(-> & -> & Hnil)|(Hperm & j & Hj & Hin & Hsub & Hlow)]];
    [cbn; intros; simplify_eq; lia|].
  intros Heq Hk. assert (r = k) as -> by (case_match; congruence).
  destruct (Z.leb_spec 0 k); [|lia]. simplify_eq. cbn [slots txq].
  apply list.Forall_forall. intros i Hi. apply elem_of_pending in Hi as (ci & Hci & Hi).
  apply Hsub in Hi; [|done]. rewrite (inv_cls s Hinv j k), (inv_cls s Hinv ci i) by done.
  destruct (decide (ci < j)%nat) as [Hlt|]; [|lia].
  rewrite Hlow in Hi by done. by apply not_elem_of_nil in Hi.
Qed.

(** C6: In every state reached without a stale refusal (with late reports of the driver
    at any point), the frame the transmit task picks for the driver has the highest
    priority class of all the frames that wait: a SAFETY frame never queues behind the
    node's own telemetry. *)
Theorem can_highest_class_first id ctl rx_len es s s' k :
  exec (opened id ctl rx_len) es = Some s -> no_stale_refusal (opened id ctl rx_len) es = true ->
  step s TxPop = Some s' -> pc s' = TxHave k ->
  let slot_cls j := ps_can_id_cls (sl_id (slots (ctx s') !!! Z.to_nat j)) in
  Forall (fun j => slot_cls k <= slot_cls j) (pending (txq (ctx s'))).
Proof.
  intros He Hns Hs Hk. pose proof (inv_reached _ _ _ _ _ He Hns) as Hinv.
  cbn [step] in Hs. destruct (pc s); try done. destruct (tx_pop (ctx s)) as [c' j] eqn:Hpop.
  simplify_eq. cbn [pc] in Hk. destruct (Z.ltb_spec j 0); [done|]. simplify_eq.
  cbn [ctx]. by apply (tx_pop_class s).
Qed.

End CanSpec.
