(* ===== verification/CanOps.v ===== *)
(** The routines of the CAN transport as wholes: what a send does on every branch,
    that the bus-off flush terminates and empties the transport's queue, that the payload
    of a frame in flight is stable, the recovery backoff, the error paths of
    [ps_can_open], and [ps_can_close]. *)
From S2P Require Import Prelude CanId Rtos Txq Can CanSpec.

Section CanOps.
Context `{RtosQueue} `{TwaiDlc}.

(** ** Payloads in flight *)

Definition in_flight (s : sys) : list Z := pending (txq (ctx s)) ++ with_driver (ctx s).

Lemma send_push_slots c f k : slots (send_push c f k).1 = slots c.
Proof. unfold send_push. by destruct (ps_can_txq_push _ _ _). Qed.
Lemma tx_pop_slots c : slots (tx_pop c).1 = slots c.
Proof.
  unfold tx_pop. destruct (negb _); [|done]. destruct (ps_can_txq_pop (txq c)). by destruct (_ <=? _).
Qed.
Lemma flush_pop_slots c : slots (flush_pop c).1 = slots c.
Proof. unfold flush_pop. destruct (ps_can_txq_pop (txq c)). by destruct (_ && _). Qed.
Lemma done_claim_slots c k : slots (done_claim c k).1 = slots c.
Proof. unfold done_claim. by case_match. Qed.
Lemma done_finish_slots c k b : slots (done_finish c k b) = slots c.
Proof. by destruct b. Qed.

(** Only taking a slot for a new frame writes to the slots. *)
Lemma slots_step_other s e s' : (forall f, e <> SendTake f) -> step s e = Some s' ->
  slots (ctx s') = slots (ctx s).
Proof.
  intros Hne Hs. destruct e as [f|i| | | | | | | | |k b| | | | |]; cbn [step] in Hs; [by destruct (Hne f)|..];
    try (repeat case_match; by simplify_eq).
  - destruct (senders s !! i) as [[k f|]|]; try done. pose proof (send_push_slots (ctx s) f k) as Hp.
    destruct (send_push (ctx s) f k). by simplify_eq.
  - destruct (pc s); try done. pose proof (tx_pop_slots (ctx s)) as Hp.
    destruct (tx_pop (ctx s)). by simplify_eq.
  - destruct (pc s); try done. pose proof (flush_pop_slots (ctx s)) as Hp.
    destruct (flush_pop (ctx s)). by simplify_eq.
  - pose proof (done_claim_slots (ctx s) k) as Hp. destruct (done_claim (ctx s) k). by simplify_eq.
  - case_match; [|done]. case_match. simplify_eq. apply done_finish_slots.
  - simplify_eq. apply rx_done_same.
  - simplify_eq. apply rx_turn_same.
Qed.

Lemma slots_step s e s' : can_inv s -> step s e = Some s' -> forall k, k ∈ in_flight s ->
  slots (ctx s') !!! Z.to_nat k = slots (ctx s) !!! Z.to_nat k.
Proof.
  intros Hinv Hs k Hk.
  assert ((exists f, e = SendTake f) \/ forall f, e <> SendTake f) as [[f ->]|Hne]
    by (destruct e; eauto); cycle 1.
  { by rewrite (slots_step_other s e s'). }
  cbn [step] in Hs. destruct (send_guard (ctx s) f); try (by simplify_eq).
  unfold send_take in Hs. pose proof (receive_some (free_slots (ctx s))) as Hr.
  destruct (xQueueReceive (free_slots (ctx s))) as [q got]. cbn [snd] in Hr. subst got.
  destruct (waiting (free_slots (ctx s))) as [|j l] eqn:Hf; cbn [list.head] in Hs; simplify_eq; [done|].
  cbn [ctx slots]. apply list_lookup_total_insert_ne.
  eapply (free_disjoint s j _ k l Hinv Hf); [by unfold owned|].
  unfold in_flight in Hk. rewrite !elem_of_app in *. tauto.
Qed.

(** The driver does not copy payloads, so a slot's contents must not change while
    the frame is in flight.  Over every interleaving, a frame that waits in the queue
    or is with the driver keeps its identifier, length and bytes at every step. *)
Theorem can_payload_stable id ctl rx_len es s e s' k :
  exec (opened id ctl rx_len) es = Some s -> no_stale_refusal (opened id ctl rx_len) es = true ->
  step s e = Some s' -> k ∈ in_flight s ->
  slots (ctx s') !!! Z.to_nat k = slots (ctx s) !!! Z.to_nat k.
Proof. intros He Hns Hs. apply (slots_step s e s'); [|done]. by eapply inv_reached. Qed.

(** ** The bus-off flush *)

Definition flush_events (n : nat) : list event :=
  mjoin (replicate n [FlushPop; FlushRelease]) ++ [FlushPop].

Lemma flush_pop_cases s : can_inv s ->
  let '(c, k) := flush_pop (ctx s) in
  stats c = stats (ctx s) /\ free_slots c = free_slots (ctx s) /\
  ((k = -1 /\ in_flight s = [] /\ pending (txq c) = [] /\ tx_busy c = false) \/
   (0 <= k /\ in_flight s ≡ₚ k :: pending (txq c) ++ with_driver c)).
Proof.
  intros Hinv. unfold flush_pop, in_flight, with_driver.
  pose proof (pop_cases (txq (ctx s)) (inv_txq s Hinv)) as Hpop.
  destruct (ps_can_txq_pop (txq (ctx s))) as [q k]. cbn [tx_busy tx_slot].
  destruct Hpop as [Hwf [(-> & -> & Hnil)|(Hperm & _)]].
  - cbn [Z.ltb Z.compare andb]. rewrite Hnil. destruct (tx_busy (ctx s)) eqn:Hb.
    + split; [done|]. split; [done|]. right. cbn [txq tx_busy tx_slot]. rewrite Hnil. split; [|done].
      apply (owned_range s (tx_slot (ctx s)) (inv_owned s Hinv)).
      unfold owned, with_driver. rewrite Hb, !elem_of_app. right; right; left; left.
    + split; [done|]. split; [done|]. left. by cbn [txq tx_busy].
  - assert (0 <= k) as Hk.
    { apply (owned_range s k (inv_owned s Hinv)). unfold owned.
      rewrite Hperm, !elem_of_app. right; left; left. }
    destruct (Z.ltb_spec k 0); [lia|]. cbn [andb]. split; [done|]. split; [done|]. right. cbn [txq tx_busy tx_slot].
    split; [done|]. by rewrite Hperm.
Qed.

(** [tx_flush] run to its end is the interleaving in which nothing else happens. *)
Lemma flush_runs n s : can_inv s -> pc s = TxFlush -> length (in_flight s) = n ->
  exists c', tx_flush (S n) (ctx s) = Some c' /\
    exec s (flush_events n) = Some {| s with ctx := c'; pc := TxWait |} /\
    pending (txq c') = [] /\ tx_busy c' = false /\
    waiting (free_slots c') ≡ₚ waiting (free_slots (ctx s)) ++ in_flight s /\
    u32 (tx_timeouts (stats c')) = u32 (tx_timeouts (stats (ctx s)) + Z.of_nat n).
Proof.
  revert s. induction n as [|n IH]; intros s Hinv Hpc Hlen.
  - pose proof (flush_pop_cases s Hinv) as Hc. cbn [tx_flush flush_events replicate mjoin list_join app].
    cbn [exec step]. rewrite Hpc. destruct (flush_pop (ctx s)) as [c k].
    destruct Hc as (Hst & Hfr & [(-> & Hnil & Hp & Hb)|(Hk & Hperm)]).
    + exists c. split_and!; try done; [by rewrite Hfr, Hnil, app_nil_r|]. rewrite Hst. f_equal. lia.
    + by rewrite Hperm in Hlen.
  - pose proof (flush_pop_cases s Hinv) as Hc.
    assert (step s FlushPop = Some {| s with ctx := (flush_pop (ctx s)).1;
      pc := if (flush_pop (ctx s)).2 <? 0 then TxWait else TxFlushed (flush_pop (ctx s)).2 |}) as Hs1
      by (cbn [step]; rewrite Hpc; by destruct (flush_pop (ctx s))).
    change (flush_events (S n)) with (FlushPop :: FlushRelease :: flush_events n).
    cbn [exec]. rewrite Hs1. cbn [tx_flush]. destruct (flush_pop (ctx s)) as [c k].
    cbn [fst snd] in *. destruct Hc as (Hst & Hfr & [(-> & Hnil & _)|(Hk & Hperm)]).
    { by rewrite Hnil in Hlen. }
    destruct (Z.ltb_spec k 0); [lia|]. pose proof (inv_step s FlushPop _ Hinv eq_refl Hs1) as Hinv1.
    assert (step {| s with ctx := c; pc := TxFlushed k |} FlushRelease =
      Some {| s with ctx := count_timeout (release_slot c (u8 k)); pc := TxFlush |}) as Hs2 by done.
    pose proof (inv_step _ FlushRelease _ Hinv1 eq_refl Hs2) as Hinv2. rewrite Hs2.
    destruct (IH _ Hinv2) as (c' & Hf & He & Hp & Hb & Hfree & Ht); [done| |].
    { rewrite Hperm in Hlen. cbn in Hlen. injection Hlen as <-. done. }
    exists c'. split_and!; try done.
    { rewrite Hfree, Hperm. pose proof (pc_owned_u8 _ k Hinv1 eq_refl) as Hu.
      pose proof (release_waiting _ (u8 k)
        (pending (txq c) ++ with_driver c ++ (sender_slot <$> senders s) ++ (isr s).*1) Hinv1) as Hw.
      cbn [ctx count_timeout release_slot free_slots] in *. rewrite Hw, Hfr, Hu.
      - change (in_flight _) with (pending (txq c) ++ with_driver c). perm.
      - rewrite Hu. unfold owned. cbn [ctx pc senders isr pc_slots]. perm. }
    rewrite Ht. cbn [ctx stats tx_timeouts count_timeout release_slot inc].
    rewrite Hst. unfold inc. clia.
Qed.

Lemma in_flight_bound s : can_inv s -> (length (in_flight s) <= 16)%nat.
Proof.
  intros Hinv. pose proof (owned_length s (inv_owned s Hinv)) as Hl.
  unfold owned in Hl. unfold in_flight. rewrite !length_app in *. lia.
Qed.

Lemma tx_flush_mono n m c c' : (n <= m)%nat -> tx_flush n c = Some c' -> tx_flush m c = Some c'.
Proof.
  revert m c. induction n as [|n IH]; intros [|m] c Hle; cbn [tx_flush]; try done; [lia|].
  destruct (flush_pop c) as [c1 k]. case_match; [done|]. apply IH. lia.
Qed.


(** ** A send, on every branch *)

Lemma id_mask_has id : is_u32 id -> has id (Z.lnot PS_CAN_ID_MASK) = (0x20000000 <=? id).
Proof.
  intros Hid. unfold has. rewrite <- Z.ldiff_land. change PS_CAN_ID_MASK with (Z.ones 29).
  rewrite Z.ldiff_ones_r by done. rewrite Z.shiftl_mul_pow2, Z.shiftr_div_pow2 by done.
  change (2 ^ 29) with 536870912. destruct (Z.leb_spec 536870912 id); clia.
Qed.

Definition send_error (c : ps_can_ctx) (f : ps_can_frame_t) : esp_err_t :=
  if (8 <? f_dlc f) || (0x20000000 <=? f_id f) then ESP_ERR_INVALID_ARG
  else if link_state c =? PS_CAN_STATE_BUS_OFF then ESP_ERR_INVALID_STATE
  else if (length (waiting (free_slots c)) =? 0)%nat then ESP_ERR_TIMEOUT
  else ESP_OK.

Lemma send_ok_slot s f k l : can_inv s -> waiting (free_slots (ctx s)) = k :: l ->
  send_guard (ctx s) f = ESP_OK ->
  exists c', ps_can_send (Some (ctx s)) (Some f) = (Some c', ESP_OK) /\
    waiting (free_slots c') = l /\
    (forall j, (j < 8)%nat -> fifo (txq c') j =
       if decide (j = Z.to_nat (ps_can_id_cls (f_id f))) then fifo (txq (ctx s)) j ++ [k]
       else fifo (txq (ctx s)) j) /\
    slots c' !!! Z.to_nat k = fill_slot f (slots (ctx s) !!! Z.to_nat k).
Proof.
  intros Hinv Hf Hg. unfold ps_can_send. rewrite Hg.
  set (s1 := match step s (SendTake f) with Some s1 => s1 | None => s end).
  assert (step s (SendTake f) = Some s1) as Hs1.
  { subst s1. cbn [step]. rewrite Hg. by destruct (send_take (ctx s) f). }
  pose proof (inv_step s (SendTake f) _ Hinv eq_refl Hs1) as Hinv1. clearbody s1. cbn [step] in Hs1. rewrite Hg in Hs1.
  unfold send_take in *. pose proof (receive_some (free_slots (ctx s))) as Hr.
  pose proof (receive_waiting (free_slots (ctx s))) as Hw.
  destruct (xQueueReceive (free_slots (ctx s))) as [q got]. cbn [fst snd] in *. subst got.
  rewrite Hf in *. cbn [list.head tail] in *. injection Hs1 as <-.
  pose proof (push_queued _ 0%nat k f Hinv1 eq_refl) as Hq. cbn [ctx] in Hq.
  set (c1 := {| (ctx s) with free_slots := q;
                slots := <[Z.to_nat k := fill_slot f (slots (ctx s) !!! Z.to_nat k)]> (slots (ctx s)) |}) in *.
  pose proof (txq_push_spec (txq (ctx s)) (ps_can_id_cls (f_id f)) k (inv_txq s Hinv)
    ltac:(apply cls_range)) as Hpush.
  unfold send_push in *. change (txq c1) with (txq (ctx s)) in *.
  destruct (ps_can_txq_push _ _ _) as [q' ok]. cbn [snd] in Hq. subst ok.
  destruct Hpush as (_ & _ & _ & Hfifo). eexists. split; [reflexivity|].
  cbn [free_slots txq slots]. split_and!; [done| |].
  - intros j Hj. rewrite (Hfifo eq_refl j Hj). by case_decide; subst.
  - apply list_lookup_total_insert_eq. rewrite (inv_slots s Hinv).
    assert (0 <= k < 16); [|unfold PS_CAN_TX_SLOTS; lia].
    apply (owned_range s k (inv_owned s Hinv)). unfold owned. rewrite Hf. left.
Qed.

(** What a send does in every reachable state: an oversized or out-of-range frame,
    a bus-off link and an exhausted pool are refused with their own error and nothing
    is queued; otherwise the send succeeds (it never runs out of ring), the frame's
    bytes are in a slot that was free, and that slot is the last of its class. *)
Theorem can_send_spec id ctl rx_len es s f :
  exec (opened id ctl rx_len) es = Some s -> no_stale_refusal (opened id ctl rx_len) es = true ->
  is_u32 (f_id f) ->
  exists c', ps_can_send (Some (ctx s)) (Some f) = (Some c', send_error (ctx s) f) /\
  match send_error (ctx s) f with
  | ESP_OK => exists k l,
      waiting (free_slots (ctx s)) = k :: l /\ waiting (free_slots c') = l /\
      slots c' !!! Z.to_nat k = fill_slot f (slots (ctx s) !!! Z.to_nat k) /\
      forall j, (j < 8)%nat -> fifo (txq c') j =
        if decide (j = Z.to_nat (ps_can_id_cls (f_id f))) then fifo (txq (ctx s)) j ++ [k]
        else fifo (txq (ctx s)) j
  | _ => same_tx (ctx s) c'
  end.
Proof.
  intros He Hns Hid. pose proof (inv_reached _ _ _ _ _ He Hns) as Hinv.
  unfold send_error. rewrite <- id_mask_has by done.
  destruct ((8 <? f_dlc f) || has (f_id f) (Z.lnot PS_CAN_ID_MASK)) eqn:Hg.
  { exists (ctx s). unfold ps_can_send, send_guard. by rewrite Hg. }
  destruct (link_state (ctx s) =? PS_CAN_STATE_BUS_OFF) eqn:Hl.
  { exists (ctx s). unfold ps_can_send, send_guard. by rewrite Hg, Hl. }
  assert (send_guard (ctx s) f = ESP_OK) as Hok by (unfold send_guard; by rewrite Hg, Hl).
  destruct (waiting (free_slots (ctx s))) as [|k l] eqn:Hf; cbn [length Nat.eqb].
  - exists (count_timeout (ctx s)). unfold ps_can_send. rewrite Hok. unfold send_take.
    pose proof (receive_some (free_slots (ctx s))) as Hr. rewrite Hf in Hr.
    destruct (xQueueReceive (free_slots (ctx s))) as [q got]. cbn in Hr. by subst got.
  - destruct (send_ok_slot s f k l Hinv Hf Hok) as (c' & Hs & Hw & Hq & Hsl).
    exists c'. split; [done|]. by exists k, l.
Qed.

(** The bytes that reach a receiver are the bytes given to the send, zero-padded. *)
Lemma fill_receive f s : 0 <= f_dlc f <= 8 -> (Z.to_nat (f_dlc f) <= length (f_data f))%nat ->
  length (sl_data s) = 8%nat ->
  let sl := fill_slot f s in
  let buf := take (Z.to_nat (sl_len sl)) (sl_data sl) ++ replicate (8 - Z.to_nat (sl_len sl)) 0 in
  rx_frame (sl_id sl) (sl_dlc sl) buf =
    {| f_id := f_id f; f_dlc := f_dlc f;
       f_data := take (Z.to_nat (f_dlc f)) (f_data f) ++ replicate (8 - Z.to_nat (f_dlc f)) 0 |}.
Proof.
  intros Hd Hl Hs. cbv zeta. unfold rx_frame. cbn [fill_slot sl_id sl_dlc sl_len sl_data].
  rewrite dlc2len_len2dlc by done. destruct (Z.ltb_spec 8 (f_dlc f)); [lia|].
  f_equal; [clia|]. f_equal. unfold bput. rewrite take_0. cbn [app].
  assert (length (take (Z.to_nat (f_dlc f)) (f_data f)) = Z.to_nat (f_dlc f)) as Ht
    by (rewrite length_take; lia).
  rewrite (take_app_length' (take _ (f_data f)) _ (Z.to_nat (f_dlc f))) by done.
  by rewrite (take_app_length' (take _ (f_data f)) _ (Z.to_nat (f_dlc f))) by done.
Qed.

(** ** Recovery *)

Definition backoff_ok (c : ps_can_ctx) : Prop :=
  recover_backoff_ms c = 100 \/ recover_backoff_ms c = 200 \/ recover_backoff_ms c = 400 \/
  recover_backoff_ms c = 800 \/ recover_backoff_ms c = 1600.

Lemma service_backoff c now r : backoff_ok c -> backoff_ok (service_link c now r).1.
Proof.
  intros Hok. unfold service_link.
  assert (backoff_ok (report_pending c).1) as H1.
  { unfold report_pending. cbv zeta. destruct (0 <=? _); [|done]. destruct (_ =? _); [by left|done]. }
  destruct (report_pending c) as [c1 rep]. cbn [fst] in *. clear Hok c.
  unfold recover_bus_off. do 2 (case_match; [|done]). cbv zeta.
  assert (forall c', recover_backoff_ms c' = recover_backoff_ms c1 ->
    backoff_ok (let c2 := {| c' with recover_at_ms := now + recover_backoff_ms c';
                               recover_backoff_ms := u32 (recover_backoff_ms c' * 2) |} in
                if PS_CAN_RECOVER_MAX_MS <? recover_backoff_ms c2
                then {| c2 with recover_backoff_ms := PS_CAN_RECOVER_MAX_MS |} else c2)) as Hx.
  { intros c' E. cbv zeta. cbn [recover_backoff_ms]. rewrite E. unfold backoff_ok in *.
    destruct H1 as [-> | [-> | [-> | [-> | ->]]]]; cbn; auto. }
  by destruct r; apply Hx.
Qed.

Lemma backoff_step s e s' : step s e = Some s' -> backoff_ok (ctx s) -> backoff_ok (ctx s').
Proof.
  intros Hs. assert (recover_backoff_ms (ctx s') = recover_backoff_ms (ctx s) \/
    exists now r, e = RxTurn now r) as [E|(now & r & ->)].
  { destruct e; [..|right; eauto]; left; cbn [step] in Hs;
      unfold send_take, send_push, tx_pop, flush_pop, done_claim, done_finish, on_rx_done in Hs;
      repeat case_match; by simplify_eq. }
  - unfold backoff_ok. by rewrite E.
  - cbn [step] in Hs. simplify_eq. cbn [ctx]. unfold rx_task_turn. destruct (running (ctx s)); [|done].
    cbn [negb]. intros Hok. assert (backoff_ok (rx_receive (ctx s)).1) as H1.
    { unfold rx_receive, rx_dispatch. destruct (xQueueReceive _) as [q [f|]]; repeat case_match; done. }
    destruct (rx_receive (ctx s)) as [c1 call]. cbn [fst] in H1.
    pose proof (service_backoff c1 now r H1) as H2. by destruct (service_link c1 now r).
Qed.

Lemma backoff_exec es s s' : exec s es = Some s' -> backoff_ok (ctx s) -> backoff_ok (ctx s').
Proof.
  revert s. induction es as [|e es IH]; intros s; cbn [exec]; [by intros [= <-]|].
  destruct (step s e) eqn:He; [|done]. eauto using backoff_step.
Qed.

(** Bus-off recovery is paced: in every reachable state the backoff is one of 100,
    200, 400, 800, 1600 ms; an attempt is made only at or after the time set by the
    previous one, sets the next at least the backoff later, and doubles the backoff up
    to 1600 ms. *)
Theorem can_recovery_paced id ctl rx_len es s now r :
  exec (opened id ctl rx_len) es = Some s ->
  let c := ctx s in let c' := recover_bus_off c now r in
  backoff_ok c /\
  if (link_state c =? PS_CAN_STATE_BUS_OFF) && (recover_at_ms c <=? now)
  then recover_at_ms c' = now + recover_backoff_ms c /\
       recover_backoff_ms c' = Z.min (2 * recover_backoff_ms c) 1600 /\
       link_state c' = (if r then PS_CAN_STATE_RECOVERING else PS_CAN_STATE_BUS_OFF)
  else c' = c.
Proof.
  intros He. assert (backoff_ok (ctx s)) as Hok by (eapply backoff_exec; [done|by left]).
  cbv zeta. split; [done|]. unfold recover_bus_off.
  destruct (Z.eqb_spec (link_state (ctx s)) PS_CAN_STATE_BUS_OFF) as [Hl|]; cbn [andb]; [|done].
  destruct (recover_at_ms (ctx s) <=? now); [|done]. cbv zeta.
  assert (recover_backoff_ms (if r then {| (ctx s) with link_state := PS_CAN_STATE_RECOVERING;
    stats := {| (stats (ctx s)) with recoveries := inc (recoveries (stats (ctx s))) |} |}
    else ctx s) = recover_backoff_ms (ctx s)) as E by (by destruct r).
  rewrite E. unfold backoff_ok in Hok.
  destruct r; destruct Hok as [-> | [-> | [-> | [-> | ->]]]]; cbn; auto.
Qed.

(** [ps_can_open] leaks nothing: whatever platform call fails, it reports an error
    and every queue, task, driver node and block of memory acquired so far has been
    given back; it hands out a context only when all of them are in place. *)
Theorem can_open_no_leak cfg out_ok e :
  let '(h, err, held) := ps_can_open cfg out_ok e in
  match h with
  | Some _ => err = ESP_OK /\ held = [RxTask; Enabled; TxTask; Node; Context; RxQueue; FreeQueue]
  | None => err <> ESP_OK /\ held = []
  end.
Proof.
  destruct cfg as [[[id ctl] rx_len]|]; [|done]. destruct out_ok, e as [c q f n rg t en rx]; [|done].
  destruct c; [|done]. by destruct q, f, n, rg, t, en, rx.
Qed.

(** Closing what an open handed out gives back everything the open acquired; closing
    nothing is refused and releases nothing. *)
Theorem can_close_releases cfg out_ok e :
  let '(h, _, held) := ps_can_open cfg out_ok e in
  ps_can_close h held =
    (None, match h with Some _ => ESP_OK | None => ESP_ERR_INVALID_ARG end, []).
Proof.
  pose proof (can_open_no_leak cfg out_ok e) as H1.
  destruct (ps_can_open cfg out_ok e) as [[[c|] err] held]; by destruct H1 as [_ ->].
Qed.

End CanOps.

(** ** Witnesses: two senders, a telemetry frame queued first and a SAFETY frame after *)

Definition telem_frame : ps_can_frame_t :=
  {| f_id := ps_can_id_pack PS_CLS_TELEM 1 0 PS_T_JOINT_STATE 0; f_dlc := 2; f_data := [1; 2] |}.
Definition estop_frame : ps_can_frame_t :=
  {| f_id := ps_can_id_pack PS_CLS_SAFETY 7 0 PS_T_ESTOP 0; f_dlc := 1; f_data := [9] |}.
Definition two_sends : list event :=
  [SendTake telem_frame; SendTake estop_frame; SendPush 1; SendPush 0; TxWake].
Definition at_bus_off : list event :=
  two_sends ++ [TxPop; TxTransmit true; StateChange TWAI_ERROR_BUS_OFF; TxWake].

(** A frame is reported done between the moment the task picks it and the moment the
    driver refuses it. *)
Definition late_report : list event :=
  [SendTake telem_frame; SendPush 0; TxWake; TxPop; DoneClaim 0 true; TxTransmit false].


Lemma can_highest_class_first_witness :
  exists s s', exec (opened 7 0 0) two_sends = Some s /\ step s TxPop = Some s' /\
    pc s' = TxHave 1 /\
    let slot_cls j := ps_can_id_cls (sl_id (slots (ctx s') !!! Z.to_nat j)) in
    Forall (fun j => slot_cls 1 <= slot_cls j) (pending (txq (ctx s'))).
Proof.
  destruct (exec (opened 7 0 0) two_sends) as [s|] eqn:E; [|by vm_compute in E].
  pose proof (fun s' => can_highest_class_first 7 0 0 two_sends s s' 1 E eq_refl) as H.
  destruct (step s TxPop) as [s'|] eqn:E2; [|by vm_compute in E; injection E as <-; vm_compute in E2].
  assert (pc s' = TxHave 1) as Hpc
    by (vm_compute in E; injection E as <-; vm_compute in E2; by injection E2 as <-).
  exists s, s'. exact (conj eq_refl (conj E2 (conj Hpc (H s' eq_refl Hpc)))).
Defined.

Lemma can_payload_stable_witness :
  exists s s', exec (opened 7 0 0) two_sends = Some s /\ step s TxPop = Some s' /\
    0 ∈ in_flight s /\ slots (ctx s') !!! 0%nat = slots (ctx s) !!! 0%nat.
Proof.
  destruct (exec (opened 7 0 0) two_sends) as [s|] eqn:E; [|by vm_compute in E].
  destruct (step s TxPop) as [s'|] eqn:E2; [|by vm_compute in E; injection E as <-; vm_compute in E2].
  assert (0 ∈ in_flight s) as Hin by (vm_compute in E; injection E as <-; vm_compute; right; left).
  exists s, s'. split; [exact eq_refl|]. split; [exact E2|]. split; [exact Hin|].
  exact (can_payload_stable 7 0 0 two_sends s TxPop s' 0 E eq_refl E2 Hin).
Defined.


Lemma can_send_spec_witness :
  exists s c', exec (opened 7 0 0) two_sends = Some s /\
    ps_can_send (Some (ctx s)) (Some estop_frame) = (Some c', ESP_OK).
Proof.
  destruct (exec (opened 7 0 0) two_sends) as [s|] eqn:E; [|by vm_compute in E].
  destruct (can_send_spec 7 0 0 two_sends s estop_frame E eq_refl) as (c' & Hs & _); [vm_compute; split; done|].
  exists s, c'. split; [exact eq_refl|]. rewrite Hs. vm_compute in E. by injection E as <-.
Defined.

Lemma can_recovery_paced_witness :
  exists s, exec (opened 7 0 0) at_bus_off = Some s /\ backoff_ok (ctx s) /\
    recover_at_ms (recover_bus_off (ctx s) 5000 true) = 5100.
Proof.
  destruct (exec (opened 7 0 0) at_bus_off) as [s|] eqn:E; [|by vm_compute in E].
  destruct (can_recovery_paced 7 0 0 at_bus_off s 5000 true E) as [Hb H].
  exists s. split; [exact eq_refl|]. split; [exact Hb|]. vm_compute in E. injection E as <-. apply H.
Defined.

Lemma can_open_no_leak_witness :
  ps_can_open (Some (7, 0, 0)) true
    {| calloc_ok := true; rx_q_ok := true; free_q_ok := true; new_node_ok := true; register_ok := true;
       tx_task_ok := true; enable_ok := true; rx_task_ok := false |} = (None, ESP_FAIL, []).
Proof.
  pose proof (can_open_no_leak (Some (7, 0, 0)) true
    {| calloc_ok := true; rx_q_ok := true; free_q_ok := true; new_node_ok := true; register_ok := true;
       tx_task_ok := true; enable_ok := true; rx_task_ok := false |}) as H.
  vm_compute in H. vm_compute. by destruct H.
Defined.
