(* ===== verification/SafetyEsp.v ===== *)
(** The glue between the safety core and the CAN plane
    (src/firmware/components/ps_safety/src/ps_safety_esp.c).

    The file-static state is the record [glue]; the CAN handle points to the context of
    [Can].  Every handler holds the lock around its use of the core, so it is one step
    of [gstep]; the clock reading it makes is an argument.  [glue_refines] shows that
    whatever frames, timer ticks, link changes and calls arrive, the core sees a run of
    its own events, so that the theorems on the core hold of the node. *)
From S2P Require Import Prelude CanId Wire Rtos Txq Can Safety SafetySpec.

Definition PS_SAFETY_TICK_US : Z := 5000.

(** The callbacks the glue registers, as tokens. *)
Definition on_core_transition_cb : Z := 1.
Definition safety_rx_cb : Z := 2.
Definition can_state_cb_cb : Z := 3.

Section SafetyEsp.
Context `{RtosQueue} `{TwaiDlc}.

Record glue := {
  core : ps_safety_core_t;
  can : option ps_can_ctx;
  g_node_id : Z;
  user_cb : option Z; user_arg : Z;
  safety_low : Z;
  estop_seq : Z;
  started : bool;
}.

(** A call of the application's transition callback. *)
Record user_call := { uc_cb : Z; uc_old : Z; uc_new : Z; uc_cause : Z; uc_arg : Z }.

(** [on_core_transition], once for each transition of the core. *)
Definition on_core_transition (s : glue) (trs : list transition) : list user_call :=
  match user_cb s with
  | Some cb => (fun tr => {| uc_cb := cb; uc_old := tr_old tr; uc_new := tr_new tr;
                             uc_cause := tr_cause tr; uc_arg := user_arg s |}) <$> trs
  | None => []
  end.

(** The frame of [send_safety]; the payload is at most eight bytes. *)
Definition safety_frame (s : glue) (type : Z) (payload : list Z) : ps_can_frame_t :=
  {| f_id := ps_can_id_pack PS_CLS_SAFETY (g_node_id s) PS_NODE_BROADCAST type (safety_low s);
     f_dlc := Z.of_nat (length payload);
     f_data := payload ++ replicate (8 - length payload) 0 |}.

Definition send_safety (s : glue) (type : Z) (payload : list Z) : glue * esp_err_t :=
  let f := safety_frame s type payload in
  let s := {| s with safety_low := u8 (safety_low s + 1) |} in
  let '(c, err) := ps_can_send (can s) (Some f) in
  ({| s with can := c |}, err).

Definition safety_rx (s : glue) (t : Z) (frame : ps_can_frame_t) : glue * list user_call :=
  let type := ps_can_id_type (f_id frame) in
  if type =? PS_T_HEARTBEAT then
    let hb : ps_heartbeat_t := wire_read (f_data frame) in
    let '(c, trs) := ps_safety_core_on_heartbeat (core s) t hb in
    ({| s with core := c |}, on_core_transition s trs)
  else if type =? PS_T_ESTOP then
    let e : ps_estop_t := wire_read (f_data frame) in
    let '(c, trs) := ps_safety_core_on_estop (core s) t (es_cause e) in
    ({| s with core := c |}, on_core_transition s trs)
  else if type =? PS_T_CLEAR_ESTOP then
    let c : ps_clear_estop_t := wire_read (f_data frame) in
    ({| s with core := fst (ps_safety_core_on_clear (core s) t (ce_magic c) (ce_counter c)) |}, [])
  else (s, []).

Definition tick_cb (s : glue) (t : Z) : glue * list user_call :=
  let '(c, trs) := ps_safety_core_tick (core s) t in
  ({| s with core := c |}, on_core_transition s trs).

Definition can_state_cb (s : glue) (t state : Z) : glue * list user_call :=
  if (state =? PS_CAN_STATE_BUS_OFF) || (state =? PS_CAN_STATE_ERR_PASSIVE) then
    let '(c, trs) := ps_safety_core_on_bus_down (core s) t in
    ({| s with core := c |}, on_core_transition s trs)
  else (s, []).

Record ps_safety_config_t := {
  cfg_can : option ps_can_ctx; cfg_node_id : Z; cfg_on_transition : option Z; cfg_arg : Z }.

(** The core after [memset]. *)
Definition zero_core : ps_safety_core_t :=
  {| state := 0; estop_cause := 0; last_hb_seq := 0; last_hb_ms := 0; hb_streak_start_ms := 0;
     last_cmd_ms := 0; clear_counter := 0; estop_since_ms := 0; have_hb := false;
     want_operational := false; on_transition := None; cb_arg := 0 |}.

(** [lock_ok], [create_err] and [start_err] are the platform's answers to creating the
    mutex, creating the timer and starting it. *)
Definition ps_safety_start (s : glue) (cfg : option ps_safety_config_t) (t : Z)
    (lock_ok : bool) (create_err start_err : esp_err_t) : glue * esp_err_t :=
  match cfg with
  | Some cfg =>
    match cfg_can cfg with
    | Some can0 =>
      if started s then (s, ESP_ERR_INVALID_ARG) else
      let s := {| core := zero_core; can := Some can0;
                  g_node_id := cfg_node_id cfg; user_cb := cfg_on_transition cfg;
                  user_arg := cfg_arg cfg; safety_low := 0; estop_seq := 0; started := false |} in
      if negb lock_ok then (s, ESP_ERR_NO_MEM) else
      let s := {| s with core := ps_safety_core_init t (Some on_core_transition_cb) 0 |} in
      let '(c, err) := ps_can_register_class_cb (can s) PS_CLS_SAFETY (Some safety_rx_cb) in
      let s := {| s with can := c |} in
      if negb (is_ok err) then (s, err) else
      let '(c, err) := ps_can_register_state_cb (can s) (Some can_state_cb_cb) in
      let s := {| s with can := c |} in
      if negb (is_ok err) then (s, err) else
      if negb (is_ok create_err) then (s, create_err) else
      if negb (is_ok start_err) then (s, start_err) else
      ({| s with started := true |}, ESP_OK)
    | None => (s, ESP_ERR_INVALID_ARG)
    end
  | None => (s, ESP_ERR_INVALID_ARG)
  end.

Definition ps_safety_state (s : glue) : Z := if started s then state (core s) else PS_STATE_BOOT.

Definition ps_safety_can_actuate (s : glue) : bool :=
  started s && (state (core s) =? PS_STATE_OPERATIONAL).

Definition ps_safety_cmd_fresh (s : glue) (t : Z) : bool :=
  started s && ps_safety_core_cmd_fresh (core s) t.

Definition ps_safety_note_cmd (s : glue) (t : Z) : glue :=
  if negb (started s) then s else {| s with core := ps_safety_core_on_cmd (core s) t |}.

Definition ps_safety_note_mode_set (s : glue) (t target_state : Z) : glue * list user_call :=
  if negb (started s) then (s, []) else
  let '(c, trs) := ps_safety_core_on_mode_set (core s) t target_state in
  ({| s with core := c |}, on_core_transition s trs).

(** The [n] sends of the repeat loop; [first] is the result of the first one. *)
Fixpoint send_repeat (n : nat) (s : glue) (type : Z) (payload : list Z) : glue * list esp_err_t :=
  match n with
  | O => (s, [])
  | S n =>
    let '(s, err) := send_safety s type payload in
    let '(s, errs) := send_repeat n s type payload in (s, err :: errs)
  end.

(** The payload of the e-stop; [t] is the clock reading. *)
Definition estop_payload (s : glue) (cause t : Z) : ps_estop_t :=
  {| es_cause := cause; es_origin_node := g_node_id s; es_seq := estop_seq s; es_uptime_ms := t |}.

(** [t] and [t'] are the two clock readings, before the sends and after them. *)
Definition ps_safety_raise_estop (s : glue) (cause t t' : Z) : glue * esp_err_t * list user_call :=
  if negb (started s) then (s, ESP_ERR_INVALID_STATE, []) else
  let s := {| s with estop_seq := u16 (estop_seq s + 1) |} in
  let '(s, errs) := send_repeat PS_ESTOP_REPEAT s PS_T_ESTOP
                      (wire_write (estop_payload s cause t)) in
  let first := default ESP_OK (list.head errs) in
  let '(c, trs) := ps_safety_core_on_estop (core s) t' cause in
  ({| s with core := c |}, first, on_core_transition s trs).

Definition ps_safety_send_fault (s : glue) (fault_code severity detail t : Z) : glue * esp_err_t :=
  if negb (started s) then (s, ESP_ERR_INVALID_STATE) else
  send_safety s PS_T_NODE_FAULT
    (wire_write {| nf_fault_code := fault_code; nf_severity := severity; nf_detail := detail;
                   nf_uptime_ms := t |}).

(** ** The node as a machine *)

Inductive gev :=
  | GRx (f : ps_can_frame_t)          (* a SAFETY frame from the receive task *)
  | GTick                             (* the 5 ms timer *)
  | GCanState (state : Z)             (* the link-state callback *)
  | GCmd | GModeSet (target : Z)      (* the application's calls *)
  | GRaise (cause : Z)
  | GFault (code severity detail : Z).

Definition gstep (s : glue) (t : Z) (e : gev) : glue * list user_call :=
  match e with
  | GRx f => safety_rx s t f
  | GTick => tick_cb s t
  | GCanState st => can_state_cb s t st
  | GCmd => (ps_safety_note_cmd s t, [])
  | GModeSet target => ps_safety_note_mode_set s t target
  | GRaise cause => let '(s, _, calls) := ps_safety_raise_estop s cause t t in (s, calls)
  | GFault code sev detail => (fst (ps_safety_send_fault s code sev detail t), [])
  end.

Fixpoint grun (s : glue) (tr : list (Z * gev)) : glue * list user_call :=
  match tr with
  | [] => (s, [])
  | (t, e) :: tr =>
    let '(s, l) := gstep s (u32 t) e in let '(s, l') := grun s tr in (s, l ++ l')
  end.

(** The event of the core an event of the node amounts to, if any. *)
Definition core_event (e : gev) : option ev :=
  match e with
  | GRx f =>
    let type := ps_can_id_type (f_id f) in
    if type =? PS_T_HEARTBEAT then Some (EvHeartbeat (wire_read (f_data f)))
    else if type =? PS_T_ESTOP then Some (EvEstop (es_cause (wire_read (f_data f))))
    else if type =? PS_T_CLEAR_ESTOP then
      let c : ps_clear_estop_t := wire_read (f_data f) in Some (EvClear (ce_magic c) (ce_counter c))
    else None
  | GTick => Some EvTick
  | GCanState st =>
    if (st =? PS_CAN_STATE_BUS_OFF) || (st =? PS_CAN_STATE_ERR_PASSIVE) then Some EvBusDown else None
  | GCmd => Some EvCmd
  | GModeSet target => Some (EvModeSet target)
  | GRaise cause => Some (EvLocalFault cause)
  | GFault _ _ _ => None
  end.

Definition core_trace (tr : list (Z * gev)) : list (Z * ev) :=
  omap (fun '(t, e) => (fun e => (t, e)) <$> core_event e) tr.

(** ** Sending does not touch the core *)

Lemma send_safety_keeps s type payload : let s' := (send_safety s type payload).1 in
  core s' = core s /\ user_cb s' = user_cb s /\ user_arg s' = user_arg s /\ started s' = started s /\
  g_node_id s' = g_node_id s /\ estop_seq s' = estop_seq s.
Proof. unfold send_safety. cbv zeta. by destruct (ps_can_send _ _). Qed.

Lemma send_repeat_keeps n s type payload : let s' := (send_repeat n s type payload).1 in
  core s' = core s /\ user_cb s' = user_cb s /\ user_arg s' = user_arg s /\ started s' = started s.
Proof.
  revert s. induction n as [|n IH]; intros s; [done|]. cbn [send_repeat].
  pose proof (send_safety_keeps s type payload) as H1. destruct (send_safety s type payload) as [s1 err].
  specialize (IH s1). destruct (send_repeat n s1 type payload) as [s2 errs]. cbn [fst] in *.
  destruct H1 as (? & ? & ? & ? & _). destruct IH as (? & ? & ? & ?). split_and!; congruence.
Qed.

(** The node after its events, seen from the core. *)
Definition tracks (s s' : glue) (c : ps_safety_core_t) : Prop :=
  core s' = c /\ user_cb s' = user_cb s /\ user_arg s' = user_arg s /\ started s' = true.

Lemma gstep_tracks s t e : started s = true ->
  match core_event e with
  | Some e' => tracks s (gstep s t e).1 (step (core s) t e').1 /\
               (gstep s t e).2 = on_core_transition s (step (core s) t e').2
  | None => tracks s (gstep s t e).1 (core s) /\ (gstep s t e).2 = []
  end.
Proof.
  intros Hst. assert (on_core_transition s [] = []) as Hnil by (unfold on_core_transition; by case_match).
  destruct e as [f| |st| |target|cause|code sev det]; cbn [core_event gstep].
  - unfold safety_rx. cbv zeta.
    destruct (_ =? PS_T_HEARTBEAT); [cbn [SafetySpec.step]; by destruct (ps_safety_core_on_heartbeat _ _ _)|].
    destruct (_ =? PS_T_ESTOP); [cbn [SafetySpec.step]; by destruct (ps_safety_core_on_estop _ _ _)|].
    by destruct (_ =? PS_T_CLEAR_ESTOP).
  - unfold tick_cb. cbn [SafetySpec.step]. by destruct (ps_safety_core_tick _ _).
  - unfold can_state_cb. destruct (_ || _); [|done]. cbn [SafetySpec.step].
    by destruct (ps_safety_core_on_bus_down _ _).
  - unfold ps_safety_note_cmd. by rewrite Hst.
  - unfold ps_safety_note_mode_set. rewrite Hst. cbn [negb SafetySpec.step].
    by destruct (ps_safety_core_on_mode_set _ _ _).
  - unfold ps_safety_raise_estop. rewrite Hst. cbv zeta. cbn [negb SafetySpec.step]. unfold ps_safety_core_on_local_fault.
    set (s0 := {| s with estop_seq := u16 (estop_seq s + 1); started := true |}).
    pose proof (send_repeat_keeps PS_ESTOP_REPEAT s0 PS_T_ESTOP (wire_write (estop_payload s0 cause t))) as Hk.
    destruct (send_repeat _ _ _ _) as [s1 errs]. destruct Hk as (Hc & Hu & Ha & Hs). cbn [fst] in *.
    rewrite Hc. cbn [core s0] in *. destruct (ps_safety_core_on_estop _ _ _) as [c trs]. cbn [fst snd].
    unfold tracks, on_core_transition. cbn [core user_cb user_arg started]. by rewrite Hu, Ha, Hs.
  - unfold ps_safety_send_fault. rewrite Hst. cbn [negb].
    destruct (send_safety_keeps s PS_T_NODE_FAULT
      (wire_write {| nf_fault_code := code; nf_severity := sev; nf_detail := det; nf_uptime_ms := t |}))
      as (? & ? & ? & ? & _). cbn [fst snd]. unfold tracks. by rewrite <- Hst.
Qed.

Lemma run_snoc_app c tr tr' : run c (tr ++ tr') = run (run c tr) tr'.
Proof. revert c. induction tr as [|[t e] tr IH]; intros c; cbn [run app]; auto. Qed.

(** The node follows its core over every sequence of events. *)
Lemma glue_tracks s tr : started s = true ->
  tracks s (grun s tr).1 (run (core s) (core_trace tr)) /\
  (grun s tr).2 = on_core_transition s (run_log (core s) (core_trace tr)).
Proof.
  revert s. induction tr as [|[t e] tr IH]; intros s Hst.
  { split; [done|]. cbn. unfold on_core_transition. by case_match. }
  cbn [grun core_trace omap list_omap]. pose proof (gstep_tracks s (u32 t) e Hst) as Hs.
  destruct (gstep s (u32 t) e) as [s1 l]. cbn [fst snd] in Hs.
  assert (forall c l', tracks s s1 c -> l = on_core_transition s l' ->
    tracks s (let '(s0, l'0) := grun s1 tr in (s0, l ++ l'0)).1 (run c (core_trace tr)) /\
    (let '(s0, l'0) := grun s1 tr in (s0, l ++ l'0)).2 =
      on_core_transition s (l' ++ run_log c (core_trace tr))) as Hrec.
  { intros c l' (<- & Hu & Ha & Hst1) ->. destruct (IH s1 Hst1) as [(H1 & H2 & H3 & H4) Hl].
    destruct (grun s1 tr) as [s2 l2]. cbn [fst snd] in *. split; [split_and!; congruence|].
    rewrite Hl. unfold on_core_transition. rewrite Hu, Ha. destruct (user_cb s); [by rewrite fmap_app|done]. }
  destruct (core_event e) as [e'|]; cbn [fmap option_fmap option_map run run_log].
  - destruct Hs as [Ht Hl]. destruct (Hrec _ _ Ht Hl) as [H1 H2].
    destruct (SafetySpec.step (core s) (u32 t) e'). by split.
  - destruct Hs as [Ht ->]. apply (Hrec (core s) []); [done|]. unfold on_core_transition. by destruct (user_cb s).
Qed.

(** A successful start: the state it leaves. *)
Lemma start_ok s cfg t lock ce se s' :
  ps_safety_start s cfg t lock ce se = (s', ESP_OK) ->
  started s' = true /\ core s' = ps_safety_core_init t (Some on_core_transition_cb) 0.
Proof.
  unfold ps_safety_start. destruct cfg as [cfg|]; [|done]. destruct (cfg_can cfg) as [c0|]; [|done].
  destruct (started s); [done|]. destruct lock; [|done]. cbn.
  destruct ce; cbn; try done; destruct se; cbn; try done. by intros [= <-].
Qed.

(** A heartbeat frame was received at time [b]. *)
Definition heard (tr : list (Z * gev)) (b : Z) : Prop :=
  exists f, (b, GRx f) ∈ tr /\ ps_can_id_type (f_id f) = PS_T_HEARTBEAT.

Lemma beat_heard tr b : beat_since (core_trace tr) b -> heard tr b.
Proof.
  intros (tr1 & hb & tr2 & Heq & _).
  assert ((b, EvHeartbeat hb) ∈ core_trace tr) as Hin by (rewrite Heq; apply elem_of_app; right; left).
  unfold core_trace in Hin. apply list_elem_of_omap in Hin as ([t e] & Hin & He).
  destruct (core_event e) as [e'|] eqn:E; [|done]. cbn in He. simplify_eq.
  destruct e as [f| |st| | | |]; cbn in E; repeat case_match; simplify_eq. exists f. split; [done|lia].
Qed.

(** C18: The actuation gate is a dead-man switch for the whole node: after a successful
    start and any sequence of received frames, timer ticks, link changes and calls of
    the application, [ps_safety_can_actuate] answers true only if a heartbeat frame was
    received at most 50 ms plus the tick period before. *)
Theorem actuate_needs_heartbeat s0 cfg lock ce se s t0 tr p now :
  ps_safety_start s0 cfg (u32 t0) lock ce se = (s, ESP_OK) ->
  timed t0 SPAN t0 (core_trace tr) ->
  (forall tk, last_tick (core_trace tr) = Some tk -> now - tk <= p) ->
  ps_safety_can_actuate (grun s tr).1 = true ->
  exists b, heard tr b /\ now - b <= 50 + p.
Proof.
  intros Hstart Ht Hp Hact. destruct (start_ok _ _ _ _ _ _ _ Hstart) as [Hst Hc].
  destruct (glue_tracks s tr Hst) as [(Hcore & _) _]. unfold ps_safety_can_actuate in Hact. bools.
  match goal with E : (_ =? PS_STATE_OPERATIONAL) = true |- _ => rename E into Hop end.
  rewrite Hcore, Hc in Hop. apply Z.eqb_eq in Hop.
  destruct (deadman t0 p now _ _ _ Ht Hop Hp) as (b & Hb & Hle).
  exists b. split; [by apply beat_heard|done].
Qed.

(** ** Raising an e-stop *)

Lemma on_estop_latches c t cause : latched (ps_safety_core_on_estop c t cause).1.
Proof.
  unfold ps_safety_core_on_estop, latched.
  destruct ((state c =? PS_STATE_ESTOP) && negb (estop_cause c =? 0)) eqn:E; [cbn [fst]; bools; lia|].
  set (c1 := {| c with estop_cause := if cause =? 0 then PS_ESTOP_SOFTWARE else cause;
                       estop_since_ms := t; want_operational := false |}). cbv zeta. fold c1.
  assert (estop_cause c1 <> 0) as Hc by (cbn; destruct (Z.eqb_spec cause 0); done).
  unfold go. destruct (Z.eqb_spec (state c1) PS_STATE_ESTOP); [done|]. by destruct (on_transition c1).
Qed.

Definition glue_ok (s : glue) : Prop :=
  0 <= g_node_id s < 32 /\ is_u8 (safety_low s) /\ is_u16 (estop_seq s).

Lemma estop_payload_ok s cause t : glue_ok s -> is_u8 cause -> is_u32 t ->
  wire_ok (estop_payload s cause t).
Proof.
  intros (Hn & _ & Hs) Hc Ht. unfold wire_ok. cbn. unfold fok. cbn. repeat split; clia.
Qed.

(** What a receiver reads from the frame of an e-stop. *)
Lemma estop_frame_read s cause t : glue_ok s -> is_u8 cause -> is_u32 t ->
  let f := safety_frame s PS_T_ESTOP (wire_write (estop_payload s cause t)) in
  ps_can_id_cls (f_id f) = PS_CLS_SAFETY /\ ps_can_id_dst (f_id f) = PS_NODE_BROADCAST /\
  ps_can_id_type (f_id f) = PS_T_ESTOP /\ length (f_data f) = 8%nat /\ f_dlc f = 8 /\
  wire_read (f_data f) = estop_payload s cause t.
Proof.
  intros Hs Hc Ht. pose proof (estop_payload_ok s cause t Hs Hc Ht) as Hok. destruct Hs as (Hn & Hl & _).
  cbv zeta. unfold safety_frame. cbn [f_id f_data f_dlc].
  assert (length (wire_write (estop_payload s cause t)) = 8%nat) as Hlen by (by rewrite length_wire_write).
  split_and!.
  - apply cls_pack; try done; cbn; clia.
  - apply dst_pack; try done; cbn; clia.
  - apply type_pack; try done; cbn; clia.
  - rewrite length_app, length_replicate. lia.
  - lia.
  - by apply wire_read_write_app.
Qed.

Lemma latched_gate (g : glue) : latched (core g) -> ps_safety_can_actuate g = false.
Proof. intros [Hg _]. unfold ps_safety_can_actuate. rewrite Hg. by rewrite andb_false_r. Qed.

(** The receive filter of every node passes a broadcast SAFETY frame. *)
Lemma dispatch_safety_broadcast f c cb : ps_can_id_cls (f_id f) = PS_CLS_SAFETY -> ps_can_id_dst (f_id f) = PS_NODE_BROADCAST ->
  cls_cb c !!! 0%nat = Some cb -> rx_dispatch c f = (c, Some (cb, f)).
Proof.
  intros Hcls Hdst Hcb. unfold rx_dispatch. rewrite Hdst, Hcls.
  change (PS_NODE_BROADCAST =? PS_NODE_BROADCAST) with true. rewrite orb_true_r.
  change (Z.to_nat PS_CLS_SAFETY) with 0%nat. by rewrite Hcb.
Qed.

(** A node that handles an ESTOP frame is latched, whatever the payload. *)
Lemma estop_frame_latches r tr f : ps_can_id_type (f_id f) = PS_T_ESTOP ->
  latched (core (safety_rx r tr f).1) /\ ps_safety_can_actuate (safety_rx r tr f).1 = false.
Proof.
  intros Hty. unfold safety_rx. rewrite Hty. cbv zeta.
  change (PS_T_ESTOP =? PS_T_HEARTBEAT) with false. change (PS_T_ESTOP =? PS_T_ESTOP) with true. cbn iota.
  pose proof (on_estop_latches (core r) tr (es_cause (wire_read (f_data f)))) as Hr.
  destruct (ps_safety_core_on_estop (core r) tr _) as [cr l]. cbn [fst] in *. split; [done|]. by apply latched_gate.
Qed.

(** The [i]-th copy of the e-stop frame: the same payload under a rolling counter. *)
Definition estop_copy (s : glue) (cause t i : Z) : ps_can_frame_t :=
  let s1 := {| s with estop_seq := u16 (estop_seq s + 1) |} in
  safety_frame {| s1 with safety_low := u8 (safety_low s + i) |} PS_T_ESTOP
    (wire_write (estop_payload s1 cause t)).

Lemma estop_copy_read s cause t i : glue_ok s -> is_u8 cause -> is_u32 t ->
  let f := estop_copy s cause t i in
  ps_can_id_cls (f_id f) = PS_CLS_SAFETY /\ ps_can_id_dst (f_id f) = PS_NODE_BROADCAST /\
  ps_can_id_type (f_id f) = PS_T_ESTOP /\ f_dlc f = 8 /\
  wire_read (f_data f) = {| es_cause := cause; es_origin_node := g_node_id s;
                            es_seq := u16 (estop_seq s + 1); es_uptime_ms := t |}.
Proof.
  intros (Hn & Hl & Hs) Hc Ht. cbv zeta.
  set (si := {| s with safety_low := u8 (safety_low s + i); estop_seq := u16 (estop_seq s + 1) |}).
  assert (glue_ok si) as Hok by (split; [done|split; [apply u8_range | apply u16_range]]).
  by destruct (estop_frame_read si cause t Hok Hc Ht) as (? & ? & ? & _ & ? & ?).
Qed.

(** The three sends of the repeat loop, as calls of the transport. *)
Lemma raise_sends s cause t t' : started s = true -> is_u8 (safety_low s) ->
  let '(s', err, _) := ps_safety_raise_estop s cause t t' in
  let '(h1, e1) := ps_can_send (can s) (Some (estop_copy s cause t 0)) in
  let '(h2, _) := ps_can_send h1 (Some (estop_copy s cause t 1)) in
  let '(h3, _) := ps_can_send h2 (Some (estop_copy s cause t 2)) in
  can s' = h3 /\ err = e1.
Proof.
  intros Hst Hl. unfold ps_safety_raise_estop. rewrite Hst. cbn [negb].
  unfold PS_ESTOP_REPEAT. cbn [send_repeat]. unfold send_safety, estop_copy, safety_frame.
  cbn [can g_node_id safety_low estop_seq].
  replace (u8 (safety_low s + 0)) with (safety_low s) by clia.
  destruct (ps_can_send (can s) _) as [h1 e1]. cbn [can g_node_id safety_low estop_seq].
  destruct (ps_can_send h1 _) as [h2 e2]. cbn [can g_node_id safety_low estop_seq].
  replace (u8 (u8 (safety_low s + 1) + 1)) with (u8 (safety_low s + 2)) by clia.
  destruct (ps_can_send h2 _) as [h3 e3]. cbn [can core].
  by destruct (ps_safety_core_on_estop (core s) t' cause).
Qed.

(** C19: An e-stop raised by any node stops the suit.  The node hands its transport exactly
    three frames, one after the other and whatever the transport answers, and reports the
    answer to the first; each is a broadcast ESTOP of the SAFETY class that carries the
    cause, the node and the e-stop's number.  The raising node is latched and can no
    longer actuate even if none of the three could be sent; each of the three is accepted
    by the receive filter of every node, whatever its address, and the node that handles
    it is latched in ESTOP with a cause and cannot actuate. *)
Theorem estop_reaches_everyone s cause t t' : started s = true -> glue_ok s -> is_u8 cause -> is_u32 t ->
  let '(s', err, _) := ps_safety_raise_estop s cause t t' in
  let f := estop_copy s cause t in
  (let '(h1, e1) := ps_can_send (can s) (Some (f 0)) in
   let '(h2, _) := ps_can_send h1 (Some (f 1)) in
   let '(h3, _) := ps_can_send h2 (Some (f 2)) in
   can s' = h3 /\ err = e1) /\
  latched (core s') /\ ps_safety_can_actuate s' = false /\
  forall i,
    (ps_can_id_cls (f_id (f i)) = PS_CLS_SAFETY /\ ps_can_id_dst (f_id (f i)) = PS_NODE_BROADCAST /\
     ps_can_id_type (f_id (f i)) = PS_T_ESTOP /\
     wire_read (f_data (f i)) = {| es_cause := cause; es_origin_node := g_node_id s;
                                   es_seq := u16 (estop_seq s + 1); es_uptime_ms := t |}) /\
    (forall c cb, cls_cb c !!! 0%nat = Some cb -> rx_dispatch c (f i) = (c, Some (cb, f i))) /\
    (forall r tr, let r' := (safety_rx r tr (f i)).1 in
       latched (core r') /\ ps_safety_can_actuate r' = false).
Proof.
  intros Hst Hok Hc Ht. pose proof (raise_sends s cause t t' Hst ltac:(apply Hok)) as Hsend.
  destruct (ps_safety_raise_estop s cause t t') as [[s' err] calls] eqn:E. cbv zeta.
  split; [exact Hsend|]. apply and_assoc. split.
  - unfold ps_safety_raise_estop in E. rewrite Hst in E. cbn [negb] in E.
    destruct (send_repeat _ _ _ _) as [s2 errs].
    pose proof (on_estop_latches (core s2) t' cause) as Hl.
    destruct (ps_safety_core_on_estop (core s2) t' cause) as [c trs]. simplify_eq. cbn [fst] in Hl.
    split; [done|]. by apply latched_gate.
  - intros i. destruct (estop_copy_read s cause t i Hok Hc Ht) as (Hcls & Hdst & Hty & _ & Hrd).
    split; [done|]. split; [intros; by apply dispatch_safety_broadcast|].
    intros r tr. by apply estop_frame_latches.
Qed.

End SafetyEsp.

(** ** Witnesses *)

Definition demo_can : ps_can_ctx := ps_can_open_ctx PS_NODE_ARM_R 0 0.
Definition demo_cfg : ps_safety_config_t :=
  {| cfg_can := Some demo_can; cfg_node_id := PS_NODE_ARM_R; cfg_on_transition := None; cfg_arg := 0 |}.
Definition off_glue : glue :=
  {| core := zero_core; can := None; g_node_id := 0; user_cb := None; user_arg := 0;
     safety_low := 0; estop_seq := 0; started := false |}.
Definition demo_glue : glue := (ps_safety_start off_glue (Some demo_cfg) 0 true ESP_OK ESP_OK).1.
Definition beat_frame : ps_can_frame_t :=
  {| f_id := ps_can_id_pack PS_CLS_SAFETY PS_NODE_ORCH 0 PS_T_HEARTBEAT 1; f_dlc := 8;
     f_data := [1; 0; 0; 2; 0; 0; 0; 0] |}.
Definition demo_glue_run : list (Z * gev) :=
  [(0, GTick); (3, GModeSet PS_STATE_OPERATIONAL); (4, GRx beat_frame); (5, GTick)].

Lemma actuate_needs_heartbeat_witness :
  ps_safety_can_actuate (grun demo_glue demo_glue_run).1 = true /\
  exists b, heard demo_glue_run b /\ 9 - b <= 55.
Proof.
  split; [vm_compute; reflexivity|].
  apply (actuate_needs_heartbeat off_glue (Some demo_cfg) true ESP_OK ESP_OK demo_glue 0 demo_glue_run 5 9).
  - vm_compute. reflexivity.
  - vm_compute. repeat split; done.
  - intros tk Htk. vm_compute in Htk. injection Htk as <-. lia.
  - vm_compute. reflexivity.
Defined.

Lemma estop_reaches_everyone_witness :
  latched (core (ps_safety_raise_estop demo_glue PS_ESTOP_OPERATOR 7 8).1.1) /\
  (ps_safety_raise_estop demo_glue PS_ESTOP_OPERATOR 7 8).1.2 = ESP_OK.
Proof.
  pose proof (estop_reaches_everyone demo_glue PS_ESTOP_OPERATOR 7 8) as H.
  destruct (ps_safety_raise_estop demo_glue PS_ESTOP_OPERATOR 7 8) as [[s' err] calls] eqn:E.
  split; [apply H; [reflexivity | vm_compute; repeat split; done | vm_compute; split; done..]|].
  vm_compute in E. by injection E as <- <- <-.
Defined.
