(* ===== verification/Router.v ===== *)
(** The hub's routing table (src/firmware/components/ps_router/src/ps_router.c and its
    header): the set of ports a frame is forwarded to, as a bit mask. *)
From S2P Require Import Prelude CanId.

Definition PS_PORT_CAN1 : Z := 0.
Definition PS_PORT_CAN2 : Z := 1.
Definition PS_PORT_SPI : Z := 2.
Definition PS_PORT_LOCAL : Z := 3.

Definition PS_PORT_BIT (p : Z) : Z := 1 .<< p.

Definition PS_ROUTER_ALL_PORTS : Z :=
  PS_PORT_BIT PS_PORT_CAN1 .| PS_PORT_BIT PS_PORT_CAN2 .|
  PS_PORT_BIT PS_PORT_SPI .| PS_PORT_BIT PS_PORT_LOCAL.

Definition ps_router_bus_of_node (node : Z) : Z :=
  if (node =? PS_NODE_ARM_R) || (node =? PS_NODE_ARM_L) || (node =? PS_NODE_HELMET)
  then PS_PORT_CAN1
  else if (node =? PS_NODE_LEG_R) || (node =? PS_NODE_LEG_L) || (node =? PS_NODE_FLIGHT)
  then PS_PORT_CAN2
  else -1.

Definition bus_bit_of (dst : Z) : Z :=
  let bus := ps_router_bus_of_node dst in if bus <? 0 then 0 else u8 (PS_PORT_BIT bus).

(** The mask before the origin port is stripped. *)
Definition route_mask (origin_port : Z) (f : ps_can_id_t) : Z :=
  let from_spi := origin_port =? PS_PORT_SPI in
  if cls f =? PS_CLS_SAFETY then PS_ROUTER_ALL_PORTS
  else if cls f =? PS_CLS_CONTROL then
    if from_spi then
      if dst f =? PS_NODE_HUB then PS_PORT_BIT PS_PORT_LOCAL else bus_bit_of (dst f)
    else if dst f =? PS_NODE_ORCH then PS_PORT_BIT PS_PORT_SPI else 0
  else if cls f =? PS_CLS_TELEM then
    if from_spi then
      let mask := bus_bit_of (dst f) in
      if dst f =? PS_NODE_HUB then PS_PORT_BIT PS_PORT_LOCAL else mask
    else
      let mask := PS_PORT_BIT PS_PORT_SPI in
      if dst f =? PS_NODE_HUB then mask .| PS_PORT_BIT PS_PORT_LOCAL else mask
  else if cls f =? PS_CLS_XRCE then
    if from_spi then
      let mask := bus_bit_of (dst f) in
      if dst f =? PS_NODE_HUB then PS_PORT_BIT PS_PORT_LOCAL else mask
    else
      let mask := PS_PORT_BIT PS_PORT_SPI in
      if dst f =? PS_NODE_HUB then mask .| PS_PORT_BIT PS_PORT_LOCAL else mask
  else if cls f =? PS_CLS_AUDIO then
    if (origin_port =? PS_PORT_CAN1) && (dst f =? PS_NODE_ORCH) then PS_PORT_BIT PS_PORT_SPI
    else if from_spi && (dst f =? PS_NODE_HELMET) then PS_PORT_BIT PS_PORT_CAN1
    else 0
  else if cls f =? PS_CLS_MGMT then
    if from_spi then
      PS_PORT_BIT PS_PORT_CAN1 .| PS_PORT_BIT PS_PORT_CAN2 .| PS_PORT_BIT PS_PORT_LOCAL
    else
      let mask := PS_PORT_BIT PS_PORT_SPI .| PS_PORT_BIT PS_PORT_LOCAL in
      if dst f =? PS_NODE_BROADCAST
      then mask .| (PS_PORT_BIT PS_PORT_CAN1 .| PS_PORT_BIT PS_PORT_CAN2) else mask
  else 0.

Definition ps_router_route (origin_port id : Z) : Z :=
  if PS_PORT_LOCAL <? origin_port then 0
  else route_mask origin_port (ps_can_id_unpack id) .& u8 (Z.lnot (PS_PORT_BIT origin_port)).

(** ** Specification: which ports a frame may reach *)

(** Does the frame leave by port [p]? *)
Definition forwards (origin id p : Z) : bool := Z.testbit (ps_router_route origin id) p.

Definition is_bus (p : Z) : Prop := p = PS_PORT_CAN1 \/ p = PS_PORT_CAN2.

(** The mask as a function of class, destination and origin alone. *)
Lemma route_fields origin id :
  ps_router_route origin id =
    if PS_PORT_LOCAL <? origin then 0
    else route_mask origin {| cls := ps_can_id_cls id; src := ps_can_id_src id;
           dst := ps_can_id_dst id; type := ps_can_id_type id; low := ps_can_id_low id |}
         .& u8 (Z.lnot (PS_PORT_BIT origin)).
Proof. reflexivity. Qed.

(** A statement about all identifiers holds once it holds for the 8 classes and 32
    destinations the table can distinguish. *)
Definition mask_of (origin c d : Z) : Z :=
  route_mask origin {| cls := c; src := 0; dst := d; type := 0; low := 0 |}
  .& u8 (Z.lnot (PS_PORT_BIT origin)).

Lemma dst_range id : 0 <= ps_can_id_dst id < 32.
Proof. unfold ps_can_id_dst. rewrite (land_mask _ 5 0x1F) by done. clia. Qed.

Lemma route_table (P : Z -> Z -> Z -> Z -> bool) :
  forallb (fun o => forallb (fun c => forallb (fun d => P o c d (mask_of o c d))
    (seqZ 0 32)) (seqZ 0 8)) (seqZ 0 4) = true ->
  forall origin id, 0 <= origin < 4 ->
  P origin (ps_can_id_cls id) (ps_can_id_dst id) (ps_router_route origin id) = true.
Proof.
  intros H origin id Ho. rewrite route_fields.
  destruct (Z.ltb_spec PS_PORT_LOCAL origin); [unfold PS_PORT_LOCAL in *; lia|].
  assert (forall n k (f : Z -> bool), forallb f (seqZ 0 n) = true -> 0 <= k < n -> f k = true) as Hall.
  { intros n k f Hf Hk. rewrite forallb_forall in Hf. apply Hf, list_elem_of_In, elem_of_seqZ. lia. }
  pose proof (Hall _ _ _ H Ho) as H1. cbn beta in H1.
  pose proof (Hall _ _ _ H1 (cls_range id)) as H2. cbn beta in H2.
  exact (Hall _ _ _ H2 (dst_range id)).
Qed.

(** The forwarding policy, rule by rule (docs/network-map.md, sections 1 and 5).  Where
    the table is silent the rules follow the comments of the source: a request from a bus
    up to the orchestrator, the copy of an upward frame addressed to the hub, and
    management between the buses for broadcasts only. *)
Inductive on_bus : Z -> Z -> Prop :=
  | bus1 n : n ∈ [PS_NODE_ARM_R; PS_NODE_ARM_L; PS_NODE_HELMET] -> on_bus n PS_PORT_CAN1
  | bus2 n : n ∈ [PS_NODE_LEG_R; PS_NODE_LEG_L; PS_NODE_FLIGHT] -> on_bus n PS_PORT_CAN2.

(** [permitted origin dst cls port] *)
Inductive permitted (o d : Z) : Z -> Z -> Prop :=
  | safety_everywhere p : 0 <= p < 4 -> p <> o -> permitted o d PS_CLS_SAFETY p
  | down_to_bus c p : o = PS_PORT_SPI -> c ∈ [PS_CLS_CONTROL; PS_CLS_TELEM; PS_CLS_XRCE] ->
      on_bus d p -> permitted o d c p
  | down_to_hub c : o = PS_PORT_SPI -> c ∈ [PS_CLS_CONTROL; PS_CLS_TELEM; PS_CLS_XRCE] ->
      d = PS_NODE_HUB -> permitted o d c PS_PORT_LOCAL
  | request_up : o <> PS_PORT_SPI -> d = PS_NODE_ORCH -> permitted o d PS_CLS_CONTROL PS_PORT_SPI
  | stream_up c : o <> PS_PORT_SPI -> c ∈ [PS_CLS_TELEM; PS_CLS_XRCE] -> permitted o d c PS_PORT_SPI
  | stream_to_hub c : is_bus o -> c ∈ [PS_CLS_TELEM; PS_CLS_XRCE] -> d = PS_NODE_HUB ->
      permitted o d c PS_PORT_LOCAL
  | voice_up : o = PS_PORT_CAN1 -> d = PS_NODE_ORCH -> permitted o d PS_CLS_AUDIO PS_PORT_SPI
  | voice_down : o = PS_PORT_SPI -> d = PS_NODE_HELMET -> permitted o d PS_CLS_AUDIO PS_PORT_CAN1
  | mgmt_down p : o = PS_PORT_SPI -> is_bus p \/ p = PS_PORT_LOCAL -> permitted o d PS_CLS_MGMT p
  | mgmt_up p : o <> PS_PORT_SPI -> p = PS_PORT_SPI \/ p = PS_PORT_LOCAL -> p <> o ->
      permitted o d PS_CLS_MGMT p
  | mgmt_across p : o <> PS_PORT_SPI -> d = PS_NODE_BROADCAST -> is_bus p -> p <> o ->
      permitted o d PS_CLS_MGMT p.

Lemma on_bus_iff n p : on_bus n p <->
  p = PS_PORT_CAN1 /\ n ∈ [PS_NODE_ARM_R; PS_NODE_ARM_L; PS_NODE_HELMET] \/
  p = PS_PORT_CAN2 /\ n ∈ [PS_NODE_LEG_R; PS_NODE_LEG_L; PS_NODE_FLIGHT].
Proof. split; [intros []; tauto | intros [[-> ?]|[-> ?]]; by constructor]. Qed.
#[local] Instance on_bus_dec n p : Decision (on_bus n p).
Proof.
  refine (cast_if (decide
    (p = PS_PORT_CAN1 /\ n ∈ [PS_NODE_ARM_R; PS_NODE_ARM_L; PS_NODE_HELMET] \/
     p = PS_PORT_CAN2 /\ n ∈ [PS_NODE_LEG_R; PS_NODE_LEG_L; PS_NODE_FLIGHT])));
    abstract (by rewrite on_bus_iff).
Defined.
#[local] Instance is_bus_dec p : Decision (is_bus p).
Proof. unfold is_bus. apply _. Defined.

(** The rules as one decidable formula. *)
Definition permitted_formula (o d c p : Z) : Prop :=
  c = PS_CLS_SAFETY /\ (0 <= p < 4 /\ p <> o) \/
  o = PS_PORT_SPI /\ c ∈ [PS_CLS_CONTROL; PS_CLS_TELEM; PS_CLS_XRCE] /\
    (on_bus d p \/ d = PS_NODE_HUB /\ p = PS_PORT_LOCAL) \/
  c = PS_CLS_CONTROL /\ o <> PS_PORT_SPI /\ d = PS_NODE_ORCH /\ p = PS_PORT_SPI \/
  c ∈ [PS_CLS_TELEM; PS_CLS_XRCE] /\
    (o <> PS_PORT_SPI /\ p = PS_PORT_SPI \/ is_bus o /\ d = PS_NODE_HUB /\ p = PS_PORT_LOCAL) \/
  c = PS_CLS_AUDIO /\ (o = PS_PORT_CAN1 /\ d = PS_NODE_ORCH /\ p = PS_PORT_SPI \/
                       o = PS_PORT_SPI /\ d = PS_NODE_HELMET /\ p = PS_PORT_CAN1) \/
  c = PS_CLS_MGMT /\ (o = PS_PORT_SPI /\ (is_bus p \/ p = PS_PORT_LOCAL) \/
                      o <> PS_PORT_SPI /\ p <> o /\ (p = PS_PORT_SPI \/ p = PS_PORT_LOCAL) \/
                      o <> PS_PORT_SPI /\ p <> o /\ d = PS_NODE_BROADCAST /\ is_bus p).

Lemma permitted_iff o d c p : permitted o d c p <-> permitted_formula o d c p.
Proof.
  unfold permitted_formula. split.
  - intros []; tauto.
  - intros [[-> [??]] | [(? & ? & [?|[? ->]]) | [(-> & ? & ? & ->) | [(? & [[? ->]|(? & ? & ->)]) |
      [[-> [(? & ? & ->)|(? & ? & ->)]] | [-> [[??]|[(? & ? & ?)|(? & ? & ? & ?)]]]]]]]];
      by constructor.
Qed.

#[local] Instance permitted_dec o d c p : Decision (permitted o d c p).
Proof.
  refine (cast_if (decide (permitted_formula o d c p))); abstract (by rewrite permitted_iff).
Defined.

Definition policy_check (o c d m : Z) : bool :=
  bool_decide (0 <= m < 16 /\
    Forall (fun p => Z.testbit m p = true <-> permitted o d c p) (seqZ 0 4)).

Lemma permitted_ports o d c p : permitted o d c p -> 0 <= p < 4.
Proof.
  rewrite permitted_iff. unfold permitted_formula. rewrite on_bus_iff.
  unfold is_bus, PS_PORT_CAN1, PS_PORT_CAN2, PS_PORT_SPI, PS_PORT_LOCAL. lia.
Qed.

Definition isolated (origin c d m : Z) : Prop :=
  (* from a bus to the other bus: SAFETY and broadcast management only *)
  (origin = PS_PORT_CAN1 /\ Z.testbit m PS_PORT_CAN2 = true \/
   origin = PS_PORT_CAN2 /\ Z.testbit m PS_PORT_CAN1 = true ->
     c = PS_CLS_SAFETY \/ (c = PS_CLS_MGMT /\ d = PS_NODE_BROADCAST)) /\
  (* a command reaches a bus only from the orchestrator *)
  (c = PS_CLS_CONTROL -> Z.testbit m PS_PORT_CAN1 = true \/ Z.testbit m PS_PORT_CAN2 = true ->
     origin = PS_PORT_SPI) /\
  (* everything a bus node sends to the orchestrator, audio from bus 2 apart, gets there *)
  (origin = PS_PORT_CAN1 \/ origin = PS_PORT_CAN2 -> d = PS_NODE_ORCH -> c < 6 ->
     c <> PS_CLS_AUDIO \/ origin = PS_PORT_CAN1 -> Z.testbit m PS_PORT_SPI = true) /\
  (* unassigned classes go nowhere *)
  (6 <= c -> m = 0).

#[local] Instance isolated_dec origin c d m : Decision (isolated origin c d m).
Proof. unfold isolated. apply _. Defined.

Definition isolated_check (o c d m : Z) : bool := bool_decide (isolated o c d m).

(** C17: The routing table is exactly the forwarding policy of the network map: for every
    identifier, every port a frame comes in on and every port, the frame leaves by that
    port if and only if one of the rules permits it.  Hence nothing is echoed, SAFETY goes
    everywhere else, commands come from the orchestrator only and reach only the bus of
    the node they address, telemetry and XRCE never cross between the buses, audio stays
    between the helmet and the orchestrator, management reaches the orchestrator and the
    hub (and, broadcast, the other bus), and unassigned classes are dropped. *)
Theorem router_policy origin id p : 0 <= origin < 4 -> 0 <= p ->
  forwards origin id p = true <-> permitted origin (ps_can_id_dst id) (ps_can_id_cls id) p.
Proof.
  intros Ho Hp. pose proof (route_table policy_check ltac:(vm_compute; reflexivity) origin id Ho) as H.
  apply bool_decide_eq_true in H as [Hm H]. rewrite list.Forall_forall in H.
  destruct (decide (p < 4)); [apply H, elem_of_seqZ; lia|].
  split; [|intros ?%permitted_ports; lia].
  assert (Z.log2 (ps_router_route origin id) <= Z.log2 15) as Hl by (apply Z.log2_le_mono; lia).
  change (Z.log2 15) with 3 in Hl. unfold forwards. by rewrite Z.bits_above_log2 by lia.
Qed.

Lemma router_policy_witness :
  forwards PS_PORT_SPI (ps_can_id_pack PS_CLS_CONTROL PS_NODE_ORCH PS_NODE_FLIGHT PS_T_FLAP_CMD 0)
    PS_PORT_CAN2 = true.
Proof.
  apply (router_policy PS_PORT_SPI
    (ps_can_id_pack PS_CLS_CONTROL PS_NODE_ORCH PS_NODE_FLIGHT PS_T_FLAP_CMD 0) PS_PORT_CAN2);
    [unfold PS_PORT_SPI; lia | unfold PS_PORT_CAN2; lia|].
  apply down_to_bus; [reflexivity | left | apply bus2; right; right; left].
Defined.

(** The buses are isolated from each other: a frame crosses from one CAN bus to the
    other only if it is SAFETY or a broadcast of the management class, a command reaches
    a bus only from the orchestrator, a bus node can always reach the orchestrator, and
    the unassigned classes are dropped. *)
Theorem router_isolation origin id : 0 <= origin < 4 ->
  isolated origin (ps_can_id_cls id) (ps_can_id_dst id) (ps_router_route origin id).
Proof.
  intros Ho. pose proof (route_table isolated_check
    ltac:(vm_compute; reflexivity) origin id Ho) as H. by apply bool_decide_eq_true in H.
Qed.

Lemma router_isolation_witness :
  isolated PS_PORT_CAN1 PS_CLS_TELEM PS_NODE_ORCH
    (ps_router_route PS_PORT_CAN1 (ps_can_id_pack PS_CLS_TELEM 1 PS_NODE_ORCH PS_T_JOINT_STATE 3)).
Proof.
  refine (router_isolation PS_PORT_CAN1 (ps_can_id_pack PS_CLS_TELEM 1 PS_NODE_ORCH PS_T_JOINT_STATE 3) _).
  unfold PS_PORT_CAN1. lia.
Defined.
