(* ===== verification/SpiBridge.v ===== *)
(** The SPI bridge to the orchestrator
    (src/firmware/components/ps_spibridge/src/ps_spibridge.c): the uplink and downlink
    queues, the two ping-pong transaction buffers, and the frames built from and parsed
    into them.  [spib_refines] relates it to two bounded lists of records. *)
From S2P Require Import Prelude Rtos Crc16 SpiFrame.

Definition SPIB_DEF_UPLINK_LEN : Z := 256.
Definition SPIB_DEF_DOWNLINK_LEN : Z := 128.

Record ps_spib_stats_t := {
  transactions : Z; crc_errors : Z; uplink_overflows : Z; downlink_records : Z; seq_gaps : Z }.

Definition inc32 (z : Z) : Z := u32 (z + 1).

Section SpiBridge.
Context `{RtosQueue}.

(** The file-static state; [s_tx] are the transmit buffers of the two slots and
    [data_ready] is the level last written to the DATA_READY pin. *)
Record spib := {
  s_tx : list (list Z);
  s_uplink_q : queue ps_can_record_t;
  s_downlink_q : queue ps_can_record_t;
  data_ready : bool;
  s_started : bool;
  s_stats : ps_spib_stats_t;
  s_sticky_flags : Z;
  s_overflow_pending : bool;
  s_tx_seq : Z;
  s_rx_seq : Z;
  s_have_rx_seq : bool;
  s_downlink_drops : Z;
}.

(** The two steps of [spib_update_data_ready]: reading the queue, writing the pin. *)
Definition drdy_read (s : spib) : bool := (0 <? messages (s_uplink_q s))%nat.
Definition drdy_write (s : spib) (level : bool) : spib := {| s with data_ready := level |}.
Definition spib_update_data_ready (s : spib) : spib := drdy_write s (drdy_read s).

Definition spib_rx_is_idle (rx : list Z) (len : nat) : bool :=
  if (len =? 0)%nat then true
  else if (len <? PS_SPI_HDR_SIZE)%nat then false
  else forallb (fun i => rx !!! i =? 0) (seq 0 PS_SPI_HDR_SIZE).

Definition count_crc_error (s : spib) : spib :=
  {| s with s_stats := {| (s_stats s) with crc_errors := inc32 (crc_errors (s_stats s)) |} |}.

(** One record into the downlink queue, the oldest one making room. *)
Definition downlink_put (s : spib) (rec : ps_can_record_t) : spib :=
  let '(q, ok) := xQueueSend (s_downlink_q s) rec in
  let s := {| s with s_downlink_q := q |} in
  let s :=
    if ok then s else
    let q := fst (xQueueReceive (s_downlink_q s)) in
    let q := fst (xQueueSend q rec) in
    {| s with s_downlink_q := q; s_downlink_drops := inc32 (s_downlink_drops s) |} in
  {| s with s_stats := {| (s_stats s) with downlink_records := inc32 (downlink_records (s_stats s)) |} |}.

(** The body of the record loop. *)
Definition rx_record (view : ps_spi_view_t) (s : spib) (i : nat) : spib :=
  match ps_spi_view_record view i with
  | (rc, Some rec) => if rc =? PS_SPI_OK then downlink_put s rec else count_crc_error s
  | (_, None) => count_crc_error s
  end.

Definition note_rx_seq (s : spib) (seq : Z) : spib :=
  let s := if s_have_rx_seq s && negb (seq =? u8 (s_rx_seq s + 1))
           then {| s with s_stats := {| (s_stats s) with seq_gaps := inc32 (seq_gaps (s_stats s)) |} |}
           else s in
  {| s with s_rx_seq := seq; s_have_rx_seq := true |}.

Definition spib_handle_rx (s : spib) (rx : list Z) (len : nat) : spib :=
  match (if (PS_SPI_HDR_SIZE <=? len)%nat then ps_spi_frame_parse rx len else inl PS_SPI_ESHORT) with
  | inl _ => if spib_rx_is_idle rx len then s else count_crc_error s
  | inr view =>
    let s := note_rx_seq s (v_seq view) in
    fold_left (rx_record view) (seq 0 (Z.to_nat (v_count view))) s
  end.

(** The loop that fills [recs] from the uplink queue, at most [room] more. *)
Fixpoint drain (room : nat) (q : queue ps_can_record_t) : queue ps_can_record_t * list ps_can_record_t :=
  match room with
  | O => (q, [])
  | S room =>
    let '(q, got) := xQueueReceive q in
    match got with
    | None => (q, [])
    | Some rec => let '(q, recs) := drain room q in (q, rec :: recs)
    end
  end.

Definition spib_build_tx (s : spib) (buf : list Z) : spib * list Z :=
  let '(q, recs) := drain PS_SPI_MAX_RECORDS (s_uplink_q s) in
  let s := {| s with s_uplink_q := q |} in
  let flags := s_sticky_flags s in
  let '(s, flags) := if s_overflow_pending s
                     then ({| s with s_overflow_pending := false |}, u8 (flags .| PS_SPIF_OVERFLOW))
                     else (s, flags) in
  let flags := if (0 <? messages (s_uplink_q s))%nat then u8 (flags .| PS_SPIF_MORE_PENDING) else flags in
  let seq := s_tx_seq s in
  let s := {| s with s_tx_seq := u8 (s_tx_seq s + 1) |} in
  (s, fst (ps_spi_frame_build buf flags seq recs (length recs))).

(** One turn of [spib_pump_task]: slot [i] completed with [len] bytes [rx] clocked in.
    The second component is the frame put into the slot's buffer. *)
Definition spib_pump_turn (s : spib) (i : nat) (rx : list Z) (len : nat) : spib * list Z :=
  let s := {| s with s_stats := {| (s_stats s) with transactions := inc32 (transactions (s_stats s)) |} |} in
  let s := spib_handle_rx s rx len in
  let '(s, buf) := spib_build_tx s (s_tx s !!! i) in
  let s := {| s with s_tx := <[i := buf]> (s_tx s) |} in
  (spib_update_data_ready s, buf).

(** The bridge before [ps_spib_start]. *)
Definition spib_off (up dn : queue ps_can_record_t) : spib :=
  {| s_tx := replicate 2 (replicate PS_SPI_XFER_SIZE 0); s_uplink_q := up; s_downlink_q := dn;
     data_ready := false; s_started := false;
     s_stats := {| transactions := 0; crc_errors := 0; uplink_overflows := 0; downlink_records := 0;
                   seq_gaps := 0 |};
     s_sticky_flags := 0; s_overflow_pending := false; s_tx_seq := 0; s_rx_seq := 0;
     s_have_rx_seq := false; s_downlink_drops := 0 |}.

(** The answers of the platform calls of [ps_spib_start], in order. *)
Record spib_env := { queues_ok : bool; gpio_err : esp_err_t; slave_err : esp_err_t; task_ok : bool }.

(** [None] is a null pointer; the queue lengths are those of the configuration. *)
Definition ps_spib_start (s : spib) (cfg : option (nat * nat)) (e : spib_env) : spib * esp_err_t :=
  match cfg with
  | None => (s, ESP_ERR_INVALID_ARG)
  | Some (up, dn) =>
    if s_started s then (s, ESP_ERR_INVALID_STATE) else
    let up_len := if (up =? 0)%nat then Z.to_nat SPIB_DEF_UPLINK_LEN else up in
    let dn_len := if (dn =? 0)%nat then Z.to_nat SPIB_DEF_DOWNLINK_LEN else dn in
    let s := {| s with s_uplink_q := xQueueCreate up_len; s_downlink_q := xQueueCreate dn_len |} in
    if negb (queues_ok e) then (s, ESP_ERR_NO_MEM) else
    if negb (is_ok (gpio_err e)) then (s, gpio_err e) else
    let s := {| s with data_ready := false |} in
    if negb (is_ok (slave_err e)) then (s, slave_err e) else
    let '(s, b0) := spib_build_tx s (s_tx s !!! 0%nat) in
    let s := {| s with s_tx := <[0%nat := b0]> (s_tx s) |} in
    let '(s, b1) := spib_build_tx s (s_tx s !!! 1%nat) in
    let s := {| s with s_tx := <[1%nat := b1]> (s_tx s) |} in
    let s := {| s with s_started := true |} in
    if negb (task_ok e) then (s, ESP_ERR_NO_MEM) else (s, ESP_OK)
  end.

Definition ps_spib_uplink_push (s : spib) (rec : option ps_can_record_t) : spib * bool :=
  match rec with
  | Some rec =>
    if negb (s_started s) then (s, false) else
    let '(q, ok) := xQueueSend (s_uplink_q s) rec in
    let s := {| s with s_uplink_q := q |} in
    if negb ok then
      ({| s with s_overflow_pending := true;
           s_stats := {| (s_stats s) with uplink_overflows := inc32 (uplink_overflows (s_stats s)) |} |}, false)
    else ({| s with data_ready := true |}, true)
  | None => (s, false)
  end.

Definition ps_spib_downlink_pop (s : spib) (rec_ok : bool) : spib * option ps_can_record_t :=
  if negb (s_started s) || negb rec_ok then (s, None) else
  let '(q, got) := xQueueReceive (s_downlink_q s) in
  ({| s with s_downlink_q := q |}, got).

Definition ps_spib_set_flag (s : spib) (flag : Z) (on : bool) : spib :=
  let flag := flag .& u8 (PS_SPIF_ESTOP_LATCHED .| PS_SPIF_HUB_FAULT) in
  if on then {| s with s_sticky_flags := s_sticky_flags s .| flag |}
  else {| s with s_sticky_flags := s_sticky_flags s .& u8 (Z.lnot flag) |}.

Definition ps_spib_get_stats (s : spib) (out_ok : bool) (out : ps_spib_stats_t) : ps_spib_stats_t :=
  if out_ok then s_stats s else out.

(** ** Specification: two bounded lists of records *)

Record aspib := {
  up : list ps_can_record_t; up_max : nat;
  dn : list ps_can_record_t; dn_max : nat;
  refused : bool;          (** a push was refused since the last frame *)
  sticky : Z; tx_next : Z }.

Inductive sop :=
  | OpPush (r : ps_can_record_t)
  | OpXfer (slot : nat) (rx : list Z) (len : nat)
  | OpPop
  | OpFlag (flag : Z) (on : bool).

(** What a frame says: its flags, its sequence number, its records. *)
Record message := { m_flags : Z; m_seq : Z; m_recs : list (option ps_can_record_t) }.

Definition decode (buf : list Z) (len : nat) : option message :=
  match ps_spi_frame_parse buf len with
  | inl _ => None
  | inr view => Some {| m_flags := v_flags view; m_seq := v_seq view;
      m_recs := (fun i => match ps_spi_view_record view i with
                          | (rc, Some r) => if rc =? PS_SPI_OK then Some r else None
                          | _ => None end) <$> seq 0 (Z.to_nat (v_count view)) |}
  end.

Inductive sout := OutPush (ok : bool) | OutFrame (m : option message) | OutPop (r : option ps_can_record_t) | OutFlag.

Definition aput (dn_max : nat) (dn : list ps_can_record_t) (r : ps_can_record_t) : list ps_can_record_t :=
  if (length dn <? dn_max)%nat then dn ++ [r] else tail dn ++ [r].

Definition aflags (sticky : Z) (refused more : bool) : Z :=
  sticky .| (if refused then PS_SPIF_OVERFLOW else 0) .| (if more then PS_SPIF_MORE_PENDING else 0).

Definition asend (a : aspib) : aspib * message :=
  ({| a with up := drop 31 (up a); refused := false; tx_next := u8 (tx_next a + 1) |},
   {| m_flags := aflags (sticky a) (refused a) (31 <? length (up a))%nat;
      m_seq := tx_next a; m_recs := Some <$> take 31 (up a) |}).

Definition sspec (a : aspib) (o : sop) : aspib * sout :=
  match o with
  | OpPush r => if (length (up a) <? up_max a)%nat then ({| a with up := up a ++ [r] |}, OutPush true)
                else ({| a with refused := true |}, OutPush false)
  | OpXfer _ rx len =>
    let a := match decode rx len with
             | Some m => {| a with dn := fold_left (aput (dn_max a)) (omap id (m_recs m)) (dn a) |}
             | None => a
             end in
    let '(a, m) := asend a in (a, OutFrame (Some m))
  | OpPop => ({| a with dn := tail (dn a) |}, OutPop (list.head (dn a)))
  | OpFlag f on =>
    let f := f .& 9 in
    ({| a with sticky := if on then sticky a .| f else sticky a .& u8 (Z.lnot f) |}, OutFlag)
  end.

Definition spib_step (s : spib) (o : sop) : spib * sout :=
  match o with
  | OpPush r => let '(s, ok) := ps_spib_uplink_push s (Some r) in (s, OutPush ok)
  | OpXfer i rx len => let '(s, buf) := spib_pump_turn s i rx len in (s, OutFrame (decode buf PS_SPI_XFER_SIZE))
  | OpPop => let '(s, r) := ps_spib_downlink_pop s true in (s, OutPop r)
  | OpFlag f on => (ps_spib_set_flag s f on, OutFlag)
  end.

Fixpoint outs {S} (step : S -> sop -> S * sout) (s : S) (ops : list sop) : list sout :=
  match ops with [] => [] | o :: ops => let '(s, r) := step s o in r :: outs step s ops end.

(** ** Refinement *)

Record srel (b : bool) (s : spib) (a : aspib) : Prop := {
  sr_started : s_started s = b;
  sr_up : waiting (s_uplink_q s) = up a; sr_up_max : capacity (s_uplink_q s) = up_max a;
  sr_dn : waiting (s_downlink_q s) = dn a; sr_dn_max : capacity (s_downlink_q s) = dn_max a;
  sr_dn_pos : (0 < dn_max a)%nat; sr_dn_len : (length (dn a) <= dn_max a)%nat;
  sr_ovf : s_overflow_pending s = refused a;
  sr_sticky : s_sticky_flags s = sticky a; sr_sticky_ok : 0 <= sticky a < 16;
  sr_seq : s_tx_seq s = tx_next a; sr_seq_ok : is_u8 (tx_next a);
  sr_tx : length (s_tx s) = 2%nat; sr_bufs : Forall (fun b => length b = PS_SPI_XFER_SIZE) (s_tx s);
  sr_recs : Forall record_ok (up a);
}.

Definition sop_ok (o : sop) : Prop :=
  match o with
  | OpPush r => record_ok r
  | OpXfer i _ _ => (i < 2)%nat
  | OpFlag f _ => is_u8 f
  | OpPop => True
  end.

Lemma drain_spec n q : waiting (drain n q).1 = drop n (waiting q) /\
  capacity (drain n q).1 = capacity q /\ (drain n q).2 = take n (waiting q).
Proof.
  revert q. induction n as [|n IH]; intros q; [done|]. cbn [drain].
  pose proof (receive_some q) as Hs. pose proof (receive_waiting q) as Hw.
  pose proof (capacity_receive q) as Hc. destruct (xQueueReceive q) as [q' got]. cbn [fst snd] in *.
  subst got. destruct (waiting q) as [|r l]; cbn [list.head tail] in *; [done|].
  destruct (IH q') as (H1 & H2 & H3). destruct (drain n q') as [q2 recs]. cbn [fst snd] in *.
  rewrite H1, H2, H3, Hw. done.
Qed.

Lemma decode_build buf flags seq recs : length buf = PS_SPI_XFER_SIZE -> is_u8 flags -> is_u8 seq ->
  Forall record_ok recs -> (length recs <= 31)%nat ->
  decode (fst (ps_spi_frame_build buf flags seq recs (length recs))) PS_SPI_XFER_SIZE =
  Some {| m_flags := flags; m_seq := seq; m_recs := Some <$> recs |}.
Proof.
  intros Hb Hf Hs HF Hl. rewrite build_eq by done. cbn [fst].
  destruct (parse_frame_bytes flags seq recs PS_SPI_XFER_SIZE Hf Hs HF Hl) as [tl Hp].
  { unfold PS_SPI_XFER_SIZE. lia. }
  unfold decode. rewrite Hp. cbn [v_flags v_seq v_count]. do 2 f_equal.
  rewrite Nat2Z.id. apply list_eq_same_length with (n := length recs).
  { by rewrite length_fmap. } { by rewrite length_fmap, length_seq. }
  intros i x y Hi Hx Hy. rewrite list_lookup_fmap, lookup_seq_lt in Hx by done. cbn in Hx.
  rewrite list_lookup_fmap in Hy. destruct (recs !! i) as [r|] eqn:Hr; [|done]. cbn in Hy. simplify_eq.
  unfold ps_spi_view_record. cbn [v_count v_records].
  destruct (Z.leb_spec (Z.of_nat (length recs)) (Z.of_nat i)); [lia|].
  destruct (drop_body recs i r tl HF Hr) as [tl' Hd]. change (i * PS_SPI_REC_SIZE)%nat with (i * 16)%nat.
  rewrite Hd, record_read_bytes; [done|]. by eapply Forall_lookup_1.
Qed.

Lemma aput_length m l r : (0 < m)%nat -> (length l <= m)%nat -> (length (aput m l r) <= m)%nat.
Proof.
  intros Hm Hl. unfold aput. destruct (Nat.ltb_spec (length l) m); rewrite length_app; cbn [length]; [lia|].
  destruct l; cbn in *; lia.
Qed.

Lemma downlink_put_rel b s a r : srel b s a ->
  srel b (downlink_put s r) {| a with dn := aput (dn_max a) (dn a) r |}.
Proof.
  intros []. unfold downlink_put.
  pose proof (send_ok (s_downlink_q s) r) as Hok. pose proof (send_waiting (s_downlink_q s) r) as Hw.
  pose proof (capacity_send (s_downlink_q s) r) as Hc.
  destruct (xQueueSend (s_downlink_q s) r) as [q ok]. cbn [fst snd] in *. subst ok.
  pose proof (aput_length (dn_max a) (dn a) r) as Hlen.
  rewrite sr_dn0, sr_dn_max0 in *. cbn [s_downlink_q].
  destruct (Nat.ltb_spec (length (dn a)) (dn_max a)) as [Hlt|Hge].
  - constructor; cbn; try done; [|by apply Hlen].
    unfold aput. by rewrite (proj2 (Nat.ltb_lt _ _) Hlt).
  - pose proof (receive_waiting q) as Hr. pose proof (capacity_receive q) as Hrc. rewrite Hw in Hr.
    constructor; cbn; try done.
    + unfold aput. rewrite (proj2 (Nat.ltb_ge _ _) Hge), send_waiting, Hr, Hrc, Hc.
      destruct (Nat.ltb_spec (length (tail (dn a))) (dn_max a)); [done|].
      destruct (dn a); cbn in *; lia.
    + by rewrite capacity_send, Hrc.
    + by apply Hlen.
Qed.

Lemma rx_fold_rel b view js s a : srel b s a ->
  srel b (fold_left (rx_record view) js s)
    {| a with dn := fold_left (aput (dn_max a)) (omap id ((fun i =>
         match ps_spi_view_record view i with
         | (rc, Some r) => if rc =? PS_SPI_OK then Some r else None | _ => None end) <$> js)) (dn a) |}.
Proof.
  revert s a. induction js as [|i js IH]; intros s a Hr; [by destruct a|].
  cbn [fold_left fmap list_fmap omap list_omap id]. unfold rx_record at 2.
  destruct (ps_spi_view_record view i) as [rc [r|]]; [destruct (rc =? PS_SPI_OK)|].
  - apply (IH _ {| a with dn := aput (dn_max a) (dn a) r |}). by apply downlink_put_rel.
  - apply IH. destruct Hr. by constructor.
  - apply IH. destruct Hr. by constructor.
Qed.

Lemma handle_rx_rel b s a rx len : srel b s a ->
  srel b (spib_handle_rx s rx len)
    match decode rx len with
    | Some m => {| a with dn := fold_left (aput (dn_max a)) (omap id (m_recs m)) (dn a) |}
    | None => a
    end.
Proof.
  intros Hr. unfold spib_handle_rx, decode.
  assert ((if (PS_SPI_HDR_SIZE <=? len)%nat then ps_spi_frame_parse rx len else inl PS_SPI_ESHORT) =
    ps_spi_frame_parse rx len) as ->.
  { destruct (Nat.leb_spec PS_SPI_HDR_SIZE len) as [|Hlt]; [done|]. unfold ps_spi_frame_parse.
    by rewrite (proj2 (Nat.ltb_lt _ _) Hlt). }
  destruct (ps_spi_frame_parse rx len) as [rc|view].
  - destruct (spib_rx_is_idle rx len); [done|]. destruct Hr. by constructor.
  - cbn [m_recs]. apply rx_fold_rel. destruct Hr. unfold note_rx_seq. by destruct (_ && _); constructor.
Qed.

Lemma lor_small a b : 0 <= a < 16 -> 0 <= b < 16 -> 0 <= a .| b < 16.
Proof. intros. apply (lor_range a b 4); done. Qed.

Lemma land_small a b : 0 <= a < 16 -> 0 <= a .& b < 16.
Proof.
  intros Ha. replace (a .& b) with ((b .& a) .& 15).
  - rewrite (land_mask _ 4 15) by done. lia.
  - rewrite <- Z.land_assoc, (land_mask a 4 15), Z.mod_small by done. by rewrite Z.land_comm.
Qed.

Lemma aflags_eq st (r m : bool) : 0 <= st < 16 ->
  let f := if r then u8 (st .| PS_SPIF_OVERFLOW) else st in
  (if m then u8 (f .| PS_SPIF_MORE_PENDING) else f) = aflags st r m /\ is_u8 (aflags st r m).
Proof.
  intros Hs. cbv zeta. unfold aflags.
  pose proof (lor_small st PS_SPIF_OVERFLOW Hs ltac:(done)) as H1.
  pose proof (lor_small st PS_SPIF_MORE_PENDING Hs ltac:(done)) as H2.
  pose proof (lor_small _ PS_SPIF_MORE_PENDING H1 ltac:(done)) as H3.
  destruct r, m; rewrite ?Z.lor_0_r; split; rewrite ?u8_id; try done; rewrite ?u8_id; try done; clia.
Qed.

Lemma build_tx_rel b s a buf : srel b s a -> length buf = PS_SPI_XFER_SIZE ->
  let '(s', out) := spib_build_tx s buf in
  let '(a', m) := asend a in
  srel b s' a' /\ decode out PS_SPI_XFER_SIZE = Some m /\ length out = PS_SPI_XFER_SIZE /\ s_tx s' = s_tx s.
Proof.
  intros [] Hb. unfold spib_build_tx, asend.
  destruct (drain_spec PS_SPI_MAX_RECORDS (s_uplink_q s)) as (Hw & Hc & Hrecs).
  destruct (drain PS_SPI_MAX_RECORDS (s_uplink_q s)) as [q recs]. cbn [fst snd] in *.
  rewrite sr_up0 in *. subst recs. unfold PS_SPI_MAX_RECORDS in *.
  cbn [s_overflow_pending s_sticky_flags s_uplink_q]. unfold messages.
  destruct (aflags_eq (sticky a) (refused a) (31 <? length (up a))%nat sr_sticky_ok0) as [Hfl Hok].
  assert ((0 <? length (waiting q))%nat = (31 <? length (up a))%nat) as Hmore.
  { rewrite Hw, length_drop. destruct (Nat.ltb_spec 31 (length (up a)));
      [apply Nat.ltb_lt | apply Nat.ltb_ge]; lia. }
  assert (Forall record_ok (take 31 (up a))) as HF by (by apply Forall_take).
  assert (length (take 31 (up a)) <= 31)%nat as Hl by (rewrite length_take; lia).
  pose proof (decode_build buf (aflags (sticky a) (refused a) (31 <? length (up a))%nat) (tx_next a)
    (take 31 (up a)) Hb Hok sr_seq_ok0 HF Hl) as Hdec.
  pose proof (build_eq buf (aflags (sticky a) (refused a) (31 <? length (up a))%nat) (tx_next a)
    (take 31 (up a)) Hb HF Hl) as Hbe.
  rewrite sr_ovf0, sr_sticky0, <- Hmore in *.
  destruct (refused a); cbn [s_uplink_q s_tx_seq s_tx s_sticky_flags]; rewrite Hfl, sr_seq0, Hdec, Hbe;
    cbn [fst]; (split; [|split; [done|split; [|done]]]); try (by rewrite length_frame_bytes);
    constructor; cbn; try done; try congruence; try (by apply Forall_drop); apply u8_range.
Qed.

Lemma set_flag_rel b s a f on : srel b s a -> is_u8 f ->
  srel b (ps_spib_set_flag s f on) (sspec a (OpFlag f on)).1.
Proof.
  intros [] Hf. unfold ps_spib_set_flag. change (u8 (PS_SPIF_ESTOP_LATCHED .| PS_SPIF_HUB_FAULT)) with 9.
  assert (0 <= f .& 9 < 16) as Hm by (rewrite Z.land_comm; by apply land_small).
  destruct on; constructor; cbn; rewrite ?sr_sticky0; try done; [by apply lor_small | by apply land_small].
Qed.

Lemma push_rel s a r : srel true s a -> record_ok r ->
  srel true (ps_spib_uplink_push s (Some r)).1 (sspec a (OpPush r)).1 /\
  OutPush (ps_spib_uplink_push s (Some r)).2 = (sspec a (OpPush r)).2.
Proof.
  intros [] Hr. unfold ps_spib_uplink_push. rewrite sr_started0. cbn [negb sspec].
  pose proof (send_ok (s_uplink_q s) r) as Hok. pose proof (send_waiting (s_uplink_q s) r) as Hw.
  pose proof (capacity_send (s_uplink_q s) r) as Hc.
  destruct (xQueueSend (s_uplink_q s) r) as [q ok]. cbn [fst snd] in *. subst ok.
  rewrite sr_up0, sr_up_max0 in *.
  destruct (length (up a) <? up_max a)%nat; (split; [|done]); constructor; cbn; try done.
  by apply Forall_app; split; [|constructor].
Qed.

Lemma pump_rel b s a i rx len : srel b s a -> (i < 2)%nat ->
  srel b (spib_pump_turn s i rx len).1 (sspec a (OpXfer i rx len)).1 /\
  OutFrame (decode (spib_pump_turn s i rx len).2 PS_SPI_XFER_SIZE) = (sspec a (OpXfer i rx len)).2.
Proof.
  intros Hr Hi. unfold spib_pump_turn. cbn [sspec].
  set (s0 := {| s with s_stats := {| (s_stats s) with transactions := inc32 (transactions (s_stats s)) |} |}).
  assert (srel b s0 a) as Hr0 by (destruct Hr; by constructor).
  pose proof (handle_rx_rel b s0 a rx len Hr0) as Hr1.
  set (a1 := match decode rx len with Some m => _ | None => _ end) in *.
  set (s1 := spib_handle_rx s0 rx len) in *.
  assert (length (s_tx s1 !!! i) = PS_SPI_XFER_SIZE) as Hbuf.
  { apply (Forall_total (fun b => length b = PS_SPI_XFER_SIZE)); [apply (sr_bufs _ _ _ Hr1)|].
    rewrite (sr_tx _ _ _ Hr1). done. }
  pose proof (build_tx_rel b s1 a1 (s_tx s1 !!! i) Hr1 Hbuf) as Hb. cbv zeta. fold s0. fold s1.
  destruct (spib_build_tx s1 (s_tx s1 !!! i)) as [s2 out]. destruct (asend a1) as [a2 m].
  destruct Hb as (Hr2 & Hdec & Hlen & Htx). cbn [fst snd]. split; [|by rewrite Hdec].
  destruct Hr2. constructor; cbn; rewrite ?length_insert; try done. by apply Forall_insert.
Qed.

Lemma spib_step_rel s a o : srel true s a -> sop_ok o ->
  srel true (spib_step s o).1 (sspec a o).1 /\ (spib_step s o).2 = (sspec a o).2.
Proof.
  intros Hr Ho. destruct o as [r|i rx len| |f on].
  - cbn [spib_step]. destruct (push_rel s a r Hr Ho) as [H1 H2].
    by destruct (ps_spib_uplink_push s (Some r)).
  - cbn [spib_step]. destruct (pump_rel true s a i rx len Hr Ho) as [H1 H2].
    by destruct (spib_pump_turn s i rx len).
  - cbn [spib_step sspec]. destruct Hr. unfold ps_spib_downlink_pop. rewrite sr_started0. cbn [negb orb].
    pose proof (receive_some (s_downlink_q s)) as Hs. pose proof (receive_waiting (s_downlink_q s)) as Hw.
    pose proof (capacity_receive (s_downlink_q s)) as Hc.
    destruct (xQueueReceive (s_downlink_q s)) as [q got]. cbn [fst snd] in *. subst got.
    rewrite sr_dn0 in *. split; [|done]. constructor; cbn; try done; [congruence|].
    destruct (dn a); cbn in *; lia.
  - split; [by apply set_flag_rel|done].
Qed.

Lemma outs_rel s a ops : srel true s a -> Forall sop_ok ops -> outs spib_step s ops = outs sspec a ops.
Proof.
  intros Hr Hok. revert s a Hr. induction Hok as [|o ops Ho _ IH]; intros s a Hr; [done|].
  cbn [outs]. destruct (spib_step_rel s a o Hr Ho) as [H1 H2].
  destruct (spib_step s o) as [s' r], (sspec a o) as [a' r']. cbn [fst snd] in *. subst. f_equal. by apply IH.
Qed.

Definition a_started (up_len dn_len : nat) : aspib :=
  {| up := []; up_max := if (up_len =? 0)%nat then 256%nat else up_len;
     dn := []; dn_max := if (dn_len =? 0)%nat then 128%nat else dn_len;
     refused := false; sticky := 0; tx_next := 2 |}.

Lemma start_rel up0 dn0 ul dl e s :
  ps_spib_start (spib_off up0 dn0) (Some (ul, dl)) e = (s, ESP_OK) -> srel true s (a_started ul dl).
Proof.
  unfold ps_spib_start. cbn [s_started spib_off]. destruct (queues_ok e); [|done]. cbn [negb].
  destruct (gpio_err e); cbn [is_ok negb]; try done. destruct (slave_err e); cbn [is_ok negb]; try done.
  set (q1 := xQueueCreate _). set (q2 := xQueueCreate _).
  set (s0 := {| (spib_off up0 dn0) with s_uplink_q := q1; s_downlink_q := q2 |}).
  change (spib_build_tx _ _) with (spib_build_tx s0 (replicate PS_SPI_XFER_SIZE 0)) at 1.
  assert (srel false s0 {| (a_started ul dl) with tx_next := 0 |}) as Hr0.
  { constructor; cbn [s0 spib_off a_started s_started s_uplink_q s_downlink_q up dn up_max dn_max refused sticky
      tx_next s_overflow_pending s_sticky_flags s_tx_seq s_tx]; subst q1 q2;
      rewrite ?waiting_create, ?capacity_create; try done; try clia.
    - destruct (Nat.eqb_spec dl 0); lia.
    - cbn [length]. lia.
    - repeat constructor. }
  pose proof (build_tx_rel false s0 _ (replicate PS_SPI_XFER_SIZE 0) Hr0 ltac:(by rewrite length_replicate)) as H1.
  destruct (spib_build_tx s0 _) as [s1 b1]. cbn [asend] in H1. destruct H1 as (Hr1 & _ & Hl1 & Ht1).
  set (s2 := {| s1 with s_tx := <[0%nat := b1]> (s_tx s1) |}).
  assert (srel false s2 {| (a_started ul dl) with tx_next := 1 |}) as Hr2.
  { destruct Hr1. constructor; cbn; rewrite ?length_insert; try done; by apply Forall_insert. }
  assert (length (s_tx s2 !!! 1%nat) = PS_SPI_XFER_SIZE) as Hb2.
  { apply (Forall_total (fun b => length b = PS_SPI_XFER_SIZE)); [apply (sr_bufs _ _ _ Hr2)|].
    rewrite (sr_tx _ _ _ Hr2). lia. }
  pose proof (build_tx_rel false s2 _ _ Hr2 Hb2) as H3.
  destruct (spib_build_tx s2 _) as [s3 b3]. cbn [asend] in H3. destruct H3 as (Hr3 & _ & Hl3 & _).
  destruct (task_ok e); [|done]. cbn [negb]. intros [= <-].
  destruct Hr3. constructor; cbn; rewrite ?length_insert; try done; by apply Forall_insert.
Qed.

(** C20: The SPI bridge, once started, answers every sequence of pushes, transactions,
    pops and flag changes as two bounded lists of records: frames carry the oldest
    records (at most 31) in order with consecutive sequence numbers, their flags say
    exactly whether a push was refused since the previous frame and whether more is
    waiting, and the downlink keeps the newest records when it is full. *)
Theorem spib_refines up0 dn0 ul dl e s ops :
  ps_spib_start (spib_off up0 dn0) (Some (ul, dl)) e = (s, ESP_OK) -> Forall sop_ok ops ->
  outs spib_step s ops = outs sspec (a_started ul dl) ops.
Proof. intros Hs. apply outs_rel. by eapply start_rel. Qed.

(** ** Nothing accepted is lost *)

(** The records whose push was accepted, and the records the frames carry, in order. *)
Fixpoint accepted (ops : list sop) (rs : list sout) : list ps_can_record_t :=
  match ops, rs with
  | OpPush r :: ops, OutPush true :: rs => r :: accepted ops rs
  | _ :: ops, _ :: rs => accepted ops rs
  | _, _ => []
  end.
Definition delivered (rs : list sout) : list ps_can_record_t :=
  rs ≫= fun o => match o with OutFrame (Some m) => omap id (m_recs m) | _ => [] end.

Lemma omap_id_Some {A} (l : list A) : omap id (Some <$> l) = l.
Proof. induction l as [|x l IH]; cbn; by f_equal. Qed.

Lemma spec_lossless ops a : (length (up a) <= up_max a)%nat ->
  exists rest, up a ++ accepted ops (outs sspec a ops) = delivered (outs sspec a ops) ++ rest /\
    (length rest <= up_max a)%nat.
Proof.
  revert a. induction ops as [|o ops IH]; intros a Hl.
  { exists (up a). by rewrite app_nil_r. }
  cbn [outs]. destruct o as [r|i rx len| |f on]; cbn [sspec].
  - destruct (Nat.ltb_spec (length (up a)) (up_max a)).
    + destruct (IH {| a with up := up a ++ [r] |}) as (rest & Heq & Hr).
      { cbn. rewrite length_app. cbn. lia. }
      exists rest. split; [|done]. cbn [accepted]. cbn [up] in Heq.
      rewrite <- app_assoc in Heq. exact Heq.
    + apply (IH {| a with refused := true |}). done.
  - set (a1 := match decode rx len with Some m => _ | None => _ end).
    assert (up a1 = up a /\ up_max a1 = up_max a) as [Hu Hm] by (subst a1; by case_match).
    clearbody a1. unfold asend. cbn [accepted delivered mbind list_bind m_recs].
    destruct (IH {| a1 with up := drop 31 (up a1); refused := false; tx_next := u8 (tx_next a1 + 1) |})
      as (rest & Heq & Hr).
    { cbn. rewrite length_drop, Hu, Hm. lia. }
    exists rest. cbn [up up_max] in Heq, Hr. rewrite Hm in Hr. split; [|done].
    rewrite omap_id_Some, <- app_assoc. fold (delivered). 
    rewrite Hu in Heq |- *. rewrite <- (take_drop 31 (up a)) at 1. rewrite <- app_assoc. f_equal. exact Heq.
  - apply (IH {| a with dn := tail (dn a) |}). done.
  - apply (IH {| a with sticky := _ |}). done.
Qed.

(** The uplink loses, duplicates and reorders nothing it accepted: over any sequence
    of operations, the records the receiver decodes from the frames, followed by at most
    a queue's length still waiting, are exactly the records whose push was accepted, in
    the order they were pushed. *)
Theorem spib_uplink_lossless up0 dn0 ul dl e s ops :
  ps_spib_start (spib_off up0 dn0) (Some (ul, dl)) e = (s, ESP_OK) -> Forall sop_ok ops ->
  let rs := outs spib_step s ops in
  exists rest, accepted ops rs = delivered rs ++ rest /\
    (length rest <= if (ul =? 0)%nat then 256 else ul)%nat.
Proof.
  intros Hs Hok. cbv zeta. rewrite (outs_rel s (a_started ul dl)); [|by eapply start_rel|done].
  destruct (spec_lossless ops (a_started ul dl)) as (rest & Heq & Hr); [cbn [a_started up length]; lia|].
  by exists rest.
Qed.

(** ** DATA_READY *)

Lemma drdy_step s o : data_ready s = drdy_read s -> data_ready (spib_step s o).1 = drdy_read (spib_step s o).1.
Proof.
  intros Hd. destruct o as [r|i rx len| |f on]; cbn [spib_step].
  - unfold ps_spib_uplink_push. destruct (s_started s); [|done]. cbn [negb].
    pose proof (send_ok (s_uplink_q s) r) as Hok. pose proof (send_waiting (s_uplink_q s) r) as Hw.
    destruct (xQueueSend (s_uplink_q s) r) as [q ok]. cbn [fst snd] in *. unfold drdy_read, messages in *.
    rewrite <- Hok in Hw. destruct ok; cbn [negb fst data_ready s_uplink_q]; rewrite Hw; [|done].
    rewrite length_app. cbn [length]. symmetry. apply Nat.ltb_lt. lia.
  - unfold spib_pump_turn. destruct (spib_build_tx _ _) as [s1 b]. done.
  - unfold ps_spib_downlink_pop. destruct (_ || _); [done|]. by destruct (xQueueReceive _).
  - by destruct on.
Qed.

Lemma drdy_run s ops : data_ready s = drdy_read s ->
  data_ready (fold_left (fun s o => (spib_step s o).1) ops s) =
  drdy_read (fold_left (fun s o => (spib_step s o).1) ops s).
Proof.
  revert s. induction ops as [|o ops IH]; intros s Hd; cbn [fold_left]; [done|]. by apply IH, drdy_step.
Qed.

(** DATA_READY tells the orchestrator the truth as long as the operations do not
    overlap: after every operation it is high exactly when records wait.  But the pump
    reads the queue and writes the pin in two steps without the lock: a push that falls
    between them (the gateway preempts the pump, the BMS runs on the other core) leaves
    the pin low although a record waits, until the next transaction. *)
Theorem spib_data_ready s ops r : s_started s = true ->
  let run := fold_left (fun s o => (spib_step s o).1) in
  (data_ready s = drdy_read s -> data_ready (run ops s) = drdy_read (run ops s)) /\
  (waiting (s_uplink_q s) = [] -> (0 < capacity (s_uplink_q s))%nat ->
   let level := drdy_read s in
   let s' := drdy_write (ps_spib_uplink_push s (Some r)).1 level in
   data_ready s' = false /\ waiting (s_uplink_q s') = [r]).
Proof.
  intros Hst. cbv zeta. split.
  - apply drdy_run.
  - intros Hw Hc. unfold drdy_read, messages. rewrite Hw. cbn [drdy_write data_ready]. split; [done|].
    unfold ps_spib_uplink_push. rewrite Hst. cbn [negb].
    destruct (send_room (s_uplink_q s) r) as [Hok Hw']; [by rewrite Hw|].
    destruct (xQueueSend (s_uplink_q s) r) as [q ok]. cbn [fst snd] in *. subst ok. cbn. by rewrite Hw', Hw.
Qed.

End SpiBridge.

(** ** Witnesses *)

Definition all_ok : spib_env := {| queues_ok := true; gpio_err := ESP_OK; slave_err := ESP_OK; task_ok := true |}.
Definition demo_spib : spib :=
  (ps_spib_start (spib_off (xQueueCreate 0) (xQueueCreate 0)) (Some (2%nat, 1%nat)) all_ok).1.
Definition demo_ops : list sop :=
  [OpPush demo_record; OpPush demo_record; OpPush demo_record; OpFlag 1 true;
   OpXfer 0 (frame_bytes 0 5 [demo_record; demo_record]) 40; OpPop; OpPop].

Lemma demo_ops_ok : Forall sop_ok demo_ops.
Proof. repeat constructor; try apply demo_record_ok; cbn; try clia; try lia. Qed.

Lemma spib_refines_witness :
  outs spib_step demo_spib demo_ops =
  [OutPush true; OutPush true; OutPush false; OutFlag;
   OutFrame (Some {| m_flags := 3; m_seq := 2; m_recs := [Some demo_record; Some demo_record] |});
   OutPop (Some demo_record); OutPop None].
Proof.
  rewrite (spib_refines (xQueueCreate 0) (xQueueCreate 0) 2 1 all_ok demo_spib demo_ops
    ltac:(vm_compute; reflexivity) demo_ops_ok). vm_compute. reflexivity.
Defined.

Lemma spib_uplink_lossless_witness :
  exists rest, [demo_record; demo_record] = delivered (outs spib_step demo_spib demo_ops) ++ rest.
Proof.
  destruct (spib_uplink_lossless (xQueueCreate 0) (xQueueCreate 0) 2 1 all_ok demo_spib demo_ops
    ltac:(vm_compute; reflexivity) demo_ops_ok) as (rest & Heq & _).
  exists rest. rewrite <- Heq. vm_compute. reflexivity.
Defined.

Lemma spib_data_ready_witness :
  data_ready (drdy_write (ps_spib_uplink_push demo_spib (Some demo_record)).1 (drdy_read demo_spib)) = false.
Proof.
  apply (spib_data_ready demo_spib [] demo_record); [reflexivity | reflexivity | vm_compute; lia].
Defined.
