(* ===== verification/Adpcm.v ===== *)
(** The IMA ADPCM codec (src/common/c/src/adpcm_ima.c and its header): four bits per
    16-bit sample.  The decoder follows the encoder's state exactly, and the decoded
    signal tracks the input within the quantiser's step. *)
From S2P Require Import Prelude.

Definition STEP_TABLE : list Z := [
  7; 8; 9; 10; 11; 12; 13; 14; 16; 17;
  19; 21; 23; 25; 28; 31; 34; 37; 41; 45;
  50; 55; 60; 66; 73; 80; 88; 97; 107; 118;
  130; 143; 157; 173; 190; 209; 230; 253; 279; 307;
  337; 371; 408; 449; 494; 544; 598; 658; 724; 796;
  876; 963; 1060; 1166; 1282; 1411; 1552; 1707; 1878; 2066;
  2272; 2499; 2749; 3024; 3327; 3660; 4026; 4428; 4871; 5358;
  5894; 6484; 7132; 7845; 8630; 9493; 10442; 11487; 12635; 13899;
  15289; 16818; 18500; 20350; 22385; 24623; 27086; 29794; 32767].

Definition INDEX_TABLE : list Z := [-1; -1; -1; -1; 2; 4; 6; 8; -1; -1; -1; -1; 2; 4; 6; 8].

Record ps_adpcm_state_t := { predictor : Z; step_index : Z }.

Definition ps_adpcm_init : ps_adpcm_state_t := {| predictor := 0; step_index := 0 |}.

Definition clamp16 (v : Z) : Z := if 32767 <? v then 32767 else if v <? -32768 then -32768 else v.

(** The update of the step index shared by both directions. *)
Definition next_index (st : ps_adpcm_state_t) (code : Z) : Z :=
  let i := step_index st + INDEX_TABLE !!! Z.to_nat code in
  if i <? 0 then 0 else if 88 <? i then 88 else i.

Definition encode_sample (st : ps_adpcm_state_t) (sample : Z) : ps_adpcm_state_t * Z :=
  let step := STEP_TABLE !!! Z.to_nat (step_index st) in
  let diff := sample - predictor st in
  let '(code, diff) := if diff <? 0 then (8, - diff) else (0, diff) in
  let vpdiff := step .>> 3 in
  let '(code, diff, vpdiff) :=
    if step <=? diff then (code .| 4, diff - step, vpdiff + step) else (code, diff, vpdiff) in
  let step := step .>> 1 in
  let '(code, diff, vpdiff) :=
    if step <=? diff then (code .| 2, diff - step, vpdiff + step) else (code, diff, vpdiff) in
  let step := step .>> 1 in
  let '(code, vpdiff) := if step <=? diff then (code .| 1, vpdiff + step) else (code, vpdiff) in
  ({| predictor := if has code 8 then clamp16 (predictor st - vpdiff) else clamp16 (predictor st + vpdiff);
      step_index := next_index st code |}, code).

Definition decode_sample (st : ps_adpcm_state_t) (code : Z) : ps_adpcm_state_t * Z :=
  let step := STEP_TABLE !!! Z.to_nat (step_index st) in
  let vpdiff := step .>> 3 in
  let vpdiff := if has code 4 then vpdiff + step else vpdiff in
  let vpdiff := if has code 2 then vpdiff + (step .>> 1) else vpdiff in
  let vpdiff := if has code 1 then vpdiff + (step .>> 2) else vpdiff in
  let st := {| predictor := if has code 8 then clamp16 (predictor st - vpdiff)
                            else clamp16 (predictor st + vpdiff);
               step_index := next_index st code |} in
  (st, i16 (predictor st)).

(** [pcm] is the caller's [n] samples; a last odd one is not read. *)
Fixpoint ps_adpcm_encode (st : ps_adpcm_state_t) (pcm : list Z) : ps_adpcm_state_t * list Z :=
  match pcm with
  | a :: b :: pcm =>
    let '(st, lo) := encode_sample st a in
    let '(st, hi) := encode_sample st b in
    let '(st, out) := ps_adpcm_encode st pcm in (st, u8 (lo .| (hi .<< 4)) :: out)
  | _ => (st, [])
  end.

Fixpoint ps_adpcm_decode (st : ps_adpcm_state_t) (bytes : list Z) : ps_adpcm_state_t * list Z :=
  match bytes with
  | [] => (st, [])
  | b :: bytes =>
    let '(st, x) := decode_sample st (u8 (b .& 0xF)) in
    let '(st, y) := decode_sample st (u8 (b .>> 4)) in
    let '(st, pcm) := ps_adpcm_decode st bytes in (st, x :: y :: pcm)
  end.

(** ** Invariant *)

Definition adpcm_ok (st : ps_adpcm_state_t) : Prop :=
  is_i16 (predictor st) /\ 0 <= step_index st <= 88.

Definition step_of (st : ps_adpcm_state_t) : Z := STEP_TABLE !!! Z.to_nat (step_index st).

Lemma step_range st : adpcm_ok st -> 7 <= step_of st <= 32767.
Proof.
  intros [_ Hi]. unfold step_of.
  apply (Forall_total (fun s => 7 <= s <= 32767)); [|cbn; lia].
  apply Forall_forall. intros x Hx.
  assert (forallb (fun s => (7 <=? s) && (s <=? 32767)) STEP_TABLE = true) as H by reflexivity.
  rewrite forallb_forall in H. specialize (H x Hx). bools. lia.
Qed.

Lemma clamp16_range v : is_i16 (clamp16 v).
Proof. unfold clamp16. ifs; clia. Qed.

Lemma next_index_range st code : 0 <= next_index st code <= 88.
Proof. unfold next_index. cbv zeta. ifs; lia. Qed.

Lemma encode_ok st s : adpcm_ok (encode_sample st s).1.
Proof.
  unfold encode_sample. cbv zeta.
  repeat match goal with |- context [let '(_, _) := ?x in _] => destruct x end.
  split; [cbn; case_match; apply clamp16_range | apply next_index_range].
Qed.

Lemma decode_ok st c : adpcm_ok (decode_sample st c).1.
Proof.
  unfold decode_sample. cbv zeta. split; [cbn [fst predictor]; case_match; apply clamp16_range | apply next_index_range].
Qed.

(** The code the encoder chooses, by the four tests it makes. *)
Definition code_of (neg b4 b2 b1 : bool) : Z :=
  Z.b2z neg * 8 + Z.b2z b4 * 4 + Z.b2z b2 * 2 + Z.b2z b1.

(** The encoder in closed form: [m] is the magnitude of the difference. *)
Lemma encode_eq st s :
  let step := step_of st in
  let neg := s - predictor st <? 0 in
  let m := Z.abs (s - predictor st) in
  let b4 := step <=? m in let m1 := if b4 then m - step else m in
  let b2 := step / 2 <=? m1 in let m2 := if b2 then m1 - step / 2 else m1 in
  let b1 := step / 4 <=? m2 in
  encode_sample st s = ((decode_sample st (code_of neg b4 b2 b1)).1, code_of neg b4 b2 b1).
Proof.
  cbv zeta. unfold encode_sample. fold (step_of st). set (step := step_of st).
  rewrite !Z.shiftr_shiftr by lia. rewrite !Z.shiftr_div_pow2 by lia.
  change (2 ^ 3) with 8. change (2 ^ 1) with 2. change (2 ^ (1 + 1)) with 4.
  assert ((if s - predictor st <? 0 then (8, - (s - predictor st)) else (0, s - predictor st)) =
    (if s - predictor st <? 0 then 8 else 0, Z.abs (s - predictor st))) as ->
    by (destruct (Z.ltb_spec (s - predictor st) 0); f_equal; lia).
  unfold decode_sample. fold (step_of st). fold step.
  rewrite !Z.shiftr_div_pow2 by lia. change (2 ^ 3) with 8. change (2 ^ 1) with 2. change (2 ^ 2) with 4.
  destruct (s - predictor st <? 0), (step <=? Z.abs (s - predictor st)); cbv zeta; cbn iota;
    repeat (match goal with |- context [step / ?k <=? ?x] => destruct (step / k <=? x) end);
    reflexivity.
Qed.

Lemma code_of_range n a b c : 0 <= code_of n a b c < 16.
Proof. by destruct n, a, b, c. Qed.

Lemma encode_code st s : 0 <= (encode_sample st s).2 < 16.
Proof. rewrite encode_eq. apply code_of_range. Qed.

(** One step of the decoder follows one step of the encoder. *)
Lemma decode_encode st s : let '(st', code) := encode_sample st s in
  decode_sample st code = (st', predictor st').
Proof.
  rewrite encode_eq. cbn [fst]. set (code := code_of _ _ _ _).
  pose proof (decode_ok st code) as [Hp _]. unfold decode_sample in *. cbv zeta in *. cbn [fst predictor] in *.
  by rewrite i16_id.
Qed.

Lemma nibbles lo hi : 0 <= lo < 16 -> 0 <= hi < 16 ->
  u8 (u8 (lo .| (hi .<< 4)) .& 0xF) = lo /\ u8 (u8 (lo .| (hi .<< 4)) .>> 4) = hi.
Proof.
  intros Hl Hh. rewrite Z.lor_comm, (lor_shiftl_add hi lo 4) by (cbn; lia).
  change (2 ^ 4) with 16. rewrite (u8_id (hi * 16 + lo)) by clia.
  rewrite (land_mask _ 4 0xF), Z.shiftr_div_pow2 by done. change (2 ^ 4) with 16. split; clia.
Qed.

(** The signal the encoder reconstructs: its predictor after each sample. *)
Fixpoint reconstruction (st : ps_adpcm_state_t) (pcm : list Z) : list Z :=
  match pcm with
  | [] => []
  | s :: pcm => let st := (encode_sample st s).1 in predictor st :: reconstruction st pcm
  end.

Fixpoint encode_state (st : ps_adpcm_state_t) (pcm : list Z) : ps_adpcm_state_t :=
  match pcm with [] => st | s :: pcm => encode_state (encode_sample st s).1 pcm end.

Lemma encode_state_ok st pcm : adpcm_ok st -> adpcm_ok (encode_state st pcm).
Proof. revert st. induction pcm as [|s pcm IH]; intros st Hok; [done|]. apply IH, encode_ok. Qed.

Lemma encode_state_app st a b : encode_state st (a ++ b) = encode_state (encode_state st a) b.
Proof. revert st. induction a as [|s a IH]; intros st; [done|]. apply IH. Qed.

Lemma reconstruction_app st a b :
  reconstruction st (a ++ b) = reconstruction st a ++ reconstruction (encode_state st a) b.
Proof. revert st. induction a as [|s a IH]; intros st; [done|]. cbn. by rewrite IH. Qed.

Lemma decode_stream n pcm st : length pcm = (2 * n)%nat ->
  let '(st', bytes) := ps_adpcm_encode st pcm in
  length bytes = n /\ Forall is_u8 bytes /\ st' = encode_state st pcm /\
  ps_adpcm_decode st bytes = (st', reconstruction st pcm).
Proof.
  revert pcm st. induction n as [|n IH]; intros pcm st Hl.
  { destruct pcm; [|done]. done. }
  destruct pcm as [|a [|b pcm]]; [done|cbn in Hl; lia|].
  cbn [ps_adpcm_encode reconstruction encode_state].
  pose proof (decode_encode st a) as Ha. pose proof (encode_code st a) as Ca.
  destruct (encode_sample st a) as [st1 lo]. cbn [fst snd] in *.
  pose proof (decode_encode st1 b) as Hb. pose proof (encode_code st1 b) as Cb.
  destruct (encode_sample st1 b) as [st2 hi]. cbn [fst snd] in *.
  specialize (IH pcm st2 ltac:(cbn in Hl; lia)).
  destruct (ps_adpcm_encode st2 pcm) as [st3 bytes]. destruct IH as (H1 & H2 & H3 & H4).
  destruct (nibbles lo hi Ca Cb) as [Hlo Hhi]. cbn [length ps_adpcm_decode].
  split; [lia|]. split; [constructor; [apply u8_range|done]|]. split; [done|].
  by rewrite Hlo, Ha, Hhi, Hb, H4.
Qed.

Lemma clamp16_closer s v : is_i16 s -> Z.abs (s - clamp16 v) <= Z.abs (s - v).
Proof. intros. unfold clamp16. ifs; clia. Qed.

(** The error after one sample: below an eighth of the step plus rounding, or what the
    largest correction leaves of it. *)
Lemma encode_error st s : adpcm_ok st -> is_i16 s ->
  let step := step_of st in
  Z.abs (s - predictor (encode_sample st s).1) <=
  Z.max (step / 8 + 3) (Z.abs (s - predictor st) - (step + step / 2 + step / 4 + step / 8)).
Proof.
  intros Hok Hs. cbv zeta. pose proof (step_range st Hok) as Hstep. rewrite encode_eq. cbn [fst].
  set (step := step_of st) in *. set (m := Z.abs (s - predictor st)).
  unfold decode_sample. fold (step_of st). fold step. cbv zeta. cbn [fst predictor].
  rewrite !Z.shiftr_div_pow2 by lia. change (2 ^ 3) with 8. change (2 ^ 1) with 2. change (2 ^ 2) with 4.
  destruct (Z.ltb_spec (s - predictor st) 0), (Z.leb_spec step m);
    repeat (match goal with |- context [step / ?k <=? ?x] => destruct (Z.leb_spec (step / k) x) end);
    repeat (match goal with |- context [has (code_of ?a ?b ?c ?d) ?k] =>
      let v := eval vm_compute in (has (code_of a b c d) k) in
      change (has (code_of a b c d) k) with v end); cbn iota;
    match goal with |- context [clamp16 ?v] => pose proof (clamp16_closer s v Hs) end; subst m; lia.
Qed.

(** The codec is lossless with respect to the encoder's own reconstruction: decoding
    the bytes of an even number of samples from the encoder's starting state gives
    exactly the encoder's predictor after every sample, ends in the encoder's state,
    and keeps predictor and step index in range whatever the input. *)
Theorem adpcm_lockstep st pcm n : adpcm_ok st -> length pcm = (2 * n)%nat ->
  let '(st', bytes) := ps_adpcm_encode st pcm in
  length bytes = n /\ Forall is_u8 bytes /\ adpcm_ok st' /\
  ps_adpcm_decode st bytes = (st', reconstruction st pcm).
Proof.
  intros Hok Hl. pose proof (decode_stream n pcm st Hl) as H.
  destruct (ps_adpcm_encode st pcm) as [st' bytes]. destruct H as (H1 & H2 & H3 & H4).
  split_and!; try done. rewrite H3. by apply encode_state_ok.
Qed.

(** The decoded signal tracks the input: after any sample the error is at most an
    eighth of the current step plus three, unless the input moved by more than the
    largest correction the step allows, and then that correction is taken off it in
    full; the step index never leaves its table. *)
Theorem adpcm_tracks st s : adpcm_ok st -> is_i16 s ->
  let st' := (encode_sample st s).1 in
  let step := STEP_TABLE !!! Z.to_nat (step_index st) in
  adpcm_ok st' /\
  Z.abs (s - predictor st') <=
  Z.max (step / 8 + 3) (Z.abs (s - predictor st) - (step + step / 2 + step / 4 + step / 8)).
Proof. intros Hok Hs. split; [apply encode_ok | by apply encode_error]. Qed.

Lemma adpcm_ok_init : adpcm_ok ps_adpcm_init.
Proof. split; cbn; clia. Qed.

Lemma adpcm_lockstep_witness :
  ps_adpcm_decode ps_adpcm_init (ps_adpcm_encode ps_adpcm_init [100; -3000; 32767; -32768]).2 =
  ((ps_adpcm_encode ps_adpcm_init [100; -3000; 32767; -32768]).1, [11; -19; 44; -92]).
Proof.
  pose proof (adpcm_lockstep ps_adpcm_init [100; -3000; 32767; -32768] 2 adpcm_ok_init eq_refl) as H.
  destruct (ps_adpcm_encode _ _) as [st' bytes]. cbn [fst snd].
  destruct H as (_ & _ & _ & H). rewrite H. f_equal.
Defined.

Lemma adpcm_tracks_witness :
  Z.abs (13 - predictor (encode_sample {| predictor := 10; step_index := 20 |} 13).1) <= 9.
Proof.
  destruct (adpcm_tracks {| predictor := 10; step_index := 20 |} 13) as [_ H];
    [split; cbn; clia | clia|].
  eapply Z.le_trans; [exact H|]. vm_compute. discriminate.
Defined.
