(* ===== verification/Audio.v ===== *)
(** The audio packetiser and depacketiser
    (src/firmware/components/ps_audio/src/audio_pkt.c and ps_audio.h): sixteen samples
    to a frame, a SYNC with the encoder's state every fifty frames, and a receiver that
    decodes in lockstep until a frame is missing. *)
From S2P Require Import Prelude CanId Wire Adpcm.

Definition PS_AUDIO_SAMPLE_RATE : Z := 8000.
Definition PS_AUDIO_FRAME_BYTES : nat := 8.
Definition PS_AUDIO_FRAME_SAMPLES : nat := 16.
Definition PS_AUDIO_SYNC_INTERVAL : Z := 50.
Definition PS_AUDIO_DIR_DOWN : Z := 0.
Definition PS_AUDIO_DIR_UP : Z := 1.
Definition PS_AUDIO_RX_RING_SAMPLES : Z := 4096.

(** A call of the emit callback. *)
Record emission := { e_id : Z; e_data : list Z; e_dlc : Z }.

(** ** Transmitter *)

Record ps_audio_tx_t := {
  enc : ps_adpcm_state_t; frame_seq : Z; dir : Z; src_node : Z; dst_node : Z;
  frames_since_sync : Z; tx_started : bool; pend : list Z; pending_n : nat }.

(** [junk] is what the caller's struct held in its [pending] buffer, which
    initialisation does not touch. *)
Definition ps_audio_tx_init (junk : list Z) (dir src_node dst_node : Z) : ps_audio_tx_t :=
  {| enc := ps_adpcm_init; frame_seq := 0; dir := dir; src_node := src_node; dst_node := dst_node;
     frames_since_sync := 0; tx_started := false; pend := junk; pending_n := 0 |}.

Definition sync_payload (tx : ps_audio_tx_t) : ps_audio_sync_t :=
  {| as_dir := dir tx; as_step_index := u8 (step_index (enc tx));
     as_predictor := i16 (predictor (enc tx)); as_frame_seq := frame_seq tx; as_rsvd := 0 |}.

Definition tx_emit_sync (tx : ps_audio_tx_t) : ps_audio_tx_t * emission :=
  ({| tx with frames_since_sync := 0; tx_started := true |},
   {| e_id := ps_can_id_pack PS_CLS_AUDIO (src_node tx) (dst_node tx) PS_T_AUDIO_SYNC
                (u8 (frame_seq tx .& 0xFF));
      e_data := wire_write (sync_payload tx); e_dlc := 8 |}).

Definition ps_audio_tx_sync (tx : ps_audio_tx_t) : ps_audio_tx_t * emission := tx_emit_sync tx.

(** The body of the [if]: a complete frame is pending. *)
Definition tx_frame (tx : ps_audio_tx_t) : ps_audio_tx_t * list emission :=
  let '(tx, sync) := if negb (tx_started tx) || (PS_AUDIO_SYNC_INTERVAL <=? frames_since_sync tx)
                     then let '(tx, e) := tx_emit_sync tx in (tx, [e]) else (tx, []) in
  let '(st, adpcm) := ps_adpcm_encode (enc tx) (take PS_AUDIO_FRAME_SAMPLES (pend tx)) in
  let type := if dir tx =? PS_AUDIO_DIR_UP then PS_T_AUDIO_UP else PS_T_AUDIO_DOWN in
  let e := {| e_id := ps_can_id_pack PS_CLS_AUDIO (src_node tx) (dst_node tx) type
                        (u8 (frame_seq tx .& 0xFF));
              e_data := adpcm; e_dlc := Z.of_nat PS_AUDIO_FRAME_BYTES |} in
  ({| tx with enc := st; frame_seq := u16 (frame_seq tx + 1);
       frames_since_sync := u32 (frames_since_sync tx + 1); pending_n := 0 |}, sync ++ [e]).

(** The loop of [ps_audio_tx_push]; the frames emitted. *)
Fixpoint tx_push_loop (fuel : nat) (tx : ps_audio_tx_t) (pcm : list Z) : ps_audio_tx_t * list emission :=
  match fuel with
  | O => (tx, [])
  | S fuel =>
    if (length pcm =? 0)%nat then (tx, []) else
    let k := (PS_AUDIO_FRAME_SAMPLES - pending_n tx)%nat in
    let k := if (length pcm <? k)%nat then length pcm else k in
    let tx := {| tx with pend := bput (pending_n tx) (take k pcm) (pend tx);
                   pending_n := (pending_n tx + k)%nat |} in
    let '(tx, out) := if (pending_n tx =? PS_AUDIO_FRAME_SAMPLES)%nat then tx_frame tx else (tx, []) in
    let '(tx, out') := tx_push_loop fuel tx (drop k pcm) in (tx, out ++ out')
  end.

(** Every turn takes at least one sample. *)
Definition ps_audio_tx_push (tx : ps_audio_tx_t) (pcm : list Z) : ps_audio_tx_t * list emission :=
  tx_push_loop (length pcm) tx pcm.

(** ** Receiver *)

Record ps_audio_rx_t := {
  dec : ps_adpcm_state_t; expect_seq : Z; locked : bool; gaps : Z;
  ring : list Z; rx_head : Z; rx_tail : Z }.

Definition ps_audio_rx_init (junk : list Z) : ps_audio_rx_t :=
  {| dec := ps_adpcm_init; expect_seq := 0; locked := false; gaps := 0;
     ring := junk; rx_head := 0; rx_tail := 0 |}.

Definition rx_ring_put (rx : ps_audio_rx_t) (s : Z) : ps_audio_rx_t :=
  let rx := {| rx with ring := <[Z.to_nat (rx_head rx) := s]> (ring rx);
                 rx_head := (rx_head rx + 1) mod PS_AUDIO_RX_RING_SAMPLES |} in
  if rx_head rx =? rx_tail rx
  then {| rx with rx_tail := (rx_tail rx + 1) mod PS_AUDIO_RX_RING_SAMPLES |} else rx.

Definition rx_ring_push (rx : ps_audio_rx_t) (s : list Z) : ps_audio_rx_t := fold_left rx_ring_put s rx.

Definition ps_audio_rx_on_frame (rx : ps_audio_rx_t) (f : emission) : ps_audio_rx_t :=
  let id := e_id f in
  if negb (ps_can_id_cls id =? PS_CLS_AUDIO) then rx else
  let type := ps_can_id_type id in
  if type =? PS_T_AUDIO_SYNC then
    if e_dlc f <? 8 then rx else
    let s : ps_audio_sync_t := wire_read (e_data f) in
    {| rx with dec := {| predictor := as_predictor s;
                         step_index := if 88 <? as_step_index s then 88 else as_step_index s |};
         expect_seq := u16 (as_frame_seq s .& 0xFF); locked := true |}
  else if (type =? PS_T_AUDIO_UP) || (type =? PS_T_AUDIO_DOWN) then
    if negb (e_dlc f =? Z.of_nat PS_AUDIO_FRAME_BYTES) then rx else
    if negb (locked rx) then rx else
    if ps_can_id_low id =? u8 (expect_seq rx) then
      let '(st, pcm) := ps_adpcm_decode (dec rx) (take PS_AUDIO_FRAME_BYTES (e_data f)) in
      let rx := rx_ring_push {| rx with dec := st |} pcm in
      {| rx with expect_seq := u16 ((expect_seq rx + 1) .& 0xFF) |}
    else
      let rx := rx_ring_push rx (replicate PS_AUDIO_FRAME_SAMPLES 0) in
      {| rx with gaps := u32 (gaps rx + 1); locked := false |}
  else rx.

Definition ps_audio_rx_available (rx : ps_audio_rx_t) : Z :=
  (rx_head rx + PS_AUDIO_RX_RING_SAMPLES - rx_tail rx) mod PS_AUDIO_RX_RING_SAMPLES.

(** The copy loop of [ps_audio_rx_pull]. *)
Fixpoint rx_take (n : nat) (rx : ps_audio_rx_t) : ps_audio_rx_t * list Z :=
  match n with
  | O => (rx, [])
  | S n =>
    let x := ring rx !!! Z.to_nat (rx_tail rx) in
    let '(rx, l) := rx_take n {| rx with rx_tail := (rx_tail rx + 1) mod PS_AUDIO_RX_RING_SAMPLES |} in
    (rx, x :: l)
  end.

Definition ps_audio_rx_pull (rx : ps_audio_rx_t) (max_samples : Z) : ps_audio_rx_t * list Z :=
  let avail := ps_audio_rx_available rx in
  let n := if max_samples <? avail then max_samples else avail in
  rx_take (Z.to_nat n) rx.

(** ** The receiver's ring as a bounded list *)

Definition ring_ok (rx : ps_audio_rx_t) : Prop :=
  length (ring rx) = 4096%nat /\ 0 <= rx_head rx < 4096 /\ 0 <= rx_tail rx < 4096.

Definition buffered (rx : ps_audio_rx_t) : list Z :=
  contents 4096 (ring rx) (rx_tail rx) (ps_audio_rx_available rx).

(** Appending to a buffer that keeps the newest 4095 samples. *)
Definition bapp (l s : list Z) : list Z := drop (length l + length s - 4095) (l ++ s).

Lemma length_buffered rx : ring_ok rx -> (length (buffered rx) <= 4095)%nat.
Proof.
  intros _. unfold buffered, ps_audio_rx_available, PS_AUDIO_RX_RING_SAMPLES. rewrite length_contents. lia.
Qed.

Lemma bapp_cons l x s : (length l <= 4095)%nat -> bapp (bapp l [x]) s = bapp l (x :: s).
Proof.
  intros Hl. unfold bapp. cbn [length].
  destruct (decide (length l = 4095%nat)) as [He|].
  - destruct l as [|y l]; [done|]. cbn [length] in *. replace (S (length l) + 1 - 4095)%nat with 1%nat by lia.
    cbn [app drop]. rewrite drop_0, length_app. cbn [length].
    replace (S (length l) + S (length s) - 4095)%nat with (S (length l + 1 + length s - 4095)) by lia.
    cbn [drop]. by rewrite <- app_assoc.
  - replace (length l + 1 - 4095)%nat with 0%nat by lia. rewrite drop_0, length_app. cbn [length].
    replace (length l + 1 + length s - 4095)%nat with (length l + S (length s) - 4095)%nat by lia.
    by rewrite <- app_assoc.
Qed.

Lemma ring_put_spec rx s : ring_ok rx ->
  ring_ok (rx_ring_put rx s) /\ buffered (rx_ring_put rx s) = bapp (buffered rx) [s].
Proof.
  intros (Hr & Hh & Ht). unfold rx_ring_put, PS_AUDIO_RX_RING_SAMPLES. cbv zeta. cbn [rx_head rx_tail].
  set (n := ps_audio_rx_available rx).
  assert (n = (rx_head rx - rx_tail rx) mod 4096) as Hn
    by (subst n; unfold ps_audio_rx_available, PS_AUDIO_RX_RING_SAMPLES; lia).
  assert (Z.to_nat (rx_head rx) = Z.to_nat ((rx_tail rx + n) mod 4096)) as Hcell by (f_equal; lia).
  pose proof (contents_push 4096 (ring rx) (rx_tail rx) n s) as Hpush.
  specialize (Hpush ltac:(lia) ltac:(lia)).
  assert (length (buffered rx) = Z.to_nat n) as Hlen by (unfold buffered; by rewrite length_contents).
  unfold bapp. rewrite Hlen. cbn [length].
  destruct (Z.eqb_spec ((rx_head rx + 1) mod 4096) (rx_tail rx)) as [He|He].
  - split; [split_and!; cbn; rewrite ?length_insert; lia|].
    assert (n = 4095) as -> by lia. change (Z.to_nat 4095 + 1 - 4095)%nat with 1%nat.
    unfold buffered, ps_audio_rx_available, PS_AUDIO_RX_RING_SAMPLES. cbn [ring rx_head rx_tail].
    rewrite Hcell. rewrite (contents_pop 4096 _ (rx_tail rx)) in Hpush by lia.
    assert (((rx_head rx + 1) mod 4096 + 4096 - (rx_tail rx + 1) mod 4096) mod 4096 = 4095) as -> by lia.
    assert ((rx_head rx + 4096 - rx_tail rx) mod 4096 = 4095) as -> by lia.
    change (4095 + 1 - 1) with 4095 in Hpush. rewrite <- Hcell in Hpush |- *.
    apply (f_equal (drop 1)) in Hpush. cbn [drop] in Hpush. by rewrite drop_0 in Hpush.
  - split; [split_and!; cbn; rewrite ?length_insert; lia|].
    replace (Z.to_nat n + 1 - 4095)%nat with 0%nat by lia. rewrite drop_0.
    unfold buffered, ps_audio_rx_available, PS_AUDIO_RX_RING_SAMPLES. cbn [ring rx_head rx_tail].
    assert (((rx_head rx + 1) mod 4096 + 4096 - rx_tail rx) mod 4096 = n + 1) as -> by lia.
    assert ((rx_head rx + 4096 - rx_tail rx) mod 4096 = n) as -> by lia.
    by rewrite Hcell.
Qed.

Lemma bapp_nil l : (length l <= 4095)%nat -> bapp l [] = l.
Proof. intros. unfold bapp. cbn [length]. rewrite app_nil_r. by replace (length l + 0 - 4095)%nat with 0%nat by lia. Qed.

Lemma ring_push_spec rx s : ring_ok rx ->
  ring_ok (rx_ring_push rx s) /\ buffered (rx_ring_push rx s) = bapp (buffered rx) s.
Proof.
  unfold rx_ring_push. revert rx. induction s as [|x s IH]; intros rx Hok; cbn [fold_left].
  { split; [done|]. symmetry. by apply bapp_nil, length_buffered. }
  destruct (ring_put_spec rx x Hok) as [Hok' Hb]. destruct (IH _ Hok') as [H1 H2].
  split; [done|]. rewrite H2, Hb. by apply bapp_cons, length_buffered.
Qed.

Lemma ring_push_keeps rx s : let rx' := rx_ring_push rx s in
  dec rx' = dec rx /\ expect_seq rx' = expect_seq rx /\ locked rx' = locked rx /\ gaps rx' = gaps rx.
Proof.
  cbv zeta. unfold rx_ring_push. revert rx. induction s as [|x s IH]; intros rx; [done|]. cbn [fold_left].
  destruct (IH (rx_ring_put rx x)) as (-> & -> & -> & ->). unfold rx_ring_put. cbv zeta. by case_match.
Qed.

Lemma rx_take_spec n rx : ring_ok rx -> (n <= length (buffered rx))%nat ->
  let '(rx', l) := rx_take n rx in
  ring_ok rx' /\ l = take n (buffered rx) /\ buffered rx' = drop n (buffered rx) /\
  dec rx' = dec rx /\ expect_seq rx' = expect_seq rx /\ locked rx' = locked rx /\ gaps rx' = gaps rx.
Proof.
  revert rx. induction n as [|n IH]; intros rx Hok Hn; [by rewrite drop_0|]. cbn [rx_take].
  destruct Hok as (Hr & Hh & Ht). unfold buffered in *. rewrite length_contents in Hn.
  set (rx1 := {| rx with rx_tail := (rx_tail rx + 1) mod PS_AUDIO_RX_RING_SAMPLES |}).
  assert (ps_audio_rx_available rx1 = ps_audio_rx_available rx - 1) as Hav
    by (unfold ps_audio_rx_available, PS_AUDIO_RX_RING_SAMPLES in *; cbn [rx1 rx_head rx_tail]; lia).
  specialize (IH rx1). destruct (rx_take n rx1) as [rx2 l].
  destruct IH as (H1 & H2 & H3 & H4).
  - split_and!; cbn; unfold PS_AUDIO_RX_RING_SAMPLES; lia.
  - rewrite length_contents, Hav. lia.
  - rewrite (contents_pop 4096 (ring rx)) by lia. cbn [take drop]. rewrite Hav in *.
    split; [done|]. split; [by rewrite H2|]. by split.
Qed.

(** ** Lockstep of transmitter and receiver *)

Definition tx_ok (tx : ps_audio_tx_t) : Prop :=
  adpcm_ok (enc tx) /\ is_u16 (frame_seq tx) /\ is_u8 (dir tx) /\
  0 <= src_node tx < 32 /\ 0 <= dst_node tx < 32 /\ length (pend tx) = 16%nat /\ (pending_n tx < 16)%nat.

Definition synced (tx : ps_audio_tx_t) (rx : ps_audio_rx_t) : Prop :=
  locked rx = true /\ dec rx = enc tx /\ expect_seq rx = frame_seq tx mod 256.

Definition rx_all (rx : ps_audio_rx_t) (fs : list emission) : ps_audio_rx_t :=
  fold_left ps_audio_rx_on_frame fs rx.

Lemma rx_all_app rx a b : rx_all rx (a ++ b) = rx_all (rx_all rx a) b.
Proof. apply fold_left_app. Qed.

Lemma low_byte z : u8 (z .& 0xFF) = z mod 256.
Proof. rewrite (land_mask z 8 0xFF) by done. change (2 ^ 8) with 256. clia. Qed.

Lemma audio_id_fields tx type : tx_ok tx -> is_u8 type ->
  let id := ps_can_id_pack PS_CLS_AUDIO (src_node tx) (dst_node tx) type (u8 (frame_seq tx .& 0xFF)) in
  ps_can_id_cls id = PS_CLS_AUDIO /\ ps_can_id_type id = type /\ ps_can_id_low id = frame_seq tx mod 256.
Proof.
  intros (_ & _ & _ & Hs & Hd & _) Ht. cbv zeta. rewrite low_byte.
  assert (is_u8 (frame_seq tx mod 256)) as Hl by clia.
  split_and!; [apply cls_pack | apply type_pack | apply low_pack]; try done.
Qed.

(** A SYNC puts any receiver in step, and delivers no sample. *)
Lemma sync_spec tx rx : tx_ok tx ->
  let '(tx', e) := tx_emit_sync tx in
  let rx' := ps_audio_rx_on_frame rx e in
  tx_ok tx' /\ synced tx' rx' /\ enc tx' = enc tx /\ pend tx' = pend tx /\ pending_n tx' = pending_n tx /\
  frame_seq tx' = frame_seq tx /\ dir tx' = dir tx /\ tx_started tx' = true /\
  ring rx' = ring rx /\ rx_head rx' = rx_head rx /\ rx_tail rx' = rx_tail rx /\ gaps rx' = gaps rx.
Proof.
  intros Hok. destruct (audio_id_fields tx PS_T_AUDIO_SYNC Hok ltac:(done)) as (Hc & Ht & _).
  destruct Hok as (Ha & Hseq & Hdir & Hsrc & Hdst & Hp & Hn). destruct Ha as [Hpr Hst] eqn:Ea.
  unfold tx_emit_sync. split; [split_and!; try done; cbn; clia|].
  assert (wire_ok (sync_payload tx)) as Hw.
  { unfold wire_ok, sync_payload. cbn. unfold fok; cbn. repeat split; clia. }
  unfold ps_audio_rx_on_frame. cbn [e_id e_data e_dlc]. rewrite Hc, Ht.
  change (PS_CLS_AUDIO =? PS_CLS_AUDIO) with true. change (PS_T_AUDIO_SYNC =? PS_T_AUDIO_SYNC) with true.
  change (8 <? 8) with false. cbn [negb]. cbv zeta.
  rewrite <- (app_nil_r (wire_write (sync_payload tx))), (wire_read_write_app _ [] Hw).
  cbn [sync_payload as_predictor as_step_index as_frame_seq].
  rewrite (u8_id (step_index (enc tx))), (i16_id (predictor (enc tx))) by clia.
  destruct (Z.ltb_spec 88 (step_index (enc tx))); [lia|].
  split; [|by repeat split]. split; [done|]. split; [by destruct (enc tx)|].
  cbn [expect_seq frame_seq]. rewrite (land_mask _ 8 0xFF) by done. change (2 ^ 8) with 256. clia.
Qed.

(** A frame decodes to the encoder's reconstruction of its sixteen samples. *)
Lemma data_spec tx rx type : tx_ok tx -> synced tx rx -> ring_ok rx ->
  type = PS_T_AUDIO_UP \/ type = PS_T_AUDIO_DOWN ->
  let '(st, adpcm) := ps_adpcm_encode (enc tx) (take PS_AUDIO_FRAME_SAMPLES (pend tx)) in
  let rx' := ps_audio_rx_on_frame rx
    {| e_id := ps_can_id_pack PS_CLS_AUDIO (src_node tx) (dst_node tx) type (u8 (frame_seq tx .& 0xFF));
       e_data := adpcm; e_dlc := Z.of_nat PS_AUDIO_FRAME_BYTES |} in
  st = encode_state (enc tx) (pend tx) /\
  locked rx' = true /\ dec rx' = st /\ expect_seq rx' = u16 (frame_seq tx + 1) mod 256 /\ ring_ok rx' /\
  buffered rx' = bapp (buffered rx) (reconstruction (enc tx) (pend tx)) /\ gaps rx' = gaps rx.
Proof.
  intros Hok (Hlk & Hdec & Hex) Hring Htype.
  destruct (audio_id_fields tx type Hok ltac:(destruct Htype as [-> | ->]; done)) as (Hc & Ht & Hlow).
  destruct Hok as (Ha & Hseq & Hdir & Hsrc & Hdst & Hp & Hn).
  unfold PS_AUDIO_FRAME_SAMPLES. rewrite take_ge by lia.
  pose proof (decode_stream 8 (pend tx) (enc tx) ltac:(lia)) as Hd.
  destruct (ps_adpcm_encode (enc tx) (pend tx)) as [st adpcm]. destruct Hd as (Hlen & _ & Hst & Hdc).
  unfold ps_audio_rx_on_frame. cbn [e_id e_data e_dlc]. rewrite Hc, Ht, Hlow.
  change (PS_CLS_AUDIO =? PS_CLS_AUDIO) with true. cbn [negb].
  assert ((type =? PS_T_AUDIO_SYNC) = false) as -> by (by destruct Htype as [-> | ->]).
  assert ((type =? PS_T_AUDIO_UP) || (type =? PS_T_AUDIO_DOWN) = true) as -> by (by destruct Htype as [-> | ->]).
  rewrite Z.eqb_refl, Hlk. cbn [negb]. rewrite Hex.
  assert ((frame_seq tx mod 256 =? u8 (frame_seq tx mod 256)) = true) as -> by (apply Z.eqb_eq; clia).
  unfold PS_AUDIO_FRAME_BYTES. rewrite take_ge by lia. rewrite Hdec, Hdc. cbv zeta.
  set (rx1 := {| rx with dec := st; expect_seq := frame_seq tx mod 256; locked := true |}).
  destruct (ring_push_spec rx1 (reconstruction (enc tx) (pend tx)) Hring) as [Hr1 Hb1].
  destruct (ring_push_keeps rx1 (reconstruction (enc tx) (pend tx))) as (K1 & K2 & K3 & K4).
  set (rx2 := rx_ring_push rx1 _) in *. cbn [rx1 dec expect_seq locked gaps] in K1, K2, K3, K4.
  split_and!; try done; cbn [locked dec expect_seq gaps]; try congruence.
  rewrite K2, (land_mask _ 8 0xFF) by done. change (2 ^ 8) with 256. clia.
Qed.

Lemma tx_frame_spec tx rx : tx_ok tx -> ring_ok rx -> (tx_started tx = true -> synced tx rx) ->
  let '(tx', fs) := tx_frame tx in
  let rx' := rx_all rx fs in
  tx_ok tx' /\ synced tx' rx' /\ ring_ok rx' /\ tx_started tx' = true /\ pending_n tx' = 0%nat /\
  enc tx' = encode_state (enc tx) (pend tx) /\
  buffered rx' = bapp (buffered rx) (reconstruction (enc tx) (pend tx)) /\ gaps rx' = gaps rx.
Proof.
  intros Hok Hring Hsync. unfold tx_frame.
  set (p := if negb (tx_started tx) || (PS_AUDIO_SYNC_INTERVAL <=? frames_since_sync tx)
            then let '(tx, e) := tx_emit_sync tx in (tx, [e]) else (tx, [])).
  assert (tx_ok p.1 /\ synced p.1 (rx_all rx p.2) /\ ring_ok (rx_all rx p.2) /\ tx_started p.1 = true /\
    enc p.1 = enc tx /\ pend p.1 = pend tx /\
    buffered (rx_all rx p.2) = buffered rx /\ gaps (rx_all rx p.2) = gaps rx) as Hp.
  { subst p. destruct (negb (tx_started tx) || _) eqn:Eb.
    - pose proof (sync_spec tx rx Hok) as Hs. destruct (tx_emit_sync tx) as [tx1 e].
      destruct Hs as (H1 & H2 & H3 & H4 & _ & _ & _ & H8 & H9 & H10 & H11 & H12). cbn [fst snd rx_all fold_left].
      split_and!; try done.
      + unfold ring_ok. by rewrite H9, H10, H11.
      + unfold buffered, ps_audio_rx_available. by rewrite H9, H10, H11.
    - bools. cbn [fst snd rx_all fold_left]. split_and!; try done. by apply Hsync. }
  destruct p as [tx1 sync]. cbn [fst snd] in Hp. destruct Hp as (H1 & H2 & H3 & H4 & H5 & H6 & H7 & H8).
  pose proof (data_spec tx1 (rx_all rx sync)
    (if dir tx1 =? PS_AUDIO_DIR_UP then PS_T_AUDIO_UP else PS_T_AUDIO_DOWN) H1 H2 H3) as Hd.
  destruct (ps_adpcm_encode (enc tx1) _) as [st adpcm]. cbv zeta.
  rewrite rx_all_app. cbn [rx_all fold_left].
  destruct Hd as (D1 & D2 & D3 & D4 & D5 & D6 & D7); [case_match; auto|].
  rewrite H5, H6, H7, H8 in *. split_and!; try done.
  destruct H1 as (Ha & Hs & Hd & Hsr & Hds & Hpd & Hn). split_and!; cbn; rewrite ?H6; try done; try clia.
  - rewrite D1. apply encode_state_ok, Hok.
  - apply Hok.
Qed.

Lemma bapp_app l a b : (length l <= 4095)%nat -> bapp (bapp l a) b = bapp l (a ++ b).
Proof.
  revert l. induction a as [|x a IH]; intros l Hl; [by rewrite bapp_nil|]. cbn [app].
  rewrite <- (bapp_cons l x (a ++ b)), <- (bapp_cons l x a) by done. apply IH. unfold bapp. rewrite length_drop, length_app. cbn [length]. lia.
Qed.

(** The samples waiting for a complete frame. *)
Definition partial (tx : ps_audio_tx_t) : list Z := take (pending_n tx) (pend tx).

(** How much of a stream of [n] samples is in complete frames. *)
Definition whole (n : nat) : nat := (16 * (n / 16))%nat.

Definition exact_from (tx : ps_audio_tx_t) (rx : ps_audio_rx_t) (pcm : list Z)
    (tx' : ps_audio_tx_t) (rx' : ps_audio_rx_t) : Prop :=
  let s := partial tx ++ pcm in
  tx_ok tx' /\ ring_ok rx' /\ (tx_started tx' = true -> synced tx' rx') /\
  partial tx' = drop (whole (length s)) s /\
  enc tx' = encode_state (enc tx) (take (whole (length s)) s) /\
  buffered rx' = bapp (buffered rx) (reconstruction (enc tx) (take (whole (length s)) s)) /\
  gaps rx' = gaps rx /\ (tx_started tx = true -> tx_started tx' = true).

Lemma whole_small n : (n < 16)%nat -> whole n = 0%nat.
Proof. intros. unfold whole. rewrite Nat.div_small; lia. Qed.

Lemma whole_16 n : whole (16 + n) = (16 + whole n)%nat.
Proof. unfold whole. replace (16 + n)%nat with (n + 1 * 16)%nat by lia. rewrite Nat.div_add by lia. lia. Qed.

Lemma exact_refl tx rx : tx_ok tx -> ring_ok rx -> (tx_started tx = true -> synced tx rx) ->
  exact_from tx rx [] tx rx.
Proof.
  intros Hok Hr Hs. unfold exact_from. rewrite app_nil_r. cbv zeta.
  assert (length (partial tx) < 16)%nat as Hl
    by (unfold partial; destruct Hok as (_ & _ & _ & _ & _ & ? & ?); rewrite length_take; lia).
  rewrite (whole_small _ Hl), drop_0, take_0. split_and!; try done.
  symmetry. by apply bapp_nil, length_buffered.
Qed.

Lemma partial_full tx : length (pend tx) = 16%nat -> pending_n tx = 16%nat -> partial tx = pend tx.
Proof. intros H1 H2. unfold partial. by rewrite H2, take_ge by lia. Qed.

Lemma push_loop_exact fuel tx rx pcm : (length pcm <= fuel)%nat ->
  tx_ok tx -> ring_ok rx -> (tx_started tx = true -> synced tx rx) ->
  let '(tx', fs) := tx_push_loop fuel tx pcm in exact_from tx rx pcm tx' (rx_all rx fs).
Proof.
  revert tx rx pcm. induction fuel as [|fuel IH]; intros tx rx pcm Hf Hok Hr Hs.
  { destruct pcm; [|cbn in Hf; lia]. by apply exact_refl. }
  cbn [tx_push_loop]. destruct (Nat.eqb_spec (length pcm) 0) as [H0|H0].
  { destruct pcm; [|done]. by apply exact_refl. }
  set (k := if (length pcm <? PS_AUDIO_FRAME_SAMPLES - pending_n tx)%nat then length pcm
            else (PS_AUDIO_FRAME_SAMPLES - pending_n tx)%nat).
  assert (1 <= k <= length pcm /\ pending_n tx + k <= 16)%nat as [Hk Hk16].
  { subst k. unfold PS_AUDIO_FRAME_SAMPLES. destruct Hok as (_ & _ & _ & _ & _ & _ & ?).
    destruct (Nat.ltb_spec (length pcm) (16 - pending_n tx)); lia. }
  set (tx1 := {| tx with pend := bput (pending_n tx) (take k pcm) (pend tx); pending_n := (pending_n tx + k)%nat |}).
  assert (length (take k pcm) = k) as Hlk by (rewrite length_take; lia).
  assert (length (pend tx) = 16%nat) as Hp16 by apply Hok.
  assert (length (pend tx1) = 16%nat) as Hp1 by (cbn; rewrite length_bput; [done|lia]).
  assert (partial tx1 = partial tx ++ take k pcm) as Hpart.
  { unfold partial, tx1, bput. cbn [pending_n pend].
    rewrite (app_assoc (take _ _)), take_app_length'; [done|]. rewrite length_app, length_take. lia. }
  assert (partial tx ++ pcm = partial tx1 ++ drop k pcm) as Hstream
    by (by rewrite Hpart, <- app_assoc, take_drop).
  cbv zeta. fold k. cbn [pending_n]. fold tx1.
  change (pending_n tx1) with (pending_n tx + k)%nat. unfold PS_AUDIO_FRAME_SAMPLES.
  destruct (Nat.eqb_spec (pending_n tx + k) 16) as [Hfull|Hpartial].
  - assert (tx_ok {| tx1 with pending_n := 0%nat |}) as Hok1
      by (destruct Hok as (?&?&?&?&?&?&?); split_and!; cbn; try done; lia).
    pose proof (tx_frame_spec {| tx1 with pending_n := 0%nat |} rx Hok1 Hr Hs) as Hfr.
    replace (tx_frame {| tx1 with pending_n := 0%nat |}) with (tx_frame tx1) in Hfr
      by (unfold tx_frame; destruct (negb _ || _); cbn; by destruct (ps_adpcm_encode _ _)).
    destruct (tx_frame tx1) as [tx2 out]. destruct Hfr as (F1 & F2 & F3 & F4 & F5 & F6 & F7 & F8).
    specialize (IH tx2 (rx_all rx out) (drop k pcm) ltac:(rewrite length_drop; lia) F1 F3 (fun _ => F2)).
    destruct (tx_push_loop fuel tx2 (drop k pcm)) as [tx3 out'].
    rewrite rx_all_app. unfold exact_from in *. rewrite Hstream. cbv zeta in *.
    assert (partial tx2 = []) as E2 by (unfold partial; by rewrite F5, take_0).
    rewrite E2 in IH. cbn [app] in IH. cbn [pend enc] in F6, F7. rewrite F6, F7, F8 in IH.
    rewrite (partial_full tx1 Hp1 Hfull), length_app, Hp1, whole_16.
    replace (16 + whole (length (drop k pcm)))%nat with (length (pend tx1) + whole (length (drop k pcm)))%nat
      by (by rewrite Hp1).
    rewrite drop_app_add, take_app_add, encode_state_app, reconstruction_app.
    destruct IH as (I1 & I2 & I3 & I4 & I5 & I6 & I7 & I8).
    rewrite <- (bapp_app (buffered rx)) by (by apply length_buffered). split_and!; try done. by auto.
  - assert (tx_ok tx1) as Hok1 by (destruct Hok as (?&?&?&?&?&?&?); split_and!; cbn; try done; lia).
    specialize (IH tx1 rx (drop k pcm) ltac:(rewrite length_drop; lia) Hok1 Hr Hs).
    destruct (tx_push_loop fuel tx1 (drop k pcm)) as [tx3 out']. cbn [app].
    unfold exact_from in *. by rewrite Hstream.
Qed.

(** Composition: the stream is exact across pushes, however it is cut into chunks. *)
Lemma exact_trans tx0 rx0 a tx1 rx1 b tx2 rx2 : ring_ok rx0 ->
  exact_from tx0 rx0 a tx1 rx1 -> exact_from tx1 rx1 b tx2 rx2 -> exact_from tx0 rx0 (a ++ b) tx2 rx2.
Proof.
  intros Hr0 (A1 & A2 & A3 & A4 & A5 & A6 & A7 & A8) (B1 & B2 & B3 & B4 & B5 & B6 & B7 & B8).
  unfold exact_from. cbv zeta in *. rewrite app_assoc. set (s := partial tx0 ++ a) in *.
  rewrite A4, A5, A6, A7 in *. set (w := whole (length s)) in *.
  assert (w <= length s)%nat as Hw by (subst w; unfold whole; pose proof (Nat.Div0.mul_div_le (length s) 16); lia).
  assert (whole (length (s ++ b)) = (w + whole (length (drop w s ++ b)))%nat) as Hwhole.
  { rewrite !length_app, length_drop. subst w. unfold whole. pose proof (Nat.div_mod (length s) 16 ltac:(lia)).
    rewrite <- Nat.mul_add_distr_l. f_equal.
    replace (length s + length b)%nat
      with ((length s - 16 * (length s / 16) + length b) + (length s / 16) * 16)%nat by lia.
    rewrite Nat.div_add by lia. lia. }
  assert (s ++ b = take w s ++ (drop w s ++ b)) as Hs by (by rewrite app_assoc, take_drop).
  assert (length (take w s) = w) as Hl by (rewrite length_take; lia).
  set (x := whole (length (drop w s ++ b))) in *.
  assert (drop (w + x) (s ++ b) = drop x (drop w s ++ b)) as D1
    by (rewrite Hs; rewrite <- Hl at 1; by rewrite drop_app_add).
  assert (take (w + x) (s ++ b) = take w s ++ take x (drop w s ++ b)) as D2
    by (rewrite Hs; rewrite <- Hl at 1; by rewrite take_app_add).
  rewrite Hwhole, D1, D2, encode_state_app, reconstruction_app.
  rewrite <- (bapp_app (buffered rx0)) by (by apply length_buffered).
  split_and!; try done. by auto.
Qed.

Fixpoint push_all (tx : ps_audio_tx_t) (chunks : list (list Z)) : ps_audio_tx_t * list emission :=
  match chunks with
  | [] => (tx, [])
  | c :: chunks =>
    let '(tx, fs) := ps_audio_tx_push tx c in
    let '(tx, fs') := push_all tx chunks in (tx, fs ++ fs')
  end.

Lemma push_all_exact chunks tx rx : tx_ok tx -> ring_ok rx -> (tx_started tx = true -> synced tx rx) ->
  let '(tx', fs) := push_all tx chunks in exact_from tx rx (mjoin chunks) tx' (rx_all rx fs).
Proof.
  revert tx rx. induction chunks as [|c chunks IH]; intros tx rx Hok Hr Hs; cbn [push_all mjoin list_join].
  { by apply exact_refl. }
  pose proof (push_loop_exact (length c) tx rx c ltac:(lia) Hok Hr Hs) as Hp. unfold ps_audio_tx_push.
  destruct (tx_push_loop (length c) tx c) as [tx1 fs]. pose proof Hp as (P1 & P2 & P3 & _).
  specialize (IH tx1 (rx_all rx fs) P1 P2 P3). destruct (push_all tx1 chunks) as [tx2 fs'].
  rewrite rx_all_app. by eapply exact_trans.
Qed.

(** An audio stream delivered in order is heard exactly as encoded: however the
    samples are cut into pushes, the receiver's buffer holds the encoder's own
    reconstruction of every complete sixteen-sample frame (the newest 4095 samples of
    it), no gap is counted, and only the samples of an incomplete frame are held back. *)
Theorem audio_stream_exact junk junk' d src dst chunks :
  length junk = 16%nat -> length junk' = 4096%nat -> is_u8 d -> 0 <= src < 32 -> 0 <= dst < 32 ->
  let pcm := mjoin chunks in
  let '(tx, fs) := push_all (ps_audio_tx_init junk d src dst) chunks in
  let rx := rx_all (ps_audio_rx_init junk') fs in
  buffered rx = bapp [] (reconstruction ps_adpcm_init (take (whole (length pcm)) pcm)) /\
  gaps rx = 0 /\ partial tx = drop (whole (length pcm)) pcm.
Proof.
  intros Hj Hj' Hd Hs Hds. cbv zeta.
  pose proof (push_all_exact chunks (ps_audio_tx_init junk d src dst) (ps_audio_rx_init junk')) as H.
  destruct (push_all _ chunks) as [tx fs]. destruct H as (_ & _ & _ & H4 & _ & H6 & H7 & _); [| |done|by split_and!].
  - split_and!; cbn; try done; try clia; try lia; try apply adpcm_ok_init.
  - split_and!; cbn; lia.
Qed.

(** An unlocked receiver ignores everything but a SYNC. *)
Lemma unlocked_deaf g rx : locked rx = false -> ps_can_id_type (e_id g) <> PS_T_AUDIO_SYNC ->
  ps_audio_rx_on_frame rx g = rx.
Proof.
  intros Hun Hty. unfold ps_audio_rx_on_frame. rewrite Hun, (proj2 (Z.eqb_neq _ _) Hty). cbn [negb].
  cbv zeta. by repeat case_match.
Qed.

Lemma unlocked_deaf_all fs rx : locked rx = false ->
  Forall (fun g => ps_can_id_type (e_id g) <> PS_T_AUDIO_SYNC) fs -> rx_all rx fs = rx.
Proof.
  intros Hun HF. induction HF as [|g fs Hg _ IH]; [done|]. unfold rx_all in *. cbn [fold_left].
  by rewrite unlocked_deaf.
Qed.

(** What a wrong sequence number does. *)
Lemma gap_spec rx f : ring_ok rx -> locked rx = true -> ps_can_id_cls (e_id f) = PS_CLS_AUDIO ->
  ps_can_id_type (e_id f) = PS_T_AUDIO_UP -> e_dlc f = 8 -> ps_can_id_low (e_id f) <> u8 (expect_seq rx) ->
  let rx' := ps_audio_rx_on_frame rx f in
  locked rx' = false /\ gaps rx' = u32 (gaps rx + 1) /\
  buffered rx' = bapp (buffered rx) (replicate PS_AUDIO_FRAME_SAMPLES 0).
Proof.
  intros Hr Hlk Hc Ht Hdlc Hlow. cbv zeta. unfold ps_audio_rx_on_frame.
  rewrite Hc, Ht, Hdlc, Hlk, (proj2 (Z.eqb_neq _ _) Hlow).
  change (PS_CLS_AUDIO =? PS_CLS_AUDIO) with true. change (PS_T_AUDIO_UP =? PS_T_AUDIO_SYNC) with false.
  change (PS_T_AUDIO_UP =? PS_T_AUDIO_UP) with true. change (8 =? Z.of_nat PS_AUDIO_FRAME_BYTES) with true.
  cbn [negb orb]. cbv zeta.
  destruct (ring_push_spec rx (replicate PS_AUDIO_FRAME_SAMPLES 0) Hr) as [_ Hb].
  destruct (ring_push_keeps rx (replicate PS_AUDIO_FRAME_SAMPLES 0)) as (_ & _ & _ & Hg).
  rewrite <- Hb, <- Hg. generalize (rx_ring_push rx (replicate PS_AUDIO_FRAME_SAMPLES 0)). by intros.
Qed.

(** A lost frame costs at most the time to the next SYNC: a locked receiver that
    sees a wrong sequence number plays one frame of silence, counts the gap and ignores
    every frame until a SYNC; and a SYNC puts it back in step whatever state it was in,
    so that everything sent after it is again heard exactly as encoded. *)
Theorem audio_resync tx rx chunks fs0 f : tx_ok tx -> ring_ok rx ->
  (locked rx = true -> ps_can_id_cls (e_id f) = PS_CLS_AUDIO -> ps_can_id_type (e_id f) = PS_T_AUDIO_UP ->
   e_dlc f = 8 -> ps_can_id_low (e_id f) <> u8 (expect_seq rx) ->
   Forall (fun g => ps_can_id_type (e_id g) <> PS_T_AUDIO_SYNC) fs0 ->
   let rx' := rx_all (ps_audio_rx_on_frame rx f) fs0 in
   locked rx' = false /\ gaps rx' = u32 (gaps rx + 1) /\
   buffered rx' = bapp (buffered rx) (replicate PS_AUDIO_FRAME_SAMPLES 0)) /\
  (let '(tx1, sync) := ps_audio_tx_sync tx in
   let '(tx2, fs) := push_all tx1 chunks in
   let rx' := rx_all rx (sync :: fs) in
   let s := partial tx ++ mjoin chunks in
   synced tx2 rx' /\ gaps rx' = gaps rx /\
   buffered rx' = bapp (buffered rx) (reconstruction (enc tx) (take (whole (length s)) s))).
Proof.
  intros Hok Hr. split.
  - intros Hlk Hc Ht Hdlc Hlow HF. destruct (gap_spec rx f) as (H1 & H2 & H3); [assumption..|].
    cbv zeta. rewrite unlocked_deaf_all by assumption. split; [assumption|]. split; assumption.
  - unfold ps_audio_tx_sync. pose proof (sync_spec tx rx Hok) as Hs. destruct (tx_emit_sync tx) as [tx1 sync].
    destruct Hs as (S1 & S2 & S3 & S4 & S5 & _ & _ & S8 & S9 & S10 & S11 & S12).
    assert (forall fs, rx_all rx (sync :: fs) = rx_all (ps_audio_rx_on_frame rx sync) fs) as Hcons by reflexivity.
    set (rx1 := ps_audio_rx_on_frame rx sync) in *. clearbody rx1.
    assert (ring_ok rx1) as Hr1 by (unfold ring_ok; by rewrite S9, S10, S11).
    pose proof (push_all_exact chunks tx1 rx1 S1 Hr1 (fun _ => S2)) as H.
    destruct (push_all tx1 chunks) as [tx2 fs]. rewrite Hcons.
    destruct H as (_ & _ & H3 & _ & _ & H6 & H7 & H8).
    assert (partial tx1 = partial tx) as Hp by (unfold partial; by rewrite S4, S5).
    assert (buffered rx1 = buffered rx) as Hb by (unfold buffered, ps_audio_rx_available; by rewrite S9, S10, S11).
    cbv zeta. rewrite Hp, S3, Hb in H6. rewrite S12 in H7. split; [by auto|]. split; assumption.
Qed.

(** ** Witnesses *)

Definition tone : list Z := [0; 900; 1700; 2300; 2500; 2300; 1700; 900; 0; -900; -1700; -2300; -2500; -2300; -1700; -900; 5].
Definition tone_tx : ps_audio_tx_t := ps_audio_tx_init (replicate 16 0) PS_AUDIO_DIR_UP PS_NODE_HELMET PS_NODE_ORCH.
Definition tone_rx : ps_audio_rx_t := ps_audio_rx_init (replicate 4096 0).

Lemma audio_stream_exact_witness :
  let '(tx, fs) := push_all tone_tx [take 5 tone; drop 5 tone] in
  length fs = 2%nat /\ partial tx = [5] /\ gaps (rx_all tone_rx fs) = 0.
Proof.
  pose proof (audio_stream_exact (replicate 16 0) (replicate 4096 0) PS_AUDIO_DIR_UP PS_NODE_HELMET PS_NODE_ORCH
    [take 5 tone; drop 5 tone] eq_refl eq_refl ltac:(done) ltac:(done) ltac:(done)) as H.
  fold tone_tx in H. fold tone_rx in H.
  assert (length (push_all tone_tx [take 5 tone; drop 5 tone]).2 = 2%nat) as Hl by (vm_compute; reflexivity).
  destruct (push_all tone_tx _) as [tx fs]. destruct H as (_ & Hg & Hp).
  split; [exact Hl|]. split; [exact Hp|exact Hg].
Defined.

Lemma tone_tx_ok : tx_ok tone_tx.
Proof. split_and!; cbn; try done; try clia; try lia. Qed.

Lemma audio_resync_witness :
  let '(tx1, sync) := ps_audio_tx_sync tone_tx in
  let '(tx2, fs) := push_all tx1 [tone] in
  locked (rx_all tone_rx (sync :: fs)) = true.
Proof.
  destruct (audio_resync tone_tx tone_rx [tone] [] (ps_audio_tx_sync tone_tx).2 tone_tx_ok) as [_ H].
  { split_and!; cbn; lia. }
  destruct (ps_audio_tx_sync tone_tx) as [tx1 sync]. destruct (push_all tx1 [tone]) as [tx2 fs].
  destruct H as ((Hl & _) & _). exact Hl.
Defined.
