(* ===== verification/EnergyGate.v ===== *)
(** The voice energy gate (src/firmware/components/ps_audio/src/energy_gate.c): opens on a
    block at or above the threshold, closes after the hang time or the utterance limit,
    and after the limit stays shut until a quiet block. *)
From S2P Require Import Prelude.
From Stdlib Require Import QArith.
#[local] Open Scope Z_scope.

Definition EGATE_NEEDS_QUIET : Z := 0xFFFFFFFF.

Record ps_egate_t := {
  threshold_q : Z; hang_ms : Z; max_utterance_ms : Z;
  open : bool; opened_ms : Z; last_voiced_ms : Z }.

(** The mean square the level in dBFS stands for, [pow(10, dBFS/10) * 32768^2], is
    computed in double precision; its value is a parameter. *)
Definition ps_egate_init (mean_square : Z -> Q) (threshold_dbfs hang max_utterance : Z) : ps_egate_t :=
  let ms := mean_square threshold_dbfs in
  let ms := if Qle_bool ms 2147483647 then ms else 2147483647%Q in
  let ms := if Qle_bool 1 ms then ms else 1%Q in
  {| threshold_q := Z.quot (Qnum ms) (Zpos (Qden ms)); hang_ms := hang; max_utterance_ms := max_utterance;
     open := false; opened_ms := 0; last_voiced_ms := 0 |}.

(** The mean square of a block, [int64_t] sum and truncating division. *)
Definition block_ms (pcm : list Z) : Z :=
  i32 (Z.quot (foldl (fun acc s => acc + s * s) 0 pcm) (Z.of_nat (length pcm))).

Definition ps_egate_process (g : ps_egate_t) (pcm : list Z) (now_ms : Z) : ps_egate_t * bool :=
  if (length pcm =? 0)%nat then (g, open g) else
  let voiced := threshold_q g <=? block_ms pcm in
  let g :=
    if open g then
      let g := if voiced then {| g with last_voiced_ms := now_ms |} else g in
      if max_utterance_ms g <=? u32 (now_ms - opened_ms g)
      then {| g with open := false; opened_ms := EGATE_NEEDS_QUIET |}
      else if negb voiced && (hang_ms g <=? u32 (now_ms - last_voiced_ms g))
      then {| g with open := false; opened_ms := 0 |}
      else g
    else if opened_ms g =? EGATE_NEEDS_QUIET then
      if negb voiced then {| g with opened_ms := 0 |} else g
    else if voiced then {| g with open := true; opened_ms := now_ms; last_voiced_ms := now_ms |}
    else g in
  (g, open g).

(** ** Specification: three states and unbounded time *)

Inductive astate := Shut | Streaming (since voiced_at : Z) | AwaitQuiet.

Definition aopen (a : astate) : bool := match a with Streaming _ _ => true | _ => false end.

Definition astep (hang max_utt : Z) (a : astate) (voiced : bool) (t : Z) : astate :=
  match a with
  | Shut => if voiced then Streaming t t else Shut
  | AwaitQuiet => if voiced then AwaitQuiet else Shut
  | Streaming since v =>
    let v := if voiced then t else v in
    if max_utt <=? t - since then AwaitQuiet
    else if negb voiced && (hang <=? t - v) then Shut
    else Streaming since v
  end.

(** A block of samples at a time. *)
Definition block := (Z * list Z)%type.

Fixpoint timed_blocks (t0 now : Z) (bs : list block) : Prop :=
  match bs with
  | [] => True
  | (t, pcm) :: bs => now <= t /\ t - t0 < 4294967296 /\ pcm <> [] /\ timed_blocks t0 t bs
  end.

Fixpoint gate_run (g : ps_egate_t) (bs : list block) : list bool :=
  match bs with
  | [] => []
  | (t, pcm) :: bs => let '(g, o) := ps_egate_process g pcm (u32 t) in o :: gate_run g bs
  end.

Fixpoint spec_run (thr hang max_utt : Z) (a : astate) (bs : list block) : list bool :=
  match bs with
  | [] => []
  | (t, pcm) :: bs =>
    let a := astep hang max_utt a (thr <=? block_ms pcm) t in aopen a :: spec_run thr hang max_utt a bs
  end.

Definition gate_rel (t0 now : Z) (g : ps_egate_t) (a : astate) : Prop :=
  match a with
  | Shut => open g = false /\ opened_ms g <> EGATE_NEEDS_QUIET
  | AwaitQuiet => open g = false /\ opened_ms g = EGATE_NEEDS_QUIET
  | Streaming since v => open g = true /\ opened_ms g = u32 since /\ last_voiced_ms g = u32 v /\
                         t0 <= since <= now /\ t0 <= v <= now
  end.

Lemma process_keeps g pcm t : let g' := (ps_egate_process g pcm t).1 in
  threshold_q g' = threshold_q g /\ hang_ms g' = hang_ms g /\ max_utterance_ms g' = max_utterance_ms g.
Proof. unfold ps_egate_process. destruct (_ =? _)%nat; [done|]. cbv zeta. cbn [fst]. ifs; done. Qed.

Lemma process_rel t0 now t g a pcm : gate_rel t0 now g a -> t0 <= now <= t -> t - t0 < 4294967296 -> pcm <> [] ->
  let '(g', o) := ps_egate_process g pcm (u32 t) in
  let a' := astep (hang_ms g) (max_utterance_ms g) a (threshold_q g <=? block_ms pcm) t in
  gate_rel t0 t g' a' /\ o = aopen a'.
Proof.
  intros Hr Hn Ht Hp. unfold ps_egate_process.
  destruct (Nat.eqb_spec (length pcm) 0) as [H0|_]; [by apply nil_length_inv in H0|]. cbv zeta.
  set (voiced := threshold_q g <=? block_ms pcm). destruct a as [|since v|]; cbn [gate_rel] in Hr.
  - destruct Hr as [Ho Hq]. rewrite Ho, (proj2 (Z.eqb_neq _ _) Hq). destruct voiced; cbn; repeat split; try done; lia.
  - destruct Hr as (Ho & Hs & Hv & Hsr & Hvr). rewrite Ho. cbn [astep].
    assert (u32 (u32 t - u32 since) = t - since) as E1 by clia.
    assert (u32 (u32 t - u32 v) = t - v) as E2 by clia.
    destruct voiced; cbn [max_utterance_ms opened_ms last_voiced_ms hang_ms negb andb]; rewrite Hs, E1.
    + destruct (max_utterance_ms g <=? t - since); [done|]. cbn. repeat split; try done; lia.
    + destruct (max_utterance_ms g <=? t - since); [done|]. rewrite Hv, E2.
      destruct (hang_ms g <=? t - v); [done|]. cbn. repeat split; try done; lia.
  - destruct Hr as [Ho Hq]. rewrite Ho, Hq, Z.eqb_refl. destruct voiced; cbn; repeat split; try done.
Qed.

Lemma gate_run_spec t0 now g a bs : gate_rel t0 now g a -> t0 <= now -> timed_blocks t0 now bs ->
  gate_run g bs = spec_run (threshold_q g) (hang_ms g) (max_utterance_ms g) a bs.
Proof.
  revert now g a. induction bs as [|[t pcm] bs IH]; intros now g a Hr Hn Ht; [done|].
  cbn [timed_blocks] in Ht. destruct Ht as (H1 & H2 & H3 & H4). cbn [gate_run spec_run].
  pose proof (process_rel t0 now t g a pcm Hr ltac:(lia) H2 H3) as Hp. pose proof (process_keeps g pcm (u32 t)) as Hk.
  destruct (ps_egate_process g pcm (u32 t)) as [g' o]. destruct Hp as [Hr' ->]. destruct Hk as (K1 & K2 & K3).
  cbn [fst] in *. f_equal. rewrite <- K1, <- K2, <- K3 at 1. rewrite (IH t g' _ Hr' ltac:(lia) H4). by rewrite K1, K2, K3.
Qed.

(** The energy gate behaves as a three-state machine with unbounded time, across
    the wrap of the millisecond clock, for any run shorter than 2^32 ms: it opens on the
    first voiced block, closes when the hang time has passed since the last voiced one,
    is forced shut once the utterance limit is reached, and then needs a quiet block
    before it can open again; the sentinel it keeps in the timestamp is never confused
    with a time. *)
Theorem egate_refines ms dbfs hang max_utt t0 bs : timed_blocks t0 t0 bs ->
  let g := ps_egate_init ms dbfs hang max_utt in
  gate_run g bs = spec_run (threshold_q g) hang max_utt Shut bs.
Proof. intros Ht. cbv zeta. by apply (gate_run_spec t0 t0). Qed.

Lemma egate_refines_witness :
  let loud := [1000; -1000] in let quiet := [1; 2] in
  gate_run (ps_egate_init (fun _ => 500000%Q) (-38) 300 8000)
    [(4294967290, loud); (4294967300, quiet); (4294967590, quiet); (4294967700, loud)] =
  [true; true; false; true].
Proof.
  cbv zeta. rewrite (egate_refines (fun _ => 500000%Q) (-38) 300 8000 4294967290).
  - vm_compute. reflexivity.
  - cbn [timed_blocks]. repeat split; try lia; done.
Defined.
