(* ===== verification/Gateway.v ===== *)
(** The hub's gateway (src/firmware/apps/node_chest_hub/main/gateway_task.c): both CAN
    buses, the SPI bridge and the hub itself, joined by the routing table, and the
    mirror of the suit's safety state.

    The two CAN handles point to contexts of [Can], the bridge is that of [SpiBridge],
    the mirror is a core of [Safety].  A call into the BMS or the LED task is an
    [action] of the result; so is every send, which makes the order of forwarding
    visible. *)
From S2P Require Import Prelude CanId Wire Rtos Txq Can Safety SpiFrame SpiBridge Router.

Definition GW_ROUTE_QUEUE_LEN : nat := 128.

Record hub_gw_counters_t := {
  fwd : list Z; local_consumed : Z; anomalies : Z; queue_drops : Z; gw_tx_timeouts : Z }.

Record gw_item_t := { port : Z; frame : ps_can_frame_t }.

(** What the gateway does to the outside, in order. *)
Inductive action :=
  | ASend (port : Z) (f : ps_can_frame_t) (ok : bool)
  | APush (r : ps_can_record_t) (ok : bool)
  | ALocal (f : ps_can_frame_t)
  | ABmsClear                              (* hub_bms_notify_clear_accepted *)
  | ALed (pat : ps_led_pattern_t).         (* hub_led_override *)

(** [mirror_noop_cb] as a token. *)
Definition mirror_noop_cb : Z := 7.

Section Gateway.
Context `{RtosQueue} `{TwaiDlc}.

Record gw := {
  s_can : list (option ps_can_ctx);
  s_route_q : queue gw_item_t;
  s_ctr : hub_gw_counters_t;
  s_mirror : ps_safety_core_t;
  s_last_pub_state : Z;
  s_epoch_ms_lo : Z; s_epoch_ref_ms : Z; s_epoch_valid : bool; s_time_seq : Z;
  s_flow_level : list Z;
  bridge : spib;
}.

Definition hub_gateway_safety_state (s : gw) : Z := state (s_mirror s).

(** The three steps of [mirror_publish], which runs outside the mirror's lock: the test,
    the flag of the bridge, the note of what was published. *)
Definition publish_needed (s : gw) (st : Z) : bool := negb (st =? s_last_pub_state s).
Definition publish_flag (s : gw) (st : Z) : gw :=
  {| s with bridge := ps_spib_set_flag (bridge s) PS_SPIF_ESTOP_LATCHED (st =? PS_STATE_ESTOP) |}.
Definition publish_note (s : gw) (st : Z) : gw := {| s with s_last_pub_state := st |}.
Definition mirror_publish (s : gw) (st : Z) : gw :=
  if publish_needed s st then publish_note (publish_flag s st) st else s.

(** The mirror stepped under its lock, and the new state published. *)
Definition mirror_set (s : gw) (c : ps_safety_core_t) : gw :=
  mirror_publish {| s with s_mirror := c |} (state c).

Definition hub_gateway_safety_tick (s : gw) (t : Z) : gw :=
  mirror_set s (ps_safety_core_tick (s_mirror s) t).1.

Definition hub_gateway_local_estop (s : gw) (t cause : Z) : gw :=
  mirror_set s (ps_safety_core_on_local_fault (s_mirror s) t cause).1.

Definition hub_gateway_counters (s : gw) : hub_gw_counters_t := s_ctr s.

Definition bump_fwd (p : Z) (c : hub_gw_counters_t) : hub_gw_counters_t :=
  {| c with fwd := <[Z.to_nat p := u32 (fwd c !!! Z.to_nat p + 1)]> (fwd c) |}.
Definition bump_local (c : hub_gw_counters_t) := {| c with local_consumed := u32 (local_consumed c + 1) |}.
Definition bump_anomalies (c : hub_gw_counters_t) := {| c with anomalies := u32 (anomalies c + 1) |}.
Definition bump_drops (c : hub_gw_counters_t) := {| c with queue_drops := u32 (queue_drops c + 1) |}.
Definition bump_timeouts (c : hub_gw_counters_t) := {| c with gw_tx_timeouts := u32 (gw_tx_timeouts c + 1) |}.
Definition ctr_bump (s : gw) (f : hub_gw_counters_t -> hub_gw_counters_t) : gw :=
  {| s with s_ctr := f (s_ctr s) |}.

(** ** Local dispatch *)

Definition gw_local_safety (s : gw) (f : ps_can_frame_t) (type now : Z) : gw * list action :=
  if type =? PS_T_HEARTBEAT then
    if f_dlc f <? 8 then (s, []) else
    (mirror_set s (ps_safety_core_on_heartbeat (s_mirror s) now (wire_read (f_data f))).1, [])
  else if type =? PS_T_ESTOP then
    if f_dlc f <? 8 then (s, []) else
    (mirror_set s (ps_safety_core_on_estop (s_mirror s) now (es_cause (wire_read (f_data f)))).1, [])
  else if type =? PS_T_CLEAR_ESTOP then
    if f_dlc f <? 8 then (s, []) else
    let cl : ps_clear_estop_t := wire_read (f_data f) in
    let '(c, accepted) := ps_safety_core_on_clear (s_mirror s) now (ce_magic cl) (ce_counter cl) in
    (mirror_set s c, if accepted then [ABmsClear] else [])
  else (s, []).

Definition gw_local_control (s : gw) (f : ps_can_frame_t) (type now : Z) : gw * list action :=
  if type =? PS_T_LED_PATTERN then
    if f_dlc f <? Z.of_nat (wire_size ps_led_pattern_t) then (s, []) else (s, [ALed (wire_read (f_data f))])
  else if type =? PS_T_MODE_SET then
    if f_dlc f <? 1 then (s, []) else
    let ms : ps_mode_set_t := wire_read (copy_short (wire_size ps_mode_set_t) f) in
    (mirror_set s (ps_safety_core_on_mode_set (s_mirror s) now (ms_target_state ms)).1, [])
  else (s, []).

Definition gw_local_mgmt (s : gw) (f : ps_can_frame_t) (src type now : Z) : gw * list action :=
  if type =? PS_T_TIME_SYNC then
    if (f_dlc f <? 8) || negb (src =? PS_NODE_ORCH) then (s, []) else
    let sync : ps_time_sync_t := wire_read (f_data f) in
    ({| s with s_epoch_ms_lo := ts_epoch_ms_lo sync; s_epoch_ref_ms := now; s_epoch_valid := true |}, [])
  else if type =? PS_T_FLOW_CTL then
    if f_dlc f <? 2 then (s, []) else
    let fc : ps_flow_ctl_t := wire_read (copy_short (wire_size ps_flow_ctl_t) f) in
    (if fl_plane fc <? 8
     then {| s with s_flow_level := <[Z.to_nat (fl_plane fc) := fl_level fc]> (s_flow_level s) |} else s, [])
  else (s, []).

Definition gw_local_dispatch (s : gw) (f : ps_can_frame_t) (now : Z) : gw * list action :=
  let id := ps_can_id_unpack (f_id f) in
  let s := ctr_bump s bump_local in
  let '(s, acts) :=
    if cls id =? PS_CLS_SAFETY then gw_local_safety s f (type id) now
    else if cls id =? PS_CLS_CONTROL then gw_local_control s f (type id) now
    else if cls id =? PS_CLS_MGMT then gw_local_mgmt s f (src id) (type id) now
    else (s, []) in
  (s, ALocal f :: acts).

(** ** Forwarding *)

Definition origin_bus_tag (origin_port : Z) : Z :=
  if origin_port =? PS_PORT_CAN1 then PS_SPI_BUS_CAN1
  else if origin_port =? PS_PORT_CAN2 then PS_SPI_BUS_CAN2
  else PS_SPI_BUS_HUB_LOCAL.

(** One of the two blocks that send on a bus. *)
Definition forward_bus (s : gw) (p : Z) (f : ps_can_frame_t) : gw * list action :=
  let k := Z.to_nat p in
  let '(c, err) := ps_can_send (s_can s !!! k) (Some f) in
  let s := {| s with s_can := <[k := c]> (s_can s) |} in
  (ctr_bump s (if is_ok err then bump_fwd p else bump_timeouts), [ASend p f (is_ok err)]).

Definition uplink_record (origin_port : Z) (f : ps_can_frame_t) (now : Z) : ps_can_record_t :=
  {| r_id := f_id f; r_bus := origin_bus_tag origin_port; r_dlc := f_dlc f; r_ts_ms := u16 now;
     r_data := take 8 (f_data f) |}.

Definition forward_spi (s : gw) (origin_port : Z) (f : ps_can_frame_t) (now : Z) : gw * list action :=
  let rec := uplink_record origin_port f now in
  let '(b, ok) := ps_spib_uplink_push (bridge s) (Some rec) in
  let s := {| s with bridge := b |} in
  (if ok then ctr_bump s (bump_fwd PS_PORT_SPI) else s, [APush rec ok]).

Definition hub_forward (s : gw) (origin_port : Z) (f : ps_can_frame_t) (mask now : Z) : gw * list action :=
  let '(s, a1) := if has mask (PS_PORT_BIT PS_PORT_CAN1) then forward_bus s PS_PORT_CAN1 f else (s, []) in
  let '(s, a2) := if has mask (PS_PORT_BIT PS_PORT_CAN2) then forward_bus s PS_PORT_CAN2 f else (s, []) in
  let '(s, a3) := if has mask (PS_PORT_BIT PS_PORT_SPI) then forward_spi s origin_port f now else (s, []) in
  let '(s, a4) := if has mask (PS_PORT_BIT PS_PORT_LOCAL) then gw_local_dispatch s f now else (s, []) in
  (s, a1 ++ a2 ++ a3 ++ a4).

(** The receive callback of bus [p]. *)
Definition gw_rx_cb (s : gw) (p : Z) (f : ps_can_frame_t) : gw :=
  let '(q, ok) := xQueueSend (s_route_q s) {| port := p; frame := f |} in
  let s := {| s with s_route_q := q |} in
  if ok then s else ctr_bump s bump_drops.

(** One turn of [gw_pump_task]. *)
Definition gw_pump_turn (s : gw) (now : Z) : gw * list action :=
  let '(q, got) := xQueueReceive (s_route_q s) in
  let s := {| s with s_route_q := q |} in
  match got with
  | None => (s, [])
  | Some item =>
    let mask := ps_router_route (port item) (f_id (frame item)) in
    if mask =? 0 then (ctr_bump s bump_anomalies, [])
    else hub_forward s (port item) (frame item) mask now
  end.

(** The frame a downlink record stands for. *)
Definition downlink_frame (rec : ps_can_record_t) : ps_can_frame_t :=
  {| f_id := r_id rec .& PS_CAN_ID_MASK; f_dlc := if 8 <? r_dlc rec then 8 else r_dlc rec;
     f_data := take 8 (r_data rec) |}.

(** One turn of [gw_downlink_task]. *)
Definition gw_downlink_turn (s : gw) (now : Z) : gw * list action :=
  let '(b, got) := ps_spib_downlink_pop (bridge s) true in
  let s := {| s with bridge := b |} in
  match got with
  | None => (s, [])
  | Some rec =>
    let f := downlink_frame rec in
    if r_bus rec =? PS_SPI_BUS_HUB_LOCAL then gw_local_dispatch s f now else
    let mask := ps_router_route PS_PORT_SPI (f_id f) in
    if mask =? 0 then (ctr_bump s bump_anomalies, []) else hub_forward s PS_PORT_SPI f mask now
  end.

Definition time_sync_payload (s : gw) (now : Z) : ps_time_sync_t :=
  {| ts_epoch_ms_lo := if s_epoch_valid s then u32 (s_epoch_ms_lo s + u32 (now - s_epoch_ref_ms s)) else 0;
     ts_seq := s_time_seq s; ts_rsvd := 0 |}.

Definition hub_gateway_broadcast_time_sync (s : gw) (now : Z) : gw * list action :=
  let sync := time_sync_payload s now in
  let s := {| s with s_time_seq := u16 (s_time_seq s + 1) |} in
  let f := {| f_id := ps_can_id_pack PS_CLS_MGMT PS_NODE_HUB PS_NODE_BROADCAST PS_T_TIME_SYNC 0;
              f_dlc := 8; f_data := wire_write sync |} in
  hub_forward s PS_PORT_LOCAL f (PS_PORT_BIT PS_PORT_CAN1 .| PS_PORT_BIT PS_PORT_CAN2) now.

(** The callback [gw_rx_cb] with the port as its argument, as tokens. *)
Definition gw_rx_token (p : Z) : Z := 20 + p.

(** The registration loop over the six assigned classes; the error of the first that fails. *)
Fixpoint register_classes (cs : list Z) (can1 can2 : option ps_can_ctx) :
    option ps_can_ctx * option ps_can_ctx * esp_err_t :=
  match cs with
  | [] => (can1, can2, ESP_OK)
  | cls :: cs =>
    let '(can1, err) := ps_can_register_class_cb can1 cls (Some (gw_rx_token PS_PORT_CAN1)) in
    if negb (is_ok err) then (can1, can2, err) else
    let '(can2, err) := ps_can_register_class_cb can2 cls (Some (gw_rx_token PS_PORT_CAN2)) in
    if negb (is_ok err) then (can1, can2, err) else register_classes cs can1 can2
  end.

(** [queue_ok], [pump_ok], [dnl_ok]: the platform's answers. *)
Definition hub_gateway_start (s : gw) (can1 can2 : option ps_can_ctx) (now : Z)
    (queue_ok pump_ok dnl_ok : bool) : gw * esp_err_t :=
  match can1, can2 with
  | Some _, Some _ =>
    let s := {| s with s_can := [can1; can2]; s_route_q := xQueueCreate GW_ROUTE_QUEUE_LEN |} in
    if negb queue_ok then (s, ESP_ERR_NO_MEM) else
    let s := {| s with s_mirror := ps_safety_core_init now (Some mirror_noop_cb) 0 |} in
    let '(c1, c2, err) := register_classes (seqZ PS_CLS_SAFETY (PS_CLS_MGMT + 1)) can1 can2 in
    let s := {| s with s_can := [c1; c2] |} in
    if negb (is_ok err) then (s, err) else
    if negb pump_ok then (s, ESP_ERR_NO_MEM) else
    if negb dnl_ok then (s, ESP_ERR_NO_MEM) else (s, ESP_OK)
  | _, _ => (s, ESP_ERR_INVALID_ARG)
  end.

(** ** The published state *)

(** What can change the gateway: its own tasks and callbacks, the bridge's pump, and the
    CAN driver, whose tasks may change the two contexts in any way. *)
Inductive gop :=
  | GRx (p : Z) (f : ps_can_frame_t)
  | GPump (now : Z) | GDownlink (now : Z) | GSync (now : Z) | GTick (t : Z)
  | GLocalEstop (t cause : Z)
  | GSpi (i : nat) (rx : list Z) (len : nat)
  | GCan (cs : list (option ps_can_ctx)).

Definition gstep (s : gw) (o : gop) : gw :=
  match o with
  | GRx p f => gw_rx_cb s p f
  | GPump now => (gw_pump_turn s now).1
  | GDownlink now => (gw_downlink_turn s now).1
  | GSync now => (hub_gateway_broadcast_time_sync s now).1
  | GTick t => hub_gateway_safety_tick s t
  | GLocalEstop t cause => hub_gateway_local_estop s t cause
  | GSpi i rx len => {| s with bridge := (spib_pump_turn (bridge s) i rx len).1 |}
  | GCan cs => {| s with s_can := cs |}
  end.

(** The ESTOP_LATCHED bit of every SPI header the hub sends. *)
Definition flag_set (s : gw) : bool := has (s_sticky_flags (bridge s)) PS_SPIF_ESTOP_LATCHED.

Record published (s : gw) : Prop := {
  pub_flag : flag_set s = (s_last_pub_state s =? PS_STATE_ESTOP);
  pub_state : s_last_pub_state s = state (s_mirror s) \/
              (s_last_pub_state s = 0xFF /\ state (s_mirror s) = PS_STATE_BOOT) }.

(** What the published state depends on. *)
Definition pub_view (s : gw) := (s_sticky_flags (bridge s), s_last_pub_state s, s_mirror s).

Lemma published_view s s' : pub_view s' = pub_view s -> published s -> published s'.
Proof. unfold pub_view. intros [= H1 H2 H3] []. split; unfold flag_set in *; congruence. Qed.

Lemma has_set_flag b on :
  has (s_sticky_flags (ps_spib_set_flag b PS_SPIF_ESTOP_LATCHED on)) PS_SPIF_ESTOP_LATCHED = on.
Proof.
  unfold ps_spib_set_flag, has.
  change (PS_SPIF_ESTOP_LATCHED .& u8 (PS_SPIF_ESTOP_LATCHED .| PS_SPIF_HUB_FAULT)) with PS_SPIF_ESTOP_LATCHED.
  destruct on; cbn [s_sticky_flags]; set (x := s_sticky_flags b).
  - rewrite Z.land_lor_distr_l. apply negb_true_iff, Z.eqb_neq. intros E.
    apply Z.lor_eq_0_iff in E as [_ E]. discriminate E.
  - rewrite <- Z.land_assoc. change (u8 (Z.lnot PS_SPIF_ESTOP_LATCHED) .& PS_SPIF_ESTOP_LATCHED) with 0.
    by rewrite Z.land_0_r.
Qed.

Lemma published_mirror_set s c : flag_set s = (s_last_pub_state s =? PS_STATE_ESTOP) ->
  published (mirror_set s c) /\ s_mirror (mirror_set s c) = c /\
  flag_set (mirror_set s c) = (state c =? PS_STATE_ESTOP).
Proof.
  intros Hf. unfold mirror_set, mirror_publish, publish_needed. cbn [s_last_pub_state].
  destruct (Z.eqb_spec (state c) (s_last_pub_state s)) as [E|E]; cbn.
  - unfold flag_set in *. cbn. rewrite E. split_and!; [|done..]. split; [done | by left].
  - unfold flag_set in *. cbn. rewrite has_set_flag. split_and!; [|done..].
    split; [apply has_set_flag | by left].
Qed.

Lemma published_safety s f ty now : published s -> published (gw_local_safety s f ty now).1.
Proof.
  intros Hp. assert (forall c, published (mirror_set s c)) as Hm by (intros; apply published_mirror_set, Hp).
  unfold gw_local_safety. destruct (ty =? PS_T_HEARTBEAT); [by destruct (f_dlc f <? 8); cbn|].
  destruct (ty =? PS_T_ESTOP); [by destruct (f_dlc f <? 8); cbn|].
  destruct (ty =? PS_T_CLEAR_ESTOP); [|done]. destruct (f_dlc f <? 8); [done|].
  destruct (ps_safety_core_on_clear _ _ _ _) as [c acc]. apply Hm.
Qed.

Lemma published_control s f ty now : published s -> published (gw_local_control s f ty now).1.
Proof.
  intros Hp. assert (forall c, published (mirror_set s c)) as Hm by (intros; apply published_mirror_set, Hp).
  unfold gw_local_control. destruct (ty =? PS_T_LED_PATTERN); [by destruct (_ <? _)|].
  destruct (ty =? PS_T_MODE_SET); [|done]. by destruct (_ <? _); cbn.
Qed.

Lemma published_mgmt s f sr ty now : published s -> published (gw_local_mgmt s f sr ty now).1.
Proof.
  intros Hp. unfold gw_local_mgmt. destruct (ty =? PS_T_TIME_SYNC).
  { destruct (_ || _); [done|]. by apply (published_view s). }
  destruct (ty =? PS_T_FLOW_CTL); [|done]. destruct (f_dlc f <? 2); [done|]. cbv zeta.
  set (fc := wire_read _ : ps_flow_ctl_t). clearbody fc. cbn [fst].
  destruct (_ <? _); [by apply (published_view s) | done].
Qed.

Lemma published_dispatch s f now : published s -> published (gw_local_dispatch s f now).1.
Proof.
  intros Hp. unfold gw_local_dispatch. cbv zeta.
  assert (published (ctr_bump s bump_local)) as Hb by (by apply (published_view s)).
  set (b := ctr_bump s bump_local) in *. clearbody b. set (id := ps_can_id_unpack (f_id f)). clearbody id.
  pose proof (published_safety b f (type id) now Hb). pose proof (published_control b f (type id) now Hb).
  pose proof (published_mgmt b f (src id) (type id) now Hb).
  destruct (cls id =? _); [by destruct (gw_local_safety _ _ _ _)|].
  destruct (cls id =? _); [by destruct (gw_local_control _ _ _ _)|].
  destruct (cls id =? _); [by destruct (gw_local_mgmt _ _ _ _ _) | done].
Qed.

Lemma view_forward_bus s p f : pub_view (forward_bus s p f).1 = pub_view s.
Proof. unfold forward_bus. by destruct (ps_can_send _ _) as [c err], (is_ok err). Qed.

Lemma view_forward_spi s o f now : pub_view (forward_spi s o f now).1 = pub_view s.
Proof.
  unfold forward_spi, ps_spib_uplink_push, pub_view.
  destruct (s_started (bridge s)); cbn; [|done].
  by destruct (xQueueSend _ _) as [q []].
Qed.

Lemma stage_bus (b : bool) s p f : exists s' ok, pub_view s' = pub_view s /\
  s_time_seq s' = s_time_seq s /\ (if b then forward_bus s p f else (s, [])) = (s', if b then [ASend p f ok] else []).
Proof.
  destruct b; [|by exists s, true]. pose proof (view_forward_bus s p f) as V. unfold forward_bus in *.
  destruct (ps_can_send _ _) as [c err]. do 2 eexists. split; [exact V|]. split; [|reflexivity].
  by destruct (is_ok err).
Qed.

Lemma stage_spi (b : bool) s o f now : exists s' ok, pub_view s' = pub_view s /\
  s_time_seq s' = s_time_seq s /\ (if b then forward_spi s o f now else (s, [])) =
  (s', if b then [APush (uplink_record o f now) ok] else []).
Proof.
  destruct b; [|by exists s, true]. pose proof (view_forward_spi s o f now) as V. unfold forward_spi in *.
  destruct (ps_spib_uplink_push _ _) as [c ok]. do 2 eexists. split; [exact V|]. split; [|reflexivity].
  by destruct ok.
Qed.

(** What [hub_forward] does to the outside and to the mirror, target by target. *)
Lemma hub_forward_split s o f mask now : exists s' ok1 ok2 ok3, pub_view s' = pub_view s /\
  s_time_seq s' = s_time_seq s /\
  let d := if has mask (PS_PORT_BIT PS_PORT_LOCAL) then gw_local_dispatch s' f now else (s', []) in
  hub_forward s o f mask now =
    (d.1, (if has mask (PS_PORT_BIT PS_PORT_CAN1) then [ASend PS_PORT_CAN1 f ok1] else []) ++
          (if has mask (PS_PORT_BIT PS_PORT_CAN2) then [ASend PS_PORT_CAN2 f ok2] else []) ++
          (if has mask (PS_PORT_BIT PS_PORT_SPI) then [APush (uplink_record o f now) ok3] else []) ++ d.2).
Proof.
  unfold hub_forward.
  destruct (stage_bus (has mask (PS_PORT_BIT PS_PORT_CAN1)) s PS_PORT_CAN1 f) as (s1 & ok1 & V1 & T1 & ->).
  destruct (stage_bus (has mask (PS_PORT_BIT PS_PORT_CAN2)) s1 PS_PORT_CAN2 f) as (s2 & ok2 & V2 & T2 & ->).
  destruct (stage_spi (has mask (PS_PORT_BIT PS_PORT_SPI)) s2 o f now) as (s3 & ok3 & V3 & T3 & ->).
  exists s3, ok1, ok2, ok3. do 2 (split; [congruence|]). cbv zeta.
  by destruct (if has mask (PS_PORT_BIT PS_PORT_LOCAL) then _ else _).
Qed.

Lemma published_forward s o f mask now : published s -> published (hub_forward s o f mask now).1.
Proof.
  intros Hp. destruct (hub_forward_split s o f mask now) as (s' & ok1 & ok2 & ok3 & V & _ & ->). cbn [fst].
  apply (published_view _ _ V) in Hp. case_match; [by apply published_dispatch | done].
Qed.

Lemma sticky_rx_record view b i : s_sticky_flags (rx_record view b i) = s_sticky_flags b.
Proof.
  unfold rx_record, downlink_put. destruct (ps_spi_view_record view i) as [rc [r|]]; [|done].
  destruct (rc =? PS_SPI_OK); [|done]. by destruct (xQueueSend _ _) as [q []].
Qed.

Lemma sticky_fold view js b : s_sticky_flags (fold_left (rx_record view) js b) = s_sticky_flags b.
Proof. revert b. induction js as [|j js IH]; intros b; [done|]. cbn. by rewrite IH, sticky_rx_record. Qed.

Lemma sticky_handle_rx b rx len : s_sticky_flags (spib_handle_rx b rx len) = s_sticky_flags b.
Proof.
  unfold spib_handle_rx. destruct (PS_SPI_HDR_SIZE <=? len)%nat; [|by destruct (spib_rx_is_idle _ _)].
  destruct (ps_spi_frame_parse rx len) as [e|v]; [by destruct (spib_rx_is_idle _ _)|].
  rewrite sticky_fold. unfold note_rx_seq. by destruct (_ && _).
Qed.

Lemma sticky_build_tx b buf : s_sticky_flags (spib_build_tx b buf).1 = s_sticky_flags b.
Proof. unfold spib_build_tx. destruct (drain _ _). cbn. by destruct (s_overflow_pending b). Qed.

Lemma sticky_pump b i rx len : s_sticky_flags (spib_pump_turn b i rx len).1 = s_sticky_flags b.
Proof.
  unfold spib_pump_turn. cbv zeta. match goal with |- context [spib_build_tx ?c ?x] =>
    pose proof (sticky_build_tx c x) as E; destruct (spib_build_tx c x) end.
  cbn in *. by rewrite E, sticky_handle_rx.
Qed.

Lemma published_step s o : published s -> published (gstep s o).
Proof.
  intros Hp. destruct o; cbn [gstep].
  - unfold gw_rx_cb. destruct (xQueueSend _ _) as [q []]; by apply (published_view s).
  - unfold gw_pump_turn. destruct (xQueueReceive _) as [q [item|]]; [|by apply (published_view s)].
    cbv zeta. destruct (_ =? 0); [by apply (published_view s)|]. apply published_forward. by apply (published_view s).
  - unfold gw_downlink_turn, ps_spib_downlink_pop.
    destruct (negb (s_started (bridge s)) || negb true); [by apply (published_view s)|].
    destruct (xQueueReceive _) as [q [rec|]]; [|by apply (published_view s)]. cbv zeta.
    destruct (_ =? _); [apply published_dispatch; by apply (published_view s)|].
    destruct (_ =? 0); [by apply (published_view s)|]. apply published_forward. by apply (published_view s).
  - apply published_forward. by apply (published_view s).
  - apply published_mirror_set, Hp.
  - apply published_mirror_set, Hp.
  - apply (published_view s); [|done]. unfold pub_view. cbn. by rewrite sticky_pump.
  - by apply (published_view s).
Qed.

Lemma published_run s ops : published s -> published (fold_left gstep ops s).
Proof. revert s. induction ops as [|o ops IH]; intros s Hp; [done|]. apply IH, published_step, Hp. Qed.

Lemma published_start s can1 can2 now q p d s' : s_last_pub_state s = 0xFF -> flag_set s = false ->
  hub_gateway_start s can1 can2 now q p d = (s', ESP_OK) -> published s'.
Proof.
  intros Hl Hf. unfold hub_gateway_start. destruct can1, can2; try discriminate.
  destruct q; [|discriminate]. cbv zeta. cbn [negb].
  destruct (register_classes _ _ _) as [[c1 c2] err]. destruct (is_ok err) eqn:Eo; [|intros [= <- ->]; discriminate Eo].
  destruct p, d; try discriminate. cbn [negb]. intros [= <-].
  split; cbn; [by rewrite Hl | by right].
Qed.

(** The hub tells the orchestrator the truth about the suit's ESTOP: after the gateway
    has started, at the end of every sequence of operations of its tasks, of the bridge
    and of the CAN driver, the ESTOP_LATCHED bit of the SPI header is set exactly when
    the mirror of the suit state is in ESTOP.  Operations run one at a time here;
    [gw_publish_race] shows what happens when two of them overlap. *)
Theorem gw_flag_tracks_estop s0 can1 can2 now q p d s ops :
  s_last_pub_state s0 = 0xFF -> flag_set s0 = false ->
  hub_gateway_start s0 can1 can2 now q p d = (s, ESP_OK) ->
  let s' := fold_left gstep ops s in
  flag_set s' = (hub_gateway_safety_state s' =? PS_STATE_ESTOP).
Proof.
  intros Hl Hf Hs. pose proof (published_run s ops (published_start _ _ _ _ _ _ _ _ Hl Hf Hs)) as [F S].
  cbv zeta. unfold hub_gateway_safety_state. rewrite F.
  destruct S as [->|[-> ->]]; reflexivity.
Qed.

(** ** Cut-through *)

(** The ESTOP frame a node broadcasts. *)
Definition is_estop (f : ps_can_frame_t) : Prop :=
  cls (ps_can_id_unpack (f_id f)) = PS_CLS_SAFETY /\ type (ps_can_id_unpack (f_id f)) = PS_T_ESTOP /\
  8 <= f_dlc f.

Lemma on_estop_state c now cause : state (ps_safety_core_on_estop c now cause).1 = PS_STATE_ESTOP.
Proof.
  unfold ps_safety_core_on_estop. destruct (Z.eqb_spec (state c) PS_STATE_ESTOP) as [E|E].
  - destruct (negb _); [done|]. unfold go. cbn. by rewrite E.
  - unfold go. cbn. rewrite (proj2 (Z.eqb_neq _ _) E). by destruct (on_transition c).
Qed.

Lemma dispatch_estop s f now : is_estop f -> published s ->
  state (s_mirror (gw_local_dispatch s f now).1) = PS_STATE_ESTOP /\
  flag_set (gw_local_dispatch s f now).1 = true /\ (gw_local_dispatch s f now).2 = [ALocal f].
Proof.
  intros (Hc & Ht & Hd) Hp. unfold gw_local_dispatch. cbv zeta. rewrite Hc, Ht.
  unfold gw_local_safety. change (PS_T_ESTOP =? PS_T_HEARTBEAT) with false.
  change (PS_CLS_SAFETY =? PS_CLS_SAFETY) with true. change (PS_T_ESTOP =? PS_T_ESTOP) with true.
  rewrite (proj2 (Z.ltb_ge _ _) Hd). cbn [fst snd].
  set (c := (ps_safety_core_on_estop _ _ _).1).
  pose proof (on_estop_state (s_mirror (ctr_bump s bump_local)) now
    (es_cause (wire_read (f_data f)))) as Hst. fold c in Hst. clearbody c.
  destruct (published_mirror_set (ctr_bump s bump_local) c) as (_ & -> & ->); [apply Hp|].
  by rewrite Hst.
Qed.

Definition other_bus (p : Z) : Z := if p =? PS_PORT_CAN1 then PS_PORT_CAN2 else PS_PORT_CAN1.

(** The route of a SAFETY frame is every port but its own, as a mask. *)
Lemma safety_route o id : 0 <= o < 4 -> ps_can_id_cls id = PS_CLS_SAFETY ->
  ps_router_route o id = PS_ROUTER_ALL_PORTS .& u8 (Z.lnot (PS_PORT_BIT o)).
Proof.
  intros Ho Hc. rewrite route_fields, Hc. unfold PS_PORT_LOCAL.
  destruct (Z.ltb_spec 3 o); [lia|]. reflexivity.
Qed.

Lemma forward_estop s o f now mask : is_estop f -> published s ->
  has mask (PS_PORT_BIT PS_PORT_LOCAL) = true ->
  let r := hub_forward s o f mask now in
  hub_gateway_safety_state r.1 = PS_STATE_ESTOP /\ flag_set r.1 = true /\
  exists ok1 ok2 ok3, r.2 =
    (if has mask (PS_PORT_BIT PS_PORT_CAN1) then [ASend PS_PORT_CAN1 f ok1] else []) ++
    (if has mask (PS_PORT_BIT PS_PORT_CAN2) then [ASend PS_PORT_CAN2 f ok2] else []) ++
    (if has mask (PS_PORT_BIT PS_PORT_SPI) then [APush (uplink_record o f now) ok3] else []) ++ [ALocal f].
Proof.
  intros He Hp Hm. cbv zeta.
  destruct (hub_forward_split s o f mask now) as (s' & ok1 & ok2 & ok3 & V & _ & ->). rewrite Hm. cbn [fst snd].
  destruct (dispatch_estop s' f now He (published_view _ _ V Hp)) as (S1 & S2 & ->).
  split; [exact S1 | split; [exact S2 | by exists ok1, ok2, ok3]].
Qed.

Ltac use_forward_estop s0 Hp He :=
  match goal with |- context [hub_forward ?s ?o ?f ?mask ?now] =>
    let S1 := fresh in let S2 := fresh in let Ha := fresh in
    destruct (forward_estop s o f now mask He (published_view s0 s eq_refl Hp) eq_refl)
      as (S1 & S2 & ? & ? & ? & Ha);
    refine (conj S1 (conj S2 _)); rewrite Ha; do 2 eexists
  end.


(** ** Time *)

Lemma sync_epoch e t d : u32 (e + u32 (u32 (t + d) - u32 t)) = u32 (e + d).
Proof.
  unfold u32. rewrite <- Zminus_mod. replace (t + d - t) with d by lia. apply Zplus_mod_idemp_r.
Qed.

(** The hub's clock carries the orchestrator's time.  Once a TIME_SYNC of the orchestrator
    with epoch [e] was consumed at hub time [t], the broadcast [d] milliseconds later puts
    the epoch [e + d] (modulo 2^32, for every [d], through any number of wrap-arounds of
    the hub's clock) and the next sequence number on both buses and on nothing else; a
    TIME_SYNC of any other node changes nothing, and before the first one the hub
    broadcasts epoch 0. *)
Theorem gw_time_sync s (f : ps_can_frame_t) (sync : ps_time_sync_t) (t d : Z) :
  wire_ok sync -> is_u16 (s_time_seq s) -> 8 <= f_dlc f -> f_data f = wire_write sync ->
  (let s1 := (gw_local_mgmt s f PS_NODE_ORCH PS_T_TIME_SYNC (u32 t)).1 in
   exists fr ok1 ok2,
     (hub_gateway_broadcast_time_sync s1 (u32 (t + d))).2 =
       [ASend PS_PORT_CAN1 fr ok1; ASend PS_PORT_CAN2 fr ok2] /\
     wire_read (f_data fr) = {| ts_epoch_ms_lo := u32 (ts_epoch_ms_lo sync + d);
                                ts_seq := s_time_seq s; ts_rsvd := 0 |} /\
     s_time_seq (hub_gateway_broadcast_time_sync s1 (u32 (t + d))).1 = u16 (s_time_seq s + 1)) /\
  (forall n now, n <> PS_NODE_ORCH -> gw_local_mgmt s f n PS_T_TIME_SYNC now = (s, [])) /\
  (s_epoch_valid s = false -> forall now, ts_epoch_ms_lo (time_sync_payload s now) = 0).
Proof.
  intros Hok Hseq Hd Hdata. split_and!.
  - unfold gw_local_mgmt. change (PS_T_TIME_SYNC =? PS_T_TIME_SYNC) with true.
    rewrite (proj2 (Z.ltb_ge _ _) Hd), Hdata. change (PS_NODE_ORCH =? PS_NODE_ORCH) with true.
    rewrite <- (app_nil_r (wire_write sync)), wire_read_write_app by done. cbn [negb orb fst]. cbv zeta.
    unfold hub_gateway_broadcast_time_sync, time_sync_payload.
    cbn [s_epoch_valid s_epoch_ms_lo s_epoch_ref_ms s_time_seq]. rewrite sync_epoch. cbv zeta.
    set (pay := {| ts_epoch_ms_lo := _; ts_seq := _; ts_rsvd := 0 |}).
    assert (wire_ok pay) as Hpay by (unfold wire_ok; cbn; unfold fok; cbn; repeat split; clia).
    match goal with |- context [hub_forward ?s0 ?o ?f0 ?m ?n] =>
      destruct (hub_forward_split s0 o f0 m n) as (s' & ok1 & ok2 & ok3 & _ & Hseq' & ->) end.
    cbn [s_time_seq] in Hseq'. do 3 eexists. split; [reflexivity|]. split; [|exact Hseq']. cbn [f_data].
    rewrite <- (app_nil_r (wire_write pay)). by apply wire_read_write_app.
  - intros n now Hn. unfold gw_local_mgmt. change (PS_T_TIME_SYNC =? PS_T_TIME_SYNC) with true.
    rewrite (proj2 (Z.eqb_neq _ _) Hn). by rewrite orb_true_r.
  - intros Hv now. unfold time_sync_payload. by rewrite Hv.
Qed.

(** ** Two publishers at once *)

Lemma tick_latched c t : state c = PS_STATE_ESTOP -> estop_cause c <> 0 -> ps_safety_core_tick c t = (c, []).
Proof.
  intros Hs Hc. unfold ps_safety_core_tick. rewrite Hs.
  change (PS_STATE_ESTOP =? PS_STATE_BOOT) with false. change (PS_STATE_ESTOP =? PS_STATE_ESTOP) with true.
  by rewrite (proj2 (Z.eqb_neq _ _) Hc).
Qed.

(** [mirror_publish] is not locked, and two tasks that publish at once can leave the SPI
    header wrong for good: the pump handles a MODE_SET(STANDBY) while the BMS task on the
    other core raises a local ESTOP, and the pump writes the flag between the BMS task's
    two writes.  The mirror is then latched, the ESTOP_LATCHED bit is clear, and no later
    tick sets it, since the last published state is recorded as ESTOP. *)
Theorem gw_publish_race s t cause : state (s_mirror s) = PS_STATE_OPERATIONAL -> published s ->
  let standby := (ps_safety_core_on_mode_set (s_mirror s) t PS_STATE_STANDBY).1 in
  let estop := (ps_safety_core_on_local_fault standby t cause).1 in
  let s1 := {| s with s_mirror := estop |} in
  publish_needed s1 (state standby) = true /\ publish_needed s1 (state estop) = true /\
  let s2 := publish_flag s1 (state estop) in
  let s3 := publish_note (publish_flag s2 (state standby)) (state standby) in
  let s4 := publish_note s3 (state estop) in
  forall ticks, let s5 := fold_left hub_gateway_safety_tick ticks s4 in
  hub_gateway_safety_state s5 = PS_STATE_ESTOP /\ flag_set s5 = false.
Proof.
  intros Hop Hp standby estop s1.
  assert (state standby = PS_STATE_STANDBY) as Es.
  { unfold standby, ps_safety_core_on_mode_set, go. cbn. rewrite Hop. cbn. by destruct (on_transition _). }
  assert (state estop = PS_STATE_ESTOP) as Ee by apply on_estop_state.
  assert (estop_cause estop <> 0) as Ec.
  { unfold estop, ps_safety_core_on_local_fault, ps_safety_core_on_estop, go. rewrite Es. cbn.
    destruct (on_transition _); cbn; destruct (Z.eqb_spec cause 0); done. }
  destruct (pub_state _ Hp) as [Hl|[_ Hl]]; [|rewrite Hop in Hl; discriminate Hl].
  unfold publish_needed. cbn [s_last_pub_state s1]. rewrite Hl, Hop, Es, Ee. refine (conj eq_refl (conj eq_refl _)).
  assert (forall s', s_mirror s' = estop -> s_last_pub_state s' = PS_STATE_ESTOP -> flag_set s' = false ->
    forall ticks, let s5 := fold_left hub_gateway_safety_tick ticks s' in
    hub_gateway_safety_state s5 = PS_STATE_ESTOP /\ flag_set s5 = false) as Hrun.
  { clearbody estop. intros s' Em El Ef. induction ticks as [|x ticks IH]; cbn [fold_left].
    { cbv zeta. unfold hub_gateway_safety_state. by rewrite Em. }
    assert (hub_gateway_safety_tick s' x = s') as ->; [|exact IH].
    unfold hub_gateway_safety_tick, mirror_set, mirror_publish, publish_needed.
    rewrite Em, tick_latched by done. cbn. rewrite Ee, El. cbn. destruct s'. cbn in *. by subst. }
  apply Hrun; [done..|]. exact (has_set_flag _ (PS_STATE_STANDBY =? PS_STATE_ESTOP)).
Qed.

End Gateway.

(** ** Witnesses *)

(** A gateway before its start, with both buses open and the bridge running. *)
Definition demo_gw : gw :=
  {| s_can := [None; None]; s_route_q := xQueueCreate 0;
     s_ctr := {| fwd := [0; 0; 0; 0]; local_consumed := 0; anomalies := 0; queue_drops := 0; gw_tx_timeouts := 0 |};
     s_mirror := ps_safety_core_init 0 None 0; s_last_pub_state := 0xFF;
     s_epoch_ms_lo := 0; s_epoch_ref_ms := 0; s_epoch_valid := false; s_time_seq := 0;
     s_flow_level := replicate 8 0;
     bridge := demo_spib |}.

(** A bus handle, opened. *)
Definition demo_bus : option ps_can_ctx := Some (ctx (opened 7 0 0)).
Definition demo_started : gw := (hub_gateway_start demo_gw demo_bus demo_bus 5 true true true).1.

Definition demo_estop : ps_can_frame_t :=
  {| f_id := ps_can_id_pack PS_CLS_SAFETY PS_NODE_ARM_R PS_NODE_BROADCAST PS_T_ESTOP 0; f_dlc := 8;
     f_data := wire_write {| es_cause := 2; es_origin_node := 1; es_seq := 0; es_uptime_ms := 9 |} |}.

Lemma demo_start : hub_gateway_start demo_gw demo_bus demo_bus 5 true true true = (demo_started, ESP_OK).
Proof. vm_compute. reflexivity. Qed.

Lemma gw_flag_tracks_estop_witness :
  let s := fold_left gstep [GTick 6; GRx PS_PORT_CAN1 demo_estop; GPump 7] demo_started in
  hub_gateway_safety_state s = PS_STATE_ESTOP /\ flag_set s = true.
Proof.
  pose proof (gw_flag_tracks_estop demo_gw demo_bus demo_bus 5 true true true demo_started
    [GTick 6; GRx PS_PORT_CAN1 demo_estop; GPump 7] eq_refl eq_refl demo_start) as E.
  cbv zeta in *. split; [vm_compute; reflexivity|]. rewrite E. vm_compute. reflexivity.
Defined.


Definition demo_sync : ps_time_sync_t := {| ts_epoch_ms_lo := 1000; ts_seq := 4; ts_rsvd := 0 |}.
Definition demo_sync_frame : ps_can_frame_t :=
  {| f_id := ps_can_id_pack PS_CLS_MGMT PS_NODE_ORCH PS_NODE_HUB PS_T_TIME_SYNC 0; f_dlc := 8;
     f_data := wire_write demo_sync |}.

Lemma gw_time_sync_witness :
  let s1 := (gw_local_mgmt demo_started demo_sync_frame PS_NODE_ORCH PS_T_TIME_SYNC (u32 4294967290)).1 in
  exists fr ok1 ok2, (hub_gateway_broadcast_time_sync s1 (u32 (4294967290 + 20))).2 =
    [ASend PS_PORT_CAN1 fr ok1; ASend PS_PORT_CAN2 fr ok2] /\ ts_epoch_ms_lo (wire_read (f_data fr)) = 1020.
Proof.
  destruct (gw_time_sync demo_started demo_sync_frame demo_sync 4294967290 20) as [(fr & ok1 & ok2 & A & B & _) _].
  - unfold wire_ok. cbn. unfold fok. cbn. repeat split; clia.
  - vm_compute. split; congruence.
  - cbn. lia.
  - reflexivity.
  - cbv zeta. exists fr, ok1, ok2. split; [exact A|]. rewrite B. reflexivity.
Defined.

Lemma gw_publish_race_witness :
  exists s, state (s_mirror s) = PS_STATE_ESTOP /\ flag_set s = false.
Proof.
  pose (s := mirror_set demo_started {| (s_mirror demo_started) with state := PS_STATE_OPERATIONAL |}).
  assert (published s) as Hp by (apply published_mirror_set; vm_compute; reflexivity).
  destruct (gw_publish_race s 8 PS_ESTOP_SOFTWARE eq_refl Hp) as (_ & _ & E).
  eexists. exact (E [9; 19]).
Defined.
