(* ===== verification/HubLink.v ===== *)
(** The hub's end of a frame from the orchestrator: the SPI pump queues exactly its records,
    and the downlink task takes them one by one.  Shared by the theorems about the bridge
    and the hub together. *)
From S2P Require Import Prelude CanId Wire Crc16 SpiFrame Rtos Txq Can Safety SpiBridge Router Gateway.
From stdpp Require Import list.
#[local] Open Scope Z_scope.
#[local] Open Scope cint_scope.

Section HubLink.
Context `{RtosQueue} `{TwaiDlc}.

(** ** Into the queue *)

Definition view_holds (view : ps_spi_view_t) (j : nat) (l : list ps_can_record_t) : Prop :=
  forall i r, l !! i = Some r -> ps_spi_view_record view (j + i) = (PS_SPI_OK, Some r).

(** Records that fit are queued in order. *)
Lemma fold_rx view l : forall j b, view_holds view j l -> (length (waiting (s_downlink_q b)) + length l <= capacity (s_downlink_q b))%nat ->
  let b' := fold_left (rx_record view) (seq j (length l)) b in
  waiting (s_downlink_q b') = waiting (s_downlink_q b) ++ l /\ s_started b' = s_started b.
Proof.
  induction l as [|r l IH]; intros j b Hv Hc; cbn [length seq fold_left]; [by rewrite app_nil_r|].
  pose proof (Hv 0%nat r eq_refl) as Hr. rewrite Nat.add_0_r in Hr. unfold rx_record at 2 4. rewrite Hr. cbn [Z.eqb PS_SPI_OK].
  unfold downlink_put. pose proof (send_ok (s_downlink_q b) r) as Hok. pose proof (send_waiting (s_downlink_q b) r) as Hw.
  pose proof (capacity_send (s_downlink_q b) r) as Hcap. destruct (xQueueSend (s_downlink_q b) r) as [q ok]. cbn [fst snd] in *.
  cbn [length] in Hc. assert ((length (waiting (s_downlink_q b)) <? capacity (s_downlink_q b))%nat = true) as Hlt by (apply Nat.ltb_lt; lia).
  rewrite Hlt in *. subst ok. match goal with |- context [fold_left _ _ ?b1] => destruct (IH (S j) b1) as [I1 I2] end.
  - intros i x Hx. rewrite Nat.add_succ_comm. by apply Hv.
  - cbn [s_downlink_q]. rewrite Hw, Hcap, length_app. cbn [length]. lia.
  - rewrite I1, I2. cbn [s_downlink_q s_started]. by rewrite Hw, <- app_assoc.
Qed.

(** A frame of the other side, into an empty queue with room for it. *)
Lemma pump_takes_frame b i flags seq recs : is_u8 flags -> is_u8 seq -> Forall record_ok recs -> (length recs <= PS_SPI_MAX_RECORDS)%nat ->
  waiting (s_downlink_q b) = [] -> (length recs <= capacity (s_downlink_q b))%nat ->
  let b' := (spib_pump_turn b i (frame_bytes flags seq recs) PS_SPI_XFER_SIZE).1 in
  waiting (s_downlink_q b') = recs /\ s_started b' = s_started b.
Proof.
  intros Hf Hs HF Hn Hw Hc. unfold spib_pump_turn, spib_handle_rx. change (_ <=? _)%nat with true. cbv iota zeta.
  destruct (parse_frame_bytes flags seq recs PS_SPI_XFER_SIZE Hf Hs HF Hn) as [tl Hp].
  { unfold PS_SPI_MAX_RECORDS, PS_SPI_XFER_SIZE in *. lia. }
  rewrite Hp. cbn [v_seq v_count]. rewrite Nat2Z.id. set (view := {| v_flags := flags |}). set (b0 := note_rx_seq _ _).
  assert (s_downlink_q b0 = s_downlink_q b /\ s_started b0 = s_started b) as [Q0 S0].
  { subst b0. unfold note_rx_seq. by destruct (_ && _). }
  destruct (fold_rx view recs 0 b0) as [F1 F2].
  - intros k r Hr. unfold ps_spi_view_record, view. cbn [v_count v_records]. pose proof (lookup_lt_Some _ _ _ Hr).
    destruct (Z.leb_spec (Z.of_nat (length recs)) (Z.of_nat (0 + k))); [lia|].
    destruct (drop_body recs k r tl HF Hr) as [tl' Hd]. change ((0 + k) * PS_SPI_REC_SIZE)%nat with (k * 16)%nat.
    rewrite Hd, record_read_bytes; [done|]. by eapply Forall_lookup_1.
  - rewrite Q0, Hw. cbn. lia.
  - revert F1 F2. set (b1 := fold_left _ _ _). clearbody b1. intros F1 F2. unfold spib_build_tx. destruct (drain _ _) as [q rs]. cbn.
    rewrite <- S0, <- F2. rewrite Q0, Hw in F1. by destruct (s_overflow_pending b1).
Qed.

(** ** Out of the queue *)

Definition dn_view (g : gw) := (s_started (bridge g), s_downlink_q (bridge g)).

Lemma dn_forward_bus g p f : dn_view (forward_bus g p f).1 = dn_view g.
Proof. unfold forward_bus. by destruct (ps_can_send _ _) as [c err], (is_ok err). Qed.

Lemma dn_forward_spi g o f now : dn_view (forward_spi g o f now).1 = dn_view g.
Proof.
  unfold forward_spi, ps_spib_uplink_push, dn_view. destruct (s_started (bridge g)) eqn:E; cbn; rewrite ?E; [|done].
  destruct (xQueueSend _ _) as [q []]; cbn; by rewrite ?E.
Qed.

Lemma dn_mirror_set g c : dn_view (mirror_set g c) = dn_view g.
Proof. unfold mirror_set, mirror_publish. destruct (publish_needed _ _); [|done]. unfold publish_flag, publish_note, ps_spib_set_flag. by destruct (_ =? PS_STATE_ESTOP). Qed.

Definition is_push (a : action) : Prop := match a with APush _ _ => True | _ => False end.

(** The hub's own handling of a frame leaves the queue alone and sends nothing up. *)
Lemma dn_dispatch g f now : dn_view (gw_local_dispatch g f now).1 = dn_view g /\ Forall (fun a => ~ is_push a) (gw_local_dispatch g f now).2.
Proof.
  unfold gw_local_dispatch. cbv zeta. set (g1 := ctr_bump g bump_local). assert (dn_view g1 = dn_view g) as <- by done. clearbody g1.
  unfold gw_local_safety, gw_local_control, gw_local_mgmt.
  repeat case_match; simplify_eq; cbn; rewrite ?dn_mirror_set; split; try done; by repeat constructor; intros [].
Qed.

Lemma dn_hub_forward g o f mask now : dn_view (hub_forward g o f mask now).1 = dn_view g.
Proof.
  unfold hub_forward. set (r1 := if has mask (PS_PORT_BIT PS_PORT_CAN1) then _ else _).
  assert (dn_view r1.1 = dn_view g) as <- by (subst r1; destruct (has _ _); [apply dn_forward_bus|done]). destruct r1 as [g1 a1].
  set (r2 := if has mask (PS_PORT_BIT PS_PORT_CAN2) then _ else _).
  assert (dn_view r2.1 = dn_view (g1, a1).1) as <- by (subst r2; destruct (has _ _); [apply dn_forward_bus|done]). destruct r2 as [g2 a2].
  set (r3 := if has mask (PS_PORT_BIT PS_PORT_SPI) then _ else _).
  assert (dn_view r3.1 = dn_view (g2, a2).1) as <- by (subst r3; destruct (has _ _); [apply dn_forward_spi|done]). destruct r3 as [g3 a3].
  destruct (has mask (PS_PORT_BIT PS_PORT_LOCAL)); [|done]. pose proof (proj1 (dn_dispatch g3 f now)) as E. by destruct (gw_local_dispatch g3 f now).
Qed.

(** A turn of the downlink task takes the oldest record. *)
Lemma downlink_turn_takes g now rec rest : s_started (bridge g) = true -> waiting (s_downlink_q (bridge g)) = rec :: rest ->
  let g' := (gw_downlink_turn g now).1 in s_started (bridge g') = true /\ waiting (s_downlink_q (bridge g')) = rest.
Proof.
  intros Hst Hw. cbv zeta. unfold gw_downlink_turn, ps_spib_downlink_pop. rewrite Hst. cbn [negb orb].
  pose proof (receive_some (s_downlink_q (bridge g))) as Hs. pose proof (receive_waiting (s_downlink_q (bridge g))) as Hr.
  destruct (xQueueReceive _) as [q got]. cbn [fst snd] in *. rewrite Hw in *. cbn in Hs, Hr. subst got.
  set (g1 := {| g with bridge := _ |}).
  enough (forall g2, dn_view g2 = dn_view g1 -> s_started (bridge g2) = true /\ waiting (s_downlink_q (bridge g2)) = rest) as Hk.
  { destruct (r_bus rec =? _); [apply Hk, dn_dispatch|]. destruct (_ =? 0); apply Hk; [done|apply dn_hub_forward]. }
  intros g2 Hg. injection Hg as -> ->. by subst g1.
Qed.

Lemma downlink_turns_take nows : forall g recs, s_started (bridge g) = true -> waiting (s_downlink_q (bridge g)) = recs -> (length nows <= length recs)%nat ->
  let g' := fold_left gstep (GDownlink <$> nows) g in
  s_started (bridge g') = true /\ waiting (s_downlink_q (bridge g')) = drop (length nows) recs.
Proof.
  induction nows as [|now nows IH]; intros g recs Hst Hw Hl; [done|]. destruct recs as [|r recs]; cbn [length] in Hl; [lia|].
  cbn [fmap list_fmap fold_left gstep length drop]. destruct (downlink_turn_takes g now r recs Hst Hw) as [K1 K2]. apply IH; [done..|lia].
Qed.

(** Nothing that comes down goes back up. *)
Lemma downlink_no_push g now : Forall (fun a => ~ is_push a) (gw_downlink_turn g now).2.
Proof.
  unfold gw_downlink_turn. destruct (ps_spib_downlink_pop _ _) as [b [rec|]]; [|constructor]. set (g1 := {| g with bridge := b |}).
  destruct (r_bus rec =? _); [apply dn_dispatch|]. destruct (_ =? 0); [constructor|].
  set (f := downlink_frame rec). set (mask := ps_router_route PS_PORT_SPI _).
  destruct (hub_forward_split g1 PS_PORT_SPI f mask now) as (g' & ok1 & ok2 & ok3 & _ & _ & ->). cbn [snd].
  assert (has mask (PS_PORT_BIT PS_PORT_SPI) = false) as ->.
  { subst mask. unfold has. rewrite route_fields. change (PS_PORT_LOCAL <? PS_PORT_SPI) with false. cbv iota.
    rewrite <- Z.land_assoc. change (_ .& PS_PORT_BIT PS_PORT_SPI) with 0. by rewrite Z.land_0_r. }
  assert (forall p ok, Forall (fun a => ~ is_push a) [ASend p f ok]) as Hsend by (intros p ok; constructor; [by intros []|constructor]).
  clearbody mask. apply Forall_app. split; [destruct (has mask _); [apply Hsend|constructor]|].
  apply Forall_app. split; [destruct (has mask (PS_PORT_BIT PS_PORT_CAN2)); [apply Hsend|constructor]|]. cbn [app].
  destruct (has mask _); [apply dn_dispatch|constructor].
Qed.

(** An ESTOP at the head of the queue goes to both buses, and then the hub stands in ESTOP. *)
Lemma downlink_estop g now rec rest : published g -> s_started (bridge g) = true -> waiting (s_downlink_q (bridge g)) = rec :: rest ->
  r_bus rec <> PS_SPI_BUS_HUB_LOCAL -> is_estop (downlink_frame rec) ->
  let r := gw_downlink_turn g now in
  hub_gateway_safety_state r.1 = PS_STATE_ESTOP /\ flag_set r.1 = true /\
  exists ok1 ok2, r.2 = [ASend PS_PORT_CAN1 (downlink_frame rec) ok1; ASend PS_PORT_CAN2 (downlink_frame rec) ok2; ALocal (downlink_frame rec)].
Proof.
  intros Hp Hst Hw Hb He. cbv zeta. unfold gw_downlink_turn, ps_spib_downlink_pop. rewrite Hst. cbn [negb orb].
  pose proof (receive_some (s_downlink_q (bridge g))) as Hs. destruct (xQueueReceive _) as [q got]. cbn [fst snd] in *. rewrite Hw in Hs. cbn in Hs. subst got.
  rewrite (proj2 (Z.eqb_neq _ _) Hb), (safety_route PS_PORT_SPI); [|done|apply He].
  change (_ .& _) with 11. change (11 =? 0) with false. cbv iota zeta.
  match goal with |- context [hub_forward ?g1 _ _ _ _] =>
    destruct (forward_estop g1 PS_PORT_SPI (downlink_frame rec) now 11 He) as (S1 & S2 & ok1 & ok2 & ok3 & Ha) end.
  - by apply (published_view g).
  - done.
  - split_and!; try done. rewrite Ha. by exists ok1, ok2.
Qed.

(** A whole frame: the pump queues it, the task works through it up to an ESTOP. *)
Lemma frame_estop g i flags seq recs nows now r : is_u8 flags -> is_u8 seq -> Forall record_ok recs -> (length recs <= PS_SPI_MAX_RECORDS)%nat ->
  published g -> s_started (bridge g) = true -> waiting (s_downlink_q (bridge g)) = [] -> (length recs <= capacity (s_downlink_q (bridge g)))%nat ->
  recs !! length nows = Some r -> r_bus r <> PS_SPI_BUS_HUB_LOCAL -> is_estop (downlink_frame r) ->
  let t := gw_downlink_turn (fold_left gstep (GSpi i (frame_bytes flags seq recs) PS_SPI_XFER_SIZE :: (GDownlink <$> nows)) g) now in
  hub_gateway_safety_state t.1 = PS_STATE_ESTOP /\ flag_set t.1 = true /\
  exists ok1 ok2, t.2 = [ASend PS_PORT_CAN1 (downlink_frame r) ok1; ASend PS_PORT_CAN2 (downlink_frame r) ok2; ALocal (downlink_frame r)].
Proof.
  intros Hf Hs HF Hn Hp Hst Hw Hc Hr Hb He. destruct (pump_takes_frame (bridge g) i flags seq recs Hf Hs HF Hn Hw Hc) as [P1 P2].
  pose proof (lookup_lt_Some _ _ _ Hr) as Hlt.
  destruct (downlink_turns_take nows (gstep g (GSpi i (frame_bytes flags seq recs) PS_SPI_XFER_SIZE)) recs) as [T1 T2]; [by rewrite <- Hst|done|lia|].
  cbn [fold_left]. eapply downlink_estop; try done.
  - change (published (fold_left gstep (GSpi i (frame_bytes flags seq recs) PS_SPI_XFER_SIZE :: (GDownlink <$> nows)) g)). by apply published_run.
  - rewrite T2. by apply drop_S.
Qed.
End HubLink.
