(* ===== verification/Float32.v ===== *)
(** IEEE 754 single precision as the C code uses it: the operations of the Standard
    Library's [SpecFloat] at precision 24 and maximal exponent 128, rounding to nearest,
    ties to even; literals, integer conversions and comparisons.

    A conversion of a float to an integer type is undefined in C when the truncated value
    does not fit the type; [to_int] returns [None] there. *)
From S2P Require Import Prelude.
From Stdlib Require Import SpecFloat.

Notation f32 := spec_float.

Definition fadd : f32 -> f32 -> f32 := SFadd 24 128.
Definition fsub : f32 -> f32 -> f32 := SFsub 24 128.
Definition fmul : f32 -> f32 -> f32 := SFmul 24 128.
Definition fdiv : f32 -> f32 -> f32 := SFdiv 24 128.
Definition fopp : f32 -> f32 := SFopp.
Definition fltb : f32 -> f32 -> bool := SFltb.
Definition fleb : f32 -> f32 -> bool := SFleb.

(** The float nearest to an integer. *)
Definition of_Z (z : Z) : f32 := binary_normalize 24 128 z 0 false.

#[export] Instance f32_inhabited : Inhabited f32 := populate (of_Z 0).

(** The float nearest to [n / d]: the literal [0.55f] is [flit 55 100].  Exact for numbers
    below 2^24, since a division of exact operands is rounded once. *)
Definition flit (n d : Z) : f32 := fdiv (of_Z n) (of_Z d).

(** The float nearest to [n / d] for integers of any size: [1e-12f] is
    [rlit 1 1000000000000]. *)
Definition rlit (n d : positive) : f32 :=
  let '(q, e, l) := SFdiv_core_binary 24 128 (Zpos n) 0 (Zpos d) 0 in binary_round_aux 24 128 false q e l.

Definition fabsf : f32 -> f32 := SFabs.
Definition sqrtf : f32 -> f32 := SFsqrt 24 128.

(** [fmodf]: the exact remainder of the truncated quotient, with the sign of [x]. *)
Definition fmodf (x y : f32) : f32 :=
  match x, y with
  | S754_nan, _ | _, S754_nan | S754_infinity _, _ | _, S754_zero _ => S754_nan
  | S754_zero _, _ | _, S754_infinity _ => x
  | S754_finite sx mx ex, S754_finite _ my ey =>
    let e := Z.min ex ey in
    let r := Z.rem (Zpos mx * 2 ^ (ex - e)) (Zpos my * 2 ^ (ey - e)) in
    if r =? 0 then S754_zero sx else binary_normalize 24 128 (if sx then - r else r) e sx
  end.

(** The value truncated toward zero. *)
Definition trunc (x : f32) : option Z :=
  match x with
  | S754_zero _ => Some 0
  | S754_finite s m e =>
    let a := if 0 <=? e then Zpos m * 2 ^ e else Zpos m / 2 ^ (- e) in
    Some (if s then - a else a)
  | _ => None
  end.

(** [(T)x] for an integer type that holds the values from [lo] to [hi]. *)
Definition to_int (lo hi : Z) (x : f32) : option Z :=
  match trunc x with
  | Some z => if (lo <=? z) && (z <=? hi) then Some z else None
  | None => None
  end.

Definition to_u8 : f32 -> option Z := to_int 0 255.
Definition to_u16 : f32 -> option Z := to_int 0 65535.
Definition to_i16 : f32 -> option Z := to_int (-32768) 32767.

Declare Scope f32_scope.
Delimit Scope f32_scope with f32.
Infix "+" := fadd : f32_scope.
Infix "-" := fsub : f32_scope.
Infix "*" := fmul : f32_scope.
Infix "/" := fdiv : f32_scope.
Infix "<?" := fltb : f32_scope.
Infix "<=?" := fleb : f32_scope.
Bind Scope f32_scope with spec_float.

Lemma to_int_range lo hi x z : to_int lo hi x = Some z -> (lo <= z <= hi)%Z.
Proof.
  unfold to_int. destruct (trunc x) as [y|]; [|done].
  destruct (Z.leb_spec lo y), (Z.leb_spec y hi); simpl; intros [= <-]; lia.
Qed.

Example rlit_1e12 : rlit 1 1000000000000 = S754_finite false 9223372 (-63).
Proof. reflexivity. Qed.

Example fmodf_7_2 : fmodf (of_Z 7) (flit 5 2) = of_Z 2 /\ fmodf (of_Z (-7)) (of_Z 2) = of_Z (-1).
Proof. split; reflexivity. Qed.

Example flit_055 : flit 55 100 = S754_finite false 9227469 (-24).
Proof. reflexivity. Qed.
