(* ===== verification/FloatVal.v ===== *)
(** What the floating-point addition of [Float32] computes, as integer arithmetic.

    Every finite single is an integer multiple of 2^-149; [fval] is that integer, with the
    infinities at plus and minus 2^277, beyond every finite value.  Comparison of floats is
    comparison of these integers, and addition is [rnd] of their sum: rounding to 24
    significant bits, ties to even.  Rounding is monotone, which is what the anti-windup
    argument of the controllers needs. *)
From S2P Require Import Prelude Float32.
From Stdlib Require Import SpecFloat.

(** ** Digits *)

Lemma digits_spec m : 2 ^ (Zpos (digits2_pos m) - 1) <= Zpos m < 2 ^ Zpos (digits2_pos m).
Proof.
  assert (forall p, 1 <= Zpos (digits2_pos p)) as Hd by (intros; lia).
  induction m as [p IH|p IH|]; cbn [digits2_pos]; [..|by cbn];
    rewrite Pos2Z.inj_succ; replace (Z.succ (Zpos (digits2_pos p)) - 1) with (Z.succ (Zpos (digits2_pos p) - 1)) by lia;
    rewrite !Z.pow_succ_r by (specialize (Hd p); lia); lia.
Qed.

Lemma digits_unique m d : 2 ^ (d - 1) <= Zpos m < 2 ^ d -> Zpos (digits2_pos m) = d.
Proof.
  intros [H1 H2]. pose proof (digits_spec m) as [H3 H4].
  assert (d - 1 < Zpos (digits2_pos m)) by (apply (Z.pow_lt_mono_r_iff 2); lia).
  assert (0 <= d). { destruct (Z.le_gt_cases 0 d); [done|]. rewrite (Z.pow_neg_r 2 d) in H2 by lia. lia. }
  assert (Zpos (digits2_pos m) - 1 < d) by (apply (Z.pow_lt_mono_r_iff 2); lia). lia.
Qed.

(** ** Rounding an integer to a multiple of a power of two *)

Definition rne (n k : Z) : Z :=
  let q := n / 2 ^ k in
  match (2 * (n mod 2 ^ k) ?= 2 ^ k) with
  | Lt => q | Eq => if Z.even q then q else q + 1 | Gt => q + 1
  end.

Lemma rne_0 n : rne n 0 = n.
Proof. unfold rne. rewrite Z.pow_0_r, Z.mod_1_r, Z.div_1_r. reflexivity. Qed.

Lemma rne_bounds n k : 0 <= k -> n / 2 ^ k <= rne n k <= n / 2 ^ k + 1.
Proof. intros. unfold rne. destruct (_ ?= _); [destruct (Z.even _)|..]; lia. Qed.

Lemma rne_exact a k : 0 <= k -> rne (a * 2 ^ k) k = a.
Proof.
  intros Hk. pose proof (Z.pow_pos_nonneg 2 k ltac:(lia) Hk). unfold rne.
  rewrite Z.mod_mul, Z.div_mul by lia. destruct (Z.compare_spec (2 * 0) (2 ^ k)); lia.
Qed.

Lemma rne_mono n m k : 0 <= k -> n <= m -> rne n k <= rne m k.
Proof.
  intros Hk Hnm. pose proof (Z.pow_pos_nonneg 2 k ltac:(lia) Hk) as Hp.
  pose proof (Z.div_le_mono n m (2 ^ k) Hp Hnm) as Hq.
  pose proof (rne_bounds n k Hk). pose proof (rne_bounds m k Hk).
  destruct (Z.le_gt_cases (n / 2 ^ k + 1) (m / 2 ^ k)); [lia|].
  assert (m / 2 ^ k = n / 2 ^ k) as E by lia.
  pose proof (Z.div_mod n (2 ^ k) ltac:(lia)). pose proof (Z.div_mod m (2 ^ k) ltac:(lia)).
  rewrite E in *. unfold rne. rewrite E.
  destruct (Z.compare_spec (2 * (n mod 2 ^ k)) (2 ^ k)), (Z.compare_spec (2 * (m mod 2 ^ k)) (2 ^ k));
    try (destruct (Z.even _)); lia.
Qed.

Lemma rne_scale n k j : 0 <= k -> 0 <= j -> rne (n * 2 ^ j) (k + j) = rne n k.
Proof.
  intros Hk Hj. pose proof (Z.pow_pos_nonneg 2 k ltac:(lia) Hk) as Hpk. pose proof (Z.pow_pos_nonneg 2 j ltac:(lia) Hj) as Hpj.
  unfold rne. rewrite Z.pow_add_r by lia. rewrite Zmult_mod_distr_r, Z.div_mul_cancel_r by lia.
  replace (2 * (n mod 2 ^ k * 2 ^ j)) with (2 * (n mod 2 ^ k) * 2 ^ j) by lia.
  rewrite <- (Zmult_compare_compat_r _ _ (2 ^ j)) by lia. done.
Qed.

Lemma rne_lower n k : 0 <= k -> forall a, a * 2 ^ k <= n -> a <= rne n k.
Proof. intros Hk a Ha. rewrite <- (rne_exact a k Hk). by apply rne_mono. Qed.

Lemma rne_upper n k : 0 <= k -> forall a, n <= a * 2 ^ k -> rne n k <= a.
Proof. intros Hk a Ha. rewrite <- (rne_exact a k Hk). by apply rne_mono. Qed.

(** ** The shifts of [SpecFloat] *)

Lemma iter_pos_nat {A} (f : A -> A) n x : iter_pos f n x = Nat.iter (Pos.to_nat n) f x.
Proof.
  revert x. induction n as [p IH|p IH|]; intros x; cbn [iter_pos]; [..|done]; rewrite !IH, <- Nat.iter_add.
  - replace (Pos.to_nat p~1) with (S (Pos.to_nat p + Pos.to_nat p)) by lia. by rewrite Nat.iter_succ_r.
  - f_equal. lia.
Qed.

Lemma shr_1_pos m r s : 0 <= m -> shr_1 {| shr_m := m; shr_r := r; shr_s := s |} =
  {| shr_m := m / 2; shr_r := Z.odd m; shr_s := r || s |}.
Proof. intros. rewrite <- Z.div2_div. destruct m as [|[p|p|]|p]; [reflexivity..|lia]. Qed.

Lemma iter_shr m n : 0 <= m ->
  Nat.iter (S n) shr_1 {| shr_m := m; shr_r := false; shr_s := false |} =
  {| shr_m := m / 2 ^ Z.of_nat (S n); shr_r := Z.odd (m / 2 ^ Z.of_nat n);
     shr_s := negb (m mod 2 ^ Z.of_nat n =? 0) |}.
Proof.
  intros Hm. induction n as [|n IH].
  - cbn [Nat.iter nat_rect]. rewrite shr_1_pos by done. change (Z.of_nat 1) with 1. change (Z.of_nat 0) with 0.
    by rewrite Z.pow_0_r, Z.div_1_r, Z.mod_1_r, Z.pow_1_r.
  - rewrite Nat.iter_succ, IH. clear IH. pose proof (Z.pow_pos_nonneg 2 (Z.of_nat n) ltac:(lia) ltac:(lia)) as Hp.
    rewrite shr_1_pos by (apply Z.div_pos; [done|apply Z.pow_pos_nonneg; lia]).
    rewrite Z.div_div by (try apply Z.pow_nonzero; lia).
    replace (2 ^ Z.of_nat (S n) * 2) with (2 ^ Z.of_nat (S (S n)))
      by (rewrite (Nat2Z.inj_succ (S n)), Z.pow_succ_r by lia; lia).
    f_equal. rewrite (Nat2Z.inj_succ n), Z.pow_succ_r by lia.
    rewrite (Z.mul_comm 2), Z.rem_mul_r, Zmod_odd by lia.
    pose proof (Z.mod_pos_bound m (2 ^ Z.of_nat n) Hp).
    destruct (Z.odd _); cbn [orb]; [|by rewrite Z.mul_0_r, Z.add_0_r].
    symmetry. apply negb_true_iff, Z.eqb_neq. lia.
Qed.

(** Shifting right by [k] and rounding is [rne]. *)
Lemma round_shr m e k : 0 <= m -> 0 <= k ->
  let '(r, e') := shr {| shr_m := m; shr_r := false; shr_s := false |} e k in
  round_nearest_even (shr_m r) (loc_of_shr_record r) = rne m k /\ e' = e + k.
Proof.
  intros Hm Hk. destruct k as [|p|p]; [by rewrite rne_0, Z.add_0_r | | lia]. cbn [shr]. split; [|done].
  rewrite iter_pos_nat. destruct (Pos.to_nat p) as [|n] eqn:Ep; [lia|]. rewrite iter_shr by done.
  assert (Zpos p = Z.of_nat n + 1) as Hp by lia. replace (Z.of_nat (S n)) with (Zpos p) by lia.
  cbn [shr_m]. unfold rne. rewrite Hp, Z.pow_add_r, Z.pow_1_r by lia.
  pose proof (Z.pow_pos_nonneg 2 (Z.of_nat n) ltac:(lia) ltac:(lia)) as Hpow.
  rewrite Z.rem_mul_r, Zmod_odd by lia. pose proof (Z.mod_pos_bound m (2 ^ Z.of_nat n) Hpow).
  set (q := m / _). clearbody q. set (r := m mod _) in *. clearbody r. set (b := Z.odd _). clearbody b.
  cbn [loc_of_shr_record]. destruct b, (Z.eqb_spec r 0) as [->|]; cbn [negb round_nearest_even].
  - destruct (Z.compare_spec (2 * (0 + 2 ^ Z.of_nat n * 1)) (2 ^ Z.of_nat n * 2)); lia || done.
  - destruct (Z.compare_spec (2 * (r + 2 ^ Z.of_nat n * 1)) (2 ^ Z.of_nat n * 2)); lia || done.
  - destruct (Z.compare_spec (2 * (0 + 2 ^ Z.of_nat n * 0)) (2 ^ Z.of_nat n * 2)); lia || done.
  - destruct (Z.compare_spec (2 * (r + 2 ^ Z.of_nat n * 0)) (2 ^ Z.of_nat n * 2)); lia || done.
Qed.

Lemma shr_neg r e k : k <= 0 -> shr r e k = (r, e).
Proof. by destruct k. Qed.

(** ** [binary_round_aux] *)

Notation fexp32 := (fexp 24 128).
Notation valid := (valid_binary 24 128).

Lemma fexp32_eq d : fexp32 d = Z.max (d - 24) (-149).
Proof. reflexivity. Qed.

(** The mantissa [M] at exponent [e], renormalised if rounding carried into a 25th bit. *)
Definition pack (s : bool) (M e : Z) : f32 :=
  if M =? 0 then S754_zero s
  else if M =? 2 ^ 24 then (if e + 1 <=? 104 then S754_finite s (2 ^ 23) (e + 1) else S754_infinity s)
  else if e <=? 104 then S754_finite s (Z.to_pos M) e else S754_infinity s.

Lemma round_aux_spec s m e : let d := Zpos (digits2_pos m) + e in e <= fexp32 d ->
  let M := rne (Zpos m) (fexp32 d - e) in
  binary_round_aux 24 128 s (Zpos m) e loc_Exact = pack s M (fexp32 d) /\ 0 <= M <= 2 ^ 24 /\
  (-149 < fexp32 d -> 2 ^ 23 <= M).
Proof.
  intros d Hd M. pose proof (digits_spec m) as [D1 D2].
  assert (2 ^ (fexp32 d - e) > 0) as Hpow by (apply Z.lt_gt, Z.pow_pos_nonneg; lia).
  assert (M <= 2 ^ 24) as HM.
  { apply rne_upper; [lia|]. rewrite <- Z.pow_add_r by lia. etransitivity; [apply Z.lt_le_incl, D2|].
    apply Z.pow_le_mono_r; [lia|]. rewrite fexp32_eq. unfold d. lia. }
  assert (0 <= M) as HM0 by (apply rne_lower; lia).
  assert (-149 < fexp32 d -> 2 ^ 23 <= M) as HMn.
  { intros Hn. apply rne_lower; [lia|]. rewrite <- Z.pow_add_r by lia. etransitivity; [|exact D1].
    apply Z.pow_le_mono_r; [lia|]. rewrite fexp32_eq in *. unfold d in *. lia. }
  split; [|done]. unfold binary_round_aux. unfold shr_fexp at 1. cbn [shr_record_of_loc Zdigits2]. fold d.
  pose proof (round_shr (Zpos m) e (fexp32 d - e) ltac:(lia) ltac:(lia)) as Hr.
  destruct (shr _ e _) as [r e']. destruct Hr as [-> ->]. fold M. replace (e + (fexp32 d - e)) with (fexp32 d) by lia.
  unfold pack, shr_fexp. cbn [shr_record_of_loc]. set (x := fexp32 d) in *.
  destruct (Z.eqb_spec M 0) as [->|Hz].
  { cbn [Zdigits2]. rewrite shr_neg by (rewrite fexp32_eq; unfold x; rewrite fexp32_eq; lia). done. }
  destruct (Z.eqb_spec M (2 ^ 24)) as [->|Hc].
  - change (Zdigits2 (2 ^ 24)) with 25. replace (fexp32 (25 + x) - x) with 1
      by (rewrite fexp32_eq; unfold x; rewrite fexp32_eq; lia). reflexivity.
  - destruct M as [|p|p]; [lia| |lia]. cbn [Zdigits2 Z.to_pos].
    rewrite shr_neg; [reflexivity|]. pose proof (digits_spec p) as [P1 _].
    assert (Zpos (digits2_pos p) - 1 < 24) by (apply (Z.pow_lt_mono_r_iff 2); lia).
    rewrite fexp32_eq. unfold x. rewrite fexp32_eq. lia.
Qed.

(** ** Values *)

Definition INF : Z := 2 ^ 277.

Definition fval (x : f32) : Z :=
  match x with
  | S754_finite s m e => if s then - (Zpos m * 2 ^ (e + 149)) else Zpos m * 2 ^ (e + 149)
  | S754_infinity s => if s then - INF else INF
  | S754_zero _ | S754_nan => 0
  end.

(** Rounding to 24 significant bits. *)
Definition rnd_pos (n : Z) : Z := let k := Z.max 0 (Z.log2 n - 23) in rne n k * 2 ^ k.
Definition rnd (n : Z) : Z := if n <? 0 then - rnd_pos (- n) else rnd_pos n.

Definition sat (n : Z) : Z := Z.max (- INF) (Z.min n INF).

Lemma pack_val M e : 0 <= M <= 2 ^ 24 -> -149 <= e -> (-149 < e -> 2 ^ 23 <= M) ->
  fval (pack false M e) = Z.min (M * 2 ^ (e + 149)) INF.
Proof.
  intros HM He Hn. unfold pack, INF. destruct (Z.eqb_spec M 0) as [->|Hz]; [cbn [fval]; lia|].
  assert (forall a, 253 <= a -> 2 ^ 253 <= 2 ^ a) as Hge by (intros; apply Z.pow_le_mono_r; lia).
  assert (forall a, a <= 253 -> 2 ^ a <= 2 ^ 253) as Hle by (intros; apply Z.pow_le_mono_r; lia).
  change (2 ^ 277) with (2 ^ 24 * 2 ^ 253). assert (2 ^ 254 = 2 * 2 ^ 253) as H254 by reflexivity.
  assert (0 < 2 ^ 253) as Hpos by reflexivity. set (x := 2 ^ 253) in *. clearbody x.
  destruct (Z.eqb_spec M (2 ^ 24)) as [->|Hc].
  - destruct (Z.leb_spec (e + 1) 104); cbn [fval].
    + change (Zpos (2 ^ 23)) with (2 ^ 23). replace (e + 1 + 149) with (Z.succ (e + 149)) by lia.
      rewrite Z.pow_succ_r by lia. specialize (Hle (e + 149) ltac:(lia)). lia.
    + specialize (Hge (e + 149) ltac:(lia)). unfold INF. change (2 ^ 277) with (2 ^ 24 * 2 ^ 253) in *. lia.
  - destruct (Z.leb_spec e 104); cbn [fval].
    + rewrite Z2Pos.id by lia. specialize (Hle (e + 149) ltac:(lia)). nia.
    + specialize (Hn ltac:(lia)). assert (2 * x <= 2 ^ (e + 149)) by (rewrite <- H254; apply Z.pow_le_mono_r; lia).
      unfold INF. nia.
Qed.

Lemma fval_neg M e : fval (pack true M e) = - fval (pack false M e).
Proof. unfold pack. repeat case_match; cbn [fval]; lia. Qed.

Lemma pack_valid s M e : 0 <= M <= 2 ^ 24 -> -149 <= e -> (-149 < e -> 2 ^ 23 <= M) -> valid (pack s M e) = true.
Proof.
  intros HM He Hn. unfold pack. destruct (Z.eqb_spec M 0); [done|].
  destruct (Z.eqb_spec M (2 ^ 24)).
  - destruct (Z.leb_spec (e + 1) 104); [|done]. cbn [valid_binary]. unfold bounded, canonical_mantissa.
    change (Zpos (digits2_pos (2 ^ 23))) with 24. rewrite fexp32_eq.
    apply andb_true_iff. split; [apply Z.eqb_eq | apply Z.leb_le]; lia.
  - destruct (Z.leb_spec e 104); [|done]. cbn [valid_binary]. unfold bounded, canonical_mantissa.
    apply andb_true_iff. split; [|apply Z.leb_le; lia]. apply Z.eqb_eq.
    destruct (Z.eq_dec e (-149)) as [->|].
    + assert (Zpos (digits2_pos (Z.to_pos M)) <= 24).
      { pose proof (digits_spec (Z.to_pos M)) as [P1 _]. rewrite Z2Pos.id in P1 by lia.
        assert (Zpos (digits2_pos (Z.to_pos M)) - 1 < 24) by (apply (Z.pow_lt_mono_r_iff 2); lia). lia. }
      rewrite fexp32_eq. lia.
    + rewrite (digits_unique (Z.to_pos M) 24) by (rewrite Z2Pos.id by lia; specialize (Hn ltac:(lia)); lia).
      rewrite fexp32_eq. lia.
Qed.

Lemma pack_not_nan s M e : pack s M e <> S754_nan.
Proof. unfold pack. repeat case_match; done. Qed.

Lemma log2_shift m j : 0 <= j -> Z.log2 (Zpos m * 2 ^ j) = Zpos (digits2_pos m) + j - 1.
Proof.
  intros Hj. pose proof (digits_spec m) as [D1 D2]. apply Z.log2_unique; [lia|].
  replace (Z.succ (Zpos (digits2_pos m) + j - 1)) with (Zpos (digits2_pos m) + j) by lia.
  replace (Zpos (digits2_pos m) + j - 1) with (Zpos (digits2_pos m) - 1 + j) by lia.
  rewrite !Z.pow_add_r by lia. pose proof (Z.pow_pos_nonneg 2 j). nia.
Qed.

Lemma round_aux_val m e : -149 <= e -> e <= fexp32 (Zpos (digits2_pos m) + e) ->
  fval (binary_round_aux 24 128 false (Zpos m) e loc_Exact) = Z.min (rnd_pos (Zpos m * 2 ^ (e + 149))) INF.
Proof.
  intros He Hd. destruct (round_aux_spec false m e Hd) as (-> & HM & Hn).
  rewrite pack_val; [|done | rewrite fexp32_eq; lia | done]. f_equal. unfold rnd_pos. rewrite log2_shift by lia.
  rewrite fexp32_eq in *. replace (Z.max 0 _) with ((Z.max (Zpos (digits2_pos m) + e - 24) (-149) - e) + (e + 149)) by lia.
  rewrite rne_scale by lia. f_equal. f_equal. lia.
Qed.

Lemma shl_iter m d : Zpos (Pos.iter xO m d) = Zpos m * 2 ^ Zpos d.
Proof.
  rewrite Pos2Nat.inj_iter, <- (positive_nat_Z d).
  change (Zpos (Nat.iter (Pos.to_nat d) xO m) = Zpos m * 2 ^ Z.of_nat (Pos.to_nat d)). induction (Pos.to_nat d) as [|n IH].
  - cbn. lia.
  - rewrite Nat2Z.inj_succ, Z.pow_succ_r by lia. rewrite Nat.iter_succ, Pos2Z.inj_xO, IH. lia.
Qed.

Lemma shl_align_spec m e e' : let '(mz, ez) := shl_align m e e' in
  ez = Z.min e e' /\ Zpos mz = Zpos m * 2 ^ (e - ez).
Proof.
  unfold shl_align. destruct (e' - e) as [|p|p] eqn:E; [split; [lia|by rewrite Z.sub_diag, Z.mul_1_r]..|].
  split; [lia|]. rewrite shl_iter. f_equal. f_equal. lia.
Qed.

Lemma digits_shl m mz j : 0 <= j -> Zpos mz = Zpos m * 2 ^ j -> Zpos (digits2_pos mz) = Zpos (digits2_pos m) + j.
Proof.
  intros Hj E. apply digits_unique. rewrite E. pose proof (digits_spec m) as [D1 D2].
  replace (Zpos (digits2_pos m) + j - 1) with (Zpos (digits2_pos m) - 1 + j) by lia.
  rewrite !Z.pow_add_r by lia. pose proof (Z.pow_pos_nonneg 2 j). nia.
Qed.

Lemma binary_round_spec s m e : valid (binary_round 24 128 s m e) = true /\ binary_round 24 128 s m e <> S754_nan /\
  (-149 <= e -> fval (binary_round 24 128 s m e) =
     (if s then -1 else 1) * Z.min (rnd_pos (Zpos m * 2 ^ (e + 149))) INF).
Proof.
  unfold binary_round. set (x := fexp32 (Zpos (digits2_pos m) + e)).
  pose proof (shl_align_spec m e x) as Hs. destruct (shl_align m e x) as [mz ez]. destruct Hs as [Hez Hmz].
  pose proof (digits_shl m mz (e - ez) ltac:(lia) Hmz) as Hdz.
  assert (fexp32 (Zpos (digits2_pos mz) + ez) = x) as Hfx by (rewrite Hdz; unfold x; f_equal; lia).
  destruct (round_aux_spec s mz ez) as (E & HM & Hn); [rewrite Hfx; lia|]. rewrite Hfx in E, HM, Hn.
  assert (-149 <= x) by (unfold x; rewrite fexp32_eq; lia). split_and!.
  - rewrite E. by apply pack_valid.
  - rewrite E. apply pack_not_nan.
  - intros He. assert (-149 <= ez) by lia.
    pose proof (round_aux_val mz ez ltac:(lia) ltac:(rewrite Hfx; lia)) as Hv.
    destruct (round_aux_spec false mz ez) as (E' & _); [rewrite Hfx; lia|]. rewrite Hfx in E'.
    replace (Zpos m * 2 ^ (e + 149)) with (Zpos mz * 2 ^ (ez + 149)).
    2: { rewrite Hmz, <- Z.mul_assoc, <- Z.pow_add_r by lia. f_equal. f_equal. lia. }
    rewrite <- Hv, E, E'. destruct s; [rewrite fval_neg|]; lia.
Qed.

Lemma rnd_pos_nonneg n : 0 <= n -> 0 <= rnd_pos n.
Proof.
  intros. unfold rnd_pos. pose proof (Z.pow_pos_nonneg 2 (Z.max 0 (Z.log2 n - 23)) ltac:(lia) ltac:(lia)).
  pose proof (rne_lower n (Z.max 0 (Z.log2 n - 23)) ltac:(lia) 0 ltac:(lia)). nia.
Qed.

Lemma normalize_spec m e sz : valid (binary_normalize 24 128 m e sz) = true /\
  binary_normalize 24 128 m e sz <> S754_nan /\
  (-149 <= e -> fval (binary_normalize 24 128 m e sz) = sat (rnd (m * 2 ^ (e + 149)))).
Proof.
  unfold binary_normalize. destruct m as [|p|p].
  - split_and!; [done..|]. intros. by rewrite Z.mul_0_l.
  - destruct (binary_round_spec false p e) as (A & B & C). split_and!; [done..|]. intros He. rewrite C by done.
    pose proof (Z.pow_pos_nonneg 2 (e + 149) ltac:(lia) ltac:(lia)). unfold rnd, sat.
    destruct (Z.ltb_spec (Zpos p * 2 ^ (e + 149)) 0); [nia|].
    pose proof (rnd_pos_nonneg (Zpos p * 2 ^ (e + 149)) ltac:(lia)). assert (0 < INF) by reflexivity. lia.
  - destruct (binary_round_spec true p e) as (A & B & C). split_and!; [done..|]. intros He. rewrite C by done.
    pose proof (Z.pow_pos_nonneg 2 (e + 149) ltac:(lia) ltac:(lia)). unfold rnd, sat.
    destruct (Z.ltb_spec (Zneg p * 2 ^ (e + 149)) 0); [|nia].
    replace (- (Zneg p * 2 ^ (e + 149))) with (Zpos p * 2 ^ (e + 149)) by lia.
    pose proof (rnd_pos_nonneg (Zpos p * 2 ^ (e + 149)) ltac:(lia)). assert (0 < INF) by reflexivity. lia.
Qed.

(** ** Rounding is monotone and keeps what is representable *)

Lemma rnd_pos_upper n : 0 < n -> rnd_pos n <= 2 ^ Z.max 24 (Z.log2 n + 1).
Proof.
  intros Hn. unfold rnd_pos. set (k := Z.max 0 (Z.log2 n - 23)).
  assert (rne n k <= 2 ^ 24).
  { apply rne_upper; [lia|]. rewrite <- Z.pow_add_r by lia. pose proof (Z.log2_spec n Hn) as [_ H].
    etransitivity; [apply Z.lt_le_incl, H|]. apply Z.pow_le_mono_r; lia. }
  replace (Z.max 24 (Z.log2 n + 1)) with (24 + k) by lia. rewrite Z.pow_add_r by lia.
  apply Z.mul_le_mono_nonneg_r; [apply Z.pow_nonneg; lia | done].
Qed.

Lemma rnd_pos_lower n : 0 < n -> 2 ^ Z.log2 n <= rnd_pos n.
Proof.
  intros Hn. unfold rnd_pos. set (k := Z.max 0 (Z.log2 n - 23)). pose proof (Z.log2_spec n Hn) as [H _].
  pose proof (Z.log2_nonneg n) as Hl. destruct (Z.le_gt_cases k (Z.log2 n)) as [Hk|]; [|lia].
  replace (Z.log2 n) with ((Z.log2 n - k) + k) at 1 by lia. rewrite Z.pow_add_r by lia.
  apply Z.mul_le_mono_nonneg_r; [apply Z.pow_nonneg; lia|]. apply rne_lower; [lia|].
  rewrite <- Z.pow_add_r by lia. by replace (Z.log2 n - k + k) with (Z.log2 n) by lia.
Qed.

Lemma rnd_pos_mono n m : 0 <= n -> n <= m -> rnd_pos n <= rnd_pos m.
Proof.
  intros Hn Hnm. destruct (Z.eq_dec n 0) as [->|]; [change (rnd_pos 0) with 0; apply rnd_pos_nonneg; lia|].
  pose proof (Z.log2_le_mono n m Hnm) as Hl.
  destruct (Z.eq_dec (Z.max 0 (Z.log2 n - 23)) (Z.max 0 (Z.log2 m - 23))) as [E|].
  - unfold rnd_pos. rewrite <- E. apply Z.mul_le_mono_nonneg_r; [apply Z.pow_nonneg; lia|]. apply rne_mono; lia.
  - etransitivity; [apply rnd_pos_upper; lia|]. etransitivity; [|apply rnd_pos_lower; lia].
    apply Z.pow_le_mono_r; lia.
Qed.

Lemma rnd_opp n : rnd (- n) = - rnd n.
Proof.
  unfold rnd. destruct (Z.ltb_spec (- n) 0), (Z.ltb_spec n 0); rewrite ?Z.opp_involutive; try lia.
  replace n with 0 by lia. reflexivity.
Qed.

Lemma rnd_mono n m : n <= m -> rnd n <= rnd m.
Proof.
  intros H. unfold rnd. destruct (Z.ltb_spec n 0), (Z.ltb_spec m 0); [| |lia|].
  - pose proof (rnd_pos_mono (- m) (- n)). lia.
  - pose proof (rnd_pos_nonneg (- n)). pose proof (rnd_pos_nonneg m). lia.
  - apply rnd_pos_mono; lia.
Qed.

Lemma sat_mono n m : n <= m -> sat n <= sat m.
Proof. unfold sat. lia. Qed.

Lemma valid_finite s m e : valid (S754_finite s m e) = true ->
  -149 <= e <= 104 /\ Zpos m < 2 ^ 24 /\ (-149 < e -> 2 ^ 23 <= Zpos m).
Proof.
  cbn [valid_binary]. unfold bounded, canonical_mantissa. rewrite andb_true_iff, Z.eqb_eq, Z.leb_le, fexp32_eq.
  intros [H1 H2]. pose proof (digits_spec m) as [D1 D2]. split_and!; [lia | lia | |].
  - eapply Z.lt_le_trans; [exact D2|]. apply Z.pow_le_mono_r; lia.
  - intros. etransitivity; [|exact D1]. apply Z.pow_le_mono_r; lia.
Qed.

Lemma rnd_pos_repr m e : valid (S754_finite false m e) = true -> rnd_pos (Zpos m * 2 ^ (e + 149)) = Zpos m * 2 ^ (e + 149).
Proof.
  intros Hv. pose proof (valid_finite _ _ _ Hv) as (He & Hm & _). unfold rnd_pos. rewrite log2_shift by lia.
  cbn [valid_binary] in Hv. unfold bounded, canonical_mantissa in Hv. rewrite andb_true_iff, Z.eqb_eq, fexp32_eq in Hv.
  destruct Hv as [Hv _]. replace (Z.max 0 _) with (e + 149) by lia. by rewrite rne_exact by lia.
Qed.

Lemma finite_below m e : valid (S754_finite false m e) = true -> 0 < Zpos m * 2 ^ (e + 149) < INF.
Proof.
  intros Hv. pose proof (valid_finite _ _ _ Hv) as (He & Hm & _).
  pose proof (Z.pow_pos_nonneg 2 (e + 149) ltac:(lia) ltac:(lia)).
  assert (2 ^ (e + 149) <= 2 ^ 253) by (apply Z.pow_le_mono_r; lia).
  assert (INF = 2 ^ 24 * 2 ^ 253) as -> by reflexivity. nia.
Qed.

(** The finite floats: not an infinity, not a NaN. *)
Definition finite (x : f32) : Prop := valid x = true /\ - INF < fval x < INF /\ x <> S754_nan.

Lemma finite_fin s m e : valid (S754_finite s m e) = true -> finite (S754_finite s m e).
Proof. intros Hv. pose proof (finite_below m e Hv). split_and!; [done|..|done]; destruct s; cbn [fval]; lia. Qed.

Lemma finite_zero s : finite (S754_zero s).
Proof. split_and!; [done|..|done]; cbn [fval]; assert (0 < INF) by reflexivity; lia. Qed.

Lemma sat_fval x : finite x -> sat (rnd (fval x)) = fval x.
Proof.
  intros (Hv & Hb & Hn). assert (rnd (fval x) = fval x) as ->; [|unfold sat; lia].
  destruct x as [s|s| |s m e]; [done | | done |]; [destruct s; cbn [fval] in Hb; lia|].
  pose proof (rnd_pos_repr m e Hv) as Hr. pose proof (finite_below m e Hv).
  destruct s; cbn [fval]; rewrite ?rnd_opp; unfold rnd; destruct (Z.ltb_spec (Zpos m * 2 ^ (e + 149)) 0); lia.
Qed.

(** ** Comparison *)

Lemma pos_cmp m1 e1 m2 e2 : valid (S754_finite false m1 e1) = true -> valid (S754_finite false m2 e2) = true ->
  match e1 ?= e2 with Lt => Lt | Gt => Gt | Eq => Pos.compare_cont Eq m1 m2 end =
  (Zpos m1 * 2 ^ (e1 + 149) ?= Zpos m2 * 2 ^ (e2 + 149)).
Proof.
  intros H1 H2. pose proof (valid_finite _ _ _ H1) as (E1 & M1 & N1). pose proof (valid_finite _ _ _ H2) as (E2 & M2 & N2).
  assert (forall a b (p q : positive), -149 <= a -> a < b -> Zpos p < 2 ^ 24 -> (-149 < b -> 2 ^ 23 <= Zpos q) ->
    Zpos p * 2 ^ (a + 149) < Zpos q * 2 ^ (b + 149)) as Hlt.
  { intros a b p q Ha Hab Hp Hq. specialize (Hq ltac:(lia)).
    replace (b + 149) with ((b - a - 1) + 1 + (a + 149)) by lia.
    rewrite (Z.pow_add_r 2 (b - a - 1 + 1)), (Z.pow_add_r 2 (b - a - 1) 1), Z.pow_1_r by lia.
    pose proof (Z.pow_pos_nonneg 2 (a + 149) ltac:(lia) ltac:(lia)). pose proof (Z.pow_pos_nonneg 2 (b - a - 1) ltac:(lia) ltac:(lia)).
    assert (Zpos p < Zpos q * (2 ^ (b - a - 1) * 2)) by nia. nia. }
  destruct (Z.compare_spec e1 e2) as [->|Hl|Hl].
  - change (Pos.compare_cont Eq m1 m2) with (Zpos m1 ?= Zpos m2).
    pose proof (Z.pow_pos_nonneg 2 (e2 + 149)). rewrite <- (Zmult_compare_compat_r _ _ (2 ^ (e2 + 149))) by lia. done.
  - symmetry. apply Z.compare_lt_iff, Hlt; lia || done.
  - symmetry. apply Z.compare_gt_iff, Hlt; lia || done.
Qed.

Lemma compare_val x y : valid x = true -> valid y = true -> x <> S754_nan -> y <> S754_nan ->
  SFcompare x y = Some (fval x ?= fval y).
Proof.
  intros Hx Hy Nx Ny. assert (0 < INF) as HI by reflexivity.
  destruct x as [sx|sx| |sx mx ex]; [..|done|]; (destruct y as [sy|sy| |sy my ey]; [..|done|]);
    try (pose proof (finite_below mx ex Hx)); try (pose proof (finite_below my ey Hy)); cbn [SFcompare fval];
    try (destruct sx); try (destruct sy); try done;
    try (f_equal; symmetry; first [apply Z.compare_lt_iff; lia | apply Z.compare_gt_iff; lia | apply Z.compare_eq_iff; lia]).
  - rewrite Z.compare_opp, (Z.compare_antisym (Zpos mx * 2 ^ (ex + 149))), <- (pos_cmp mx ex my ey Hx Hy).
    f_equal. by destruct (ex ?= ey).
  - by rewrite <- (pos_cmp mx ex my ey Hx Hy).
Qed.

(** A valid float that is not a NaN. *)
Definition num (x : f32) : Prop := valid x = true /\ x <> S754_nan.

Lemma finite_num x : finite x -> num x.
Proof. by intros (? & _ & ?). Qed.

Lemma num_cases x : num x -> x = S754_infinity true \/ x = S754_infinity false \/ finite x.
Proof.
  intros [Hv Hn]. destruct x as [s|[]| |s m e]; [..|done|]; auto using finite_zero, finite_fin.
Qed.

Lemma fltb_val x y : num x -> num y -> fltb x y = (fval x <? fval y).
Proof.
  intros [] []. unfold fltb, SFltb, Z.ltb. rewrite compare_val by done. by destruct (fval x ?= fval y).
Qed.

Lemma fleb_val x y : num x -> num y -> fleb x y = (fval x <=? fval y).
Proof.
  intros [] []. unfold fleb, SFleb, Z.leb. rewrite compare_val by done. by destruct (fval x ?= fval y).
Qed.

Lemma fltb_nan_l x : fltb S754_nan x = false.
Proof. by destruct x. Qed.
Lemma fltb_nan_r x : fltb x S754_nan = false.
Proof. by destruct x. Qed.

(** ** Addition *)

Lemma fadd_finite x y : finite x -> finite y -> num (fadd x y) /\ fval (fadd x y) = sat (rnd (fval x + fval y)).
Proof.
  intros Fx Fy. pose proof (sat_fval x Fx) as Rx. pose proof (sat_fval y Fy) as Ry.
  pose proof (finite_num x Fx) as Nx. pose proof (finite_num y Fy) as Ny.
  destruct Fx as (Vx & Bx & _), Fy as (Vy & By & _).
  destruct x as [sx|sx| |sx mx ex]; [|destruct sx; cbn [fval] in Bx; lia|by destruct Nx|];
    (destruct y as [sy|sy| |sy my ey]; [|destruct sy; cbn [fval] in By; lia|by destruct Ny|]).
  - split; [by destruct sx, sy | by destruct sx, sy].
  - split; [done | by rewrite Z.add_0_l].
  - split; [done | by rewrite Z.add_0_r].
  - unfold fadd. cbn [SFadd]. set (ez := Z.min ex ey).
    pose proof (shl_align_spec mx ex ez) as Hx. pose proof (shl_align_spec my ey ez) as Hy.
    destruct (shl_align mx ex ez) as [px zx], (shl_align my ey ez) as [py zy]. cbn [fst].
    destruct Hx as [-> Hx], Hy as [-> Hy]. replace (Z.min ex ez) with ez in Hx by lia.
    replace (Z.min ey ez) with ez in Hy by lia.
    pose proof (valid_finite _ _ _ Vx) as (Ex & _). pose proof (valid_finite _ _ _ Vy) as (Ey & _).
    match goal with |- context [binary_normalize 24 128 ?s ez false] => destruct (normalize_spec s ez false) as (A & B & C) end.
    split; [by split|]. rewrite C by lia. f_equal. f_equal.
    assert (forall m (p : positive) e, ez <= e -> Zpos p = Zpos m * 2 ^ (e - ez) -> Zpos p * 2 ^ (ez + 149) = Zpos m * 2 ^ (e + 149)) as Hs.
    { intros m p e He ->. rewrite <- Z.mul_assoc, <- Z.pow_add_r by lia. f_equal. f_equal. lia. }
    rewrite Z.mul_add_distr_r. cbn [fval]. f_equal; destruct sx, sy; cbn [cond_Zopp];
      rewrite ?Z.mul_opp_l; rewrite ?(Hs mx px ex), ?(Hs my py ey) by (done || lia); done.
Qed.

Lemma fadd_inf_l s y : finite y -> fadd (S754_infinity s) y = S754_infinity s.
Proof. intros (_ & B & N). destruct y as [|[]| |]; try done; cbn [fval] in B; lia. Qed.

Lemma fadd_inf_r s y : finite y -> fadd y (S754_infinity s) = S754_infinity s.
Proof. intros (_ & B & N). destruct y as [|[]| |]; try done; cbn [fval] in B; lia. Qed.

Lemma fadd_valid x y : valid x = true -> valid y = true -> valid (fadd x y) = true.
Proof.
  intros Hx Hy. destruct x as [sx|sx| |sx mx ex], y as [sy|sy| |sy my ey]; try (by destruct sx) || done; try (by destruct sx, sy).
  apply fadd_finite; by apply finite_fin.
Qed.

(** Addition is monotone in its first argument. *)
Lemma fadd_mono x x' y : num x -> num x' -> num y -> fval x <= fval x' ->
  fadd x y <> S754_nan -> fadd x' y <> S754_nan -> fval (fadd x y) <= fval (fadd x' y).
Proof.
  assert (0 < INF) as HI by reflexivity. intros Nx Nx' Ny Hle Hn Hn'.
  assert (forall z, num z -> - INF <= fval z <= INF) as Hr.
  { intros z [->|[->|(_ & ? & _)]]%num_cases; cbn [fval]; lia. }
  assert (num (fadd x y)) as Na by (split; [apply fadd_valid; [apply Nx|apply Ny] | done]).
  assert (num (fadd x' y)) as Na' by (split; [apply fadd_valid; [apply Nx'|apply Ny] | done]).
  destruct (num_cases y Ny) as [->|[->|Fy]].
  - destruct x as [|[]| |], x' as [|[]| |]; cbn in *; done || lia.
  - destruct x as [|[]| |], x' as [|[]| |]; cbn in *; done || lia.
  - destruct (num_cases x Nx) as [->|[->|Fx]].
    + rewrite fadd_inf_l by done. cbn [fval]. apply Hr, Na'.
    + destruct (num_cases x' Nx') as [->|[->|(_ & B & _)]]; [cbn [fval] in Hle; lia | done | cbn [fval] in Hle; lia].
    + destruct (num_cases x' Nx') as [->|[->|Fx']].
      * destruct Fx as (_ & B & _). cbn [fval] in Hle. lia.
      * rewrite (fadd_inf_l false) by done. cbn [fval]. apply Hr, Na.
      * destruct (fadd_finite x y Fx Fy) as [_ ->]. destruct (fadd_finite x' y Fx' Fy) as [_ ->].
        apply sat_mono, rnd_mono. lia.
Qed.

Lemma fadd_comm x y : fadd x y = fadd y x.
Proof.
  unfold fadd. destruct x as [[]|[]| |sx mx ex], y as [[]|[]| |sy my ey]; try done.
  cbn [SFadd]. rewrite (Z.min_comm ex ey), Z.add_comm. done.
Qed.

(** Adding nothing negative does not go below. *)
Lemma fadd_above x y : num x -> finite y -> 0 <= fval x -> fval y <= fval (fadd x y).
Proof.
  intros Nx Fy Hx. destruct (num_cases x Nx) as [->|[->|Fx]].
  - assert (0 < INF) by reflexivity. cbn [fval] in Hx. lia.
  - rewrite fadd_inf_l by done. destruct Fy as (_ & ? & _). cbn [fval]. lia.
  - destruct (fadd_finite x y Fx Fy) as [_ ->]. rewrite <- (sat_fval y Fy) at 1. apply sat_mono, rnd_mono. lia.
Qed.

Lemma fadd_below x y : num x -> finite y -> fval x <= 0 -> fval (fadd x y) <= fval y.
Proof.
  intros Nx Fy Hx. destruct (num_cases x Nx) as [->|[->|Fx]].
  - rewrite fadd_inf_l by done. destruct Fy as (_ & ? & _). cbn [fval]. lia.
  - assert (0 < INF) by reflexivity. cbn [fval] in Hx. lia.
  - destruct (fadd_finite x y Fx Fy) as [_ ->]. rewrite <- (sat_fval y Fy) at 2. apply sat_mono, rnd_mono. lia.
Qed.

(** Subtraction is the addition of the opposite. *)
Lemma fsub_add x y : fsub x y = fadd x (fopp y).
Proof.
  unfold fsub, fadd, fopp. destruct x as [[]|[]| |sx mx ex], y as [[]|[]| |sy my ey]; try done.
  cbn [SFsub SFadd SFopp]. f_equal. by destruct sy; cbn [cond_Zopp negb]; rewrite ?Z.sub_opp_r.
Qed.

Lemma fval_opp x : fval (fopp x) = - fval x.
Proof. destruct x as [|[]| |[]]; cbn; lia. Qed.

Lemma finite_opp x : finite x -> finite (fopp x).
Proof.
  intros (V & B & N). split_and!; [| | |].
  - by destruct x.
  - rewrite fval_opp. lia.
  - rewrite fval_opp. lia.
  - by destruct x.
Qed.

(** ** Multiplication: the sign of a product *)

Lemma pack_sign s M e : 0 <= M -> (s = false -> 0 <= fval (pack s M e)) /\ (s = true -> fval (pack s M e) <= 0).
Proof.
  assert (0 < INF) by reflexivity. intros HM. unfold pack. assert (forall z, 0 <= 2 ^ z) by (intros; by apply Z.pow_nonneg).
  split; intros ->; repeat case_match; cbn [fval]; try lia; match goal with |- context [2 ^ ?z] => specialize (H0 z) end; nia.
Qed.

Lemma product_digits mx my : Zpos (digits2_pos mx) + Zpos (digits2_pos my) - 1 <= Zpos (digits2_pos (mx * my)).
Proof.
  pose proof (digits_spec mx) as [X1 X2]. pose proof (digits_spec my) as [Y1 Y2]. pose proof (digits_spec (mx * my)) as [P1 P2].
  assert (Zpos (digits2_pos mx) - 1 + (Zpos (digits2_pos my) - 1) < Zpos (digits2_pos (mx * my))); [|lia].
  apply (Z.pow_lt_mono_r_iff 2); [lia..|]. rewrite Z.pow_add_r by lia.
  pose proof (Z.pow_pos_nonneg 2 (Zpos (digits2_pos mx) - 1)). pose proof (Z.pow_pos_nonneg 2 (Zpos (digits2_pos my) - 1)).
  rewrite Pos2Z.inj_mul in P2. nia.
Qed.

Lemma product_aligned sx mx ex sy my ey : valid (S754_finite sx mx ex) = true -> valid (S754_finite sy my ey) = true ->
  ex + ey <= fexp32 (Zpos (digits2_pos (mx * my)) + (ex + ey)).
Proof.
  intros Hx Hy. pose proof (product_digits mx my). pose proof (digits_spec mx) as [_ Dx]. pose proof (digits_spec my) as [_ Dy].
  pose proof (valid_finite _ _ _ Hx) as (Ex & _ & Nx). pose proof (valid_finite _ _ _ Hy) as (Ey & _ & Ny).
  rewrite fexp32_eq. destruct (Z.eq_dec ex (-149)) as [|Ex']; [destruct (Z.eq_dec ey (-149)) as [|Ey']; [lia|]|].
  - assert (23 < Zpos (digits2_pos my)) by (apply (Z.pow_lt_mono_r_iff 2); lia). lia.
  - assert (23 < Zpos (digits2_pos mx)) by (apply (Z.pow_lt_mono_r_iff 2); lia). lia.
Qed.

Definition sign_rule (x y z : f32) : Prop :=
  (0 <= fval x -> 0 <= fval y -> 0 <= fval z) /\ (0 <= fval x -> fval y <= 0 -> fval z <= 0) /\
  (fval x <= 0 -> 0 <= fval y -> fval z <= 0) /\ (fval x = 0 -> fval z = 0).

Lemma fmul_num x y : num x -> finite y -> finite x \/ fval y <> 0 -> num (fmul x y) /\ sign_rule x y (fmul x y).
Proof.
  assert (0 < INF) as HI by reflexivity. intros Nx Fy Hxy. pose proof (finite_num y Fy) as Ny.
  destruct Fy as (Vy & By & _). unfold sign_rule.
  destruct y as [sy|sy| |sy my ey]; [|destruct sy; cbn [fval] in By; lia|by destruct Ny|].
  { destruct Hxy as [(Vx & Bx & Hn)|]; [|done].
    destruct x as [sx|sx| |sx mx ex]; [| destruct sx; cbn [fval] in Bx; lia|done|]; cbn; split; done || lia. }
  pose proof (finite_below my ey Vy) as Hy.
  destruct x as [sx|sx| |sx mx ex]; [| |by destruct Nx|].
  - split; [done|]. cbn [fmul SFmul fval]. lia.
  - split; [by destruct sx, sy|]. destruct sx, sy; cbn [fmul SFmul xorb fval] in *; lia.
  - pose proof (finite_below mx ex (proj1 Nx)) as Hx. unfold fmul. cbn [SFmul].
    destruct (round_aux_spec (xorb sx sy) (mx * my) (ex + ey) (product_aligned _ _ _ _ _ _ (proj1 Nx) Vy)) as (-> & HM & Hn).
    set (e := fexp32 _) in *. assert (-149 <= e) by (unfold e; rewrite fexp32_eq; lia). clearbody e. set (M := rne _ _) in *. clearbody M.
    split; [split; [by apply pack_valid | apply pack_not_nan]|].
    destruct (pack_sign (xorb sx sy) M e ltac:(lia)) as [S1 S2]. destruct sx, sy; cbn [xorb fval] in *;
      specialize (S1 ltac:(done)) || specialize (S2 ltac:(done)); split_and!; lia.
Qed.

(** ** Magnitudes *)

(** Finite, and at most [2 ^ k] in magnitude. *)
Definition bnd (k : Z) (x : f32) : Prop := finite x /\ Z.abs (fval x) <= 2 ^ (k + 149).

Lemma bnd_finite k x : bnd k x -> finite x.
Proof. by intros [? _]. Qed.

Lemma bnd_weaken j k x : -149 <= j <= k -> bnd j x -> bnd k x.
Proof. intros Hjk [? ?]. split; [done|]. pose proof (Z.pow_le_mono_r 2 (j + 149) (k + 149)). lia. Qed.

Lemma bnd_opp k x : bnd k x -> bnd k (fopp x).
Proof. intros [F B]. split; [by apply finite_opp|]. rewrite fval_opp. lia. Qed.

Lemma rnd_pow k : 0 <= k -> rnd (2 ^ k) = 2 ^ k.
Proof.
  intros Hk. pose proof (Z.pow_pos_nonneg 2 k). unfold rnd. destruct (Z.ltb_spec (2 ^ k) 0); [lia|].
  unfold rnd_pos. rewrite Z.log2_pow2 by lia. set (j := Z.max 0 (k - 23)).
  replace (2 ^ k) with (2 ^ (k - j) * 2 ^ j) at 1 by (rewrite <- Z.pow_add_r by lia; f_equal; lia).
  rewrite rne_exact, <- Z.pow_add_r by lia. f_equal. lia.
Qed.

Lemma bnd_add j k x y : -149 <= k <= 126 -> j <= k -> bnd j x -> bnd k y -> bnd (k + 1) (fadd x y).
Proof.
  intros Hk Hjk [Fx Bx] [Fy By]. destruct (fadd_finite x y Fx Fy) as [[V N] E].
  assert (2 ^ (j + 149) <= 2 ^ (k + 149)) by (apply Z.pow_le_mono_r; lia).
  assert (2 ^ (k + 1 + 149) = 2 * 2 ^ (k + 149)) as Ep by (rewrite <- Z.pow_succ_r by lia; f_equal; lia).
  pose proof (rnd_pow (k + 1 + 149) ltac:(lia)) as Hp.
  pose proof (rnd_mono (fval x + fval y) (2 ^ (k + 1 + 149)) ltac:(lia)).
  pose proof (rnd_mono (- 2 ^ (k + 1 + 149)) (fval x + fval y) ltac:(lia)). rewrite rnd_opp in *.
  assert (2 ^ (k + 1 + 149) < INF) by (apply Z.pow_lt_mono_r; lia).
  unfold bnd, finite. set (r := rnd (fval x + fval y)) in *. clearbody r. set (b := 2 ^ (k + 1 + 149)) in *. clearbody b. set (i := INF) in *.
  assert (fval (fadd x y) = r) as Er by (rewrite E; unfold sat; fold i; lia). clearbody i. split_and!; done || lia.
Qed.

Lemma bnd_sub j k x y : -149 <= k <= 126 -> j <= k -> bnd j x -> bnd k y -> bnd (k + 1) (fsub x y).
Proof. intros. rewrite fsub_add. by apply (bnd_add j k), bnd_opp. Qed.

Lemma pack_bnd s M e b : 0 <= M <= 2 ^ 24 -> -149 <= e -> (-149 < e -> 2 ^ 23 <= M) ->
  M * 2 ^ (e + 149) <= 2 ^ (b + 149) -> b <= 127 -> bnd b (pack s M e).
Proof.
  intros HM He Hn Hb Hb'. pose proof (pack_val M e HM He Hn) as Hv. pose proof (pack_valid s M e HM He Hn) as Hok.
  pose proof (pack_not_nan s M e) as Hnn. assert (2 ^ (b + 149) < INF) by (apply Z.pow_lt_mono_r; lia).
  assert (Z.abs (fval (pack s M e)) = M * 2 ^ (e + 149)) as Ea.
  { pose proof (Z.pow_nonneg 2 (e + 149) ltac:(lia)). assert (0 <= M * 2 ^ (e + 149)) by nia.
    destruct s; rewrite ?fval_neg, Hv; lia. }
  split; [|lia]. split_and!; [done | lia | lia | done].
Qed.

Lemma bnd_mul j k x y : -149 <= j -> -149 <= k -> -149 <= j + k <= 127 -> bnd j x -> bnd k y -> bnd (j + k) (fmul x y).
Proof.
  intros Hj Hk Hjk [Fx Bx] [Fy By]. assert (bnd (j + k) (S754_zero false)) as Z0.
  { split; [apply finite_zero|]. cbn [fval]. apply Z.pow_nonneg. lia. }
  assert (forall s, bnd (j + k) (S754_zero s)) as Zs by (intros []; [apply (bnd_opp _ (S754_zero false)), Z0 | done]).
  destruct Fx as (Vx & Lx & Nx), Fy as (Vy & Ly & Ny).
  destruct x as [sx|sx| |sx mx ex]; [|destruct sx; cbn [fval] in Lx; lia|done|];
    (destruct y as [sy|sy| |sy my ey]; [|destruct sy; cbn [fval] in Ly; lia|done|]); try apply Zs.
  unfold fmul. cbn [SFmul]. destruct (round_aux_spec (xorb sx sy) (mx * my) (ex + ey) (product_aligned _ _ _ _ _ _ Vx Vy)) as (-> & HM & Hn).
  pose proof (valid_finite _ _ _ Vx) as (Ex & _). pose proof (valid_finite _ _ _ Vy) as (Ey & _).
  pose proof (product_aligned _ _ _ _ _ _ Vx Vy) as Hal. rewrite fexp32_eq in *.
  set (D := Zpos (digits2_pos (mx * my)) + (ex + ey)) in *. set (e := Z.max (D - 24) (-149)) in *.
  assert (Zpos mx * 2 ^ (ex + 149) <= 2 ^ (j + 149)) as Px by (destruct sx; cbn [fval] in Bx; lia).
  assert (Zpos my * 2 ^ (ey + 149) <= 2 ^ (k + 149)) as Py by (destruct sy; cbn [fval] in By; lia).
  assert (Zpos (mx * my) * 2 ^ (ex + 149 + (ey + 149)) <= 2 ^ (j + 149 + (k + 149))) as Pxy.
  { rewrite (Z.pow_add_r 2 (ex + 149)), (Z.pow_add_r 2 (j + 149)), Pos2Z.inj_mul by lia.
    pose proof (Z.pow_pos_nonneg 2 (ex + 149)). pose proof (Z.pow_pos_nonneg 2 (ey + 149)).
    replace (Zpos mx * Zpos my * (2 ^ (ex + 149) * 2 ^ (ey + 149)))
      with (Zpos mx * 2 ^ (ex + 149) * (Zpos my * 2 ^ (ey + 149))) by lia.
    apply Z.mul_le_mono_nonneg; lia. }
  apply pack_bnd; [done | lia | done | | lia].
  assert (e <= j + k) as Hejk.
  { destruct (Z.le_gt_cases e (j + k)); [done|]. pose proof (digits_spec (mx * my)) as [D1 _]. exfalso.
    assert (2 ^ (Zpos (digits2_pos (mx * my)) - 1 + (ex + 149 + (ey + 149))) <= 2 ^ (j + 149 + (k + 149))) as Hle.
    { etransitivity; [|exact Pxy]. rewrite (Z.pow_add_r 2 (Zpos (digits2_pos (mx * my)) - 1)) by lia.
      apply Z.mul_le_mono_nonneg_r; [apply Z.pow_nonneg; lia | done]. }
    apply Z.pow_le_mono_r_iff in Hle; [|lia..]. lia. }
  replace (j + k + 149) with (j + k - e + (e + 149)) by lia. rewrite (Z.pow_add_r 2 (j + k - e)) by lia.
  apply Z.mul_le_mono_nonneg_r; [apply Z.pow_nonneg; lia|]. apply rne_upper; [lia|].
  rewrite <- Z.pow_add_r by lia. apply (Z.mul_le_mono_pos_r _ _ (2 ^ (ex + 149 + (ey + 149)))); [apply Z.pow_pos_nonneg; lia|].
  rewrite <- Z.pow_add_r by lia. etransitivity; [exact Pxy|]. apply Z.pow_le_mono_r; lia.
Qed.

(** Checking a constant. *)
Definition bndb (k : Z) (x : f32) : bool :=
  match x with
  | S754_zero _ => 0 <=? k + 149
  | S754_finite _ _ _ => valid x && (Z.abs (fval x) <=? 2 ^ (k + 149))
  | _ => false
  end.

Lemma bnd_check k x : bndb k x = true -> bnd k x.
Proof.
  destruct x as [s| | |s m e]; [|done..|]; unfold bndb.
  - intros Hk%Z.leb_le. split; [apply finite_zero|]. cbn [fval]. apply Z.pow_nonneg. lia.
  - rewrite andb_true_iff, Z.leb_le. intros [Hv Hb]. split; [by apply finite_fin | done].
Qed.

(** ** Conversion to an integer *)

Lemma trunc_val x : finite x -> trunc x = Some (Z.quot (fval x) (2 ^ 149)).
Proof.
  intros (V & B & N). destruct x as [s|[]| |s m e]; [done | cbn [fval] in B; lia.. | done |].
  pose proof (valid_finite _ _ _ V) as (He & _). unfold trunc.
  assert ((if 0 <=? e then Zpos m * 2 ^ e else Zpos m / 2 ^ (- e)) = Z.quot (Zpos m * 2 ^ (e + 149)) (2 ^ 149)) as ->.
  { pose proof (Z.pow_pos_nonneg 2 (e + 149) ltac:(lia) ltac:(lia)). rewrite Z.quot_div_nonneg by lia.
    destruct (Z.leb_spec 0 e).
    - rewrite Z.pow_add_r, Z.mul_assoc, Z.div_mul by lia. done.
    - replace (2 ^ 149) with (2 ^ (- e) * 2 ^ (e + 149)) by (rewrite <- Z.pow_add_r by lia; f_equal; lia).
      rewrite Z.div_mul_cancel_r; [done | apply Z.pow_nonzero; lia | lia]. }
  destruct s; cbn [fval]; by rewrite ?Z.quot_opp_l by lia.
Qed.

Lemma to_int_between lo hi a b x : num x -> finite a -> finite b -> fval a <= fval x <= fval b ->
  trunc a = Some lo -> trunc b = Some hi ->
  exists z, to_int lo hi x = Some z /\ lo <= z <= hi.
Proof.
  intros Nx Fa Fb Hx. rewrite !trunc_val by done. intros [= <-] [= <-].
  assert (finite x) as Fx.
  { destruct Nx, Fa as (_ & ? & _), Fb as (_ & ? & _). split_and!; done || lia. }
  pose proof (Z.quot_le_mono (fval a) (fval x) (2 ^ 149) eq_refl ltac:(lia)).
  pose proof (Z.quot_le_mono (fval x) (fval b) (2 ^ 149) eq_refl ltac:(lia)).
  exists (Z.quot (fval x) (2 ^ 149)). split; [|done]. unfold to_int. rewrite trunc_val by done.
  by rewrite !(proj2 (Z.leb_le _ _)) by done.
Qed.
