(* ===== verification/Ctl.v ===== *)
(** The control library (src/firmware/components/ps_ctl): the PI(D) controller (pid.c), the
    field-oriented control arithmetic (foc_math.c), the attitude filter (imu_mahony.c) and
    the three-phase output stage (foc_drv_mcpwm.c).

    Floats are those of [Float32]; every operation is rounded on its own (no contraction
    into fused operations).  The C library's [sinf] and [cosf], whose accuracy the language
    leaves open, are parameters. *)
From S2P Require Import Prelude Rtos Can Float32.
From Stdlib Require Import SpecFloat.

(** ** pid.c *)

Record ps_pid_t := { kp : f32; ki : f32; kd : f32; out_min : f32; out_max : f32;
                     integ : f32; prev_err : f32; primed : bool }.

Definition ps_pid_reset (p : ps_pid_t) : ps_pid_t :=
  {| p with integ := of_Z 0; prev_err := of_Z 0; primed := false |}.

Definition ps_pid_init (kp ki kd out_min out_max : f32) (p : ps_pid_t) : ps_pid_t :=
  ps_pid_reset {| kp := kp; ki := ki; kd := kd; out_min := out_min; out_max := out_max;
                  integ := integ p; prev_err := prev_err p; primed := primed p |}.

(** The unsaturated output, and the increment of the integral. *)
Definition pid_unsat (p : ps_pid_t) (err dt : f32) : f32 * f32 :=
  let d := if primed p && (of_Z 0 <? dt)%f32 then (kd p * (err - prev_err p) / dt)%f32 else of_Z 0 in
  let di := if (of_Z 0 <? dt)%f32 then (ki p * err * dt)%f32 else of_Z 0 in
  ((kp p * err + integ p + di + d)%f32, di).

Definition ps_pid_step (p : ps_pid_t) (err dt : f32) : ps_pid_t * f32 :=
  let '(unsat, di) := pid_unsat p err dt in
  let out := if (out_max p <? unsat)%f32 then out_max p
             else if (unsat <? out_min p)%f32 then out_min p else unsat in
  let windup := ((out_max p <? unsat)%f32 && (of_Z 0 <? err)%f32) ||
                ((unsat <? out_min p)%f32 && (err <? of_Z 0)%f32) in
  ({| p with prev_err := err; primed := true; integ := if windup then integ p else (integ p + di)%f32 |}, out).

(** ** foc_math.c *)

Definition PS_INV_SQRT3 : f32 := rlit 5773502691896258 10000000000000000.
Definition PS_SQRT3_2 : f32 := rlit 8660254037844386 10000000000000000.

Record ps_ab_t := { alpha : f32; beta : f32 }.
Record ps_dq_t := { dq_d : f32; dq_q : f32 }.

Definition ps_foc_clarke (ia ib : f32) : ps_ab_t :=
  {| alpha := ia; beta := ((ia + of_Z 2 * ib) * PS_INV_SQRT3)%f32 |}.

Definition clamp01 (d : f32) : f32 :=
  if (of_Z 1 <? d)%f32 then of_Z 1 else if (d <? of_Z 0)%f32 then of_Z 0 else d.

Definition ps_foc_svpwm (v_ab : ps_ab_t) (v_bus : f32) : list f32 :=
  if (v_bus <=? of_Z 0)%f32 then [flit 1 2; flit 1 2; flit 1 2] else
  let va := alpha v_ab in
  let vb := (fopp (flit 1 2) * alpha v_ab + PS_SQRT3_2 * beta v_ab)%f32 in
  let vc := (fopp (flit 1 2) * alpha v_ab - PS_SQRT3_2 * beta v_ab)%f32 in
  let vmax := if (vb <? va)%f32 then va else vb in
  let vmax := if (vmax <? vc)%f32 then vc else vmax in
  let vmin := if (va <? vb)%f32 then va else vb in
  let vmin := if (vc <? vmin)%f32 then vc else vmin in
  let vcom := (flit 1 2 * (vmax + vmin))%f32 in
  let inv_bus := (of_Z 1 / v_bus)%f32 in
  (fun v => clamp01 (flit 1 2 + (v - vcom) * inv_bus)%f32) <$> [va; vb; vc].

Record ps_foc_ctl_t := { pid_d : ps_pid_t; pid_q : ps_pid_t; v_limit : f32 }.

Definition ps_foc_ctl_init (c : ps_foc_ctl_t) (kp ki v_limit : f32) : ps_foc_ctl_t :=
  {| pid_d := ps_pid_init kp ki (of_Z 0) (fopp v_limit) v_limit (pid_d c);
     pid_q := ps_pid_init kp ki (of_Z 0) (fopp v_limit) v_limit (pid_q c); v_limit := v_limit |}.

Definition ps_foc_ctl_reset (c : ps_foc_ctl_t) : ps_foc_ctl_t :=
  {| c with pid_d := ps_pid_reset (pid_d c); pid_q := ps_pid_reset (pid_q c) |}.

Section Foc.
Context (sinf cosf : f32 -> f32).

Definition ps_foc_park (ab : ps_ab_t) (theta : f32) : ps_dq_t :=
  let c := cosf theta in let s := sinf theta in
  {| dq_d := (alpha ab * c + beta ab * s)%f32; dq_q := (fopp (alpha ab) * s + beta ab * c)%f32 |}.

Definition ps_foc_inv_park (dq : ps_dq_t) (theta : f32) : ps_ab_t :=
  let c := cosf theta in let s := sinf theta in
  {| alpha := (dq_d dq * c - dq_q dq * s)%f32; beta := (dq_d dq * s + dq_q dq * c)%f32 |}.

Definition ps_foc_ctl_step (c : ps_foc_ctl_t) (ia ib theta id_target iq_target v_bus dt : f32) : ps_foc_ctl_t * list f32 :=
  let i_ab := ps_foc_clarke ia ib in
  let i_dq := ps_foc_park i_ab theta in
  let '(pd, vd) := ps_pid_step (pid_d c) (id_target - dq_d i_dq)%f32 dt in
  let '(pq, vq) := ps_pid_step (pid_q c) (iq_target - dq_q i_dq)%f32 dt in
  let v_ab := ps_foc_inv_park {| dq_d := vd; dq_q := vq |} theta in
  ({| c with pid_d := pd; pid_q := pq |}, ps_foc_svpwm v_ab v_bus).

End Foc.

(** ** imu_mahony.c *)

Record ps_mahony_t := { q0 : f32; q1 : f32; q2 : f32; q3 : f32; two_kp : f32; two_ki : f32;
                        integ_x : f32; integ_y : f32; integ_z : f32 }.

Definition ps_mahony_init (kp ki : f32) : ps_mahony_t :=
  {| q0 := of_Z 1; q1 := of_Z 0; q2 := of_Z 0; q3 := of_Z 0; two_kp := (of_Z 2 * kp)%f32; two_ki := (of_Z 2 * ki)%f32;
     integ_x := of_Z 0; integ_y := of_Z 0; integ_z := of_Z 0 |}.

Definition EPS : f32 := rlit 1 1000000000000.

(** The correction by the accelerometer: the filter and the corrected rates. *)
Definition mahony_correct (m : ps_mahony_t) (gx gy gz ax ay az dt : f32) : ps_mahony_t * (f32 * f32 * f32) :=
  let norm_sq := (ax * ax + ay * ay + az * az)%f32 in
  if (EPS <? norm_sq)%f32 then
    let recip := (of_Z 1 / sqrtf norm_sq)%f32 in
    let ax := (ax * recip)%f32 in let ay := (ay * recip)%f32 in let az := (az * recip)%f32 in
    let halfvx := (q1 m * q3 m - q0 m * q2 m)%f32 in
    let halfvy := (q0 m * q1 m + q2 m * q3 m)%f32 in
    let halfvz := (q0 m * q0 m - flit 1 2 + q3 m * q3 m)%f32 in
    let halfex := (ay * halfvz - az * halfvy)%f32 in
    let halfey := (az * halfvx - ax * halfvz)%f32 in
    let halfez := (ax * halfvy - ay * halfvx)%f32 in
    let '(m, (gx, gy, gz)) :=
      if (of_Z 0 <? two_ki m)%f32 then
        let m := {| m with integ_x := (integ_x m + two_ki m * halfex * dt)%f32;
                           integ_y := (integ_y m + two_ki m * halfey * dt)%f32;
                           integ_z := (integ_z m + two_ki m * halfez * dt)%f32 |} in
        (m, ((gx + integ_x m)%f32, (gy + integ_y m)%f32, (gz + integ_z m)%f32))
      else ({| m with integ_x := of_Z 0; integ_y := of_Z 0; integ_z := of_Z 0 |}, (gx, gy, gz)) in
    (m, ((gx + two_kp m * halfex)%f32, (gy + two_kp m * halfey)%f32, (gz + two_kp m * halfez)%f32))
  else (m, (gx, gy, gz)).

(** Normalisation, with the identity where there is nothing to normalise. *)
Definition mahony_normalise (m : ps_mahony_t) : ps_mahony_t :=
  let n := sqrtf (q0 m * q0 m + q1 m * q1 m + q2 m * q2 m + q3 m * q3 m)%f32 in
  if (EPS <? n)%f32 then
    let recip := (of_Z 1 / n)%f32 in
    {| m with q0 := (q0 m * recip)%f32; q1 := (q1 m * recip)%f32; q2 := (q2 m * recip)%f32; q3 := (q3 m * recip)%f32 |}
  else {| m with q0 := of_Z 1; q1 := of_Z 0; q2 := of_Z 0; q3 := of_Z 0 |}.

Definition ps_mahony_update (m : ps_mahony_t) (gx gy gz ax ay az dt : f32) : ps_mahony_t :=
  let '(m, (gx, gy, gz)) := mahony_correct m gx gy gz ax ay az dt in
  let h := (flit 1 2 * dt)%f32 in
  let gx := (gx * h)%f32 in let gy := (gy * h)%f32 in let gz := (gz * h)%f32 in
  let qa := q0 m in let qb := q1 m in let qc := q2 m in let qd := q3 m in
  mahony_normalise
    {| m with q0 := (q0 m + (fopp qb * gx - qc * gy - qd * gz))%f32;
              q1 := (q1 m + (qa * gx + qc * gz - qd * gy))%f32;
              q2 := (q2 m + (qa * gy - qb * gz + qd * gx))%f32;
              q3 := (q3 m + (qa * gz + qb * gy - qc * gx))%f32 |}.

Definition ps_mahony_get_quat (m : ps_mahony_t) : list f32 := [q0 m; q1 m; q2 m; q3 m].

(** One component in Q15; [None] where the conversion to [int16_t] is undefined. *)
Definition q15 (x : f32) : option Z :=
  let v := (x * of_Z 32767)%f32 in
  let v := (if of_Z 0 <=? v then v + flit 1 2 else v - flit 1 2)%f32 in
  let v := if (of_Z 32767 <? v)%f32 then of_Z 32767 else if (v <? of_Z (-32768))%f32 then of_Z (-32768) else v in
  to_i16 v.

Definition ps_mahony_get_quat_q15 (undef : f32 -> Z) (m : ps_mahony_t) : list Z :=
  (fun x => default (undef x) (q15 x)) <$> [q0 m; q1 m; q2 m; q3 m].

(** ** foc_drv_mcpwm.c *)

Definition FOCDRV_RESOLUTION_HZ : Z := 10000000.
Definition FOCDRV_DEFAULT_HZ : Z := 20000.

Definition FOCDRV_DEFAULT_DT_NS : Z := 200.

(** [gpios]: the six pins, high and low side of each phase in turn. *)
Record ps_focdrv_config_t := { group_id : Z; gpios : list Z; pwm_hz : Z; deadtime_ns : Z }.

(** The arguments of the driver's calls: what a generator does at a compare event, and how
    the dead-time module makes an output of a generator's signal. *)
Inductive mcpwm_timer_direction_t := MCPWM_TIMER_DIRECTION_UP | MCPWM_TIMER_DIRECTION_DOWN.
Inductive mcpwm_generator_action_t := MCPWM_GEN_ACTION_LOW | MCPWM_GEN_ACTION_HIGH.
Record mcpwm_dead_time_config_t := { posedge_delay_ticks : Z; negedge_delay_ticks : Z; invert_output : bool }.
Inductive side := HighSide | LowSide.
#[export] Instance side_eq_dec : EqDecision side.
Proof. solve_decision. Defined.

(** The wiring of one phase: the actions of its generators, and for each output the
    generator it is derived from with its dead time, once set. *)
Record phase := {
  actions : side -> list (mcpwm_timer_direction_t * mcpwm_generator_action_t);
  output : side -> option (side * mcpwm_dead_time_config_t) }.
Definition unwired : phase := {| actions := fun _ => []; output := fun _ => None |}.

(** One output stage: the compare value of each phase, the level forced on its high and
    low side generators ([None]: not forced, the generator follows the comparator), the
    half period, the wiring of the phases and whether the timer runs. *)
Record ps_focdrv_ctx := { cmpr : list Z; gen_high : list (option bool); gen_low : list (option bool);
                          period_ticks : Z; phases : list phase; timer_runs : bool }.

(** The calls of the driver that make a stage, for phase [i] where they are for one. *)
Inductive drv_call :=
  | mcpwm_new_timer (group period : Z)
  | mcpwm_new_operator (group : Z) (i : nat)
  | mcpwm_operator_connect_timer (i : nat)
  | mcpwm_new_comparator (i : nat)
  | mcpwm_comparator_set_compare_value (i : nat) (v : Z)
  | mcpwm_new_generator (i : nat) (s : side) (gpio : Z)
  | mcpwm_generator_set_actions_on_compare_event (i : nat) (s : side) (l : list (mcpwm_timer_direction_t * mcpwm_generator_action_t))
  | mcpwm_generator_set_dead_time (i : nat) (from to : side) (d : mcpwm_dead_time_config_t)
  | mcpwm_timer_enable
  | mcpwm_timer_start_stop.

Definition set_side {A} (f : side -> A) (s : side) (x : A) : side -> A := fun s' => if decide (s' = s) then x else f s'.

(** What a call that succeeded leaves. *)
Definition drv_apply (h : ps_focdrv_ctx) (c : drv_call) : ps_focdrv_ctx :=
  match c with
  | mcpwm_comparator_set_compare_value i v => {| h with cmpr := <[i := v]> (cmpr h) |}
  | mcpwm_generator_set_actions_on_compare_event i s l =>
    {| h with phases := alter (fun p => {| actions := set_side (actions p) s l; output := output p |}) i (phases h) |}
  | mcpwm_generator_set_dead_time i from to d =>
    {| h with phases := alter (fun p => {| actions := actions p; output := set_side (output p) to (Some (from, d)) |}) i (phases h) |}
  | mcpwm_timer_start_stop => {| h with timer_runs := true |}
  | _ => h
  end.

Definition drv_force (h : ps_focdrv_ctx) (i : nat) (hi lo : option bool) : ps_focdrv_ctx :=
  {| h with gen_high := <[i := hi]> (gen_high h); gen_low := <[i := lo]> (gen_low h) |}.

Section Drv.
(** [undef]: conversions to [uint32_t] out of range; [cmp_err]: what
    [mcpwm_comparator_set_compare_value] answers for each phase. *)
Context (undef : f32 -> Z) (cmp_err : nat -> esp_err_t).

Definition duty_ticks (period : Z) (d : f32) : Z :=
  let d := if (d <? of_Z 0)%f32 then of_Z 0 else if (of_Z 1 <? d)%f32 then of_Z 1 else d in
  let x := (d * of_Z period)%f32 in
  let ticks := u32 (default (undef x) (to_int 0 4294967295 x)) in
  if period <? ticks then period else ticks.

(** The loop over the phases, from phase [i]; it stops at the first error. *)
Fixpoint set_duty_loop (h : ps_focdrv_ctx) (i : nat) (duty : list f32) : ps_focdrv_ctx * esp_err_t :=
  match duty with
  | [] => (h, ESP_OK)
  | d :: duty =>
    if is_ok (cmp_err i) then
      set_duty_loop (drv_force {| h with cmpr := <[i := duty_ticks (period_ticks h) d]> (cmpr h) |} i None None) (S i) duty
    else (h, cmp_err i)
  end.

Definition ps_focdrv_set_duty (h : option ps_focdrv_ctx) (duty : option (list f32)) : option ps_focdrv_ctx * esp_err_t :=
  match h, duty with
  | Some h, Some duty => let '(h, err) := set_duty_loop h 0 duty in (Some h, err)
  | _, _ => (h, ESP_ERR_INVALID_ARG)
  end.

Definition ps_focdrv_disable (h : option ps_focdrv_ctx) : option ps_focdrv_ctx * esp_err_t :=
  match h with
  | Some h => (Some (foldl (fun h i => drv_force h i (Some false) (Some false)) h (seq 0 3)), ESP_OK)
  | None => (None, ESP_ERR_INVALID_ARG)
  end.

Definition ps_focdrv_brake (h : option ps_focdrv_ctx) : option ps_focdrv_ctx * esp_err_t :=
  match h with
  | Some h => (Some (foldl (fun h i => drv_force h i (Some false) (Some true)) h (seq 0 3)), ESP_OK)
  | None => (None, ESP_ERR_INVALID_ARG)
  end.

(** The body of the loop over the phases. *)
Definition phase_calls (group : Z) (pins : list Z) (period dt : Z) (i : nat) : list drv_call :=
  [ mcpwm_new_operator group i; mcpwm_operator_connect_timer i; mcpwm_new_comparator i;
    mcpwm_comparator_set_compare_value i (period / 2);
    mcpwm_new_generator i HighSide (pins !!! (2 * i)%nat); mcpwm_new_generator i LowSide (pins !!! (2 * i + 1)%nat);
    mcpwm_generator_set_actions_on_compare_event i HighSide
      [(MCPWM_TIMER_DIRECTION_UP, MCPWM_GEN_ACTION_LOW); (MCPWM_TIMER_DIRECTION_DOWN, MCPWM_GEN_ACTION_HIGH)];
    mcpwm_generator_set_dead_time i HighSide HighSide
      {| posedge_delay_ticks := dt; negedge_delay_ticks := 0; invert_output := false |};
    mcpwm_generator_set_dead_time i HighSide LowSide
      {| posedge_delay_ticks := 0; negedge_delay_ticks := dt; invert_output := true |} ].

Definition init_calls (cfg : ps_focdrv_config_t) (period dt : Z) : list drv_call :=
  mcpwm_new_timer (group_id cfg) period :: flat_map (phase_calls (group_id cfg) (gpios cfg) period dt) (seq 0 3) ++
  [mcpwm_timer_enable; mcpwm_timer_start_stop].

Definition drv_blank (period : Z) : ps_focdrv_ctx :=
  {| cmpr := replicate 3 0; gen_high := replicate 3 None; gen_low := replicate 3 None; period_ticks := period;
     phases := replicate 3 unwired; timer_runs := false |}.

(** The dead time in ticks of 100 ns, at least one. *)
Definition dead_ticks (cfg : ps_focdrv_config_t) : Z :=
  let ns := if deadtime_ns cfg =? 0 then FOCDRV_DEFAULT_DT_NS else deadtime_ns cfg in
  let dt := u32 (FOCDRV_RESOLUTION_HZ / 1000000 * ns) / 1000 in
  if dt =? 0 then 1 else dt.

(** [drv]: the driver's answers.  The calls are made in order up to the first that fails;
    when all have succeeded, the timer already running, the stage is disabled.  [None]
    where the division by [2u * pwm_hz], wrapped to zero, is undefined. *)
Definition ps_focdrv_init (cfg : option ps_focdrv_config_t) (alloc : bool) (drv : drv_call -> esp_err_t) :
    option (option ps_focdrv_ctx * esp_err_t) :=
  match cfg with
  | None => Some (None, ESP_ERR_INVALID_ARG)
  | Some cfg =>
    if negb alloc then Some (None, ESP_ERR_NO_MEM) else
    let hz := if pwm_hz cfg =? 0 then FOCDRV_DEFAULT_HZ else pwm_hz cfg in
    if u32 (2 * hz) =? 0 then None else
    let period := FOCDRV_RESOLUTION_HZ / u32 (2 * hz) in
    let calls := init_calls cfg period (dead_ticks cfg) in
    match list_find (fun c => is_ok (drv c) = false) calls with
    | Some (_, c) => Some (None, drv c)
    | None => Some ((ps_focdrv_disable (Some (foldl drv_apply (drv_blank period) calls))).1, ESP_OK)
    end
  end.

End Drv.
