(* ===== verification/CtlSpec.v ===== *)
(** What the control library guarantees: bounded outputs and a bounded integral of the PI
    controller, duties within the unit interval, an output stage whose two switches of a
    phase are never on within the dead time of each other, attitude samples that fit their
    type. *)
From S2P Require Import Prelude Rtos Can Float32 FloatVal Ctl.
From Stdlib Require Import SpecFloat.

(** ** Sums that are numbers *)

Lemma fadd_num x y : num x -> finite y -> num (fadd x y).
Proof.
  intros Nx Fy. destruct (num_cases x Nx) as [->|[->|Fx]]; [by rewrite fadd_inf_l..|]. by apply fadd_finite.
Qed.

Lemma fadd_same_side x y : num x -> num y -> (- INF < fval x /\ - INF < fval y) \/ (fval x < INF /\ fval y < INF) ->
  num (fadd x y).
Proof.
  intros Nx Ny Hs. destruct (num_cases y Ny) as [->|[->|Fy]]; [| |by apply fadd_num].
  - destruct (num_cases x Nx) as [->|[->|Fx]]; [done | cbn [fval] in Hs; lia | by rewrite fadd_inf_r].
  - destruct (num_cases x Nx) as [->|[->|Fx]]; [cbn [fval] in Hs; lia | done | by rewrite fadd_inf_r].
Qed.

Lemma num_zero x : num x -> fval x = 0 -> exists s, x = S754_zero s.
Proof.
  assert (0 < INF) by reflexivity. intros [V N] H0. destruct x as [s|[]| |s m e]; [by eauto|cbn [fval] in H0; lia..|done|].
  pose proof (finite_below m e V). destruct s; cbn [fval] in H0; lia.
Qed.

Lemma fadd_zero x s : num x -> num (fadd x (S754_zero s)) /\ fval (fadd x (S754_zero s)) = fval x.
Proof.
  intros Nx. split; [by apply fadd_num; [|apply finite_zero]|]. destruct (num_cases x Nx) as [->|[->|Fx]]; [done..|].
  destruct (fadd_finite x (S754_zero s) Fx (finite_zero s)) as [_ ->]. cbn [fval]. rewrite Z.add_0_r. by apply sat_fval.
Qed.

Lemma between_finite x lo hi : num x -> finite lo -> finite hi -> fval lo <= fval x <= fval hi -> finite x.
Proof. intros [] (_ & ? & _) (_ & ? & _) ?. split_and!; [done | lia | lia | done]. Qed.

(** ** The PI controller *)

(** Errors of a size whose difference cannot overflow: at most 2^126. *)
Notation small := (bnd 126).

(** A PI controller: no derivative gain, gains that are not negative, an output range
    around zero, and an integral inside that range. *)
Record pi_ok (p : ps_pid_t) : Prop := {
  po_kp : finite (kp p) /\ 0 <= fval (kp p);
  po_ki : finite (ki p) /\ 0 <= fval (ki p);
  po_kd : num (kd p) /\ fval (kd p) = 0;
  po_min : finite (out_min p) /\ fval (out_min p) <= 0;
  po_max : finite (out_max p) /\ 0 <= fval (out_max p);
  po_prev : small (prev_err p);
  po_integ : finite (integ p) /\ fval (out_min p) <= fval (integ p) <= fval (out_max p) }.

Lemma pid_d_zero p err dt : pi_ok p -> small err -> finite dt -> 0 < fval dt ->
  exists s, (if primed p && (of_Z 0 <? dt)%f32 then (kd p * (err - prev_err p) / dt)%f32 else of_Z 0) = S754_zero s.
Proof.
  intros Hp He Fd Hd. destruct (_ && _); [|by exists false].
  pose proof (bnd_finite _ _ (bnd_sub 126 126 err (prev_err p) ltac:(lia) ltac:(lia) He (po_prev p Hp))) as Fs. destruct (po_kd p Hp) as [Nk Zk].
  destruct (num_zero _ Nk Zk) as [sk Ek]. rewrite Ek.
  destruct (fmul_num (S754_zero sk) _ (finite_num _ (finite_zero sk)) Fs (or_introl (finite_zero sk))) as [Nm (_ & _ & _ & Zm)].
  destruct (num_zero _ Nm (Zm eq_refl)) as [sm ->]. destruct Fd as (_ & B & N).
  destruct dt as [|[]| |]; cbn [fval] in *; try lia; try done. by eexists.
Qed.

(** The terms of a step: the output before saturation, and the bounds of the new integral. *)
Lemma pid_terms p err dt : pi_ok p -> small err -> finite dt -> 0 < fval dt ->
  let '(u, di) := pid_unsat p err dt in
  num u /\ num (fadd (integ p) di) /\
  (0 <= fval err -> fval (integ p) <= fval (fadd (integ p) di) <= fval u) /\
  (fval err <= 0 -> fval u <= fval (fadd (integ p) di) <= fval (integ p)).
Proof.
  intros Hp He Fd Hd. destruct (pid_d_zero p err dt Hp He Fd Hd) as [sd Ed]. unfold pid_unsat. rewrite Ed. clear Ed.
  assert (fltb (of_Z 0) dt = true) as ->.
  { rewrite fltb_val by (done || by apply finite_num). by apply Z.ltb_lt. }
  destruct Hp as [[Fkp Pkp] [Fki Pki] _ _ _ _ [Fi Bi]]. destruct He as [Fe _].
  destruct (fmul_num (kp p) err (finite_num _ Fkp) Fe (or_introl Fkp)) as [Na (Sa1 & Sa2 & _)].
  destruct (fmul_num (ki p) err (finite_num _ Fki) Fe (or_introl Fki)) as [Ne (Se1 & Se2 & _)].
  destruct (fmul_num (fmul (ki p) err) dt Ne Fd ltac:(right; lia)) as [Ndi (Sd1 & _ & Sd3 & _)].
  set (a := fmul (kp p) err) in *. set (di := fmul (fmul (ki p) err) dt) in *. clearbody a di.
  pose proof (fadd_num a (integ p) Na Fi) as Nb. pose proof Fi as (_ & Bf & _).
  assert (num (fadd (integ p) di)) as Ni by (rewrite fadd_comm; by apply fadd_num).
  assert (num (fadd (fadd a (integ p)) di) /\
    (0 <= fval err -> fval (integ p) <= fval (fadd (integ p) di) <= fval (fadd (fadd a (integ p)) di)) /\
    (fval err <= 0 -> fval (fadd (fadd a (integ p)) di) <= fval (fadd (integ p) di) <= fval (integ p))) as (Nc & Hpos & Hneg).
  { assert (0 <= fval err -> num (fadd (fadd a (integ p)) di)) as Np.
    { intros Hs. pose proof (fadd_above a (integ p) Na Fi (Sa1 Pkp Hs)). apply fadd_same_side; [done..|]. left.
      specialize (Sd1 (Se1 Pki Hs)). lia. }
    assert (fval err <= 0 -> num (fadd (fadd a (integ p)) di)) as Nn.
    { intros Hs. pose proof (fadd_below a (integ p) Na Fi (Sa2 Pkp Hs)). apply fadd_same_side; [done..|]. right.
      specialize (Sd3 (Se2 Pki Hs)). lia. }
    split; [destruct (Z.le_ge_cases 0 (fval err)); auto|]. split; intros Hs.
    - rewrite (fadd_comm (integ p) di). split; [apply fadd_above; auto; lia|]. rewrite (fadd_comm di).
      apply fadd_mono; [by apply finite_num | done | done | apply fadd_above; auto | apply Ni | by apply Np].
    - rewrite (fadd_comm (integ p) di). split; [|apply fadd_below; auto; lia]. rewrite (fadd_comm di).
      apply fadd_mono; [done | by apply finite_num | done | apply fadd_below; auto | by apply Nn | apply Ni]. }
  destruct (fadd_zero (fadd (fadd a (integ p)) di) sd Nc) as [Nu Eu]. rewrite Eu. done.
Qed.

Definition in_range (lo hi x : f32) : Prop := (lo <=? x)%f32 = true /\ (x <=? hi)%f32 = true.

Lemma in_range_val lo hi x : num lo -> num hi -> num x -> in_range lo hi x <-> fval lo <= fval x <= fval hi.
Proof. intros. unfold in_range. rewrite !fleb_val by done. rewrite !Z.leb_le. done. Qed.

(** Clamping: above, below or between, whatever the argument if it is a number. *)
Lemma clamp_range lo hi x : num lo -> num hi -> num x -> fval lo <= fval hi ->
  let y := if (hi <? x)%f32 then hi else if (x <? lo)%f32 then lo else x in num y /\ fval lo <= fval y <= fval hi.
Proof.
  intros Nl Nh Nx Hle. cbv zeta. rewrite !fltb_val by done.
  destruct (Z.ltb_spec (fval hi) (fval x)); [split; [done|lia]|].
  destruct (Z.ltb_spec (fval x) (fval lo)); split; done || lia.
Qed.

Lemma pi_step p err dt : pi_ok p -> small err -> finite dt -> 0 < fval dt ->
  pi_ok (ps_pid_step p err dt).1 /\ num (ps_pid_step p err dt).2 /\
  fval (out_min p) <= fval (ps_pid_step p err dt).2 <= fval (out_max p).
Proof.
  intros Hp He Fd Hd. pose proof (pid_terms p err dt Hp He Fd Hd) as Ht. unfold ps_pid_step.
  destruct (pid_unsat p err dt) as [u di]. destruct Ht as (Nu & Ni & Hpos & Hneg).
  destruct Hp as [H1 H2 H3 [Fmin Pmin] [Fmax Pmax] H6 [Fi Bi]]. cbn [fst snd].
  destruct (clamp_range (out_min p) (out_max p) u) as [No Ro]; [by apply finite_num.. | done | lia|].
  split; [|by split]. pose proof He as [Fe _]. split; cbn; try done; [by split..|].
  rewrite !fltb_val by (done || by apply finite_num). change (fval (S754_zero false)) with 0.
  assert (forall x, num x -> fval (out_min p) <= fval x <= fval (out_max p) ->
    finite x /\ fval (out_min p) <= fval x <= fval (out_max p)) as Hfin.
  { intros x Nx Hx. split; [|done]. by apply (between_finite x (out_min p) (out_max p)). }
  destruct (Z.ltb_spec (fval (out_max p)) (fval u)), (Z.ltb_spec 0 (fval err)), (Z.ltb_spec (fval u) (fval (out_min p))),
    (Z.ltb_spec (fval err) 0); cbn [orb andb]; try (by split); apply Hfin; try done; lia.
Qed.

(** A controller just initialised or reset. *)
Lemma pi_ok_init kp ki lo hi p : finite kp /\ 0 <= fval kp -> finite ki /\ 0 <= fval ki ->
  finite lo /\ fval lo <= 0 -> finite hi /\ 0 <= fval hi -> pi_ok (ps_pid_init kp ki (of_Z 0) lo hi p).
Proof.
  intros Hp Hi Hl Hh. split; cbn [ps_pid_init ps_pid_reset Ctl.kp Ctl.ki Ctl.kd out_min out_max prev_err integ];
    try done; try by apply bnd_check. split; [apply finite_zero|]. change (fval (of_Z 0)) with 0. lia.
Qed.

Lemma pi_ok_reset p : pi_ok p -> pi_ok (ps_pid_reset p).
Proof.
  intros [H1 H2 H3 H4 H5 H6 H7]. split; try done; try by apply bnd_check. split; [apply finite_zero|].
  change (fval (integ (ps_pid_reset p))) with 0. cbn [ps_pid_reset out_min out_max]. lia.
Qed.

Fixpoint pid_run (p : ps_pid_t) (es : list (f32 * f32)) : ps_pid_t * list f32 :=
  match es with
  | [] => (p, [])
  | (err, dt) :: es => let '(p, o) := ps_pid_step p err dt in let '(p, os) := pid_run p es in (p, o :: os)
  end.

Lemma step_limits p err dt : out_min (ps_pid_step p err dt).1 = out_min p /\ out_max (ps_pid_step p err dt).1 = out_max p.
Proof. unfold ps_pid_step. by destruct (pid_unsat p err dt). Qed.

Lemma fmul_nan_r x : fmul x S754_nan = S754_nan.
Proof. by destruct x. Qed.
Lemma fadd_nan_r x : fadd x S754_nan = S754_nan.
Proof. by destruct x. Qed.
Lemma fsub_nan_r x : fsub x S754_nan = S754_nan.
Proof. by destruct x. Qed.

(** Once the integral is NaN, it stays so, and so does every output. *)
Lemma nan_step p err dt : integ p = S754_nan \/ err = S754_nan /\ (of_Z 0 <? dt)%f32 = true ->
  integ (ps_pid_step p err dt).1 = S754_nan /\ (ps_pid_step p err dt).2 = S754_nan.
Proof.
  intros Hn. unfold ps_pid_step, pid_unsat. cbv zeta. set (d := if _ && _ then _ else _). set (di := if fltb _ _ then _ else _).
  assert (integ p = S754_nan \/ err = S754_nan /\ di = S754_nan) as Hi.
  { destruct Hn as [|[-> Hd]]; [by left|right]. split; [done|]. subst di. by rewrite Hd, fmul_nan_r. }
  clearbody d di. clear Hn.
  assert (fadd (fadd (fadd (fmul (kp p) err) (integ p)) di) d = S754_nan) as ->.
  { destruct Hi as [->|[-> ->]]; rewrite ?fmul_nan_r, ?fadd_nan_r; done. }
  rewrite fltb_nan_r, fltb_nan_l. cbn [andb orb fst snd integ]. split; [|done].
  destruct Hi as [->|[_ ->]]; [done|]. apply fadd_nan_r.
Qed.

Lemma nan_run es : forall p, integ p = S754_nan -> let '(p', outs) := pid_run p es in integ p' = S754_nan /\ Forall (eq S754_nan) outs.
Proof.
  induction es as [|[err dt] es IH]; intros p Hp; cbn [pid_run]; [by split|].
  destruct (nan_step p err dt (or_introl Hp)) as [H1 H2]. destruct (ps_pid_step p err dt) as [p1 o]. cbn [fst snd] in *.
  specialize (IH p1 H1). destruct (pid_run p1 es) as [p2 os]. destruct IH. split; [done|]. by constructor.
Qed.

(** C28: A PI controller stays within its limits: from any state with its integral in the output
    range, through any sequence of errors of magnitude up to 2^126 and positive time steps,
    every output and the integral itself lie in the output range.  In particular no NaN and
    no overflow arises, and the integral cannot wind up however long the output saturates:
    the bound holds exactly, rounding included.  (The gains are finite and not negative, the
    limits finite, the time steps finite.)  The bound on the errors is needed: after one
    error that is NaN (at a positive time step) every output is NaN, for good, since the integral stays NaN. *)
Theorem pid_bounded p es : pi_ok p -> Forall (fun '(err, dt) => small err /\ finite dt /\ 0 < fval dt) es ->
  let '(p', outs) := pid_run p es in
  pi_ok p' /\ Forall (in_range (out_min p) (out_max p)) outs /\ in_range (out_min p) (out_max p) (integ p') /\
  forall dt es', (of_Z 0 <? dt)%f32 = true -> let '(p'', outs') := pid_run p' ((S754_nan, dt) :: es') in integ p'' = S754_nan /\ Forall (eq S754_nan) outs'.
Proof.
  intros Hp Hes. enough (let '(p', outs) := pid_run p es in
    pi_ok p' /\ Forall (in_range (out_min p) (out_max p)) outs /\ in_range (out_min p) (out_max p) (integ p')) as Hb.
  { destruct (pid_run p es) as [p' outs]. destruct Hb as (H1 & H2 & H3). split_and!; [done..|]. intros dt es' Hdt. cbn [pid_run].
    destruct (nan_step p' S754_nan dt (or_intror (conj eq_refl Hdt))) as [N1 N2]. destruct (ps_pid_step p' S754_nan dt) as [p1 o]. cbn [fst snd] in *.
    pose proof (nan_run es' p1 N1) as Hr. destruct (pid_run p1 es') as [p2 os]. destruct Hr. split; [done|]. by constructor. }
  revert p Hp. induction Hes as [|[err dt] es (He & Fd & Hd) _ IH]; intros p Hp.
  - cbn [pid_run]. split_and!; [done..|]. destruct Hp as [_ _ _ [Fmin _] [Fmax _] _ [Fi Bi]].
    by apply in_range_val; [apply finite_num..|].
  - cbn [pid_run]. pose proof (pi_step p err dt Hp He Fd Hd) as (Hp' & No & Ro).
    pose proof (step_limits p err dt) as [E1 E2]. destruct (ps_pid_step p err dt) as [p1 o]. cbn [fst snd] in *.
    specialize (IH p1 Hp'). destruct (pid_run p1 es) as [p2 os]. rewrite E1, E2 in IH. destruct IH as (A & B & C).
    split_and!; [done | constructor; [|done] | done]. destruct Hp as [_ _ _ [Fmin _] [Fmax _] _ _].
    by apply in_range_val; [apply finite_num..| |].
Qed.

(** ** Modulation and the current loop *)

Lemma clamp01_range d : num d -> in_range (of_Z 0) (of_Z 1) (clamp01 d).
Proof.
  intros Nd. unfold clamp01.
  destruct (clamp_range (of_Z 0) (of_Z 1) d) as [Ny Ry]; [done..|vm_compute; congruence|]. by apply in_range_val.
Qed.

Lemma bnd_choose (b : bool) k x y : bnd k x -> bnd k y -> bnd k (if b then x else y).
Proof. by destruct b. Qed.

(** A bus voltage that can be divided by: its inverse is at most 2^20. *)
Definition bus_ok (v_bus : f32) : Prop := (v_bus <=? of_Z 0)%f32 = false /\ bnd 20 (of_Z 1 / v_bus)%f32.

(** For voltages up to 2^100 every duty is a number in the unit interval. *)
Lemma svpwm_range v v_bus : bnd 100 (alpha v) -> bnd 100 (beta v) -> bus_ok v_bus ->
  length (ps_foc_svpwm v v_bus) = 3%nat /\ Forall (in_range (of_Z 0) (of_Z 1)) (ps_foc_svpwm v v_bus).
Proof.
  intros Ha Hb [E Hi]. unfold ps_foc_svpwm. rewrite E. cbv zeta. set (inv := fdiv _ _) in *. clearbody inv.
  pose proof (bnd_mul 0 100 (fopp (flit 1 2)) (alpha v) ltac:(lia) ltac:(lia) ltac:(lia) (bnd_check 0 (fopp (flit 1 2)) eq_refl) Ha) as Pa.
  pose proof (bnd_mul 0 100 PS_SQRT3_2 (beta v) ltac:(lia) ltac:(lia) ltac:(lia) (bnd_check 0 PS_SQRT3_2 eq_refl) Hb) as Pb.
  pose proof (bnd_add 100 100 _ _ ltac:(lia) ltac:(lia) Pa Pb) as Vb. pose proof (bnd_sub 100 100 _ _ ltac:(lia) ltac:(lia) Pa Pb) as Vc.
  pose proof (bnd_weaken 100 101 _ ltac:(lia) Ha) as Va. change (100 + 1) with 101 in *.
  set (va := alpha v) in *.
  set (vb := fadd (fmul (fopp (flit 1 2)) va) (fmul PS_SQRT3_2 (beta v))) in *.
  set (vc := fsub (fmul (fopp (flit 1 2)) va) (fmul PS_SQRT3_2 (beta v))) in *. clearbody va vb vc. clear Pa Pb.
  set (vmax := if fltb (if fltb vb va then va else vb) vc then _ else _).
  set (vmin := if fltb vc (if fltb va vb then va else vb) then _ else _).
  assert (bnd 101 vmax) as Bx by (unfold vmax; by repeat apply bnd_choose).
  assert (bnd 101 vmin) as Bn by (unfold vmin; by repeat apply bnd_choose). clearbody vmax vmin.
  pose proof (bnd_add 101 101 _ _ ltac:(lia) ltac:(lia) Bx Bn) as Bs.
  pose proof (bnd_mul 0 102 (flit 1 2) _ ltac:(lia) ltac:(lia) ltac:(lia) (bnd_check 0 (flit 1 2) eq_refl) Bs) as Bc.
  set (vcom := fmul (flit 1 2) (fadd vmax vmin)) in *. clearbody vcom.
  assert (forall w, bnd 101 w -> in_range (of_Z 0) (of_Z 1) (clamp01 (flit 1 2 + (w - vcom) * inv)%f32)) as Hw.
  { intros w Hw. apply clamp01_range. pose proof (bnd_sub 101 102 w vcom ltac:(lia) ltac:(lia) Hw Bc) as B1.
    pose proof (bnd_mul 103 20 _ inv ltac:(lia) ltac:(lia) ltac:(lia) B1 Hi) as B2.
    eapply finite_num, bnd_finite, (bnd_add 0 123); [lia | lia | by apply bnd_check | exact B2]. }
  split; [done|]. repeat constructor; by apply Hw.
Qed.

Section FocSpec.
Context (sinf cosf : f32 -> f32).
(** Documented of [sinf] and [cosf]: results between -1 and 1 for finite arguments. *)
Context (sin_ok : forall x, finite x -> bnd 0 (sinf x)) (cos_ok : forall x, finite x -> bnd 0 (cosf x)).

Lemma park_bnd k ab theta : -140 <= k <= 125 -> bnd k (alpha ab) -> bnd k (beta ab) -> finite theta ->
  bnd (k + 1) (dq_d (ps_foc_park sinf cosf ab theta)) /\ bnd (k + 1) (dq_q (ps_foc_park sinf cosf ab theta)).
Proof.
  intros Hk Ha Hb Ht. pose proof (sin_ok _ Ht) as Hs. pose proof (cos_ok _ Ht) as Hc.
  assert (forall x y, bnd k x -> bnd 0 y -> bnd k (fmul x y)) as Hm
    by (intros; replace k with (k + 0) by lia; apply bnd_mul; done || lia).
  split; apply (bnd_add k k); try lia; apply Hm; done || by apply bnd_opp.
Qed.

Lemma inv_park_bnd k dq theta : -140 <= k <= 125 -> bnd k (dq_d dq) -> bnd k (dq_q dq) -> finite theta ->
  bnd (k + 1) (alpha (ps_foc_inv_park sinf cosf dq theta)) /\ bnd (k + 1) (beta (ps_foc_inv_park sinf cosf dq theta)).
Proof.
  intros Hk Ha Hb Ht. pose proof (sin_ok _ Ht) as Hs. pose proof (cos_ok _ Ht) as Hc.
  assert (forall x y, bnd k x -> bnd 0 y -> bnd k (fmul x y)) as Hm
    by (intros; replace k with (k + 0) by lia; apply bnd_mul; done || lia).
  split; [apply (bnd_sub k k) | apply (bnd_add k k)]; try lia; by apply Hm.
Qed.

Lemma clarke_bnd ia ib : bnd 40 ia -> bnd 40 ib -> bnd 42 (alpha (ps_foc_clarke ia ib)) /\ bnd 42 (beta (ps_foc_clarke ia ib)).
Proof.
  intros Ha Hb. split; [by apply (bnd_weaken 40)|]. cbn [beta ps_foc_clarke].
  apply (bnd_mul 42 0); [lia..| |by apply bnd_check]. apply (bnd_add 40 41); [lia..|done|].
  by apply (bnd_mul 1 40); [lia..|apply bnd_check|].
Qed.

(** A current controller as [ps_foc_ctl_init] makes it, its limits at most 2^90 volts. *)
Definition ctl_ok (c : ps_foc_ctl_t) : Prop :=
  pi_ok (pid_d c) /\ pi_ok (pid_q c) /\
  bnd 90 (out_min (pid_d c)) /\ bnd 90 (out_max (pid_d c)) /\ bnd 90 (out_min (pid_q c)) /\ bnd 90 (out_max (pid_q c)).

Lemma between_bnd k lo hi x : num x -> bnd k lo -> bnd k hi -> fval lo <= fval x <= fval hi -> bnd k x.
Proof. intros Nx [Fl Bl] [Fh Bh] Hx. split; [by apply (between_finite x lo hi)|]. lia. Qed.

(** C29: The current loop never puts out a NaN: for measured currents and current targets up to
    2^40 A, a finite electrical angle and a positive time step, the step yields three
    duties between 0 and 1, and a controller in order again, whatever the measurements
    were in the steps before. *)
Theorem foc_step_sound c ia ib theta idt iqt v_bus dt : ctl_ok c -> bnd 40 ia -> bnd 40 ib -> finite theta ->
  bnd 40 idt -> bnd 40 iqt -> bus_ok v_bus -> finite dt -> 0 < fval dt ->
  let '(c', duty) := ps_foc_ctl_step sinf cosf c ia ib theta idt iqt v_bus dt in
  ctl_ok c' /\ length duty = 3%nat /\ Forall (in_range (of_Z 0) (of_Z 1)) duty.
Proof.
  intros (Hd & Hq & B1 & B2 & B3 & B4) Ha Hb Ht Hi Hj Hbus Fd Pd. unfold ps_foc_ctl_step.
  destruct (clarke_bnd ia ib Ha Hb) as [Ca Cb]. destruct (park_bnd 42 _ theta ltac:(lia) Ca Cb Ht) as [Pd' Pq'].
  set (dq := ps_foc_park _ _ _ _) in *. clearbody dq.
  assert (forall t m, bnd 40 t -> bnd (42 + 1) m -> small (fsub t m)) as Hs.
  { intros t m B B'. apply (bnd_weaken 44); [lia|]. apply (bnd_sub 40 43); lia || done. }
  pose proof (pi_step (pid_d c) _ dt Hd (Hs _ _ Hi Pd') Fd Pd) as (Hd' & Nd & Rd).
  pose proof (pi_step (pid_q c) _ dt Hq (Hs _ _ Hj Pq') Fd Pd) as (Hq' & Nq & Rq).
  pose proof (step_limits (pid_d c) (fsub idt (dq_d dq)) dt) as [Ed1 Ed2].
  pose proof (step_limits (pid_q c) (fsub iqt (dq_q dq)) dt) as [Eq1 Eq2].
  destruct (ps_pid_step (pid_d c) _ dt) as [pd vd]. destruct (ps_pid_step (pid_q c) _ dt) as [pq vq]. cbn [fst snd] in *.
  pose proof (between_bnd 90 _ _ vd Nd B1 B2 Rd) as Bd. pose proof (between_bnd 90 _ _ vq Nq B3 B4 Rq) as Bq.
  destruct (inv_park_bnd 90 {| dq_d := vd; dq_q := vq |} theta ltac:(lia) Bd Bq Ht) as [Va Vb].
  split; [unfold ctl_ok; cbn [pid_d pid_q]; rewrite Ed1, Ed2, Eq1, Eq2; done|].
  apply svpwm_range; [by apply (bnd_weaken 91); [lia|]..|done].
Qed.

End FocSpec.

(** ** Attitude samples *)

(** A component of the attitude that is a number, infinities included, is packed without
    an undefined conversion; the filter starts at the identity rotation. *)
Lemma q15_defined x : num x -> exists z, q15 x = Some z /\ -32768 <= z <= 32767.
Proof.
  intros Nx. unfold q15. cbv zeta.
  destruct (fmul_num x (of_Z 32767) Nx) as [Nv _]; [by eapply bnd_finite, (bnd_check 20) | by right |].
  set (v := fmul x _) in *. clearbody v.
  assert (num (if fleb (of_Z 0) v then fadd v (flit 1 2) else fsub v (flit 1 2))) as Nw.
  { rewrite fsub_add. destruct (fleb _ _); (apply fadd_num; [done | by eapply bnd_finite, (bnd_check 20)]). }
  set (w := if fleb _ v then _ else _) in *. clearbody w.
  destruct (clamp_range (of_Z (-32768)) (of_Z 32767) w) as [Ny Ry]; [done | done | done | vm_compute; congruence|].
  apply (to_int_between (-32768) 32767 (of_Z (-32768)) (of_Z 32767)); try done; by eapply bnd_finite, (bnd_check 20).
Qed.

(** ** The output stage *)

Inductive drv_op :=
  | SetDuty (duty : list f32) (errs : nat -> esp_err_t)
  | Disable
  | Brake.

Definition drv_step (undef : f32 -> Z) (h : option ps_focdrv_ctx) (op : drv_op) : option ps_focdrv_ctx :=
  match op with
  | SetDuty duty errs => (ps_focdrv_set_duty undef errs h (Some duty)).1
  | Disable => (ps_focdrv_disable h).1
  | Brake => (ps_focdrv_brake h).1
  end.

(** No phase has its high side forced on; compare values lie in the period. *)
Definition drv_ok (h : ps_focdrv_ctx) : Prop :=
  length (cmpr h) = 3%nat /\ length (gen_high h) = 3%nat /\ length (gen_low h) = 3%nat /\ 0 <= period_ticks h /\
  Forall (fun l => l <> Some true) (gen_high h) /\ Forall (fun c => 0 <= c <= period_ticks h) (cmpr h).

Lemma duty_ticks_range undef period d : 0 <= period -> 0 <= duty_ticks undef period d <= period.
Proof.
  intros Hp. unfold duty_ticks. cbv zeta. set (z := default _ _). clearbody z. pose proof (u32_range z) as Hu.
  destruct (Z.ltb_spec period (u32 z)); clia.
Qed.

Lemma drv_force_ok h i hi lo : drv_ok h -> hi <> Some true -> drv_ok (drv_force h i hi lo).
Proof.
  intros (A & B & C & D & E & F) Hh. unfold drv_ok, drv_force. cbn. rewrite !length_insert.
  split_and!; try done. by apply Forall_insert.
Qed.

Lemma set_duty_ok undef errs h i duty : drv_ok h -> drv_ok (set_duty_loop undef errs h i duty).1.
Proof.
  revert h i. induction duty as [|d duty IH]; intros h i Hh; [done|]. cbn [set_duty_loop].
  destruct (is_ok (errs i)); [|done]. apply IH, drv_force_ok; [|done].
  destruct Hh as (A & B & C & D & E & F). unfold drv_ok. cbn. rewrite length_insert. split_and!; try done.
  apply Forall_insert; [done|]. by apply duty_ticks_range.
Qed.

Lemma drv_step_ok undef h op : drv_ok h -> exists h', drv_step undef (Some h) op = Some h' /\ drv_ok h'.
Proof.
  intros Hh. destruct op as [duty errs| |]; cbn [drv_step ps_focdrv_set_duty ps_focdrv_disable ps_focdrv_brake].
  - pose proof (set_duty_ok undef errs h 0 duty Hh). destruct (set_duty_loop undef errs h 0 duty) as [h' e]. by exists h'.
  - eexists. split; [done|]. cbn [foldl seq]. repeat (apply drv_force_ok; [|done]). done.
  - eexists. split; [done|]. cbn [foldl seq]. repeat (apply drv_force_ok; [|done]). done.
Qed.

Definition drv_run (undef : f32 -> Z) (h : option ps_focdrv_ctx) (ops : list drv_op) : option ps_focdrv_ctx :=
  foldl (drv_step undef) h ops.

Lemma drv_run_ok undef h ops : drv_ok h -> exists h', drv_run undef (Some h) ops = Some h' /\ drv_ok h'.
Proof.
  revert h. induction ops as [|op ops IH]; intros h Hh; [by exists h|]. cbn [drv_run foldl].
  destruct (drv_step_ok undef h op Hh) as (h1 & -> & H1). by apply IH.
Qed.

(** Case analysis on a stage whose lists have three elements. *)
Ltac lists3 h :=
  destruct h as [cs hs ls p d]; cbn in *;
  destruct hs as [|? [|? [|? []]]]; try discriminate; destruct ls as [|? [|? [|? []]]]; try discriminate; done.

(** The driver calls after start-up do not touch the wiring. *)
Lemma set_duty_wiring undef errs h i duty : phases (set_duty_loop undef errs h i duty).1 = phases h.
Proof. revert h i. induction duty as [|d duty IH]; intros h i; [done|]. cbn [set_duty_loop]. destruct (is_ok (errs i)); [|done]. by rewrite IH. Qed.

Lemma drv_run_wiring undef ops : forall h h', drv_run undef (Some h) ops = Some h' -> phases h' = phases h.
Proof.
  induction ops as [|op ops IH]; intros h h'; [by intros [= <-]|]. cbn [drv_run foldl].
  destruct op as [duty errs| |]; cbn [drv_step ps_focdrv_set_duty ps_focdrv_disable ps_focdrv_brake fst]; [|intros E; by apply IH in E..].
  pose proof (set_duty_wiring undef errs h 0 duty) as Hw. destruct (set_duty_loop undef errs h 0 duty) as [h1 e]. cbn [fst] in *.
  intros E. apply IH in E. congruence.
Qed.

(** The dead-time module, as documented: [dt_shape d g] is the output made of the signal [g]
    (tick by tick) under the configuration [d].  A rising edge is passed on after the
    positive delay, so an output that is not inverted is high only once the signal has been
    high that long; a falling edge is passed on after the negative delay, so an inverted
    output is high only once the signal has been low that long. *)
Class McpwmDeadTime := {
  dt_shape : mcpwm_dead_time_config_t -> (Z -> bool) -> Z -> bool;
  dt_rises_late d g t u : invert_output d = false -> negedge_delay_ticks d = 0 -> dt_shape d g t = true ->
    t - posedge_delay_ticks d <= u <= t -> g u = true;
  dt_falls_late d g t u : invert_output d = true -> posedge_delay_ticks d = 0 -> dt_shape d g t = true ->
    t - negedge_delay_ticks d <= u <= t -> g u = false;
}.

(** A delay line has these properties. *)
#[export] Program Instance delay_line : McpwmDeadTime := {|
  dt_shape d g t :=
    let rise t := forallb (fun k => g (t - k)) (seqZ 0 (posedge_delay_ticks d + 1)) in
    let fall t := existsb (fun k => rise (t - k)) (seqZ 0 (negedge_delay_ticks d + 1)) in
    xorb (invert_output d) (fall t) |}.
Next Obligation.
  cbn beta zeta. intros d g t u -> ->. change (seqZ 0 (0 + 1)) with [0]. cbn [existsb xorb]. rewrite orb_false_r.
  intros Hr Hu. rewrite forallb_forall in Hr. specialize (Hr (t - u)). replace (t - 0 - (t - u)) with u in Hr by lia.
  apply Hr, list_elem_of_In, elem_of_seqZ. lia.
Qed.
Next Obligation.
  cbn beta zeta. intros d g t u -> ->. change (seqZ 0 (0 + 1)) with [0]. cbn [xorb]. intros Hr%negb_true_iff Hu.
  destruct (g u) eqn:Eg; [|done]. assert (existsb (fun k => forallb (fun k0 => g (t - k - k0)) [0]) (seqZ 0 (negedge_delay_ticks d + 1)) = true) as Hx; [|congruence].
  apply existsb_exists. exists (t - u). split; [apply list_elem_of_In, elem_of_seqZ; lia|]. cbn. replace (t - (t - u) - 0) with u by lia. by rewrite Eg.
Qed.

Lemma dead_ticks_range cfg : 0 <= deadtime_ns cfg < 429496729 ->
  1 <= dead_ticks cfg /\ deadtime_ns cfg < (dead_ticks cfg + 1) * 100.
Proof.
  intros Hn. unfold dead_ticks, FOCDRV_DEFAULT_DT_NS, FOCDRV_RESOLUTION_HZ. change (10000000 / 1000000) with 10. cbv zeta.
  destruct (Z.eqb_spec (deadtime_ns cfg) 0) as [->|Hne]; [by vm_compute|].
  replace (u32 (10 * deadtime_ns cfg)) with (10 * deadtime_ns cfg) by clia.
  pose proof (Z.div_mod (10 * deadtime_ns cfg) 1000 ltac:(lia)). pose proof (Z.mod_pos_bound (10 * deadtime_ns cfg) 1000 ltac:(lia)).
  destruct (Z.eqb_spec (10 * deadtime_ns cfg / 1000) 0); lia.
Qed.

(** The level of the pin of one side of a phase, given the signals its two generators feed
    into the dead-time module. *)
Definition pin `{McpwmDeadTime} (p : phase) (s : side) (gh gl : Z -> bool) (t : Z) : bool :=
  match output p s with
  | Some (from, d) => dt_shape d (match from with HighSide => gh | LowSide => gl end) t
  | None => (match s with HighSide => gh | LowSide => gl end) t
  end.

Section Built.
Context (cfg : ps_focdrv_config_t) (period dt : Z).
Let built := foldl (fun h i => drv_force h i (Some false) (Some false)) (foldl drv_apply (drv_blank period) (init_calls cfg period dt)) (seq 0 3).

Lemma built_ok : 0 <= period -> drv_ok built.
Proof.
  intros Hp. assert (0 <= period / 2 <= period).
  { split; [apply Z.div_pos; lia | apply Z.div_le_upper_bound; lia]. }
  unfold built. cbn [foldl seq]. repeat (apply drv_force_ok; [|done]).
  unfold drv_ok. cbn. split_and!; try done; repeat constructor; done || lia.
Qed.

(** The two pins of a phase are never on within the dead time of each other. *)
Lemma built_phase `{McpwmDeadTime} i p gh gl t t' : 0 <= dt -> phases built !! i = Some p ->
  pin p HighSide gh gl t = true -> pin p LowSide gh gl t' = true -> dt < Z.abs (t - t').
Proof.
  intros Hd Hp. assert (output p HighSide = Some (HighSide, {| posedge_delay_ticks := dt; negedge_delay_ticks := 0; invert_output := false |}) /\
    output p LowSide = Some (HighSide, {| posedge_delay_ticks := 0; negedge_delay_ticks := dt; invert_output := true |})) as [Eh El].
  { unfold built in Hp. destruct i as [|[|[|i]]]; [injection Hp as <-; by split..|done]. }
  unfold pin. rewrite Eh, El. intros H1 H2. destruct (Z.lt_ge_cases dt (Z.abs (t - t'))) as [|Hle]; [done|].
  assert (gh (Z.min t t') = true) as G1 by (refine (dt_rises_late _ gh t _ _ _ H1 _); [done|done|cbn; lia]).
  assert (gh (Z.min t t') = false) as G2 by (refine (dt_falls_late _ gh t' _ _ _ H2 _); [done|done|cbn; lia]).
  congruence.
Qed.
End Built.



(** A signal of [gen_high] held at 0 leaves the high side off but the low side on.  So what a
    disable does to the pins depends on where the forced level acts, on the generator or
    behind the dead-time module, which is the hardware's. *)
Example held_low_side :
  match ps_focdrv_init (Some {| group_id := 0; gpios := [1; 2; 3; 4; 5; 6]; pwm_hz := 0; deadtime_ns := 0 |}) true (fun _ => ESP_OK) with
  | Some (Some h0, _) => (fun p => (pin p HighSide (fun _ => false) (fun _ => false) 0, pin p LowSide (fun _ => false) (fun _ => false) 0)) <$> phases h0 =
      replicate 3 (false, true)
  | _ => False
  end.
Proof. vm_compute. reflexivity. Qed.

(** ** Witnesses *)

Definition zero_pid : ps_pid_t :=
  {| kp := of_Z 0; ki := of_Z 0; kd := of_Z 0; out_min := of_Z 0; out_max := of_Z 0; integ := of_Z 0;
     prev_err := of_Z 0; primed := false |}.

(** The gains and limits of a current loop of the limb boards. *)
Definition demo_pid : ps_pid_t := ps_pid_init (of_Z 4) (of_Z 800) (of_Z 0) (of_Z (-12)) (of_Z 12) zero_pid.

Lemma demo_pid_ok : pi_ok demo_pid.
Proof. apply pi_ok_init; (split; [by eapply bnd_finite, (bnd_check 20) | vm_compute; congruence]). Qed.

Definition demo_errors : list (f32 * f32) := replicate 3 (of_Z 7, flit 1 1000).

Lemma pid_bounded_witness :
  let '(p', outs) := pid_run demo_pid demo_errors in
  pi_ok p' /\ Forall (in_range (of_Z (-12)) (of_Z 12)) outs /\ in_range (of_Z (-12)) (of_Z 12) (integ p').
Proof.
  pose proof (pid_bounded demo_pid demo_errors demo_pid_ok) as H. destruct (pid_run demo_pid demo_errors) as [p' outs].
  destruct H as (H1 & H2 & H3 & _); [|exact (conj H1 (conj H2 H3))]. apply Forall_replicate.
  split_and!; [by apply bnd_check | by eapply bnd_finite, (bnd_check 20) | reflexivity].
Defined.

Definition demo_ctl : ps_foc_ctl_t := {| pid_d := demo_pid; pid_q := demo_pid; v_limit := of_Z 12 |}.

Lemma demo_ctl_ok : ctl_ok demo_ctl.
Proof. split_and!; try apply demo_pid_ok; by apply bnd_check. Qed.

Lemma foc_step_sound_witness :
  let '(c', duty) := ps_foc_ctl_step (fun _ => of_Z 0) (fun _ => of_Z 1) demo_ctl (of_Z 1) (of_Z 2) (of_Z 0) (of_Z 0) (of_Z 3)
                       (of_Z 24) (flit 1 1000) in
  ctl_ok c' /\ length duty = 3%nat /\ Forall (in_range (of_Z 0) (of_Z 1)) duty.
Proof.
  apply (foc_step_sound (fun _ => of_Z 0) (fun _ => of_Z 1)); try (intros; by apply bnd_check).
  - apply demo_ctl_ok.
  - apply finite_zero.
  - split; [reflexivity | by apply bnd_check].
  - by eapply bnd_finite, (bnd_check 20).
  - reflexivity.
Defined.
