(* ===== verification/Imu.v ===== *)
(** The driver of the inertial sensor, which the limb and the flight nodes each carry
    (src/firmware/apps/node_limb/main/imu_mpu6050.c and its twin under node_flight; the
    twins differ in the ranges they select), and the saturating conversion both nodes apply
    to its samples.  The answers of the I2C bus are arguments. *)
From S2P Require Import Prelude Rtos Float32.
From Stdlib Require Import SpecFloat.

(** [gyr_per_lsb] is in rad/s on the limbs and in degrees per second on the flight node. *)
Record imu_mpu6050_t := { gyr_per_lsb : f32; acc_g_per_lsb : f32 }.

(** The bus calls of the initialisation in order: the device, then the five registers. *)
Definition imu_init (gyr acc : f32) (imu : imu_mpu6050_t) (calls : list esp_err_t) : imu_mpu6050_t * esp_err_t :=
  match list_find (fun e => is_ok e = false) calls with
  | Some (_, err) => (imu, err)
  | None => ({| gyr_per_lsb := gyr; acc_g_per_lsb := acc |}, ESP_OK)
  end.

Definition DEG_TO_RAD : f32 := rlit 17453293 1000000000.

Definition limb_imu_init : imu_mpu6050_t -> list esp_err_t -> imu_mpu6050_t * esp_err_t :=
  imu_init (DEG_TO_RAD / flit 164 10)%f32 (of_Z 1 / of_Z 2048)%f32.

Definition flight_imu_init : imu_mpu6050_t -> list esp_err_t -> imu_mpu6050_t * esp_err_t :=
  imu_init (of_Z 1 / flit 328 10)%f32 (of_Z 1 / of_Z 4096)%f32.

(** A big-endian pair of the register block. *)
Definition be16 (raw : list Z) (i : nat) : Z := i16 (Z.lor (Z.shiftl (raw !!! i) 8) (raw !!! S i)).

(** [raw]: the fourteen bytes, or [None] where the bus fails.  Acceleration and rates. *)
Definition imu_mpu6050_read (imu : imu_mpu6050_t) (raw : option (list Z)) : option (list f32 * list f32) :=
  match raw with
  | None => None
  | Some raw =>
    Some ((fun i => (of_Z (be16 raw (2 * i)) * acc_g_per_lsb imu)%f32) <$> seq 0 3,
          (fun i => (of_Z (be16 raw (8 + 2 * i)) * gyr_per_lsb imu)%f32) <$> seq 0 3)
  end.

Definition flight_imu_read : imu_mpu6050_t -> option (list Z) -> option (list f32 * list f32) := imu_mpu6050_read.

(** [undef]: the conversion of a NaN. *)
Definition sat_i16 (undef : f32 -> Z) (v : f32) : Z :=
  if (v <=? of_Z (-32768))%f32 then -32768 else if (of_Z 32767 <=? v)%f32 then 32767
  else i16 (default (undef v) (to_i16 v)).
