(* ===== verification/Bms.v ===== *)
(** The hub's battery management (src/firmware/apps/node_chest_hub/main/bms_task.c and the
    board file board_hub.h): sampling, debounced trips, the short-circuit observer, the
    interlocked re-arm and the reports.

    The task shares the CAN handles, the bridge and the mirror of the suit state with the
    gateway, so its state stands beside that of [Gateway].  The clock is read once per
    turn.  [logf] of the C library, and the value an out-of-range conversion from float
    leaves (undefined in C), are parameters. *)
From S2P Require Import Prelude CanId Wire Rtos Txq Can Safety SpiFrame SpiBridge Router Gateway Float32.

(** The escalation families. *)
Definition FAM_OV : nat := 0.
Definition FAM_UV : nat := 1.
Definition FAM_OT : nat := 2.
Definition FAM_UT : nat := 3.
Definition FAM_OCD : nat := 4.
Definition FAM_OCC : nat := 5.
Definition FAM_COUNT : nat := 6.

Definition BMS_FAULT_CODE (fam : nat) : Z := u8 (0xB0 + Z.of_nat fam).

Definition HUB_ADC1_CH_PACK_V : Z := 0.
Definition HUB_ADC1_CH_CURRENT : Z := 1.
Definition HUB_ADC1_CH_CELL_BASE : Z := 2.
Definition HUB_ADC1_CH_NTC0 : Z := 6.
Definition HUB_ADC1_CH_NTC1 : Z := 7.
Definition HUB_ADC2_CH_NTC2 : Z := 0.
Definition HUB_ADC2_CH_NTC3 : Z := 1.

Definition HUB_BMS_CELL_COUNT : Z := 12.
Definition HUB_BMS_CELL_GROUPS : Z := 4.
Definition HUB_BMS_NTC_COUNT : Z := 4.
Definition HUB_BMS_SCAN_SLOTS : Z := 16.

Definition HUB_ADC_FS_MV : f32 := of_Z 3300.
Definition HUB_ADC_MAX_RAW : f32 := of_Z 4095.
Definition HUB_PACK_DIV : f32 := of_Z 21.
Definition HUB_CURR_OFFSET_MV : f32 := of_Z 1650.
Definition HUB_CURR_MV_PER_A : f32 := of_Z 5.
Definition HUB_CELL_DIV : f32 := of_Z 2.
Definition HUB_NTC_PULLUP_OHM : f32 := of_Z 10000.
Definition HUB_NTC_R25_OHM : f32 := of_Z 10000.
Definition HUB_NTC_BETA : f32 := of_Z 3435.

Record hub_bms_thresholds_t := {
  cell_ov_mv : Z; cell_ov_warn_mv : Z; cell_uv_mv : Z; cell_uv_warn_mv : Z;
  ot_cC : Z; ot_warn_cC : Z; ut_cC : Z; ut_warn_cC : Z;
  oc_dis_cA : Z; oc_dis_warn_cA : Z; oc_chg_cA : Z; oc_chg_warn_cA : Z;
  debounce_ms : Z }.

Definition HUB_BMS_THRESHOLDS_DEFAULT : hub_bms_thresholds_t :=
  {| cell_ov_mv := 4250; cell_ov_warn_mv := 4150; cell_uv_mv := 2800; cell_uv_warn_mv := 2950;
     ot_cC := 6000; ot_warn_cC := 5500; ut_cC := -1000; ut_warn_cC := -500;
     oc_dis_cA := 12000; oc_dis_warn_cA := 10000; oc_chg_cA := 2000; oc_chg_warn_cA := 1800;
     debounce_ms := 50 |}.

Definition s_th : hub_bms_thresholds_t := HUB_BMS_THRESHOLDS_DEFAULT.

(** The file-static state.  [notified] is the task's notification value, [mux_sel] the
    level of the two select lines, [strobes] the number of re-arm strobes given. *)
Record bms := {
  s_trip_cycles : Z; s_trip_flag : bool; s_rearm_requested : bool;
  s_cell_mv : list Z; s_ntc_cC : list Z; s_pack_cV : Z; s_curr_cA : Z;
  s_fault_bits : Z; s_short_latched : bool; s_full_scan_done : bool; s_tick : Z;
  s_deb : list Z; s_tripped : list bool; s_warn_last_ms : list Z;
  s_safety_low : Z; s_estop_seq : Z; s_summary_seq : Z; s_cells_seq : Z; s_stats_seq : Z;
  s_cells_group : Z; s_prev_can : list ps_can_stats_t; s_prev_spib : ps_spib_stats_t;
  notified : bool; mux_sel : Z; strobes : nat }.

(** What the task reads of the hardware in one turn: [adc unit channel] is the raw sample
    or a failed read, [comp_status] and [kill_fb] are input pins. *)
Record bms_env := { adc : Z -> Z -> option Z; comp_status : bool; kill_fb : bool; clock : Z }.

(** [bms_sc_latch_isr]; [cycles] is the cycle counter. *)
Definition bms_sc_latch_isr (b : bms) (cycles : Z) : bms :=
  {| b with s_trip_cycles := cycles; s_trip_flag := true; notified := true |}.

Definition hub_bms_notify_clear_accepted (b : bms) : bms := {| b with s_rearm_requested := true |}.

(** ** Sampling *)

Section Sampling.
Context (logf : f32 -> f32) (undef : f32 -> Z).

Definition adc_mv (e : bms_env) (unit chan : Z) : f32 :=
  match adc e unit chan with
  | None => fopp (of_Z 1)
  | Some raw => (of_Z raw * (HUB_ADC_FS_MV / HUB_ADC_MAX_RAW))%f32
  end.

(** A conversion whose value is [undef x] where C leaves it open. *)
Definition cast (conv : f32 -> option Z) (x : f32) : Z := default (undef x) (conv x).

Definition bms_sample_fast (b : bms) (e : bms_env) : bms :=
  let mv := adc_mv e 1 HUB_ADC1_CH_PACK_V in
  let b := if (of_Z 0 <=? mv)%f32
           then {| b with s_pack_cV := cast to_u16 (mv * HUB_PACK_DIV / of_Z 10)%f32 |} else b in
  let mv := adc_mv e 1 HUB_ADC1_CH_CURRENT in
  if (of_Z 0 <=? mv)%f32
  then {| b with s_curr_cA := cast to_i16 ((mv - HUB_CURR_OFFSET_MV) / HUB_CURR_MV_PER_A * of_Z 100)%f32 |}
  else b.

Definition ntc_map (n : Z) : Z * Z :=
  if n =? 0 then (1, HUB_ADC1_CH_NTC0) else if n =? 1 then (1, HUB_ADC1_CH_NTC1)
  else if n =? 2 then (2, HUB_ADC2_CH_NTC2) else (2, HUB_ADC2_CH_NTC3).

Definition ntc_cC (mv : f32) : f32 :=
  let r := (mv * HUB_NTC_PULLUP_OHM / (HUB_ADC_FS_MV - mv))%f32 in
  let inv_t := (of_Z 1 / flit 29815 100 + logf (r / HUB_NTC_R25_OHM) / HUB_NTC_BETA)%f32 in
  ((of_Z 1 / inv_t - flit 27315 100) * of_Z 100)%f32.

Definition sample_slot (b : bms) (e : bms_env) (slot : Z) : bms :=
  if slot <? HUB_BMS_CELL_COUNT then
    let mv := adc_mv e 1 (HUB_ADC1_CH_CELL_BASE + (slot .& 3)) in
    if (of_Z 0 <=? mv)%f32
    then {| b with s_cell_mv := <[Z.to_nat slot := cast to_u16 (mv * HUB_CELL_DIV)%f32]> (s_cell_mv b) |}
    else b
  else
    let n := slot - HUB_BMS_CELL_COUNT in
    let '(unit, ch) := ntc_map n in
    let mv := adc_mv e unit ch in
    if (of_Z 1 <? mv)%f32 && (mv <? HUB_ADC_FS_MV - of_Z 1)%f32
    then {| b with s_ntc_cC := <[Z.to_nat n := cast to_i16 (ntc_cC mv)]> (s_ntc_cC b) |}
    else b.

Definition preselect (b : bms) : bms :=
  let next := u32 (s_tick b + 1) mod HUB_BMS_SCAN_SLOTS in
  if next <? HUB_BMS_CELL_COUNT then
    let sel := next .>> 2 in
    {| b with mux_sel := (sel .& 1) + 2 * ((sel .>> 1) .& 1) |}
  else b.

Definition bms_slow_slot (b : bms) (e : bms_env) : bms :=
  let b := sample_slot b e (s_tick b mod HUB_BMS_SCAN_SLOTS) in
  let b := preselect b in
  if 2 * HUB_BMS_SCAN_SLOTS <=? s_tick b then {| b with s_full_scan_done := true |} else b.

End Sampling.

Section Bms.
Context `{RtosQueue} `{TwaiDlc} (logf : f32 -> f32) (undef : f32 -> Z).

(** The hub: gateway and battery management. *)
Record hub := { gway : gw; pack : bms }.

(** ** Emitting *)

Definition bms_push_record (h : hub) (id : Z) (payload : list Z) (dlc now : Z) : hub :=
  let rec := {| r_id := id; r_bus := PS_SPI_BUS_HUB_LOCAL; r_dlc := dlc; r_ts_ms := u16 now;
                r_data := bput 0 payload (replicate 8 0) |} in
  {| h with gway := {| (gway h) with bridge := (ps_spib_uplink_push (bridge (gway h)) (Some rec)).1 |} |}.

Definition bms_can_send (h : hub) (p : Z) (f : ps_can_frame_t) : hub * list action :=
  let k := Z.to_nat p in
  let '(c, err) := ps_can_send (s_can (gway h) !!! k) (Some f) in
  ({| h with gway := {| (gway h) with s_can := <[k := c]> (s_can (gway h)) |} |}, [ASend p f (is_ok err)]).

(** The loop that repeats a frame on both buses. *)
Fixpoint send_both (repeat : nat) (h : hub) (f : ps_can_frame_t) : hub * list action :=
  match repeat with
  | O => (h, [])
  | S repeat =>
    let '(h, a1) := bms_can_send h PS_PORT_CAN1 f in
    let '(h, a2) := bms_can_send h PS_PORT_CAN2 f in
    let '(h, a3) := send_both repeat h f in (h, a1 ++ a2 ++ a3)
  end.

Definition bms_send_safety_both (h : hub) (type : Z) (payload : list Z) (dlc : Z) (repeat : nat) (now : Z)
    : hub * list action :=
  let b := pack h in
  let f := {| f_id := ps_can_id_pack PS_CLS_SAFETY PS_NODE_HUB PS_NODE_BROADCAST type (s_safety_low b);
              f_dlc := dlc; f_data := bput 0 payload (replicate 8 0) |} in
  let h := {| h with pack := {| b with s_safety_low := u8 (s_safety_low b + 1) |} |} in
  let '(h, acts) := send_both repeat h f in
  (bms_push_record h (f_id f) payload dlc now, acts).

Definition bms_estop_payload (b : bms) (cause now : Z) : ps_estop_t :=
  {| es_cause := cause; es_origin_node := PS_NODE_HUB; es_seq := s_estop_seq b; es_uptime_ms := now |}.

Definition bms_raise_estop (h : hub) (cause now : Z) : hub * list action :=
  let es := bms_estop_payload (pack h) cause now in
  let h := {| h with pack := {| (pack h) with s_estop_seq := u16 (s_estop_seq (pack h) + 1) |} |} in
  let '(h, acts) := bms_send_safety_both h PS_T_ESTOP (wire_write es) 8 PS_ESTOP_REPEAT now in
  ({| h with gway := hub_gateway_local_estop (gway h) now cause |}, acts).

Definition bms_warn (h : hub) (fam : nat) (detail now : Z) : hub :=
  let b := pack h in
  if u32 (now - s_warn_last_ms b !!! fam) <? 1000 then h else
  let b := {| b with s_warn_last_ms := <[fam := now]> (s_warn_last_ms b) |} in
  let nf := {| nf_fault_code := BMS_FAULT_CODE fam; nf_severity := 1; nf_detail := detail;
               nf_uptime_ms := now |} in
  let low := s_safety_low b in
  let h := {| h with pack := {| b with s_safety_low := u8 (low + 1) |} |} in
  bms_push_record h (ps_can_id_pack PS_CLS_SAFETY PS_NODE_HUB PS_NODE_ORCH PS_T_NODE_FAULT low)
    (wire_write nf) 8 now.

(** ** Escalation *)

Definition debounce (b : bms) (fam : nat) (crit : bool) : bms :=
  if crit then
    if s_deb b !!! fam <? 0xFFFF
    then {| b with s_deb := <[fam := s_deb b !!! fam + 1]> (s_deb b) |} else b
  else {| b with s_deb := <[fam := 0]> (s_deb b) |}.

Definition bms_check (h : hub) (fam : nat) (crit warn : bool) (cause bit detail now : Z) : hub * list action :=
  let b := debounce (pack h) fam crit in
  let h := {| h with pack := b |} in
  if (s_tripped b !!! fam : bool) then (h, []) else
  if debounce_ms s_th <=? s_deb b !!! fam then
    let b := {| b with s_tripped := <[fam := true]> (s_tripped b); s_fault_bits := s_fault_bits b .| bit |} in
    bms_raise_estop {| h with pack := b |} cause now
  else if warn then (bms_warn h fam detail now, []) else (h, []).

Definition vmin (b : bms) : Z := foldl (fun m v => if v <? m then v else m) 0xFFFF (s_cell_mv b).
Definition vmax (b : bms) : Z := foldl (fun m v => if m <? v then v else m) 0 (s_cell_mv b).
Definition tmin (b : bms) : Z := foldl (fun m t => if t <? m then t else m) (s_ntc_cC b !!! 0%nat) (drop 1 (s_ntc_cC b)).
Definition tmax (b : bms) : Z := foldl (fun m t => if m <? t then t else m) (s_ntc_cC b !!! 0%nat) (drop 1 (s_ntc_cC b)).

(** One call of [bms_check] with its arguments. *)
Record check := { k_fam : nat; k_crit : bool; k_warn : bool; k_cause : Z; k_bit : Z; k_detail : Z }.

(** The six calls, in order. *)
Definition checks (b : bms) : list check :=
  let i := s_curr_cA b in
  [ {| k_fam := FAM_OV; k_crit := cell_ov_mv s_th <? vmax b; k_warn := cell_ov_warn_mv s_th <? vmax b;
       k_cause := PS_ESTOP_BMS_OVERVOLT; k_bit := PS_BMSF_OV; k_detail := vmax b |};
    {| k_fam := FAM_UV; k_crit := vmin b <? cell_uv_mv s_th; k_warn := vmin b <? cell_uv_warn_mv s_th;
       k_cause := PS_ESTOP_BMS_UNDERVOLT; k_bit := PS_BMSF_UV; k_detail := vmin b |};
    {| k_fam := FAM_OT; k_crit := ot_cC s_th <? tmax b; k_warn := ot_warn_cC s_th <? tmax b;
       k_cause := PS_ESTOP_THERMAL; k_bit := PS_BMSF_OT; k_detail := u16 (tmax b) |};
    {| k_fam := FAM_UT; k_crit := tmin b <? ut_cC s_th; k_warn := tmin b <? ut_warn_cC s_th;
       k_cause := PS_ESTOP_THERMAL; k_bit := PS_BMSF_UT; k_detail := u16 (tmin b) |};
    {| k_fam := FAM_OCD; k_crit := oc_dis_cA s_th <? i; k_warn := oc_dis_warn_cA s_th <? i;
       k_cause := PS_ESTOP_THERMAL; k_bit := PS_BMSF_OC_DISCHARGE; k_detail := u16 i |};
    {| k_fam := FAM_OCC; k_crit := oc_chg_cA s_th <? - i; k_warn := oc_chg_warn_cA s_th <? - i;
       k_cause := PS_ESTOP_THERMAL; k_bit := PS_BMSF_OC_CHARGE; k_detail := u16 (- i) |} ].

Fixpoint run_checks (h : hub) (ks : list check) (now : Z) : hub * list action :=
  match ks with
  | [] => (h, [])
  | k :: ks =>
    let '(h, a1) := bms_check h (k_fam k) (k_crit k) (k_warn k) (k_cause k) (k_bit k) (k_detail k) now in
    let '(h, a2) := run_checks h ks now in (h, a1 ++ a2)
  end.

Definition bms_check_thresholds (h : hub) (now : Z) : hub * list action :=
  if negb (s_full_scan_done (pack h)) then (h, []) else run_checks h (checks (pack h)) now.

(** ** Short circuit and re-arm *)

Definition bms_handle_short_trip (h : hub) (now : Z) : hub * list action :=
  let b := pack h in
  if negb (s_trip_flag b) then (h, []) else
  let b := {| b with s_trip_flag := false; s_short_latched := true;
      s_fault_bits := (s_fault_bits b .| PS_BMSF_SHORT_LATCH) .& u16 (Z.lnot PS_BMSF_COMP_ARMED) |} in
  bms_raise_estop {| h with pack := b |} PS_ESTOP_BMS_SHORT now.

(** The two [memset]s. *)
Definition clear_families (b : bms) : bms :=
  {| b with s_tripped := replicate FAM_COUNT false; s_deb := replicate FAM_COUNT 0 |}.

Definition FAM_BITS : Z :=
  PS_BMSF_OV .| PS_BMSF_UV .| PS_BMSF_OT .| PS_BMSF_UT .| PS_BMSF_OC_CHARGE .| PS_BMSF_OC_DISCHARGE.

Definition bms_try_rearm (h : hub) (e : bms_env) : hub :=
  let b := pack h in
  if negb (s_rearm_requested b) then h else
  if negb (hub_gateway_safety_state (gway h) =? PS_STATE_STANDBY) then h else
  let b := {| b with s_rearm_requested := false |} in
  if negb (s_short_latched b) then
    let b := clear_families b in
    {| h with pack := {| b with s_fault_bits := s_fault_bits b .& u16 (Z.lnot FAM_BITS) |} |}
  else if comp_status e then bms_warn {| h with pack := b |} FAM_OCD 0xFFFF (clock e)
  else
    let b := {| b with strobes := S (strobes b) |} in
    if kill_fb e then
      let b := {| b with s_short_latched := false;
          s_fault_bits := (s_fault_bits b .& u16 (Z.lnot PS_BMSF_SHORT_LATCH)) .| PS_BMSF_COMP_ARMED |} in
      {| h with pack := clear_families b |}
    else {| h with pack := b |}.

(** ** Reports *)

Definition bms_soc_estimate (b : bms) : Z :=
  let sum := foldl (fun s v => u32 (s + v)) 0 (s_cell_mv b) in
  let avg := i32 (sum / HUB_BMS_CELL_COUNT) in
  let soc := Z.quot ((avg - 3000) * 100) 1200 in
  let soc := if soc <? 0 then 0 else soc in
  let soc := if 100 <? soc then 100 else soc in
  u8 soc.

Definition bms_summary (b : bms) : ps_bms_summary_t :=
  let tC := Z.quot (tmax b) 100 in
  {| bs_pack_cV := s_pack_cV b; bs_current_cA := s_curr_cA b; bs_soc_pct := bms_soc_estimate b;
     bs_temp_max_C := (if 127 <? tC then 127 else if tC <? -128 then -128 else tC);
     bs_fault_bits := s_fault_bits b |}.

Definition report_summary (h : hub) (now : Z) : hub :=
  let b := pack h in
  let low := s_summary_seq b in
  let h := {| h with pack := {| b with s_summary_seq := u8 (low + 1) |} |} in
  bms_push_record h (ps_can_id_pack PS_CLS_TELEM PS_NODE_HUB PS_NODE_ORCH PS_T_BMS_SUMMARY low)
    (wire_write (bms_summary b)) 8 now.

Definition bms_cells (b : bms) : ps_bms_cells_t :=
  let g := s_cells_group b in
  {| bc_group := g; bc_rsvd := 0; bc_mv0 := s_cell_mv b !!! Z.to_nat (3 * g);
     bc_mv1 := s_cell_mv b !!! Z.to_nat (3 * g + 1); bc_mv2 := s_cell_mv b !!! Z.to_nat (3 * g + 2) |}.

Definition report_cells (h : hub) (now : Z) : hub :=
  let b := pack h in
  let low := s_cells_seq b in
  let h := {| h with pack := {| b with s_cells_seq := u8 (low + 1);
                                s_cells_group := u8 ((s_cells_group b + 1) mod HUB_BMS_CELL_GROUPS) |} |} in
  bms_push_record h (ps_can_id_pack PS_CLS_TELEM PS_NODE_HUB PS_NODE_ORCH PS_T_BMS_CELLS low)
    (wire_write (bms_cells b)) 8 now.

Definition clamp16 (z : Z) : Z := u16 (if 0xFFFF <? z then 0xFFFF else z).

Definition hub_stats (b : bms) (c1 c2 : ps_can_stats_t) (sb : ps_spib_stats_t) (st : Z) : ps_node_stats_t :=
  let p1 := nth 0 (s_prev_can b) c1 in let p2 := nth 1 (s_prev_can b) c2 in
  let rx := u32 (u32 (rx_frames c1 - rx_frames p1) + u32 (rx_frames c2 - rx_frames p2)) in
  let tx := u32 (u32 (tx_frames c1 - tx_frames p1) + u32 (tx_frames c2 - tx_frames p2)) in
  let err := u32 (bus_errors c1 + bus_errors c2 + rx_dropped c1 + rx_dropped c2 +
                  crc_errors sb + seq_gaps sb + uplink_overflows sb) in
  {| ns_cpu_pct := 0; ns_state := st; ns_rx_fps := clamp16 rx; ns_tx_fps := clamp16 tx;
     ns_err_cnt := clamp16 err |}.

(** The locals [c1], [c2] and [sb] are filled by the calls, the handles being open. *)
Definition report_stats (h : hub) (now : Z) : hub :=
  let b := pack h in
  let none := {| rx_frames := 0; tx_frames := 0; rx_dropped := 0; tx_timeouts := 0; bus_errors := 0; recoveries := 0 |} in
  let c1 := ps_can_get_stats (s_can (gway h) !!! 0%nat) none in
  let c2 := ps_can_get_stats (s_can (gway h) !!! 1%nat) none in
  let sb := ps_spib_get_stats (bridge (gway h)) true (s_prev_spib b) in
  let st := hub_stats b c1 c2 sb (hub_gateway_safety_state (gway h)) in
  let low := s_stats_seq b in
  let h := {| h with pack := {| b with s_prev_can := [c1; c2]; s_prev_spib := sb; s_stats_seq := u8 (low + 1) |} |} in
  bms_push_record h (ps_can_id_pack PS_CLS_TELEM PS_NODE_HUB PS_NODE_ORCH PS_T_NODE_STATS low)
    (wire_write st) 8 now.

Definition report_version (h : hub) (now : Z) : hub :=
  let ver := {| ve_major := 0; ve_minor := 1; ve_patch := 0;
                ve_node_state := hub_gateway_safety_state (gway h); ve_git_short := 0 |} in
  bms_push_record h (ps_can_id_pack PS_CLS_MGMT PS_NODE_HUB PS_NODE_ORCH PS_T_VERSION 0) (wire_write ver) 8 now.

Definition bms_reports (h : hub) (now : Z) : hub :=
  let t := s_tick (pack h) in
  let h := if t mod 100 =? 0 then report_summary h now else h in
  let h := if t mod 1000 =? 250 then report_cells h now else h in
  let h := if t mod 1000 =? 500 then report_stats h now else h in
  if t mod 1000 =? 750 then report_version h now else h.

(** ** The task *)

(** One turn of [bms_task]. *)
Definition bms_turn (h : hub) (e : bms_env) : hub * list action :=
  let was := notified (pack h) in
  let h := {| h with pack := {| (pack h) with notified := false |} |} in
  let '(h, a1) := if was then bms_handle_short_trip h (clock e) else (h, []) in
  let b := {| (pack h) with s_tick := u32 (s_tick (pack h) + 1) |} in
  let b := bms_sample_fast undef b e in
  let b := bms_slow_slot logf undef b e in
  let '(h, a2) := bms_check_thresholds {| h with pack := b |} (clock e) in
  let h := bms_reports h (clock e) in
  (bms_try_rearm h e, a1 ++ a2).

(** The platform's answers of [hub_bms_start]: the four configuration steps, the task, the
    interrupt, and the latch pin (high when idle). *)
Record bms_start_env := { in_err : esp_err_t; out_err : esp_err_t; latch_err : esp_err_t; adc_err : esp_err_t;
  bms_task_ok : bool; isr_err : esp_err_t; latch_level : bool }.

Definition hub_bms_start (b : bms) (handles_ok : bool) (e : bms_start_env) : bms * esp_err_t :=
  if negb handles_ok then (b, ESP_ERR_INVALID_ARG) else
  if negb (is_ok (in_err e)) then (b, in_err e) else
  if negb (is_ok (out_err e)) then (b, out_err e) else
  let b := {| b with mux_sel := 0 |} in
  if negb (is_ok (latch_err e)) then (b, latch_err e) else
  if negb (is_ok (adc_err e)) then (b, adc_err e) else
  let b := {| b with s_ntc_cC := replicate (Z.to_nat HUB_BMS_NTC_COUNT) 2500 |} in
  let b := if latch_level e then {| b with s_fault_bits := s_fault_bits b .| PS_BMSF_COMP_ARMED |}
           else {| b with s_short_latched := true; s_fault_bits := s_fault_bits b .| PS_BMSF_SHORT_LATCH |} in
  if negb (bms_task_ok e) then (b, ESP_ERR_NO_MEM) else
  if negb (is_ok (isr_err e)) then (b, isr_err e) else (b, ESP_OK).

End Bms.
