(* ===== verification/BmsSpec.v ===== *)
(** What the battery management guarantees: when a family trips and what a trip does, the
    interlock of the re-arm, the fault bits, the settling of the cell multiplexer and the
    range of the conversions. *)
From S2P Require Import Prelude CanId Wire Rtos Txq Can Safety SpiFrame SpiBridge Router Gateway Float32 Bms.

(** ** Conversions

    The converter has 12 bits; what it can return is checked value by value. *)

Definition raw_env (raw : Z) : bms_env :=
  {| adc := fun _ _ => Some raw; comp_status := false; kill_fb := false; clock := 0 |}.

Definition pack_of (raw : Z) : option Z := to_u16 (adc_mv (raw_env raw) 1 0 * HUB_PACK_DIV / of_Z 10)%f32.
Definition cell_of (raw : Z) : option Z := to_u16 (adc_mv (raw_env raw) 1 0 * HUB_CELL_DIV)%f32.
Definition curr_of (raw : Z) : option Z :=
  to_i16 ((adc_mv (raw_env raw) 1 0 - HUB_CURR_OFFSET_MV) / HUB_CURR_MV_PER_A * of_Z 100)%f32.

(** [x] is defined and within one unit below [n / d], the exact value. *)
Definition near (x : option Z) (n d : Z) : bool :=
  match x with Some z => (d * z <=? n + d) && (n - d <=? d * z) | None => false end.

Definition mv_per_raw : f32 := Eval vm_compute in (HUB_ADC_FS_MV / HUB_ADC_MAX_RAW)%f32.
Definition conversions_check (raw : Z) : bool :=
  let mv := (of_Z raw * mv_per_raw)%f32 in
  (of_Z 0 <=? mv)%f32 &&
  near (to_u16 (mv * HUB_PACK_DIV / of_Z 10)%f32) (raw * 3300 * 21) (4095 * 10) &&
  near (to_u16 (mv * HUB_CELL_DIV)%f32) (raw * 3300 * 2) 4095 &&
  let i := to_i16 ((mv - HUB_CURR_OFFSET_MV) / HUB_CURR_MV_PER_A * of_Z 100)%f32 in
  if (15 <=? raw) && (raw <=? 4080) then near i ((raw * 3300 - 1650 * 4095) * 20) 4095
  else match i with None => true | Some _ => false end.

Lemma conversions_table : forallb conversions_check (seqZ 0 4096) = true.
Proof. vm_compute. reflexivity. Qed.

Lemma adc_mv_raw raw : adc_mv (raw_env raw) 1 0 = (of_Z raw * mv_per_raw)%f32.
Proof. reflexivity. Qed.

Lemma conversions_ok raw : 0 <= raw <= 4095 ->
  (of_Z 0 <=? adc_mv (raw_env raw) 1 0)%f32 = true /\
  near (pack_of raw) (raw * 3300 * 21) (4095 * 10) = true /\
  near (cell_of raw) (raw * 3300 * 2) 4095 = true /\
  (15 <= raw <= 4080 -> near (curr_of raw) ((raw * 3300 - 1650 * 4095) * 20) 4095 = true) /\
  (raw < 15 \/ 4080 < raw -> curr_of raw = None).
Proof.
  intros Hr. pose proof conversions_table as Ht. rewrite forallb_forall in Ht.
  specialize (Ht raw). rewrite <- list_elem_of_In, elem_of_seqZ in Ht. specialize (Ht ltac:(lia)).
  unfold conversions_check in Ht. cbv zeta in Ht. rewrite <- adc_mv_raw, !andb_true_iff in Ht.
  destruct Ht as [[[Hm Hp] Hc] Hi]. fold (curr_of raw) in Hi.
  split; [exact Hm|]. split; [exact Hp|]. split; [exact Hc|].
  destruct (Z.leb_spec 15 raw), (Z.leb_spec raw 4080); cbn [andb] in Hi;
    (split; [intros; try exact Hi; lia | intros; try lia; by destruct (curr_of raw)]).
Qed.

(** For every sample the 12-bit converter can give, the pack and the cell voltage are
    converted without leaving the type, to within one unit of the exact quotient; the
    current is too for the samples from 15 to 4080, and for the others (beyond 327.67 A
    either way) the value does not fit [int16_t] and the conversion of the code is
    undefined. *)
Theorem bms_conversions raw : 0 <= raw <= 4095 ->
  near (pack_of raw) (raw * 3300 * 21) (4095 * 10) = true /\
  near (cell_of raw) (raw * 3300 * 2) 4095 = true /\
  (15 <= raw <= 4080 -> near (curr_of raw) ((raw * 3300 - 1650 * 4095) * 20) 4095 = true) /\
  (raw < 15 \/ 4080 < raw -> curr_of raw = None).
Proof. intros Hr. by destruct (conversions_ok raw Hr). Qed.

Lemma bms_conversions_witness : curr_of 4095 = None.
Proof. apply (bms_conversions 4095); lia. Defined.

Section BmsSpec.
Context `{RtosQueue} `{TwaiDlc} (logf : f32 -> f32) (undef : f32 -> Z).

(** ** What emitting a frame leaves alone *)

(** The part of the state that decides trips, latches and re-arming. *)
Definition rest (b : bms) :=
  (s_short_latched b, s_rearm_requested b, s_full_scan_done b, s_tick b, mux_sel b, s_trip_flag b,
   notified b, strobes b, (s_cell_mv b, s_ntc_cC b, s_pack_cV b, s_curr_cA b)).
Definition core (b : bms) := (s_deb b, s_tripped b, s_fault_bits b, rest b).

Lemma can_send_pack h p f : pack (bms_can_send h p f).1 = pack h.
Proof. unfold bms_can_send. by destruct (ps_can_send _ _). Qed.

Lemma can_send_acts h p f : exists ok, (bms_can_send h p f).2 = [ASend p f ok].
Proof. unfold bms_can_send. destruct (ps_can_send _ _). by eexists. Qed.

Lemma can_send_view h p f : pub_view (gway (bms_can_send h p f).1) = pub_view (gway h).
Proof. unfold bms_can_send. by destruct (ps_can_send _ _). Qed.

(** The frames of [n] rounds on both buses, whatever the driver answered. *)
Fixpoint rounds (f : ps_can_frame_t) (oks : list (bool * bool)) : list action :=
  match oks with
  | [] => []
  | (o1, o2) :: oks => ASend PS_PORT_CAN1 f o1 :: ASend PS_PORT_CAN2 f o2 :: rounds f oks
  end.

Lemma send_both_spec n h f : let r := send_both n h f in
  pack r.1 = pack h /\ pub_view (gway r.1) = pub_view (gway h) /\
  exists oks, length oks = n /\ r.2 = rounds f oks.
Proof.
  revert h. induction n as [|n IH]; intros h; cbn [send_both].
  { repeat split. by exists []. }
  pose proof (can_send_pack h PS_PORT_CAN1 f). pose proof (can_send_view h PS_PORT_CAN1 f).
  destruct (can_send_acts h PS_PORT_CAN1 f) as [o1 E1]. destruct (bms_can_send h PS_PORT_CAN1 f) as [h1 a1].
  pose proof (can_send_pack h1 PS_PORT_CAN2 f). pose proof (can_send_view h1 PS_PORT_CAN2 f).
  destruct (can_send_acts h1 PS_PORT_CAN2 f) as [o2 E2]. destruct (bms_can_send h1 PS_PORT_CAN2 f) as [h2 a2].
  specialize (IH h2). destruct (send_both n h2 f) as [h3 a3]. cbn in *. destruct IH as (P & V & oks & L & ->).
  repeat split; [congruence..|]. exists ((o1, o2) :: oks). split; [cbn; lia|]. by rewrite E1, E2.
Qed.

Lemma push_view h id pl dlc now : pack (bms_push_record h id pl dlc now) = pack h /\
  pub_view (gway (bms_push_record h id pl dlc now)) = pub_view (gway h).
Proof.
  split; [done|]. unfold bms_push_record, pub_view, ps_spib_uplink_push. cbn.
  destruct (s_started (bridge (gway h))); cbn; [|done]. by destruct (xQueueSend _ _) as [q []].
Qed.

(** The ESTOP frame of a trip. *)
Definition trip_frame (b : bms) (cause now : Z) : ps_can_frame_t :=
  {| f_id := ps_can_id_pack PS_CLS_SAFETY PS_NODE_HUB PS_NODE_BROADCAST PS_T_ESTOP (s_safety_low b);
     f_dlc := 8; f_data := bput 0 (wire_write (bms_estop_payload b cause now)) (replicate 8 0) |}.

(** A trip stops the suit: three rounds of the frame on both buses, and the hub's mirror
    in ESTOP with the SPI flag set. *)
Lemma raise_estop_spec h cause now : let r := bms_raise_estop h cause now in
  core (pack r.1) = core (pack h) /\
  (published (gway h) -> published (gway r.1) /\ hub_gateway_safety_state (gway r.1) = PS_STATE_ESTOP /\
     flag_set (gway r.1) = true) /\
  hub_gateway_safety_state (gway r.1) = PS_STATE_ESTOP /\
  exists oks, length oks = PS_ESTOP_REPEAT /\ r.2 = rounds (trip_frame (pack h) cause now) oks.
Proof.
  cbv zeta. unfold bms_raise_estop, bms_send_safety_both. cbv zeta.
  change (ps_can_id_pack PS_CLS_SAFETY PS_NODE_HUB PS_NODE_BROADCAST PS_T_ESTOP
    (s_safety_low (pack {| h with pack := _ |}))) with (f_id (trip_frame (pack h) cause now)).
  match goal with |- context [send_both ?n ?h0 ?f] =>
    pose proof (send_both_spec n h0 f) as (P & V & oks & L & E); destruct (send_both n h0 f) as [h1 acts] end.
  cbn [fst snd] in P, V, E.
  match goal with |- context [bms_push_record h1 ?i ?pl ?dlc ?t] =>
    destruct (push_view h1 i pl dlc t) as [P2 V2]; set (h2 := bms_push_record h1 i pl dlc t) in * end.
  clearbody h2. cbn [fst snd pack gway]. unfold hub_gateway_local_estop.
  pose proof (on_estop_state (s_mirror (gway h2)) now cause) as Hst.
  set (c := (ps_safety_core_on_local_fault _ _ _).1). fold c in Hst.
  change (state c = PS_STATE_ESTOP) in Hst. clearbody c.
  split_and!.
  - rewrite P2, P. reflexivity.
  - intros Hp. destruct (published_mirror_set (gway h2) c) as (Q1 & Q2 & Q3).
    { apply (published_view (gway h)); [exact (eq_trans V2 V) | done]. }
    unfold hub_gateway_safety_state. rewrite Q2, Q3, Hst. done.
  - unfold hub_gateway_safety_state, mirror_set, mirror_publish. by destruct (publish_needed _ _).
  - by exists oks.
Qed.

(** Two hubs that agree on [core] and on what the gateway publishes. *)
Definition same (h h' : hub) : Prop := core (pack h') = core (pack h) /\ pub_view (gway h') = pub_view (gway h).

#[local] Instance same_preorder : PreOrder same.
Proof. split; [done|]. intros x y z [A B] [C D]. split; congruence. Qed.

Lemma push_same h h' id pl dlc now : same h h' -> same h (bms_push_record h' id pl dlc now).
Proof. intros S. destruct (push_view h' id pl dlc now) as [P V]. unfold same. by rewrite P, V. Qed.

Lemma warn_same h fam d now : same h (bms_warn h fam d now).
Proof. unfold bms_warn. cbv zeta. destruct (_ <? _); [done|]. by apply push_same. Qed.

Lemma reports_same h now : same h (bms_reports h now).
Proof.
  unfold bms_reports. cbv zeta.
  assert (forall (b : bool) (f : hub -> hub) h0, (forall h1, same h1 (f h1)) -> same h h0 ->
    same h (if b then f h0 else h0)) as Step.
  { intros b f h0 Hf S. destruct b; [|done]. by etransitivity. }
  apply (Step _ (fun h => report_version h now)); [by intros; apply push_same|].
  apply (Step _ (fun h => report_stats h now)); [by intros; apply push_same|].
  apply (Step _ (fun h => report_cells h now)); [by intros; apply push_same|].
  apply (Step _ (fun h => report_summary h now)); [by intros; apply push_same|]. done.
Qed.

(** ** Trips *)

(** The effect of one check on the families. *)
Definition deb_next (d : Z) (crit : bool) : Z := if crit then (if d <? 0xFFFF then d + 1 else d) else 0.

Record fams (b : bms) : Prop := { fams_deb : length (s_deb b) = FAM_COUNT; fams_trip : length (s_tripped b) = FAM_COUNT }.

Lemma debounce_spec b fam crit : (fam < FAM_COUNT)%nat -> fams b ->
  debounce b fam crit = {| b with s_deb := <[fam := deb_next (s_deb b !!! fam) crit]> (s_deb b) |}.
Proof.
  intros Hf [Ld _]. unfold debounce, deb_next. destruct crit; [|done]. destruct (_ <? _); [done|].
  rewrite list_insert_id; [by destruct b|]. apply list_lookup_lookup_total_lt. lia.
Qed.

(** Does a check with this verdict trip the family? *)
Definition trips (b : bms) (fam : nat) (crit : bool) : bool :=
  negb (s_tripped b !!! fam) && (50 <=? deb_next (s_deb b !!! fam) crit).

(** What one call of [bms_check] does to its own family and to the rest. *)
Lemma check_spec h fam crit warn cause bit detail now : (fam < FAM_COUNT)%nat -> fams (pack h) ->
  let r := bms_check h fam crit warn cause bit detail now in
  let t := trips (pack h) fam crit in
  core (pack r.1) =
    (<[fam := deb_next (s_deb (pack h) !!! fam) crit]> (s_deb (pack h)),
     if t then <[fam := true]> (s_tripped (pack h)) else s_tripped (pack h),
     if t then s_fault_bits (pack h) .| bit else s_fault_bits (pack h), rest (pack h)) /\
  (published (gway h) -> published (gway r.1)) /\
  if t then hub_gateway_safety_state (gway r.1) = PS_STATE_ESTOP /\
     exists oks, length oks = PS_ESTOP_REPEAT /\ r.2 = rounds (trip_frame (pack h) cause now) oks
  else pub_view (gway r.1) = pub_view (gway h) /\ r.2 = [].
Proof.
  intros Hf Hb. cbv zeta. unfold bms_check, trips. rewrite debounce_spec by done.
  set (d := deb_next _ _). cbn [s_tripped s_deb]. change (debounce_ms s_th) with 50.
  assert ((<[fam:=d]> (s_deb (pack h)) : list Z) !!! fam = d) as ->.
  { apply list_lookup_total_insert_eq. destruct Hb. lia. }
  destruct (s_tripped (pack h) !!! fam); cbn [negb andb]; [by split_and!|].
  destruct (50 <=? d).
  - match goal with |- context [bms_raise_estop ?h0 ?c ?t] =>
      destruct (raise_estop_spec h0 c t) as (C & P & S & A) end.
    split; [exact C|]. split; [apply P|]. split; [exact S|exact A].
  - destruct warn; [|by split_and!].
    match goal with |- context [bms_warn ?h0 ?f ?dd ?t] => destruct (warn_same h0 f dd t) as [C V] end.
    split; [exact C|]. split; [by apply published_view|]. done.
Qed.

Lemma core_fams b b' : s_deb b' = s_deb b -> s_tripped b' = s_tripped b -> fams b -> fams b'.
Proof. intros E1 E2 []. split; congruence. Qed.

(** The effect of a list of checks on distinct families, read off family by family. *)
Record ran (h : hub) (ks : list check) (now : Z) (r : hub * list action) : Prop := {
  ran_fams : fams (pack r.1);
  ran_rest : rest (pack r.1) = rest (pack h);
  ran_pub : published (gway h) -> published (gway r.1);
  ran_in k : k ∈ ks ->
    s_deb (pack r.1) !!! k_fam k = deb_next (s_deb (pack h) !!! k_fam k) (k_crit k) /\
    s_tripped (pack r.1) !!! k_fam k = (s_tripped (pack h) !!! k_fam k || trips (pack h) (k_fam k) (k_crit k));
  ran_out fam : fam ∉ (k_fam <$> ks) ->
    s_deb (pack r.1) !!! fam = s_deb (pack h) !!! fam /\ s_tripped (pack r.1) !!! fam = s_tripped (pack h) !!! fam;
  ran_bits i : Z.testbit (s_fault_bits (pack r.1)) i =
    Z.testbit (s_fault_bits (pack h)) i ||
    existsb (fun k => trips (pack h) (k_fam k) (k_crit k) && Z.testbit (k_bit k) i) ks;
  ran_trip k : k ∈ ks -> trips (pack h) (k_fam k) (k_crit k) = true ->
    hub_gateway_safety_state (gway r.1) = PS_STATE_ESTOP /\
    exists b oks pre post, length oks = PS_ESTOP_REPEAT /\
      r.2 = pre ++ rounds (trip_frame b (k_cause k) now) oks ++ post;
  ran_quiet : Forall (fun k => trips (pack h) (k_fam k) (k_crit k) = false) ks ->
    pub_view (gway r.1) = pub_view (gway h) /\ r.2 = [];
  ran_estop : hub_gateway_safety_state (gway h) = PS_STATE_ESTOP ->
    hub_gateway_safety_state (gway r.1) = PS_STATE_ESTOP;
}.

(** One check in front of the others: it leaves the other families, and so their trips,
    alone. *)
Lemma check_others h h1 k : fams (pack h) -> (k_fam k < FAM_COUNT)%nat ->
  core (pack h1) =
    (<[k_fam k := deb_next (s_deb (pack h) !!! k_fam k) (k_crit k)]> (s_deb (pack h)),
     if trips (pack h) (k_fam k) (k_crit k) then <[k_fam k := true]> (s_tripped (pack h)) else s_tripped (pack h),
     if trips (pack h) (k_fam k) (k_crit k) then s_fault_bits (pack h) .| k_bit k else s_fault_bits (pack h),
     rest (pack h)) ->
  fams (pack h1) /\ s_deb (pack h1) !!! k_fam k = deb_next (s_deb (pack h) !!! k_fam k) (k_crit k) /\
  s_tripped (pack h1) !!! k_fam k = (s_tripped (pack h) !!! k_fam k || trips (pack h) (k_fam k) (k_crit k)) /\
  (forall i, Z.testbit (s_fault_bits (pack h1)) i = Z.testbit (s_fault_bits (pack h)) i ||
     (trips (pack h) (k_fam k) (k_crit k) && Z.testbit (k_bit k) i)) /\
  forall fam, fam <> k_fam k -> s_deb (pack h1) !!! fam = s_deb (pack h) !!! fam /\
    s_tripped (pack h1) !!! fam = s_tripped (pack h) !!! fam /\
    forall c, trips (pack h1) fam c = trips (pack h) fam c.
Proof.
  intros [Ld Lt] Hlt [= Cd Ct Cb _]. rewrite Cd, Ct, Cb. split_and!.
  - split; [by rewrite Cd, length_insert|]. rewrite Ct. by destruct (trips _ _ _); rewrite ?length_insert.
  - apply list_lookup_total_insert_eq. lia.
  - destruct (trips _ _ _); [|by rewrite orb_false_r]. rewrite orb_true_r. apply list_lookup_total_insert_eq. lia.
  - intros i. destruct (trips _ _ _); [by rewrite Z.lor_spec|by rewrite orb_false_r].
  - intros fam Hne. assert (s_tripped (pack h1) !!! fam = s_tripped (pack h) !!! fam) as E.
    { rewrite Ct. destruct (trips _ _ _); [by apply list_lookup_total_insert_ne|done]. }
    assert (s_deb (pack h1) !!! fam = s_deb (pack h) !!! fam) as E'.
    { rewrite Cd. by apply list_lookup_total_insert_ne. }
    rewrite <- Cd, <- Ct. split_and!; [done..|]. intros c. unfold trips. by rewrite E, E'.
Qed.

Lemma ran_nil h now : fams (pack h) -> ran h [] now (h, []).
Proof.
  split; cbn; try done; try (intros k Hk; inversion Hk). intros i. by rewrite orb_false_r.
Qed.

Lemma run_checks_spec ks h now : fams (pack h) -> NoDup (k_fam <$> ks) ->
  Forall (fun k => k_fam k < FAM_COUNT)%nat ks -> ran h ks now (run_checks h ks now).
Proof.
  revert h. induction ks as [|k ks IH]; intros h Hb Hn Hl; [by apply ran_nil|].
  inversion Hn as [|? ? Hout Hn']; subst. inversion Hl as [|? ? Hlt Hl']; subst. cbn [run_checks].
  destruct (check_spec h (k_fam k) (k_crit k) (k_warn k) (k_cause k) (k_bit k) (k_detail k) now Hlt Hb)
    as (C & P & A). destruct (bms_check h _ _ _ _ _ _ now) as [h1 a1]. cbn [fst snd] in *.
  destruct (check_others h h1 k Hb Hlt C) as (Hb1 & Kd & Kt & Kb & Hother).
  assert (forall k', k' ∈ ks -> k_fam k' <> k_fam k) as Hne.
  { intros k' Hk E. apply Hout. rewrite <- E. by apply list_elem_of_fmap_2. }
  destruct (IH h1 Hb1 Hn' Hl') as [If Ir Ip Iin Iout Ib It Iq Ie]. destruct (run_checks h1 ks now) as [h2 a2].
  cbn [fst snd] in *. split; cbn [fst snd]; [done| | |intros k' [->|Hk]%elem_of_cons| | | | |].
  - rewrite Ir. exact (f_equal snd C).
  - intros Hp. by apply Ip, P.
  - destruct (Iout _ Hout) as [-> ->]. done.
  - destruct (Iin k' Hk) as [-> ->]. destruct (Hother _ (Hne _ Hk)) as (-> & -> & ->). done.
  - intros fam [Hf Hfs]%not_elem_of_cons. destruct (Iout _ Hfs) as [-> ->].
    destruct (Hother _ Hf) as (-> & -> & _). done.
  - intros i. rewrite Ib, Kb. cbn [existsb]. rewrite orb_assoc. f_equal.
    clear -Hother Hne. induction ks as [|k' ks IH]; [done|]. cbn [existsb].
    destruct (Hother (k_fam k')) as (_ & _ & ->); [apply Hne; left|]. f_equal. apply IH. intros. apply Hne. by right.
  - intros k' [->|Hk]%elem_of_cons Ht.
    + rewrite Ht in A. destruct A as (S & oks & L & ->). split; [by apply Ie|].
      by exists (pack h), oks, [], a2.
    + destruct (It k' Hk) as (S & b & oks & pre & post & L & ->).
      { destruct (Hother _ (Hne _ Hk)) as (_ & _ & ->). done. }
      split; [done|]. exists b, oks, (a1 ++ pre), post. split; [done|]. by rewrite <- app_assoc.
  - intros [Ht Hts]%list.Forall_cons. rewrite Ht in A. destruct A as [V ->]. destruct Iq as [V2 ->].
    { rewrite list.Forall_forall in *. intros k' Hk. destruct (Hother _ (Hne _ Hk)) as (_ & _ & ->). by apply Hts. }
    split; [congruence|done].
  - intros S. apply Ie. destruct (trips _ _ _); [apply A|]. destruct A as [V _].
    injection V as _ _ V. unfold hub_gateway_safety_state in *. by rewrite V.
Qed.

(** ** A turn, phase by phase *)

Definition after_short (h : hub) (e : bms_env) : hub * list action :=
  let h' := {| h with pack := {| (pack h) with notified := false |} |} in
  if notified (pack h) then bms_handle_short_trip h' (clock e) else (h', []).

Definition sampled (h : hub) (e : bms_env) : hub :=
  let b := pack (after_short h e).1 in
  {| (after_short h e).1 with pack :=
     bms_slow_slot logf undef (bms_sample_fast undef {| b with s_tick := u32 (s_tick b + 1) |} e) e |}.

Definition checked (h : hub) (e : bms_env) : hub * list action := bms_check_thresholds (sampled h e) (clock e).

Definition reported (h : hub) (e : bms_env) : hub := bms_reports (checked h e).1 (clock e).

Lemma turn_phases h e :
  bms_turn logf undef h e = (bms_try_rearm (reported h e) e, (after_short h e).2 ++ (checked h e).2).
Proof.
  unfold bms_turn, reported, checked, sampled, after_short. cbv zeta.
  destruct (notified (pack h)); [destruct (bms_handle_short_trip _ _)|];
    cbn [fst snd]; by destruct (bms_check_thresholds _ _).
Qed.

(** Does the re-arm of this turn go through? *)
Definition rearms (h : hub) (e : bms_env) : bool :=
  s_rearm_requested (pack h) && (hub_gateway_safety_state (gway h) =? PS_STATE_STANDBY) &&
  (negb (s_short_latched (pack h)) || negb (comp_status e) && kill_fb e).

Lemma rearm_spec h e : let b := pack h in let b' := pack (bms_try_rearm h e) in
  pub_view (gway (bms_try_rearm h e)) = pub_view (gway h) /\
  s_deb b' = (if rearms h e then replicate FAM_COUNT 0 else s_deb b) /\
  s_tripped b' = (if rearms h e then replicate FAM_COUNT false else s_tripped b) /\
  s_short_latched b' = s_short_latched b && negb (rearms h e) /\
  s_fault_bits b' =
    (if rearms h e then
       if s_short_latched b
       then (s_fault_bits b .& u16 (Z.lnot PS_BMSF_SHORT_LATCH)) .| PS_BMSF_COMP_ARMED
       else s_fault_bits b .& u16 (Z.lnot FAM_BITS)
     else s_fault_bits b) /\
  (s_tick b', mux_sel b', s_trip_flag b', notified b', s_full_scan_done b', s_cell_mv b') =
  (s_tick b, mux_sel b, s_trip_flag b, notified b, s_full_scan_done b, s_cell_mv b).
Proof.
  cbv zeta. unfold bms_try_rearm, rearms. cbv zeta.
  destruct (s_rearm_requested (pack h)); cbn [negb andb]; [|by rewrite andb_true_r].
  destruct (hub_gateway_safety_state (gway h) =? PS_STATE_STANDBY); cbn [negb andb]; [|by rewrite andb_true_r].
  cbn [s_short_latched]. destruct (s_short_latched (pack h)) eqn:Es; cbn [negb andb orb].
  - destruct (comp_status e); cbn [negb andb].
    + match goal with |- context [bms_warn ?h0 ?f ?dd ?t] => destruct (warn_same h0 f dd t) as [C V];
        set (h2 := bms_warn h0 f dd t) in * end. clearbody h2. injection C as -> -> -> Hr. cbn in Hr.
      rewrite V. split_and!; try done; try congruence.
    + by destruct (kill_fb e).
  - done.
Qed.

Lemma rearm_keeps h e : let b := pack h in let b' := pack (bms_try_rearm h e) in
  s_tick b' = s_tick b /\ mux_sel b' = mux_sel b /\ s_cell_mv b' = s_cell_mv b.
Proof.
  cbv zeta. destruct (rearm_spec h e) as (_ & _ & _ & _ & _ & E). cbv zeta in E.
  set (b' := pack (bms_try_rearm h e)) in *. clearbody b'. by injection E.
Qed.

Lemma short_spec h e : let b := pack h in let r := after_short h e in let b' := pack r.1 in
  let short := notified b && s_trip_flag b in
  (s_deb b', s_tripped b', s_rearm_requested b', s_full_scan_done b', s_tick b', mux_sel b', notified b') =
  (s_deb b, s_tripped b, s_rearm_requested b, s_full_scan_done b, s_tick b, mux_sel b, false) /\
  s_trip_flag b' = s_trip_flag b && negb (notified b) /\
  s_short_latched b' = s_short_latched b || short /\
  s_fault_bits b' = (if short then (s_fault_bits b .| PS_BMSF_SHORT_LATCH) .& u16 (Z.lnot PS_BMSF_COMP_ARMED)
                     else s_fault_bits b) /\
  (published (gway h) -> published (gway r.1)) /\
  (short = true -> hub_gateway_safety_state (gway r.1) = PS_STATE_ESTOP /\
     exists b oks, length oks = PS_ESTOP_REPEAT /\ r.2 = rounds (trip_frame b PS_ESTOP_BMS_SHORT (clock e)) oks).
Proof.
  cbv zeta. unfold after_short, bms_handle_short_trip. cbv zeta.
  destruct (notified (pack h)); cbn [andb negb].
  2: { cbn. by rewrite andb_true_r, orb_false_r. }
  cbn [s_trip_flag pack]. destruct (s_trip_flag (pack h)) eqn:Ef; cbn [andb negb].
  2: { cbn. by rewrite orb_false_r. }
  match goal with |- context [bms_raise_estop ?h0 ?c ?t] =>
    destruct (raise_estop_spec h0 c t) as (C & P & S & oks & L & A);
    set (r := bms_raise_estop h0 c t) in *; set (b0 := pack h0) in A end. clearbody r.
  injection C as -> -> -> Hs Hr Hd Ht Hm Htf Hn _ _ _ _ _. cbn in Hs, Hr, Hd, Ht, Hm, Htf, Hn.
  rewrite Hs, Hr, Hd, Ht, Hm, Htf, Hn, orb_true_r. cbn [s_deb s_tripped s_fault_bits pack].
  split_and!; [done..| |]. { intros Hp. by apply P. }
  intros _. split; [done|]. by exists b0, oks.
Qed.

Lemma sample_fast_fields b e : let b' := bms_sample_fast undef b e in
  (s_deb b', s_tripped b', s_fault_bits b', s_short_latched b', s_rearm_requested b', s_trip_flag b', notified b') =
  (s_deb b, s_tripped b, s_fault_bits b, s_short_latched b, s_rearm_requested b, s_trip_flag b, notified b) /\
  (s_tick b', mux_sel b', s_full_scan_done b', s_cell_mv b') = (s_tick b, mux_sel b, s_full_scan_done b, s_cell_mv b).
Proof. unfold bms_sample_fast. cbv zeta. destruct (_ <=? _)%f32, (_ <=? _)%f32; done. Qed.

Lemma slow_slot_fields b e : let b' := bms_slow_slot logf undef b e in
  (s_deb b', s_tripped b', s_fault_bits b', s_short_latched b', s_rearm_requested b', s_trip_flag b', notified b') =
  (s_deb b, s_tripped b, s_fault_bits b, s_short_latched b, s_rearm_requested b, s_trip_flag b, notified b) /\
  s_tick b' = s_tick b.
Proof.
  cbv zeta. unfold bms_slow_slot. set (slot := s_tick b mod _). clearbody slot.
  assert (forall b0, (let b' := sample_slot logf undef b0 e slot in
    (s_deb b', s_tripped b', s_fault_bits b', s_short_latched b', s_rearm_requested b', s_trip_flag b', notified b', s_tick b') =
    (s_deb b0, s_tripped b0, s_fault_bits b0, s_short_latched b0, s_rearm_requested b0, s_trip_flag b0, notified b0, s_tick b0))) as E.
  { intros b0. cbv zeta. unfold sample_slot. destruct (slot <? _); [by destruct (_ <=? _)%f32|].
    destruct (ntc_map _). by destruct (_ && _). }
  specialize (E b). cbv zeta in *. set (b1 := sample_slot _ _ _ _ _) in *. clearbody b1. injection E as <- <- <- <- <- <- <- <-.
  unfold preselect. cbv zeta. destruct (_ <? HUB_BMS_CELL_COUNT); cbn; by destruct (_ <=? _).
Qed.

End BmsSpec.
