(* ===== verification/BmsProps.v ===== *)
(** The theorems about the battery management over whole runs: sequences of turns of the
    task, edges of the short-circuit latch, accepted clears and operations of the gateway. *)
From S2P Require Import Prelude CanId Wire Rtos Txq Can Safety SpiFrame SpiBridge Router Gateway Float32 Bms BmsSpec.

Section BmsProps.
Context `{RtosQueue} `{TwaiDlc} (logf : f32 -> f32) (undef : f32 -> Z).

Inductive bev :=
  | BTurn (e : bms_env)
  | BIsr (cycles : Z)
  | BClear
  | BGateway (o : gop).

Definition bstep (h : hub) (ev : bev) : hub * list action :=
  match ev with
  | BTurn e => bms_turn logf undef h e
  | BIsr cycles => ({| h with pack := bms_sc_latch_isr (pack h) cycles |}, [])
  | BClear => ({| h with pack := hub_bms_notify_clear_accepted (pack h) |}, [])
  | BGateway o => ({| h with gway := gstep (gway h) o |}, [])
  end.

Definition brun (h : hub) (evs : list bev) : hub := foldl (fun h ev => (bstep h ev).1) h evs.

Lemma fst_pair {A B} (a : A) (b : B) : (a, b).1 = a.
Proof. reflexivity. Qed.
Lemma snd_pair {A B} (a : A) (b : B) : (a, b).2 = b.
Proof. reflexivity. Qed.

Lemma turn_fst h e : (bms_turn logf undef h e).1 = bms_try_rearm (reported logf undef h e) e.
Proof. rewrite turn_phases. apply fst_pair. Qed.
Lemma turn_snd h e : (bms_turn logf undef h e).2 = (after_short h e).2 ++ (checked logf undef h e).2.
Proof. rewrite turn_phases. apply snd_pair. Qed.

(** ** When a family trips *)

(** Is the family out of range by the measurements of [b]? *)
Definition out_of_range (b : bms) (fam : nat) : bool :=
  existsb (fun k => (k_fam k =? fam)%nat && k_crit k) (checks b).

(** What an event tells about a family: a verdict on the measurements once the scan is
    complete, and [None] for a re-arm that goes through. *)
Definition observed (fam : nat) (h : hub) (ev : bev) : list (option bool) :=
  match ev with
  | BTurn e =>
    let b := pack (sampled logf undef h e) in
    (if s_full_scan_done b then [Some (out_of_range b fam)] else []) ++
    (if rearms (reported logf undef h e) e then [None] else [])
  | _ => []
  end.

Fixpoint history (fam : nat) (h : hub) (evs : list bev) : list (option bool) :=
  match evs with
  | [] => []
  | ev :: evs => observed fam h ev ++ history fam (bstep h ev).1 evs
  end.

(** The verdicts since the last re-arm. *)
Definition recent (l : list (option bool)) : list bool :=
  foldl (fun acc v => match v with Some c => acc ++ [c] | None => [] end) [] l.

Definition fifty_in_a_row (l : list bool) : Prop := exists pre post, l = pre ++ replicate 50 true ++ post.

Definition tail_run (l : list bool) : nat := foldl (fun n (c : bool) => if c then S n else O) O l.

Lemma tail_run_spec l n : (n <= tail_run l)%nat <-> exists pre, l = pre ++ replicate n true.
Proof.
  revert n. induction l as [|c l IH] using rev_ind; intros n.
  { cbn. split; [intros; exists []; by replace n with O by lia|]. intros [pre E].
    destruct n; [lia|]. destruct pre; discriminate E. }
  unfold tail_run. rewrite foldl_app. cbn. fold (tail_run l). destruct n as [|n].
  { split; [|lia]. intros _. exists (l ++ [c]). by rewrite app_nil_r. }
  rewrite replicate_S_end. destruct c.
  - rewrite <- Nat.succ_le_mono, IH. split; intros [pre E]; exists pre.
    + by rewrite E, app_assoc.
    + rewrite app_assoc in E. by apply app_inj_tail in E as [-> _].
  - split; [lia|]. intros [pre E]. rewrite app_assoc in E. by apply app_inj_tail in E as [_ E].
Qed.

Lemma fifty_snoc l c : fifty_in_a_row (l ++ [c]) <-> fifty_in_a_row l \/ (50 <= tail_run (l ++ [c]))%nat.
Proof.
  rewrite tail_run_spec. split.
  - intros (pre & post & E). destruct post as [|x post _] using rev_ind.
    + right. exists pre. by rewrite app_nil_r in E.
    + left. rewrite !app_assoc in E. apply app_inj_tail in E as [-> _]. exists pre, post. by rewrite app_assoc.
  - intros [(pre & post & ->)|[pre ->]].
    + exists pre, (post ++ [c]). by rewrite <- !app_assoc.
    + exists pre, []. by rewrite app_nil_r.
Qed.

(** The state of a family follows the verdicts. *)
Record follows (fam : nat) (b : bms) (l : list bool) : Prop := {
  fo_deb : s_deb b !!! fam = Z.min (Z.of_nat (tail_run l)) 0xFFFF;
  fo_trip : s_tripped b !!! fam = true <-> fifty_in_a_row l }.

Lemma follows_check fam b l c b' : follows fam b l ->
  s_deb b' !!! fam = deb_next (s_deb b !!! fam) c ->
  s_tripped b' !!! fam = (s_tripped b !!! fam || trips b fam c) ->
  follows fam b' (l ++ [c]).
Proof.
  intros [Hd Ht] Ed Et. assert (s_deb b' !!! fam = Z.min (Z.of_nat (tail_run (l ++ [c]))) 0xFFFF) as Hd'.
  { rewrite Ed, Hd. unfold tail_run at 2. rewrite foldl_app. cbn. fold (tail_run l). unfold deb_next.
    destruct c; [|done]. destruct (Z.ltb_spec (Z.min (Z.of_nat (tail_run l)) 65535) 65535); lia. }
  split; [done|]. rewrite Et, fifty_snoc, <- Ht, orb_true_iff. unfold trips. rewrite <- Ed, Hd', andb_true_iff, Z.leb_le.
  destruct (s_tripped b !!! fam); cbn [negb]; split; intros [?|?]; try tauto; try lia.
Qed.

Lemma family_check b fam : (fam < FAM_COUNT)%nat ->
  exists k, k ∈ checks b /\ k_fam k = fam /\ k_crit k = out_of_range b fam.
Proof.
  intros Hf. unfold out_of_range.
  assert (exists k, checks b !! fam = Some k) as [k Hk] by (apply lookup_lt_is_Some_2; exact Hf).
  exists k. split; [by eapply list_elem_of_lookup_2|].
  do 6 (destruct fam as [|fam]; [injection Hk as <-; split; [done|]; cbn; by rewrite ?orb_false_r|]).
  unfold FAM_COUNT in Hf. lia.
Qed.

Lemma checks_families b : k_fam <$> checks b = seq 0 FAM_COUNT.
Proof. reflexivity. Qed.

(** The sampling phase leaves the families alone. *)
Lemma sampled_fields h e : let b := pack (sampled logf undef h e) in
  s_deb b = s_deb (pack h) /\ s_tripped b = s_tripped (pack h) /\
  s_rearm_requested b = s_rearm_requested (pack h) /\ notified b = false /\
  s_short_latched b = s_short_latched (pack (after_short h e).1) /\
  s_fault_bits b = s_fault_bits (pack (after_short h e).1) /\
  s_trip_flag b = s_trip_flag (pack (after_short h e).1) /\
  s_tick b = u32 (s_tick (pack h) + 1) /\
  gway (sampled logf undef h e) = gway (after_short h e).1.
Proof.
  cbv zeta. unfold sampled. cbn [pack gway].
  destruct (short_spec h e) as ([= S1 S2 S3 S4 S5 S6 S7] & _). set (b0 := pack (after_short h e).1) in *. clearbody b0.
  destruct (slow_slot_fields logf undef (bms_sample_fast undef {| b0 with s_tick := u32 (s_tick b0 + 1) |} e) e)
    as [[= -> -> -> -> -> -> ->] ->].
  destruct (sample_fast_fields undef {| b0 with s_tick := u32 (s_tick b0 + 1) |} e)
    as [[= -> -> -> -> -> -> ->] [= -> _ _ _]]. cbn. by rewrite S1, S2, S3, S5, S7.
Qed.

(** The checks of a turn, as [ran]. *)
Lemma checked_ran h e : fams (pack h) ->
  let s := sampled logf undef h e in
  if s_full_scan_done (pack s) then ran s (checks (pack s)) (clock e) (checked logf undef h e)
  else checked logf undef h e = (s, []).
Proof.
  intros Hf. cbv zeta. unfold checked, bms_check_thresholds.
  destruct (s_full_scan_done (pack (sampled logf undef h e))); cbn [negb]; [|done].
  apply run_checks_spec.
  - destruct (sampled_fields h e) as (E1 & E2 & _). by apply (core_fams (pack h)).
  - rewrite checks_families. apply NoDup_seq.
  - repeat constructor; unfold FAM_COUNT; cbn; lia.
Qed.

Lemma core_split b b' : core b' = core b -> s_deb b' = s_deb b /\ s_tripped b' = s_tripped b /\
  s_fault_bits b' = s_fault_bits b /\ rest b' = rest b.
Proof. unfold core. generalize (rest b), (rest b'). intros r r' E. by injection E. Qed.

Lemma reported_core h e : let b := pack (checked logf undef h e).1 in let b' := pack (reported logf undef h e) in
  s_deb b' = s_deb b /\ s_tripped b' = s_tripped b /\ s_fault_bits b' = s_fault_bits b /\ rest b' = rest b /\
  pub_view (gway (reported logf undef h e)) = pub_view (gway (checked logf undef h e).1).
Proof.
  cbv zeta. unfold reported. set (x := checked logf undef h e). clearbody x.
  destruct (reports_same x.1 (clock e)) as [C V]. set (y := bms_reports x.1 (clock e)) in *. clearbody y.
  apply core_split in C as (C1 & C2 & C3 & C4). by rewrite C1, C2, C3, C4, V.
Qed.

Lemma fams_checked h e : fams (pack h) -> fams (pack (checked logf undef h e).1).
Proof.
  intros Hf. pose proof (checked_ran h e Hf) as R. cbv zeta in R.
  destruct (s_full_scan_done _); [apply R|]. rewrite R. destruct (sampled_fields h e) as (E1 & E2 & _).
  by apply (core_fams (pack h)).
Qed.

Lemma fams_step h ev : fams (pack h) -> fams (pack (bstep h ev).1).
Proof.
  intros Hf. destruct ev as [e| | |]; cbn [bstep fst]; [|by apply (core_fams (pack h))..].
  rewrite turn_fst. destruct (rearm_spec (reported logf undef h e) e) as (_ & Ed & Et & _).
  destruct (reported_core h e) as (Cd & Ct & _). destruct (fams_checked h e Hf) as [Ld Lt].
  split; [rewrite Ed | rewrite Et]; (destruct (rearms _ _); [reflexivity|]); [rewrite Cd; exact Ld | rewrite Ct; exact Lt].
Qed.

(** Verdicts appended to those since the last re-arm. *)
Definition absorb (acc : list bool) (l : list (option bool)) : list bool :=
  foldl (fun acc v => match v with Some c => acc ++ [c] | None => [] end) acc l.

Lemma follows_eq fam b b' l : s_deb b' = s_deb b -> s_tripped b' = s_tripped b ->
  follows fam b l -> follows fam b' l.
Proof. intros E1 E2 []. split; by rewrite ?E1, ?E2. Qed.

Lemma follows_reset fam b : s_deb b = replicate FAM_COUNT 0 -> s_tripped b = replicate FAM_COUNT false ->
  (fam < FAM_COUNT)%nat -> follows fam b [].
Proof.
  intros E1 E2 Hf. split; rewrite ?E1, ?E2, lookup_total_replicate_2 by done; [done|].
  split; [done|]. intros (pre & post & E). destruct pre; discriminate E.
Qed.

Lemma follows_checked fam h e l : (fam < FAM_COUNT)%nat -> fams (pack h) -> follows fam (pack h) l ->
  let b := pack (sampled logf undef h e) in
  follows fam (pack (checked logf undef h e).1) (if s_full_scan_done b then l ++ [out_of_range b fam] else l).
Proof.
  intros Hf Hb Hl. cbv zeta.
  destruct (sampled_fields h e) as (S1 & S2 & _). apply (follows_eq fam _ _ _ S1 S2) in Hl.
  pose proof (checked_ran h e Hb) as R. cbv zeta in R.
  destruct (s_full_scan_done (pack (sampled logf undef h e))); [|rewrite R; exact Hl].
  destruct (family_check (pack (sampled logf undef h e)) fam Hf) as (k & Hk & <- & <-).
  destruct (ran_in _ _ _ _ R k Hk) as [E1 E2]. exact (follows_check _ _ _ _ _ Hl E1 E2).
Qed.

Lemma follows_rearm fam h e l : (fam < FAM_COUNT)%nat -> follows fam (pack h) l ->
  follows fam (pack (bms_try_rearm h e)) (if rearms h e then [] else l).
Proof.
  intros Hf Hl. destruct (rearm_spec h e) as (_ & Ed & Et & _). cbv zeta in Ed, Et.
  destruct (rearms h e); [exact (follows_reset _ _ Ed Et Hf)|]. exact (follows_eq _ _ _ _ Ed Et Hl).
Qed.

Lemma follows_step fam h ev l : (fam < FAM_COUNT)%nat -> fams (pack h) -> follows fam (pack h) l ->
  follows fam (pack (bstep h ev).1) (absorb l (observed fam h ev)).
Proof.
  intros Hf Hb Hl. destruct ev as [e| | |]; [|by apply (follows_eq fam (pack h))..].
  pose proof (follows_checked fam h e l Hf Hb Hl) as Hc. cbv zeta in Hc.
  destruct (reported_core h e) as (Cd & Ct & _). apply (follows_eq _ _ _ _ Cd Ct) in Hc.
  apply (follows_rearm fam _ e _ Hf) in Hc.
  unfold bstep. rewrite turn_fst. unfold observed, absorb. rewrite foldl_app. cbv zeta.
  destruct (s_full_scan_done (pack (sampled logf undef h e))), (rearms (reported logf undef h e) e); exact Hc.
Qed.

Lemma follows_run fam evs h l : (fam < FAM_COUNT)%nat -> fams (pack h) -> follows fam (pack h) l ->
  follows fam (pack (brun h evs)) (absorb l (history fam h evs)).
Proof.
  intros Hf. revert h l. induction evs as [|ev evs IH]; intros h l Hb Hl; [done|].
  cbn [brun foldl history]. unfold absorb. rewrite foldl_app. apply IH; [by apply fams_step|].
  by apply follows_step.
Qed.

(** No trips, nothing counted: the state of the families after power-up. *)
Definition fresh_pack (b : bms) : Prop :=
  s_deb b = replicate FAM_COUNT 0 /\ s_tripped b = replicate FAM_COUNT false.

(** C22: A family trips exactly on fifty consecutive out-of-range turns: whatever turns, edges,
    clears and gateway operations happened since power-up, the family is latched if and
    only if, since the last re-arm that went through, its measurements were out of range
    in fifty turns in a row (turns before the first two scans are complete do not count). *)
Theorem bms_trips_iff fam h evs : (fam < FAM_COUNT)%nat -> fresh_pack (pack h) ->
  s_tripped (pack (brun h evs)) !!! fam = true <-> fifty_in_a_row (recent (history fam h evs)).
Proof.
  intros Hf [Ed Et]. apply follows_run; [done | | by apply follows_reset].
  split; by rewrite ?Ed, ?Et, length_replicate.
Qed.

(** ** What a trip does *)

Definition fam_cause (fam : nat) : Z :=
  if (fam =? FAM_OV)%nat then PS_ESTOP_BMS_OVERVOLT else if (fam =? FAM_UV)%nat then PS_ESTOP_BMS_UNDERVOLT
  else PS_ESTOP_THERMAL.

(** Three rounds of an ESTOP frame with this cause went out on both buses, and the hub
    itself stands in ESTOP and says so in the SPI header. *)
Definition stopped (cause now : Z) (r : hub * list action) : Prop :=
  hub_gateway_safety_state (gway r.1) = PS_STATE_ESTOP /\ flag_set (gway r.1) = true /\
  exists b oks pre post, length oks = PS_ESTOP_REPEAT /\
    r.2 = pre ++ rounds (trip_frame b cause now) oks ++ post.

Lemma view_state s s' : pub_view s' = pub_view s -> hub_gateway_safety_state s' = hub_gateway_safety_state s.
Proof. unfold pub_view, hub_gateway_safety_state. intros E. by injection E as _ _ ->. Qed.

Lemma view_flag s s' : pub_view s' = pub_view s -> flag_set s' = flag_set s.
Proof. unfold pub_view, flag_set. intros E. by injection E as -> _ _. Qed.

Lemma published_estop s : published s -> hub_gateway_safety_state s = PS_STATE_ESTOP -> flag_set s = true.
Proof.
  intros [F S] E. unfold hub_gateway_safety_state in E. rewrite F.
  destruct S as [->|[_ S]]; [by rewrite E|]. rewrite S in E. discriminate E.
Qed.

Lemma cause_check b k : k ∈ checks b -> k_cause k = fam_cause (k_fam k).
Proof. intros Hk. unfold checks in Hk. repeat (apply elem_of_cons in Hk as [->|Hk]; [done|]). by apply not_elem_of_nil in Hk. Qed.

(** The mirror through the last two phases of a turn, and no re-arm while it stands in ESTOP. *)
Lemma turn_view h e : pub_view (gway (bms_turn logf undef h e).1) = pub_view (gway (checked logf undef h e).1).
Proof.
  rewrite turn_fst. destruct (rearm_spec (reported logf undef h e) e) as (V & _).
  destruct (reported_core h e) as (_ & _ & _ & _ & V2). exact (eq_trans V V2).
Qed.

Lemma no_rearm h e : hub_gateway_safety_state (gway (checked logf undef h e).1) = PS_STATE_ESTOP ->
  rearms (reported logf undef h e) e = false.
Proof.
  intros E. destruct (reported_core h e) as (_ & _ & _ & _ & V2). unfold rearms.
  rewrite (view_state _ _ V2), E. by rewrite andb_false_r.
Qed.

(** A turn that ends with the mirror in ESTOP and the frames among those of the checks or of
    the short-circuit phase. *)
Lemma stopped_turn h e cause : published (gway h) -> fams (pack h) ->
  hub_gateway_safety_state (gway (checked logf undef h e).1) = PS_STATE_ESTOP ->
  (exists b oks pre post, length oks = PS_ESTOP_REPEAT /\
    (after_short h e).2 ++ (checked logf undef h e).2 = pre ++ rounds (trip_frame b cause (clock e)) oks ++ post) ->
  stopped cause (clock e) (bms_turn logf undef h e).
Proof.
  intros Hp Hf Hs Ha. pose proof (turn_view h e) as V. split; [by rewrite (view_state _ _ V)|]. split.
  - rewrite (view_flag _ _ V). apply published_estop; [|done].
    destruct (short_spec h e) as (_ & _ & _ & _ & P & _). cbv zeta in P. specialize (P Hp).
    destruct (sampled_fields h e) as (_ & _ & _ & _ & _ & _ & _ & _ & G). rewrite <- G in P.
    pose proof (checked_ran h e Hf) as R. cbv zeta in R. destruct (s_full_scan_done _); [by apply R|].
    rewrite R. exact P.
  - rewrite turn_snd. exact Ha.
Qed.

Lemma rest_split b b' : rest b' = rest b -> s_short_latched b' = s_short_latched b /\
  s_rearm_requested b' = s_rearm_requested b /\ s_full_scan_done b' = s_full_scan_done b /\
  s_tick b' = s_tick b /\ mux_sel b' = mux_sel b /\ s_cell_mv b' = s_cell_mv b.
Proof. unfold rest. intros E. by injection E. Qed.

Lemma reported_rest h e : fams (pack h) ->
  rest (pack (reported logf undef h e)) = rest (pack (sampled logf undef h e)).
Proof.
  intros Hf. destruct (reported_core h e) as (_ & _ & _ & -> & _). pose proof (checked_ran h e Hf) as R.
  cbv zeta in R. destruct (s_full_scan_done _); [apply R|]. by rewrite R.
Qed.

(** If the short-circuit phase leaves the mirror in ESTOP, so do the checks. *)
Lemma checked_estop h e : fams (pack h) ->
  hub_gateway_safety_state (gway (after_short h e).1) = PS_STATE_ESTOP ->
  hub_gateway_safety_state (gway (checked logf undef h e).1) = PS_STATE_ESTOP.
Proof.
  intros Hf Hs. destruct (sampled_fields h e) as (_ & _ & _ & _ & _ & _ & _ & _ & Sg). rewrite <- Sg in Hs.
  pose proof (checked_ran h e Hf) as R. cbv zeta in R. destruct (s_full_scan_done _); [by apply R|].
  by rewrite R.
Qed.

(** A family that a turn latches was latched by its check. *)
Lemma tripped_turn h e fam : fams (pack h) -> (fam < FAM_COUNT)%nat -> s_tripped (pack h) !!! fam = false ->
  s_tripped (pack (bms_turn logf undef h e).1) !!! fam = true ->
  s_tripped (pack (checked logf undef h e).1) !!! fam = true.
Proof.
  intros Hf Hlt H0t H1t. rewrite turn_fst in H1t.
  destruct (rearm_spec (reported logf undef h e) e) as (_ & _ & Et & _). rewrite Et in H1t.
  destruct (rearms (reported logf undef h e) e).
  - rewrite lookup_total_replicate_2 in H1t by exact Hlt. discriminate H1t.
  - destruct (reported_core h e) as (_ & Ct & _). rewrite Ct in H1t. exact H1t.
Qed.

Lemma trip_checked h e fam : fams (pack h) -> (fam < FAM_COUNT)%nat -> s_tripped (pack h) !!! fam = false ->
  s_tripped (pack (checked logf undef h e).1) !!! fam = true ->
  hub_gateway_safety_state (gway (checked logf undef h e).1) = PS_STATE_ESTOP /\
  exists b oks pre post, length oks = PS_ESTOP_REPEAT /\
    (checked logf undef h e).2 = pre ++ rounds (trip_frame b (fam_cause fam) (clock e)) oks ++ post.
Proof.
  intros Hf Hlt H0t H1t. destruct (sampled_fields h e) as (_ & S2 & _).
  pose proof (checked_ran h e Hf) as R. cbv zeta in R.
  destruct (s_full_scan_done (pack (sampled logf undef h e))).
  - destruct (family_check (pack (sampled logf undef h e)) fam Hlt) as (k & Hk & Hkf & _).
    destruct (ran_in _ _ _ _ R k Hk) as [_ E]. rewrite Hkf, S2, H0t, H1t, orb_false_l in E.
    rewrite <- Hkf in E. pose proof (ran_trip _ _ _ _ R k Hk (eq_sym E)) as T.
    rewrite (cause_check _ _ Hk), Hkf in T. exact T.
  - rewrite R, fst_pair, S2, H0t in H1t. discriminate H1t.
Qed.

Lemma short_stays h e : fams (pack h) -> notified (pack h) = true -> s_trip_flag (pack h) = true ->
  hub_gateway_safety_state (gway (checked logf undef h e).1) = PS_STATE_ESTOP /\
  (exists b oks, length oks = PS_ESTOP_REPEAT /\
     (after_short h e).2 = rounds (trip_frame b PS_ESTOP_BMS_SHORT (clock e)) oks) /\
  s_short_latched (pack (bms_turn logf undef h e).1) = true.
Proof.
  intros Hf Hn Ht. destruct (short_spec h e) as (_ & _ & Hl & _ & _ & Hs). cbv zeta in Hl, Hs.
  rewrite Hn, Ht in Hl, Hs. cbn [andb] in Hl, Hs. destruct (Hs eq_refl) as (Hst & A).
  pose proof (checked_estop h e Hf Hst) as Hc. split; [exact Hc|]. split; [exact A|].
  rewrite turn_fst.
  destruct (rearm_spec (reported logf undef h e) e) as (_ & _ & _ & Es & _). cbv zeta in Es.
  destruct (rest_split _ _ (reported_rest h e Hf)) as (E & _).
  destruct (sampled_fields h e) as (_ & _ & _ & _ & Sl & _).
  rewrite Es, (no_rearm h e Hc), E, Sl, Hl, orb_true_r. reflexivity.
Qed.

(** C23: A trip stops the suit.  If a turn latches a family, or handles an edge of the
    short-circuit latch, then in that turn the ESTOP frame with the matching cause goes
    out three times on both buses, and at its end the hub stands in ESTOP with the
    ESTOP_LATCHED bit of the SPI header set; a short is latched besides. *)
Theorem bms_trip_stops_suit h e : published (gway h) -> fams (pack h) ->
  let r := bms_turn logf undef h e in
  (forall fam, (fam < FAM_COUNT)%nat -> s_tripped (pack h) !!! fam = false -> s_tripped (pack r.1) !!! fam = true ->
     stopped (fam_cause fam) (clock e) r) /\
  (notified (pack h) = true -> s_trip_flag (pack h) = true ->
     stopped PS_ESTOP_BMS_SHORT (clock e) r /\ s_short_latched (pack r.1) = true).
Proof.
  intros Hp Hf. cbv zeta. split.
  - intros fam Hlt H0t H1t. pose proof (tripped_turn h e fam Hf Hlt H0t H1t) as Hc.
    destruct (trip_checked h e fam Hf Hlt H0t Hc) as (Hs & b & oks & pre & post & L & A).
    apply (stopped_turn h e _ Hp Hf Hs). exists b, oks, ((after_short h e).2 ++ pre), post.
    split; [exact L|]. rewrite A, <- app_assoc. reflexivity.
  - intros Hn Ht. destruct (short_stays h e Hf Hn Ht) as (Hs & (b & oks & L & A) & Hl).
    split; [|exact Hl]. apply (stopped_turn h e _ Hp Hf Hs). exists b, oks, [], (checked logf undef h e).2.
    split; [exact L|]. rewrite A, app_nil_l. reflexivity.
Qed.

(** ** The interlock of the re-arm *)

(** A turn without a short in which the mirror does not end in ESTOP sends nothing and
    leaves the mirror as it was. *)
Lemma quiet_turn h e : fams (pack h) -> notified (pack h) && s_trip_flag (pack h) = false ->
  hub_gateway_safety_state (gway (checked logf undef h e).1) <> PS_STATE_ESTOP ->
  pub_view (gway (checked logf undef h e).1) = pub_view (gway h) /\
  (after_short h e).2 ++ (checked logf undef h e).2 = [].
Proof.
  intros Hf Hns Hne. assert (gway (after_short h e).1 = gway h /\ (after_short h e).2 = []) as [G A].
  { unfold after_short, bms_handle_short_trip. cbv zeta. cbn [s_trip_flag pack].
    destruct (notified (pack h)); [|done]. cbn [andb] in Hns. by rewrite Hns. }
  destruct (sampled_fields h e) as (_ & _ & _ & _ & _ & _ & _ & _ & Sg).
  pose proof (checked_ran h e Hf) as R. cbv zeta in R. rewrite A.
  destruct (s_full_scan_done _); [|rewrite R, fst_pair, snd_pair, Sg, G; done].
  destruct (ran_quiet _ _ _ _ R) as [V Q]; [|by rewrite V, Q, Sg, G].
  apply list.Forall_forall. intros k Hk. apply not_true_iff_false. intros Ht.
  apply Hne. by apply (ran_trip _ _ _ _ R k Hk).
Qed.

Lemma rearms_short h e : rearms h e = true -> s_short_latched (pack h) = true ->
  s_rearm_requested (pack h) = true /\ hub_gateway_safety_state (gway h) = PS_STATE_STANDBY /\
  comp_status e = false /\ kill_fb e = true.
Proof.
  unfold rearms. intros Hr Hl. rewrite Hl in Hr. cbn [negb orb] in Hr.
  rewrite !andb_true_iff, negb_true_iff, Z.eqb_eq in Hr. tauto.
Qed.

(** Unlatching in a turn is a re-arm that goes through. *)
Lemma unlatch_rearms h e : s_short_latched (pack h) = true ->
  s_short_latched (pack (bms_try_rearm h e)) = false -> rearms h e = true.
Proof.
  intros Hl Hr. destruct (rearm_spec h e) as (_ & _ & _ & Es & _). rewrite Es, Hl in Hr.
  by destruct (rearms h e).
Qed.

(** C24: The latch of a short opens again only in a turn of the task in which a clear had been
    accepted, the suit stood in STANDBY, the comparator reported no overcurrent, and the
    kill gate confirmed that it had closed; no edge of the latch was waiting to be
    handled, and no family tripped in that turn. *)
Theorem bms_rearm_interlock h ev : fams (pack h) ->
  s_short_latched (pack h) = true -> s_short_latched (pack (bstep h ev).1) = false ->
  exists e, ev = BTurn e /\ s_rearm_requested (pack h) = true /\
    hub_gateway_safety_state (gway h) = PS_STATE_STANDBY /\
    comp_status e = false /\ kill_fb e = true /\
    notified (pack h) && s_trip_flag (pack h) = false /\ (bstep h ev).2 = [].
Proof.
  intros Hf Hl Hr. destruct ev as [e|c| |o]; [|exfalso; cbn in Hr; congruence..].
  exists e. split; [done|]. unfold bstep in *. rewrite turn_fst in Hr. rewrite turn_snd.
  destruct (rest_split _ _ (reported_rest h e Hf)) as (El & Eq & _).
  destruct (sampled_fields h e) as (_ & _ & Sq & _ & Sl & _).
  destruct (short_spec h e) as (_ & _ & Ssl & _ & _ & Hs). cbv zeta in Ssl, Hs. rewrite Hl, orb_true_l in Ssl.
  assert (s_short_latched (pack (reported logf undef h e)) = true) as Hl' by (rewrite El, Sl; exact Ssl).
  pose proof (unlatch_rearms _ e Hl' Hr) as Hrearm.
  destruct (rearms_short _ e Hrearm Hl') as (Hq & Hst & Hc & Hk). rewrite Eq, Sq in Hq.
  assert (hub_gateway_safety_state (gway (checked logf undef h e).1) <> PS_STATE_ESTOP) as Hne.
  { intros E. rewrite (no_rearm h e E) in Hrearm. discriminate Hrearm. }
  assert (notified (pack h) && s_trip_flag (pack h) = false) as Hns.
  { destruct (notified (pack h) && s_trip_flag (pack h)); [|done].
    destruct Hne. apply checked_estop; [done|]. by apply Hs. }
  destruct (quiet_turn h e Hf Hns Hne) as [V A].
  destruct (reported_core h e) as (_ & _ & _ & _ & V2). rewrite (view_state _ _ (eq_trans V2 V)) in Hst.
  exact (conj Hq (conj Hst (conj Hc (conj Hk (conj Hns A))))).
Qed.

(** ** The fault bits *)

Definition fam_bit (fam : nat) : Z := nth fam [1; 2; 3; 4; 6; 5] 8.

Record bits_ok (b : bms) : Prop := {
  bits_short : Z.testbit (s_fault_bits b) 0 = s_short_latched b;
  bits_armed : Z.testbit (s_fault_bits b) 7 = negb (s_short_latched b);
  bits_fam fam : (fam < FAM_COUNT)%nat -> s_tripped b !!! fam = true ->
    Z.testbit (s_fault_bits b) (fam_bit fam) = true }.

Lemma bits_ok_eq b b' : s_fault_bits b' = s_fault_bits b -> s_short_latched b' = s_short_latched b ->
  s_tripped b' = s_tripped b -> bits_ok b -> bits_ok b'.
Proof. intros E1 E2 E3 []. split; rewrite ?E1, ?E2; [done..|]. rewrite E3. done. Qed.

Lemma check_bit b k i : k ∈ checks b -> Z.testbit (k_bit k) i = (fam_bit (k_fam k) =? i).
Proof.
  intros Hk. unfold checks in Hk.
  repeat (apply elem_of_cons in Hk as [->|Hk]; [rewrite <- Z.pow2_bits_eqb by (cbn; lia); reflexivity|]).
  by apply not_elem_of_nil in Hk.
Qed.

Lemma checked_bits h e : fams (pack h) -> bits_ok (pack (sampled logf undef h e)) ->
  bits_ok (pack (checked logf undef h e).1).
Proof.
  intros Hf Hb. pose proof (checked_ran h e Hf) as R. cbv zeta in R.
  destruct (s_full_scan_done (pack (sampled logf undef h e))); [|rewrite R; exact Hb].
  set (s := sampled logf undef h e) in *. set (r := checked logf undef h e) in *. clearbody s r.
  destruct (rest_split _ _ (ran_rest _ _ _ _ R)) as (El & _).
  assert (forall i, (i = 0 \/ i = 7) -> Z.testbit (s_fault_bits (pack r.1)) i = Z.testbit (s_fault_bits (pack s)) i) as Hi.
  { intros i Hi. rewrite (ran_bits _ _ _ _ R).
    assert (existsb (fun k => trips (pack s) (k_fam k) (k_crit k) && Z.testbit (k_bit k) i) (checks (pack s)) = false) as ->;
      [|apply orb_false_r].
    apply not_true_iff_false. rewrite existsb_exists. intros (k & Hk & Ht). apply list_elem_of_In in Hk.
    rewrite (check_bit _ _ _ Hk), andb_true_iff, Z.eqb_eq in Ht. destruct Ht as [_ Ht].
    assert (1 <= fam_bit (k_fam k) <= 6) as Hr; [|lia].
    unfold checks in Hk. repeat (apply elem_of_cons in Hk as [->|Hk]; [cbn; lia|]). by apply not_elem_of_nil in Hk. }
  destruct Hb as [B0 B7 Bf]. split; [rewrite Hi, B0; auto | rewrite Hi, B7; auto; by rewrite El |].
  intros fam Hlt Ht. rewrite (ran_bits _ _ _ _ R).
  destruct (family_check (pack s) fam Hlt) as (k & Hk & <- & _).
  destruct (ran_in _ _ _ _ R k Hk) as [_ E]. rewrite Ht in E. symmetry in E. apply orb_true_iff in E as [E|E].
  - rewrite (Bf _ Hlt E). apply orb_true_l.
  - apply orb_true_iff. right. apply existsb_exists. exists k. split; [by apply list_elem_of_In|].
    by rewrite E, (check_bit _ _ _ Hk), Z.eqb_refl.
Qed.

Lemma short_bits h e : bits_ok (pack h) -> bits_ok (pack (sampled logf undef h e)).
Proof.
  intros [B0 B7 Bf]. destruct (sampled_fields h e) as (_ & Et & _ & _ & El & Eb & _).
  destruct (short_spec h e) as (_ & _ & Sl & Sb & _). cbv zeta in Sl, Sb. rewrite Sl in El. rewrite Sb in Eb.
  destruct (notified (pack h) && s_trip_flag (pack h)); cycle 1.
  { rewrite orb_false_r in El. by apply (bits_ok_eq (pack h)). }
  rewrite orb_true_r in El. split; [rewrite Eb, El.. |intros fam Hlt Ht; rewrite Eb].
  - rewrite Z.land_spec, Z.lor_spec, orb_true_r. reflexivity.
  - rewrite Z.land_spec. apply andb_false_r.
  - rewrite Et in Ht. rewrite Z.land_spec, Z.lor_spec, (Bf fam Hlt Ht), orb_true_l.
    do 6 (destruct fam as [|fam]; [reflexivity|]). unfold FAM_COUNT in Hlt. lia.
Qed.

Lemma rearm_bits h e : bits_ok (pack h) -> bits_ok (pack (bms_try_rearm h e)).
Proof.
  intros Hb. destruct (rearm_spec h e) as (_ & _ & Et & El & Eb & _). cbv zeta in *.
  destruct (rearms h e); [|rewrite andb_true_r in El; by apply (bits_ok_eq (pack h))].
  rewrite andb_false_r in El. destruct Hb as [B0 B7 _].
  split; [rewrite El, Eb..|intros fam Hlt Ht; rewrite Et, lookup_total_replicate_2 in Ht by done; discriminate Ht].
  - destruct (s_short_latched (pack h)); rewrite ?Z.lor_spec, Z.land_spec, B0; reflexivity.
  - destruct (s_short_latched (pack h)); rewrite ?Z.lor_spec, Z.land_spec, B7; reflexivity.
Qed.

Lemma bits_step h ev : fams (pack h) -> bits_ok (pack h) -> bits_ok (pack (bstep h ev).1).
Proof.
  intros Hf Hb. destruct ev as [e| | |]; [|by apply (bits_ok_eq (pack h))..]. unfold bstep. rewrite turn_fst.
  apply rearm_bits. destruct (reported_core h e) as (_ & Et & Eb & Er & _).
  destruct (rest_split _ _ Er) as (El & _).
  apply (bits_ok_eq _ _ Eb El Et), checked_bits; [done|]. by apply short_bits.
Qed.

Lemma bits_run evs h : fams (pack h) -> bits_ok (pack h) -> bits_ok (pack (brun h evs)).
Proof.
  revert h. induction evs as [|ev evs IH]; intros h Hf Hb; [done|]. cbn [brun foldl].
  apply IH; [by apply fams_step | by apply bits_step].
Qed.

(** The reported fault bits never hide a fault.  After a successful start from the zeroed
    state, whatever happens since: the SHORT_LATCH bit is set exactly while a short is
    latched, the COMP_ARMED bit exactly while none is, and the bit of every latched family
    is set. *)
Theorem bms_fault_bits b0 e g b evs : fresh_pack b0 -> s_fault_bits b0 = 0 -> s_short_latched b0 = false ->
  hub_bms_start b0 true e = (b, ESP_OK) ->
  let b' := pack (brun {| gway := g; pack := b |} evs) in
  Z.testbit (s_fault_bits b') 0 = s_short_latched b' /\
  Z.testbit (s_fault_bits b') 7 = negb (s_short_latched b') /\
  forall fam, (fam < FAM_COUNT)%nat -> s_tripped b' !!! fam = true -> Z.testbit (s_fault_bits b') (fam_bit fam) = true.
Proof.
  intros [Ed Et] Eb El Hs.
  assert (s_deb b = s_deb b0 /\ s_tripped b = s_tripped b0 /\
    Z.testbit (s_fault_bits b) 0 = s_short_latched b /\ Z.testbit (s_fault_bits b) 7 = negb (s_short_latched b))
    as (Hd & Ht & H0b & H7b).
  { unfold hub_bms_start in Hs. cbn [negb] in Hs. repeat case_match; simplify_eq; try done;
      try (match goal with E : _ = ESP_OK, N : negb (is_ok _) = true |- _ => rewrite E in N; discriminate N end);
      cbn; rewrite ?Eb, ?El; done. }
  assert (bits_ok (pack (brun {| gway := g; pack := b |} evs))) as [A B C]; [|done].
  apply bits_run; cbn [pack]; [split; by rewrite ?Hd, ?Ht, ?Ed, ?Et|].
  split; [done..|]. intros fam Hlt Hb. rewrite Ht, Et, lookup_total_replicate_2 in Hb by done. discriminate Hb.
Qed.

(** The converse fails after a short: a re-arm that closes the gate again clears every
    family latch, but keeps the families' fault bits, so the summary goes on reporting a
    trip that is no longer latched. *)
Theorem bms_stale_bits h e fam : rearms h e = true -> s_short_latched (pack h) = true -> (fam < FAM_COUNT)%nat ->
  let b' := pack (bms_try_rearm h e) in
  s_tripped b' !!! fam = false /\
  Z.testbit (s_fault_bits b') (fam_bit fam) = Z.testbit (s_fault_bits (pack h)) (fam_bit fam).
Proof.
  intros Hr Hl Hlt. cbv zeta. destruct (rearm_spec h e) as (_ & _ & Et & _ & Eb & _). cbv zeta in *.
  rewrite Et, Eb, Hr, Hl, lookup_total_replicate_2 by done. split; [done|]. rewrite Z.lor_spec, Z.land_spec.
  do 6 (destruct fam as [|fam]; [cbn [fam_bit nth]; match goal with |- context [Z.testbit (s_fault_bits ?x) ?i] =>
    by destruct (Z.testbit (s_fault_bits x) i) end|]). unfold FAM_COUNT in Hlt. lia.
Qed.

(** ** The multiplexer *)

(** At the start of every turn that is going to read a cell, the select lines have stood at
    that cell's address since the turn before. *)
Definition mux_settled (b : bms) : Prop :=
  let next := u32 (s_tick b + 1) mod HUB_BMS_SCAN_SLOTS in
  next < HUB_BMS_CELL_COUNT -> mux_sel b = next / 4.

Lemma mux_eq b b' : s_tick b' = s_tick b -> mux_sel b' = mux_sel b -> mux_settled b -> mux_settled b'.
Proof. unfold mux_settled. intros -> ->. done. Qed.

Lemma slow_slot_mux b e : mux_settled (bms_slow_slot logf undef b e).
Proof.
  unfold bms_slow_slot. set (b1 := sample_slot _ _ _ _ _). clearbody b1.
  assert (mux_settled (preselect b1)) as Hm.
  { assert (0 <= u32 (s_tick b1 + 1) mod HUB_BMS_SCAN_SLOTS < 16) by (apply Z.mod_pos_bound; done).
    unfold preselect. cbv zeta. destruct (Z.ltb_spec (u32 (s_tick b1 + 1) mod HUB_BMS_SCAN_SLOTS) HUB_BMS_CELL_COUNT)
      as [Hn|Hn]; unfold mux_settled; cbn [s_tick mux_sel];
      set (n := u32 (s_tick b1 + 1) mod HUB_BMS_SCAN_SLOTS) in *; clearbody n.
    - intros _. assert (forallb (fun n => ((n .>> 2) .& 1) + 2 * (((n .>> 2) .>> 1) .& 1) =? n / 4) (seqZ 0 12) = true)
        as Ht by reflexivity.
      rewrite forallb_forall in Ht. apply Z.eqb_eq, Ht, list_elem_of_In, elem_of_seqZ.
      unfold HUB_BMS_CELL_COUNT in Hn. lia.
    - intros. lia. }
  destruct (_ <=? _); [|done]. by apply (mux_eq (preselect b1)).
Qed.

Lemma mux_step h ev : fams (pack h) -> mux_settled (pack h) -> mux_settled (pack (bstep h ev).1).
Proof.
  intros Hf Hm. destruct ev as [e| | |]; [|by apply (mux_eq (pack h))..]. unfold bstep. rewrite turn_fst.
  destruct (rearm_keeps (reported logf undef h e) e) as (E1 & E2 & _). apply (mux_eq _ _ E1 E2).
  destruct (rest_split _ _ (reported_rest h e Hf)) as (_ & _ & _ & Et & Es & _).
  apply (mux_eq _ _ Et Es). apply slow_slot_mux.
Qed.

Lemma mux_run evs h : fams (pack h) -> mux_settled (pack h) -> mux_settled (pack (brun h evs)) /\ fams (pack (brun h evs)).
Proof.
  revert h. induction evs as [|ev evs IH]; intros h Hf Hm; [done|]. cbn [brun foldl].
  apply IH; [by apply fams_step | by apply mux_step].
Qed.

(** The cells through the rest of the turn. *)
Lemma turn_cells h e : fams (pack h) ->
  s_cell_mv (pack (bms_turn logf undef h e).1) = s_cell_mv (pack (sampled logf undef h e)).
Proof.
  intros Hf. rewrite turn_fst. destruct (rearm_keeps (reported logf undef h e) e) as (_ & _ & ->).
  by destruct (rest_split _ _ (reported_rest h e Hf)) as (_ & _ & _ & _ & _ & ->).
Qed.

(** The scan step of a cell slot whose sample [raw] is a converter value. *)
Lemma slow_slot_cell b e slot raw z : s_tick b mod HUB_BMS_SCAN_SLOTS = slot -> slot < HUB_BMS_CELL_COUNT ->
  adc e 1 (HUB_ADC1_CH_CELL_BASE + (slot .& 3)) = Some raw -> 0 <= raw <= 4095 -> cell_of raw = Some z ->
  s_cell_mv (bms_slow_slot logf undef b e) = <[Z.to_nat slot := z]> (s_cell_mv b).
Proof.
  intros Ht Hs Ha Hr Hz. unfold bms_slow_slot. rewrite Ht.
  assert (s_cell_mv (sample_slot logf undef b e slot) = <[Z.to_nat slot := z]> (s_cell_mv b)) as Es.
  { unfold sample_slot. rewrite (proj2 (Z.ltb_lt _ _) Hs).
    assert (adc_mv e 1 (HUB_ADC1_CH_CELL_BASE + (slot .& 3)) = adc_mv (raw_env raw) 1 0) as ->
      by (unfold adc_mv; rewrite Ha; reflexivity).
    destruct (conversions_ok raw Hr) as (-> & _). cbn [s_cell_mv]. unfold cast. unfold cell_of in Hz. by rewrite Hz. }
  set (b1 := sample_slot logf undef b e slot) in *. clearbody b1. unfold preselect. cbv zeta.
  destruct (_ <? HUB_BMS_CELL_COUNT); cbn; destruct (_ <=? _); exact Es.
Qed.

Lemma after_short_cells h e : s_cell_mv (pack (after_short h e).1) = s_cell_mv (pack h).
Proof.
  unfold after_short, bms_handle_short_trip. cbv zeta. destruct (notified (pack h)); [|done].
  cbn [s_trip_flag pack]. destruct (s_trip_flag (pack h)); [|done]. cbn [negb].
  match goal with |- context [bms_raise_estop ?h0 ?c ?t] =>
    destruct (raise_estop_spec h0 c t) as (C & _); set (r := bms_raise_estop h0 c t) in *; clearbody r end.
  apply core_split in C as (_ & _ & _ & C). by apply rest_split in C as (_ & _ & _ & _ & _ & ->).
Qed.

(** Every cell is measured at its own tap.  The analogue front end connects channel
    [CELL_BASE + j] to tap [4 * sel + j], where [sel] is where the select lines stand.
    In every state reachable from power-up, a turn whose slot belongs to a cell finds the
    lines at that cell's address (set one turn earlier), stores the converted sample of
    exactly that cell's tap in its entry, and leaves the other cells alone. *)
Theorem bms_cell_reads_its_tap h0 evs e (tap : Z -> Z) :
  fams (pack h0) -> s_tick (pack h0) = 0 -> mux_sel (pack h0) = 0 ->
  let h := brun h0 evs in
  let slot := u32 (s_tick (pack h) + 1) mod HUB_BMS_SCAN_SLOTS in
  slot < HUB_BMS_CELL_COUNT ->
  (forall j, 0 <= j < 4 -> adc e 1 (HUB_ADC1_CH_CELL_BASE + j) = Some (tap (4 * mux_sel (pack h) + j))) ->
  0 <= tap slot <= 4095 ->
  exists mv, cell_of (tap slot) = Some mv /\
    s_cell_mv (pack (bms_turn logf undef h e).1) = <[Z.to_nat slot := mv]> (s_cell_mv (pack h)).
Proof.
  intros Hf H0t H0m h slot Hs Ha Hr.
  assert (mux_settled (pack h) /\ fams (pack h)) as [Hm Hfh].
  { apply mux_run; [done|]. unfold mux_settled. rewrite H0t, H0m. intros _. reflexivity. }
  clearbody h. specialize (Hm Hs). fold slot in Hm.
  assert (0 <= slot < 16) as Hslot by (apply Z.mod_pos_bound; done).
  assert (slot .& 3 = slot mod 4) as Hj by (apply (land_mask slot 2); done).
  destruct (conversions_ok _ Hr) as (_ & _ & Hn & _).
  destruct (cell_of (tap slot)) as [z|] eqn:Hz; [|discriminate Hn]. exists z. split; [done|].
  rewrite turn_cells by done. unfold sampled. cbn [pack].
  destruct (short_spec h e) as ([= _ _ _ _ Et _ _] & _).
  rewrite (slow_slot_cell _ e slot (tap slot) z); [ | | done | | done | done].
  - destruct (sample_fast_fields undef {| (pack (after_short h e).1) with
      s_tick := u32 (s_tick (pack (after_short h e).1) + 1) |} e) as [_ [= _ _ _ ->]]. cbn [s_cell_mv].
    by rewrite after_short_cells.
  - destruct (sample_fast_fields undef {| (pack (after_short h e).1) with
      s_tick := u32 (s_tick (pack (after_short h e).1) + 1) |} e) as [_ [= -> _ _ _]]. cbn [s_tick]. by rewrite Et.
  - rewrite Hj, (Ha (slot mod 4)), Hm by (apply Z.mod_pos_bound; lia). f_equal. f_equal.
    symmetry. apply Z.div_mod. lia.
Qed.

End BmsProps.

(** ** Witnesses *)

Definition zero_can : ps_can_stats_t :=
  {| rx_frames := 0; tx_frames := 0; rx_dropped := 0; tx_timeouts := 0; bus_errors := 0; recoveries := 0 |}.

(** The zeroed state of the file. *)
Definition bms_zero : bms :=
  {| s_trip_cycles := 0; s_trip_flag := false; s_rearm_requested := false;
     s_cell_mv := replicate 12 0; s_ntc_cC := replicate 4 0; s_pack_cV := 0; s_curr_cA := 0;
     s_fault_bits := 0; s_short_latched := false; s_full_scan_done := false; s_tick := 0;
     s_deb := replicate FAM_COUNT 0; s_tripped := replicate FAM_COUNT false; s_warn_last_ms := replicate FAM_COUNT 0;
     s_safety_low := 0; s_estop_seq := 0; s_summary_seq := 0; s_cells_seq := 0; s_stats_seq := 0;
     s_cells_group := 0; s_prev_can := [zero_can; zero_can];
     s_prev_spib := {| transactions := 0; crc_errors := 0; uplink_overflows := 0; downlink_records := 0; seq_gaps := 0 |};
     notified := false; mux_sel := 0; strobes := 0 |}.

Definition start_ok : bms_start_env :=
  {| in_err := ESP_OK; out_err := ESP_OK; latch_err := ESP_OK; adc_err := ESP_OK; bms_task_ok := true;
     isr_err := ESP_OK; latch_level := true |}.

Definition demo_logf (x : f32) : f32 := of_Z 0.
Definition demo_undef (x : f32) : Z := 0.

Definition demo_hub : hub := {| gway := demo_started; pack := (hub_bms_start bms_zero true start_ok).1 |}.

(** A turn in which every channel reads [raw]: 1800 is a cell at 2.9 V, 1500 one at 2.4 V. *)
Definition demo_turn (raw : Z) : bms_env :=
  {| adc := fun _ _ => Some raw; comp_status := false; kill_fb := true; clock := 77 |}.

Lemma bms_trips_iff_witness :
  fifty_in_a_row (recent (history demo_logf demo_undef FAM_UV demo_hub (replicate 85 (BTurn (demo_turn 1500))))).
Proof.
  apply (bms_trips_iff demo_logf demo_undef FAM_UV demo_hub (replicate 85 (BTurn (demo_turn 1500))));
    [unfold FAM_UV, FAM_COUNT; lia | split; reflexivity | vm_compute; reflexivity].
Defined.

(** A hub whose short-circuit latch has just fired. *)
Definition demo_short : hub := {| demo_hub with pack := bms_sc_latch_isr (pack demo_hub) 5 |}.

Lemma demo_published : published (gway demo_hub).
Proof. exact (published_start demo_gw demo_bus demo_bus 5 true true true _ eq_refl eq_refl demo_start). Qed.

Lemma demo_fams : fams (pack demo_hub).
Proof. split; reflexivity. Qed.

Lemma bms_trip_stops_suit_witness :
  stopped PS_ESTOP_BMS_SHORT 77 (bms_turn demo_logf demo_undef demo_short (demo_turn 1800)).
Proof.
  apply (bms_trip_stops_suit demo_logf demo_undef demo_short (demo_turn 1800) demo_published);
    [split; reflexivity | reflexivity | reflexivity].
Defined.

(** The same hub after the short was handled, with a clear accepted and the suit in STANDBY. *)
Definition demo_rearm : hub :=
  let h := (bms_turn demo_logf demo_undef demo_short (demo_turn 1800)).1 in
  {| gway := {| (gway h) with s_mirror := {| (s_mirror (gway h)) with state := PS_STATE_STANDBY |} |};
     pack := hub_bms_notify_clear_accepted (pack h) |}.

Lemma bms_rearm_interlock_witness :
  s_short_latched (pack demo_rearm) = true /\ kill_fb (demo_turn 1800) = true.
Proof.
  destruct (bms_rearm_interlock demo_logf demo_undef demo_rearm (BTurn (demo_turn 1800)))
    as (e & E & _ & _ & _ & K & _); [split; vm_compute; reflexivity | vm_compute; reflexivity | vm_compute; reflexivity|].
  injection E as <-. exact (conj eq_refl K).
Defined.

Lemma bms_fault_bits_witness :
  Z.testbit (s_fault_bits (pack (brun demo_logf demo_undef demo_hub [BIsr 5; BTurn (demo_turn 1800)]))) 0 = true.
Proof.
  destruct (bms_fault_bits demo_logf demo_undef bms_zero start_ok demo_started (pack demo_hub)
    [BIsr 5; BTurn (demo_turn 1800)]) as (E & _); [split; reflexivity | reflexivity.. |].
  rewrite (E : Z.testbit (s_fault_bits (pack (brun demo_logf demo_undef demo_hub _))) 0 = _). vm_compute. reflexivity.
Defined.

Lemma bms_stale_bits_witness :
  exists h, s_tripped (pack h) !!! FAM_UV = false /\ Z.testbit (s_fault_bits (pack h)) (fam_bit FAM_UV) = true.
Proof.
  pose (h := {| demo_rearm with pack := {| (pack demo_rearm) with
    s_tripped := <[FAM_UV := true]> (s_tripped (pack demo_rearm)); s_fault_bits := 5 |} |}).
  destruct (bms_stale_bits h (demo_turn 1800) FAM_UV) as [A B];
    [vm_compute; reflexivity | vm_compute; reflexivity | unfold FAM_UV, FAM_COUNT; lia|].
  exists (bms_try_rearm h (demo_turn 1800)). split; [exact A|]. rewrite B. reflexivity.
Defined.

Lemma bms_cell_reads_its_tap_witness :
  exists mv, cell_of 1800 = Some mv /\
    s_cell_mv (pack (bms_turn demo_logf demo_undef demo_hub (demo_turn 1800)).1) !!! 1%nat = mv.
Proof.
  destruct (bms_cell_reads_its_tap demo_logf demo_undef demo_hub [] (demo_turn 1800) (fun _ => 1800))
    as (mv & E & C); [exact demo_fams | reflexivity | reflexivity | vm_compute; reflexivity | reflexivity | lia |].
  change (brun demo_logf demo_undef demo_hub []) with demo_hub in C.
  exists mv. split; [exact E|]. rewrite C. reflexivity.
Defined.
