(* ===== verification/Flight.v ===== *)
(** The flight node (src/firmware/apps/node_flight/main): flap commands and run-time
    parameters (comms_task.c), the servo loop with its envelope, exclusion and slew limits
    (servo_task.c, board_flight.h), the transition callback (safety_glue.c) and the
    telemetry of the attitude, the pitot and the flaps (aero_task.c).

    The node's safety glue is that of [SafetyEsp]; its CAN handle is the node's. *)
From S2P Require Import Prelude CanId Wire Rtos Txq Can Safety SafetySpec SafetyEsp Float32 Ctl Imu.
From Stdlib Require Import SpecFloat.

Definition PS_FLAP_COUNT : nat := 12.

Record ps_flap_cfg_t := {
  gpio : Z; pulse_min_us : Z; pulse_neutral_us : Z; pulse_max_us : Z;
  env_min_pm : Z; env_max_pm : Z; brake_pm : Z; slew_max_pct_s : Z; slew_default_pct_s : Z }.

Definition row (g mn nt mx e0 e1 br sl df : Z) : ps_flap_cfg_t :=
  {| gpio := g; pulse_min_us := mn; pulse_neutral_us := nt; pulse_max_us := mx; env_min_pm := e0;
     env_max_pm := e1; brake_pm := br; slew_max_pct_s := sl; slew_default_pct_s := df |}.

Definition PS_FLAP_TABLE : list ps_flap_cfg_t := [
  row 10 900 1500 2100 (-900)  900  800 250 120;
  row 11 900 1500 2100 (-900)  900  800 250 120;
  row 12 900 1500 2100 (-1000) 1000 900 250 120;
  row 13 900 1500 2100 (-1000) 1000 900 250 120;
  row 14 900 1500 2100 (-800)  800  700 200 100;
  row 15 900 1500 2100 (-800)  800  700 200 100;
  row 16 900 1500 2100 (-900)  900  800 250 120;
  row 21 900 1500 2100 (-900)  900  800 250 120;
  row 38 900 1500 2100 (-1000) 1000 900 250 120;
  row 39 900 1500 2100 (-1000) 1000 900 250 120;
  row 40 900 1500 2100 (-800)  800  700 200 100;
  row 41 900 1500 2100 (-800)  800  700 200 100 ].

Record ps_flap_pair_t := { pair_a : nat; pair_b : nat; joint_max_sum_pm : Z }.

Definition PS_FLAP_PAIRS : list ps_flap_pair_t := [
  {| pair_a := 0; pair_b := 1; joint_max_sum_pm := 1400 |};
  {| pair_a := 2; pair_b := 3; joint_max_sum_pm := 1600 |};
  {| pair_a := 6; pair_b := 7; joint_max_sum_pm := 1400 |};
  {| pair_a := 8; pair_b := 9; joint_max_sum_pm := 1600 |} ].

Record flight_target_t := { t_pos_pm : Z; t_rate_lim : Z; t_brake : bool }.
Record flight_flap_state_t := { st_pos_pm : Z; st_target_pm : Z; st_at_limit : bool }.

Definition neutral_target : flight_target_t := {| t_pos_pm := 0; t_rate_lim := 0; t_brake := false |}.

Definition SERVO_TASK_PERIOD_MS : Z := 10.

(** ** The servo loop *)

Definition clamp_pm (v lo hi : Z) : Z := if v <? lo then lo else if hi <? v then hi else v.

(** The compare value [flap_write] puts out for a position. *)
Definition flap_write (c : ps_flap_cfg_t) (pos_pm : Z) : Z :=
  let pos_pm := clamp_pm pos_pm (env_min_pm c) (env_max_pm c) in
  let pulse :=
    if 0 <=? pos_pm
    then pulse_neutral_us c + Z.quot (pos_pm * (pulse_max_us c - pulse_neutral_us c)) 1000
    else pulse_neutral_us c + Z.quot (pos_pm * (pulse_neutral_us c - pulse_min_us c)) 1000 in
  let pulse := if pulse <? pulse_min_us c then pulse_min_us c else pulse in
  let pulse := if pulse_max_us c <? pulse then pulse_max_us c else pulse in
  pulse.

(** Target and envelope of one flap: the clamped value and whether it is limited. *)
Definition servo_want (can_act : bool) (c : ps_flap_cfg_t) (tgt : flight_target_t) : Z * bool :=
  let w := if negb can_act then 0 else if t_brake tgt then brake_pm c else t_pos_pm tgt in
  let clamped := clamp_pm w (env_min_pm c) (env_max_pm c) in
  (clamped, negb (clamped =? w) || (clamped =? env_min_pm c) || (clamped =? env_max_pm c)).

(** A magnitude reduced by [cut], the sign kept. *)
Definition reduce (w cut : Z) : Z :=
  let mag := (if w <? 0 then - w else w) - cut in
  let mag := if mag <? 0 then 0 else mag in
  i16 (if w <? 0 then - mag else mag).

(** One pair of the exclusion loop. *)
Definition exclude (ws : list (Z * bool)) (pr : ps_flap_pair_t) : list (Z * bool) :=
  let a := (ws !!! pair_a pr).1 in let b := (ws !!! pair_b pr).1 in
  let sum := (if a <? 0 then - a else a) + (if b <? 0 then - b else b) in
  if joint_max_sum_pm pr <? sum then
    let cut := Z.quot (sum - joint_max_sum_pm pr + 1) 2 in
    let ws := <[pair_a pr := (reduce a cut, true)]> ws in
    let b := (ws !!! pair_b pr).1 in
    <[pair_b pr := (reduce b cut, true)]> ws
  else ws.

(** The first two loops of the servo task: the targets of a turn, each with whether it is
    limited. *)
Definition wants (can_act : bool) (tgt : list flight_target_t) : list (Z * bool) :=
  foldl exclude (zip_with (servo_want can_act) PS_FLAP_TABLE tgt) PS_FLAP_PAIRS.

Section Servo.
Context (undef : f32 -> Z).

(** The step of the slew limit, in permille per tick.  The conversion to [int32_t] is
    undefined in C for a value out of range. *)
Definition slew_step (can_act : bool) (rate_scale : f32) (c : ps_flap_cfg_t) (tgt : flight_target_t) : Z :=
  let pct_s := slew_default_pct_s c in
  let pct_s := if can_act && negb (t_rate_lim tgt =? 0) && (t_rate_lim tgt <? pct_s) then t_rate_lim tgt else pct_s in
  let pct_s := if slew_max_pct_s c <? pct_s then slew_max_pct_s c else pct_s in
  let r := (of_Z pct_s * of_Z 10 * rate_scale)%f32 in
  let step := Z.quot (i32 (default (undef r) (to_int (-2147483648) 2147483647 r) * SERVO_TASK_PERIOD_MS)) 1000 in
  if step <? 1 then 1 else step.

Definition slew (cur want step : Z) : Z :=
  let delta := want - cur in
  let delta := if step <? delta then step else if delta <? - step then - step else delta in
  i16 (cur + delta).

(** What the servo task keeps and writes: positions, compare values, published states. *)
Record servo := { cur_pm : list Z; s_cmp : list Z; s_states : list flight_flap_state_t }.

(** One turn of the loop of [servo_task]; [tgt] is the snapshot of the targets. *)
Definition servo_tick (s : servo) (tgt : list flight_target_t) (can_act : bool) (rate_scale : f32) : servo :=
  let ws := wants can_act tgt in
  let steps := zip_with (slew_step can_act rate_scale) PS_FLAP_TABLE tgt in
  let cur := zip_with (fun c '(w, step) => slew c w step) (cur_pm s) (zip (fst <$> ws) steps) in
  {| cur_pm := cur; s_cmp := zip_with flap_write PS_FLAP_TABLE cur;
     s_states := zip_with (fun c '(w, l) => {| st_pos_pm := c; st_target_pm := w; st_at_limit := l |}) cur ws |}.

(** [servo_bank_init] and the initial positions. *)
Definition servo_start : servo :=
  {| cur_pm := replicate PS_FLAP_COUNT 0; s_cmp := pulse_neutral_us <$> PS_FLAP_TABLE;
     s_states := replicate PS_FLAP_COUNT {| st_pos_pm := 0; st_target_pm := 0; st_at_limit := false |} |}.

End Servo.

(** ** Parameters *)

Definition PS_RHO_DEFAULT : f32 := flit 1225 1000.

(** A [double]: the literals and the comparison of the range checks. *)
Definition dlit (n d : Z) : spec_float := SFdiv 53 1024 (binary_normalize 53 1024 n 0 false) (binary_normalize 53 1024 d 0 false).

(** [(float)x] of a double. *)
Definition to_float (x : spec_float) : f32 :=
  match x with S754_finite s m e => binary_round 24 128 s m e | _ => x end.

Inductive param := Rho | RateScale | OtherParam.

Record params := { s_rho : f32; s_rate_scale : f32 }.

(** [name]: [None] is the null pointer. *)
Definition flight_param_set (p : params) (name : option param) (value : spec_float) : params * bool :=
  match name with
  | Some Rho => if SFltb value (dlit 1 2) || SFltb (dlit 5 2) value then (p, false)
                else ({| p with s_rho := to_float value |}, true)
  | Some RateScale => if SFltb value (dlit 5 100) || SFltb (dlit 1 1) value then (p, false)
                      else ({| p with s_rate_scale := to_float value |}, true)
  | _ => (p, false)
  end.

Definition flight_param_rho (p : params) : f32 := s_rho p.
Definition flight_param_rate_scale (p : params) : f32 := s_rate_scale p.

(** ** Targets and telemetry *)

Section Flight.
Context `{RtosQueue} `{TwaiDlc} (undef : f32 -> Z).

Record flight := {
  s_targets : list flight_target_t;
  srv : servo;
  prm : params;
  s_telem_seq : list Z;
  safety : glue;
  aero_tick : Z; q_filt : f32; last_sent : list flight_flap_state_t;
  imu_ok : bool; imu : imu_mpu6050_t; mahony : ps_mahony_t;
}.

Definition flight_targets_set (s : flight) (flap : Z) (pos_pm rate_lim : Z) (brake : bool) : flight :=
  if Z.of_nat PS_FLAP_COUNT <=? flap then s else
  {| s with s_targets := <[Z.to_nat flap := {| t_pos_pm := pos_pm; t_rate_lim := rate_lim; t_brake := brake |}]> (s_targets s) |}.

Definition flight_targets_neutral_all (s : flight) : flight :=
  {| s with s_targets := replicate PS_FLAP_COUNT neutral_target |}.

Definition flight_telem_send (s : flight) (cls type : Z) (payload : list Z) (len : Z) : flight :=
  match can (safety s) with
  | None => s
  | Some c =>
    let k := Z.to_nat type in
    let f := {| f_id := ps_can_id_pack cls PS_NODE_FLIGHT PS_NODE_ORCH type (s_telem_seq s !!! k);
                f_dlc := len;
                f_data := bput 0 (take (if 8 <? len then 8%nat else Z.to_nat len) payload) (replicate 8 0) |} in
    {| s with s_telem_seq := <[k := u8 (s_telem_seq s !!! k + 1)]> (s_telem_seq s);
              safety := {| (safety s) with can := (ps_can_send (Some c) (Some f)).1 |} |}
  end.

(** [flight_safety_on_transition], once for each reported transition. *)
Definition flight_safety_on_transition (s : flight) (calls : list user_call) : flight :=
  foldl (fun s u =>
    if (uc_new u =? PS_STATE_PASSIVE) || (uc_new u =? PS_STATE_ESTOP) || (uc_new u =? PS_STATE_FAULT)
    then flight_targets_neutral_all s else s) s calls.

(** Whatever the safety glue does, its callbacks included. *)
Definition with_safety (s : flight) (r : glue * list user_call) : flight :=
  flight_safety_on_transition {| s with safety := r.1 |} r.2.

Definition control_rx (s : flight) (t : Z) (frame : ps_can_frame_t) : flight :=
  let type := ps_can_id_type (f_id frame) in
  if type =? PS_T_FLAP_CMD then
    if f_dlc frame <? Z.of_nat (wire_size ps_flap_cmd_t) then s else
    let cmd : ps_flap_cmd_t := wire_read (f_data frame) in
    if Z.of_nat PS_FLAP_COUNT <=? fc_flap cmd then s else
    let pos_pm := fc_pos_pm cmd in
    let pos_pm := if pos_pm <? -1000 then -1000 else if 1000 <? pos_pm then 1000 else pos_pm in
    let s := flight_targets_set s (fc_flap cmd) pos_pm (fc_rate_lim cmd) (has (fc_flags cmd) 1) in
    {| s with safety := ps_safety_note_cmd (safety s) t |}
  else if type =? PS_T_MODE_SET then
    let ms : ps_mode_set_t := wire_read (copy_short (wire_size ps_mode_set_t) frame) in
    let s := {| s with safety := ps_safety_note_cmd (safety s) t |} in
    with_safety s (ps_safety_note_mode_set (safety s) t (ms_target_state ms))
  else s.

(** One turn of [servo_task]. *)
Definition servo_turn (s : flight) : flight :=
  {| s with srv := servo_tick undef (srv s) (s_targets s) (ps_safety_can_actuate (safety s))
                     (flight_param_rate_scale (prm s)) |}.

(** One turn of [comms_task]; [prev] are the statistics of the turn before. *)
Definition flight_stats (cur prev : ps_can_stats_t) (st : Z) : ps_node_stats_t :=
  let sat z := u16 (if 0xFFFF <? z then 0xFFFF else z) in
  {| ns_cpu_pct := 0; ns_state := st;
     ns_rx_fps := sat (u32 (rx_frames cur - rx_frames prev));
     ns_tx_fps := sat (u32 (tx_frames cur - tx_frames prev));
     ns_err_cnt := sat (u32 (u32 (bus_errors cur - bus_errors prev) + u32 (rx_dropped cur - rx_dropped prev) +
                             u32 (tx_timeouts cur - tx_timeouts prev))) |}.

Definition comms_turn (s : flight) (prev : ps_can_stats_t) : flight * ps_can_stats_t :=
  let cur := ps_can_get_stats (can (safety s)) prev in
  let st := ps_safety_state (safety s) in
  let s := flight_telem_send s PS_CLS_TELEM PS_T_NODE_STATS (wire_write (flight_stats cur prev st)) 8 in
  let ver := {| ve_major := 0; ve_minor := 1; ve_patch := 0; ve_node_state := ps_safety_state (safety s);
                ve_git_short := 0 |} in
  (flight_telem_send s PS_CLS_MGMT PS_T_VERSION (wire_write ver) 8, cur).

(** *** Attitude *)

Definition AERO_TICK_MS : Z := 10.

(** [raw]: the register block of the sensor, or [None] where the bus fails. *)
Definition aero_imu (s : flight) (raw : option (list Z)) : flight :=
  if negb (imu_ok s) then s else
  match flight_imu_read (imu s) raw with
  | Some ([a0; a1; a2], [g0; g1; g2]) =>
    let m := ps_mahony_update (mahony s) (g0 * DEG_TO_RAD)%f32 (g1 * DEG_TO_RAD)%f32 (g2 * DEG_TO_RAD)%f32 a0 a1 a2
               (of_Z AERO_TICK_MS / of_Z 1000)%f32 in
    let q := ps_mahony_get_quat_q15 undef m in
    let quat := {| iq_qw := q !!! 0%nat; iq_qx := q !!! 1%nat; iq_qy := q !!! 2%nat; iq_qz := q !!! 3%nat |} in
    let acc := {| ia_ax := sat_i16 undef (a0 * of_Z 1000)%f32; ia_ay := sat_i16 undef (a1 * of_Z 1000)%f32;
                  ia_az := sat_i16 undef (a2 * of_Z 1000)%f32; ia_rsvd := 0 |} in
    let gyr := {| ig_gx := sat_i16 undef (g0 * of_Z 10)%f32; ig_gy := sat_i16 undef (g1 * of_Z 10)%f32;
                  ig_gz := sat_i16 undef (g2 * of_Z 10)%f32; ig_rsvd := 0 |} in
    let s := {| s with mahony := m |} in
    let s := flight_telem_send s PS_CLS_TELEM PS_T_IMU_QUAT (wire_write quat) 8 in
    let s := flight_telem_send s PS_CLS_TELEM PS_T_IMU_ACC (wire_write acc) 8 in
    flight_telem_send s PS_CLS_TELEM PS_T_IMU_GYR (wire_write gyr) 8
  | _ => s
  end.

(** *** Pitot *)

Definition PS_PITOT_ZERO_MV : f32 := of_Z 1650.
Definition PS_PITOT_PA_PER_MV : f32 := of_Z 3.

(** [raw] and [mv]: the converter's sample and the calibration's answer, if they succeed. *)
Definition pitot_read_mv (raw mv : option Z) : f32 :=
  match raw with
  | None => PS_PITOT_ZERO_MV
  | Some raw => match mv with
                | Some mv => of_Z mv
                | None => (of_Z raw * (of_Z 3300 / of_Z 4095))%f32
                end
  end.

Definition sat_u16 (v : f32) : Z :=
  if (v <=? of_Z 0)%f32 then 0 else if (of_Z 65535 <=? v)%f32 then 65535 else default (undef v) (to_u16 v).

Definition fmaxf (x y : f32) : f32 :=
  match x, y with S754_nan, _ => y | _, S754_nan => x | _, _ => if (x <? y)%f32 then y else x end.

Definition AERO_F_NO_VANE : Z := 1.

Definition aero_filter (q mv : f32) : f32 :=
  let q_pa := ((mv - PS_PITOT_ZERO_MV) * PS_PITOT_PA_PER_MV)%f32 in
  let q_pa := if (q_pa <? of_Z 0)%f32 then of_Z 0 else q_pa in
  (q + flit 2 10 * (q_pa - q))%f32.

Definition aero_state (q rho : f32) : ps_aero_state_t :=
  let ias_ms := SFsqrt 24 128 (fmaxf (of_Z 0) (of_Z 2 * q / rho)%f32) in
  {| ae_ias_cms := sat_u16 (ias_ms * of_Z 100)%f32; ae_q_pa := sat_u16 q; ae_aoa_cdeg := 0;
     ae_flags := AERO_F_NO_VANE |}.

Definition aero_pitot (s : flight) (raw mv : option Z) : flight :=
  let s := {| s with q_filt := aero_filter (q_filt s) (pitot_read_mv raw mv) |} in
  flight_telem_send s PS_CLS_TELEM PS_T_AERO_STATE
    (wire_write (aero_state (q_filt s) (flight_param_rho (prm s)))) 8.

(** *** Flap telemetry *)

Definition changed (a b : flight_flap_state_t) : bool :=
  negb (st_pos_pm a =? st_pos_pm b) || negb (st_target_pm a =? st_target_pm b) ||
  negb (Bool.eqb (st_at_limit a) (st_at_limit b)).

(** Is flap [i] sent in the slot of this tick? *)
Definition flap_due (tick : Z) (i : nat) (snap last : flight_flap_state_t) : bool :=
  changed snap last || ((tick / 5) mod 10 =? Z.of_nat i mod 10) || (tick mod 500 =? 0).

Definition flap_msg (i : nat) (st : flight_flap_state_t) : ps_flap_state_t :=
  {| fs_flap := u8 (Z.of_nat i); fs_flags := (if st_at_limit st then 1 else 0); fs_pos_pm := st_pos_pm st;
     fs_target_pm := st_target_pm st; fs_rsvd := 0 |}.

(** One turn of the loop over the flaps. *)
Definition flap_telem (s : flight) (snap : list flight_flap_state_t) (i : nat) : flight :=
  match snap !! i, last_sent s !! i with
  | Some st, Some last =>
    if flap_due (aero_tick s) i st last then
      let s := flight_telem_send s PS_CLS_TELEM PS_T_FLAP_STATE (wire_write (flap_msg i st)) 8 in
      {| s with last_sent := <[i := st]> (last_sent s) |}
    else s
  | _, _ => s
  end.

(** The start of [aero_task]; the flap states of the first burst differ from all others. *)
Definition aero_start (s : flight) (imu_calls : list esp_err_t) : flight :=
  let '(i, err) := flight_imu_init (imu s) imu_calls in
  {| s with imu := i; imu_ok := is_ok err; mahony := ps_mahony_init (flit 1 2) (flit 1 100); q_filt := of_Z 0; aero_tick := 0;
            last_sent := replicate PS_FLAP_COUNT {| st_pos_pm := -1; st_target_pm := -1; st_at_limit := true |} |}.

(** One turn of [aero_task]. *)
Definition aero_turn (s : flight) (imu_raw : option (list Z)) (raw mv : option Z) : flight :=
  let s := {| s with aero_tick := u32 (aero_tick s + 1) |} in
  let s := aero_imu s imu_raw in
  let s := if aero_tick s mod 2 =? 0 then aero_pitot s raw mv else s in
  if aero_tick s mod 5 =? 0
  then foldl (fun s' i => flap_telem s' (s_states (srv s)) i) s (seq 0 PS_FLAP_COUNT)
  else s.

End Flight.
