(* ===== verification/FlightSpec.v ===== *)
(** What the flight node guarantees: pulses inside the mechanical envelope whatever is
    commanded, targets inside the joint envelopes, neutral flaps in ESTOP, flap telemetry
    that never goes silent; and where the joint envelope and the parameter check fall
    short. *)
From S2P Require Import Prelude CanId Wire Rtos Txq Can Safety SafetySpec SafetyEsp Float32 Ctl Imu Flight.
From Stdlib Require Import SpecFloat.

(** ** The table *)

Definition cfg_ok (c : ps_flap_cfg_t) : Prop :=
  0 <= pulse_min_us c <= pulse_neutral_us c /\ pulse_neutral_us c <= pulse_max_us c /\
  -1000 <= env_min_pm c <= 0 /\ 0 <= env_max_pm c <= 1000 /\
  env_min_pm c <= brake_pm c <= env_max_pm c /\
  1 <= slew_default_pct_s c <= slew_max_pct_s c /\ slew_max_pct_s c <= 255.

Lemma table_ok : Forall cfg_ok PS_FLAP_TABLE.
Proof. repeat constructor; cbn; lia. Qed.

Lemma table_length : length PS_FLAP_TABLE = PS_FLAP_COUNT.
Proof. reflexivity. Qed.

Lemma flap_write_range c pos : cfg_ok c -> pulse_min_us c <= flap_write c pos <= pulse_max_us c.
Proof.
  intros (? & ? & _). unfold flap_write. cbv zeta. set (p := if 0 <=? _ then _ else _). clearbody p.
  destruct (Z.ltb_spec p (pulse_min_us c));
    [destruct (Z.ltb_spec (pulse_max_us c) (pulse_min_us c)) | destruct (Z.ltb_spec (pulse_max_us c) p)]; lia.
Qed.

Lemma flap_write_neutral c : cfg_ok c -> flap_write c 0 = pulse_neutral_us c.
Proof.
  intros (? & ? & ? & ? & _). unfold flap_write, clamp_pm. cbv zeta.
  destruct (Z.ltb_spec 0 (env_min_pm c)); [lia|]. destruct (Z.ltb_spec (env_max_pm c) 0); [lia|].
  change (0 <=? 0) with true. cbv iota. rewrite Z.mul_0_l, Z.quot_0_l, Z.add_0_r by lia.
  destruct (Z.ltb_spec (pulse_neutral_us c) (pulse_min_us c)); [lia|].
  destruct (Z.ltb_spec (pulse_max_us c) (pulse_neutral_us c)); lia.
Qed.

Definition in_env (c : ps_flap_cfg_t) (p : Z) : Prop := env_min_pm c <= p <= env_max_pm c.

Lemma clamp_pm_range v lo hi : lo <= hi -> lo <= clamp_pm v lo hi <= hi.
Proof. intros. unfold clamp_pm. destruct (Z.ltb_spec v lo), (Z.ltb_spec hi v); lia. Qed.

Lemma want_env can_act c t : cfg_ok c -> in_env c (servo_want can_act c t).1.
Proof. intros (_ & _ & ? & ? & _). apply clamp_pm_range. lia. Qed.

Lemma want_passive c t : cfg_ok c -> (servo_want false c t).1 = 0.
Proof.
  intros (_ & _ & ? & ? & _). cbn. unfold clamp_pm.
  destruct (Z.ltb_spec 0 (env_min_pm c)); [lia|]. destruct (Z.ltb_spec (env_max_pm c) 0); lia.
Qed.

(** ** Exclusion *)

Lemma reduce_spec w cut : -1000 <= w <= 1000 -> 0 <= cut ->
  Z.abs (reduce w cut) = Z.max 0 (Z.abs w - cut) /\ (0 <= w -> 0 <= reduce w cut) /\ (w <= 0 -> reduce w cut <= 0).
Proof.
  intros Hw Hc. unfold reduce. cbv zeta.
  destruct (Z.ltb_spec w 0); [destruct (Z.ltb_spec (- w - cut) 0) | destruct (Z.ltb_spec (w - cut) 0)];
    rewrite i16_id by clia; lia.
Qed.

(** Values within one thousand, and a pair whose members exist. *)
Definition pair_ok (n : nat) (pr : ps_flap_pair_t) : Prop :=
  (pair_a pr < n)%nat /\ (pair_b pr < n)%nat /\ pair_a pr <> pair_b pr /\ 1000 <= joint_max_sum_pm pr.

Definition joint (ws : list (Z * bool)) (pr : ps_flap_pair_t) : Prop :=
  Z.abs (ws !!! pair_a pr).1 + Z.abs (ws !!! pair_b pr).1 <= joint_max_sum_pm pr.

(** [ws'] moves every value of [ws] toward zero, or leaves it. *)
Definition toward_zero (ws ws' : list (Z * bool)) : Prop :=
  length ws' = length ws /\ forall i, (i < length ws)%nat ->
    (0 <= (ws !!! i).1 -> 0 <= (ws' !!! i).1 <= (ws !!! i).1) /\
    ((ws !!! i).1 <= 0 -> (ws !!! i).1 <= (ws' !!! i).1 <= 0).

Lemma toward_refl ws : toward_zero ws ws.
Proof. split; [done|]. intros. lia. Qed.

Lemma toward_trans a b c : toward_zero a b -> toward_zero b c -> toward_zero a c.
Proof.
  intros [L1 H1] [L2 H2]. split; [lia|]. intros i Hi. specialize (H1 i Hi). specialize (H2 i ltac:(lia)). lia.
Qed.

Definition bounded_by_1000 (ws : list (Z * bool)) : Prop :=
  forall i, (i < length ws)%nat -> -1000 <= (ws !!! i).1 <= 1000.

Lemma exclude_spec ws pr : pair_ok (length ws) pr -> bounded_by_1000 ws ->
  toward_zero ws (exclude ws pr) /\ joint (exclude ws pr) pr /\
  (forall i, i <> pair_a pr -> i <> pair_b pr -> exclude ws pr !!! i = ws !!! i) /\
  (joint ws pr -> exclude ws pr = ws).
Proof.
  intros (Ha & Hb & Hne & Hj) Hbd. pose proof (Hbd _ Ha) as Ba. pose proof (Hbd _ Hb) as Bb.
  unfold exclude, joint. cbv zeta.
  assert (forall z : Z, (if z <? 0 then - z else z) = Z.abs z) as Habs
    by (intros z; destruct (Z.ltb_spec z 0); lia).
  rewrite !Habs. set (a := (ws !!! pair_a pr).1) in *. set (b := (ws !!! pair_b pr).1) in *.
  destruct (Z.ltb_spec (joint_max_sum_pm pr) (Z.abs a + Z.abs b)) as [Hs|Hs]; cycle 1.
  { split_and!; [apply toward_refl | fold a b; lia | done | done]. }
  set (cut := Z.quot _ 2). rewrite list_lookup_total_insert_ne by done. fold b.
  assert (0 <= cut /\ Z.abs a + Z.abs b - joint_max_sum_pm pr <= 2 * cut) as [Hc0 Hc].
  { unfold cut. pose proof (Z.quot_rem (Z.abs a + Z.abs b - joint_max_sum_pm pr + 1) 2 ltac:(lia)).
    pose proof (Z.rem_bound_pos (Z.abs a + Z.abs b - joint_max_sum_pm pr + 1) 2 ltac:(lia) ltac:(lia)).
    split; [apply Z.quot_pos; lia|lia]. }
  clearbody cut. destruct (reduce_spec a cut Ba Hc0) as (Ra & Ra1 & Ra2).
  destruct (reduce_spec b cut Bb Hc0) as (Rb & Rb1 & Rb2).
  set (ws' := <[pair_b pr := _]> _).
  assert (ws' !!! pair_a pr = (reduce a cut, true)) as Ea.
  { unfold ws'. rewrite list_lookup_total_insert_ne by done. by apply list_lookup_total_insert_eq. }
  assert (ws' !!! pair_b pr = (reduce b cut, true)) as Eb.
  { unfold ws'. apply list_lookup_total_insert_eq. by rewrite length_insert. }
  assert (forall i, i <> pair_a pr -> i <> pair_b pr -> ws' !!! i = ws !!! i) as Eo.
  { intros i H1 H2. unfold ws'. by rewrite !list_lookup_total_insert_ne by done. }
  assert (length ws' = length ws) as El by (unfold ws'; by rewrite !length_insert). clearbody ws'.
  split_and!; [split; [done|] | rewrite Ea, Eb; cbn; lia | done | lia].
  intros i Hi. destruct (decide (i = pair_a pr)) as [->|]; [rewrite Ea; fold a; cbn; lia|].
  destruct (decide (i = pair_b pr)) as [->|]; [rewrite Eb; fold b; cbn; lia|]. rewrite Eo by done. lia.
Qed.

Definition disjoint_from (pr : ps_flap_pair_t) (qs : list ps_flap_pair_t) : Prop :=
  Forall (fun q => pair_a q <> pair_a pr /\ pair_a q <> pair_b pr /\ pair_b q <> pair_a pr /\ pair_b q <> pair_b pr) qs.

Fixpoint disjoint_pairs (qs : list ps_flap_pair_t) : Prop :=
  match qs with [] => True | q :: qs => disjoint_from q qs /\ disjoint_pairs qs end.

Lemma exclude_all qs ws : Forall (pair_ok (length ws)) qs -> disjoint_pairs qs -> bounded_by_1000 ws ->
  let ws' := foldl exclude ws qs in
  toward_zero ws ws' /\ Forall (joint ws') qs /\
  (forall i, Forall (fun q => i <> pair_a q /\ i <> pair_b q) qs -> ws' !!! i = ws !!! i) /\
  (Forall (joint ws) qs -> ws' = ws).
Proof.
  revert ws. induction qs as [|q qs IH]; intros ws Hok Hdis Hb; cbn [foldl].
  { split_and!; [apply toward_refl | done..]. }
  apply list.Forall_cons in Hok as [Hq Hqs]. destruct Hdis as [Hd Hdis].
  destruct (exclude_spec ws q Hq Hb) as (T & J & O & E). pose proof T as [L T'].
  assert (bounded_by_1000 (exclude ws q)) as Hb'.
  { intros i Hi. rewrite L in Hi. specialize (T' i Hi). specialize (Hb i Hi). lia. }
  destruct (IH (exclude ws q)) as (T2 & J2 & O2 & E2); [by rewrite L | done | done |].
  split_and!.
  - by eapply toward_trans.
  - constructor; [|done]. unfold joint. unfold disjoint_from in Hd. rewrite list.Forall_forall in Hd.
    rewrite !O2; [done| |]; apply list.Forall_forall; intros p Hp; specialize (Hd p Hp); intuition congruence.
  - intros i [Hi His]%list.Forall_cons. rewrite O2 by done. apply O; tauto.
  - intros [H1 H2]%list.Forall_cons. rewrite (E H1) in *. by apply E2.
Qed.

Lemma zip_wants_lookup can_act tgt i c t : PS_FLAP_TABLE !! i = Some c -> tgt !! i = Some t ->
  zip_with (servo_want can_act) PS_FLAP_TABLE tgt !!! i = servo_want can_act c t.
Proof. intros Hc Ht. apply list_lookup_total_correct. by rewrite lookup_zip_with, Hc, Ht. Qed.

Lemma lookup_in_range {A} (l : list A) i n : length l = n -> (i < n)%nat -> exists x, l !! i = Some x.
Proof. intros <- Hi. by apply lookup_lt_is_Some_2. Qed.

Lemma wants_spec can_act tgt : length tgt = PS_FLAP_COUNT ->
  length (wants can_act tgt) = PS_FLAP_COUNT /\ Forall (joint (wants can_act tgt)) PS_FLAP_PAIRS /\
  toward_zero (zip_with (servo_want can_act) PS_FLAP_TABLE tgt) (wants can_act tgt) /\
  (Forall (joint (zip_with (servo_want can_act) PS_FLAP_TABLE tgt)) PS_FLAP_PAIRS ->
    wants can_act tgt = zip_with (servo_want can_act) PS_FLAP_TABLE tgt).
Proof.
  intros Hl. set (ws := zip_with (servo_want can_act) PS_FLAP_TABLE tgt).
  assert (length ws = PS_FLAP_COUNT) as Hw by (unfold ws; rewrite length_zip_with, Hl; reflexivity).
  assert (bounded_by_1000 ws) as Hb.
  { intros i Hi. rewrite Hw in Hi. destruct (lookup_in_range PS_FLAP_TABLE i PS_FLAP_COUNT eq_refl Hi) as [c Hc].
    destruct (lookup_in_range tgt i _ Hl Hi) as [t Ht]. unfold ws. rewrite (zip_wants_lookup _ _ _ _ _ Hc Ht).
    pose proof (Forall_lookup_1 _ _ _ _ table_ok Hc) as Hok. pose proof (want_env can_act c t Hok) as [? ?].
    destruct Hok as (_ & _ & ? & ? & _). lia. }
  destruct (exclude_all PS_FLAP_PAIRS ws) as (T & J & _ & E); [| |done|].
  { rewrite Hw. repeat constructor; cbn; unfold PS_FLAP_COUNT; lia. }
  { cbn. repeat split; repeat constructor; cbn; lia. }
  split_and!; [exact (eq_trans (proj1 T) Hw) | exact J | exact T | exact E].
Qed.

Lemma wants_env can_act tgt i c : length tgt = PS_FLAP_COUNT -> PS_FLAP_TABLE !! i = Some c ->
  in_env c (wants can_act tgt !!! i).1.
Proof.
  intros Hl Hc. pose proof (lookup_lt_Some _ _ _ Hc) as Hi. rewrite table_length in Hi.
  destruct (lookup_in_range tgt i _ Hl Hi) as [t Ht]. destruct (wants_spec can_act tgt Hl) as (_ & _ & [_ T] & _).
  specialize (T i). rewrite length_zip_with, table_length, Hl, Nat.min_id in T. specialize (T Hi).
  rewrite (zip_wants_lookup _ _ _ _ _ Hc Ht) in T.
  pose proof (Forall_lookup_1 _ _ _ _ table_ok Hc) as Hok. pose proof (want_env can_act c t Hok) as [? ?].
  destruct Hok as (_ & _ & ? & ? & _). unfold in_env in *. lia.
Qed.

(** C25: The joint envelope of the targets.  Whatever the commands, in every turn of the servo
    loop the targets the flaps are driven to lie in their envelopes, every overlapping
    pair keeps the sum of its deflections within the pair's limit, exclusion only ever
    moves a flap toward neutral, and it leaves the commands alone when no pair is over
    its limit. *)
Theorem servo_joint_envelope can_act tgt : length tgt = PS_FLAP_COUNT ->
  (forall i c, PS_FLAP_TABLE !! i = Some c -> in_env c (wants can_act tgt !!! i).1) /\
  Forall (joint (wants can_act tgt)) PS_FLAP_PAIRS /\
  toward_zero (zip_with (servo_want can_act) PS_FLAP_TABLE tgt) (wants can_act tgt) /\
  (Forall (joint (zip_with (servo_want can_act) PS_FLAP_TABLE tgt)) PS_FLAP_PAIRS ->
    wants can_act tgt = zip_with (servo_want can_act) PS_FLAP_TABLE tgt).
Proof. intros Hl. destruct (wants_spec can_act tgt Hl) as (_ & J & T & E). split_and!; [by intros; apply wants_env|done..]. Qed.

Lemma servo_joint_envelope_witness :
  Forall (joint (wants true (replicate PS_FLAP_COUNT {| t_pos_pm := 1000; t_rate_lim := 0; t_brake := false |}))) PS_FLAP_PAIRS.
Proof. apply (servo_joint_envelope true (replicate PS_FLAP_COUNT {| t_pos_pm := 1000; t_rate_lim := 0; t_brake := false |})). reflexivity. Defined.

(** ** The slew limit *)

Lemma slew_spec cur want step : -1000 <= cur <= 1000 -> -1000 <= want <= 1000 -> 1 <= step ->
  let c := slew cur want step in
  Z.min cur want <= c <= Z.max cur want /\ Z.abs (c - cur) <= step /\
  Z.abs (want - c) <= Z.max 0 (Z.abs (want - cur) - step).
Proof.
  intros Hc Hw Hs. cbv zeta. unfold slew. cbv zeta.
  destruct (Z.ltb_spec step (want - cur)); [|destruct (Z.ltb_spec (want - cur) (- step))];
    rewrite i16_id by clia; lia.
Qed.

Lemma slew_step_pos undef can_act sc c t : 1 <= slew_step undef can_act sc c t.
Proof. unfold slew_step. cbv zeta. match goal with |- context [?x <? 1] => destruct (Z.ltb_spec x 1) end; lia. Qed.

Lemma lookup_slew cur (ws : list (Z * bool)) steps i p w x : cur !! i = Some p -> ws !! i = Some w ->
  steps !! i = Some x ->
  zip_with (fun c '(w, step) => slew c w step) cur (zip (fst <$> ws) steps) !! i = Some (slew p w.1 x).
Proof. intros Hc Hw Hs. by rewrite lookup_zip_with, Hc, lookup_zip_with, list_lookup_fmap, Hw, Hs. Qed.

Lemma lookup_steps (f : ps_flap_cfg_t -> flight_target_t -> Z) tbl tgt i c t : tbl !! i = Some c -> tgt !! i = Some t ->
  zip_with f tbl tgt !! i = Some (f c t).
Proof. intros Hc Ht. by rewrite lookup_zip_with, Hc, Ht. Qed.

(** One flap through one turn. *)
Lemma servo_tick_flap undef s tgt can_act sc i c t p : length tgt = PS_FLAP_COUNT ->
  PS_FLAP_TABLE !! i = Some c -> tgt !! i = Some t -> cur_pm s !! i = Some p ->
  cur_pm (servo_tick undef s tgt can_act sc) !! i =
    Some (slew p (wants can_act tgt !!! i).1 (slew_step undef can_act sc c t)).
Proof.
  intros Hl Hc Ht Hp. destruct (wants_spec can_act tgt Hl) as (Hw & _).
  pose proof (lookup_lt_Some _ _ _ Ht) as Hi. rewrite Hl in Hi.
  destruct (lookup_in_range _ i _ Hw Hi) as [w Ew]. rewrite (list_lookup_total_correct _ _ _ Ew).
  exact (lookup_slew _ _ _ _ _ _ _ Hp Ew (lookup_steps _ _ _ _ _ _ Hc Ht)).
Qed.

Section FlightSpec.
Context `{RtosQueue} `{TwaiDlc} (undef : f32 -> Z).

(** ** Runs of the node *)

Inductive fev :=
  | FControl (t : Z) (f : ps_can_frame_t)        (* a CONTROL frame *)
  | FSafety (t : Z) (e : gev)                    (* anything the safety glue handles *)
  | FParam (name : option param) (value : spec_float)
  | FServo
  | FAero (imu_raw : option (list Z)) (raw mv : option Z)
  | FComms (prev : ps_can_stats_t).

Definition fstep (s : flight) (ev : fev) : flight :=
  match ev with
  | FControl t f => control_rx s t f
  | FSafety t e => with_safety s (gstep (safety s) t e)
  | FParam name v => {| s with prm := (flight_param_set (prm s) name v).1 |}
  | FServo => servo_turn undef s
  | FAero ir raw mv => aero_turn undef s ir raw mv
  | FComms prev => (comms_turn s prev).1
  end.

Definition frun (s : flight) (evs : list fev) : flight := foldl fstep s evs.

(** What sending telemetry leaves alone. *)
Definition plant (s : flight) := (s_targets s, srv s, prm s, core (safety s), started (safety s)).

Lemma telem_plant s c ty pl len : plant (flight_telem_send s c ty pl len) = plant s.
Proof. unfold flight_telem_send. by destruct (can (safety s)). Qed.

Lemma flap_telem_plant s snap i : plant (flap_telem s snap i) = plant s.
Proof.
  unfold flap_telem. destruct (snap !! i); [|done]. destruct (last_sent s !! i); [|done].
  destruct (flap_due _ _ _ _); [|done]. cbv zeta. apply telem_plant.
Qed.

Lemma aero_imu_plant s ir : plant (aero_imu undef s ir) = plant s.
Proof.
  unfold aero_imu. destruct (imu_ok s); [|done]. cbn [negb].
  destruct (flight_imu_read _ _) as [[[|a0 [|a1 [|a2 []]]] [|g0 [|g1 [|g2 []]]]]|]; try done.
  cbv zeta. by rewrite !telem_plant.
Qed.

Lemma aero_plant s ir raw mv : plant (aero_turn undef s ir raw mv) = plant s.
Proof.
  unfold aero_turn. cbv zeta. set (s' := {| s with aero_tick := _ |}). change (plant s) with (plant s').
  rewrite <- (aero_imu_plant s' ir). generalize (aero_imu undef s' ir) as s0. clear s s'. intros s0.
  set (s1 := if aero_tick s0 mod 2 =? 0 then aero_pitot undef s0 raw mv else s0).
  assert (plant s1 = plant s0) as E1.
  { unfold s1. destruct (_ =? 0); [|done]. unfold aero_pitot. cbv zeta. by rewrite telem_plant. }
  clearbody s1. destruct (_ =? 0); [|done]. rewrite <- E1. clear E1.
  generalize (s_states (srv s1)) as snap. intros snap. generalize (seq 0 PS_FLAP_COUNT) as js.
  induction js as [|i js IH] using rev_ind; [done|]. rewrite foldl_app. cbn [foldl]. by rewrite flap_telem_plant.
Qed.

Lemma comms_plant s prev : plant (comms_turn s prev).1 = plant s.
Proof. unfold comms_turn. cbv zeta. cbn [fst]. by rewrite !telem_plant. Qed.

Lemma transition_srv s calls : srv (flight_safety_on_transition s calls) = srv s /\
  safety (flight_safety_on_transition s calls) = safety s /\ prm (flight_safety_on_transition s calls) = prm s /\
  (s_targets (flight_safety_on_transition s calls) = s_targets s \/
   s_targets (flight_safety_on_transition s calls) = replicate PS_FLAP_COUNT neutral_target).
Proof.
  unfold flight_safety_on_transition. induction calls as [|u calls IH] using rev_ind; [by auto|].
  rewrite foldl_app. cbn [foldl]. destruct (_ || _); [|done]. destruct IH as (E1 & E2 & E3 & _).
  split_and!; [exact E1 | exact E2 | exact E3 | by right].
Qed.

(** ** The envelope of the actuation *)

Record flight_inv (s : flight) : Prop := {
  fi_targets : length (s_targets s) = PS_FLAP_COUNT;
  fi_bounds : Forall (fun t => -1000 <= t_pos_pm t <= 1000) (s_targets s);
  fi_cur : length (cur_pm (srv s)) = PS_FLAP_COUNT;
  fi_env i c : PS_FLAP_TABLE !! i = Some c -> in_env c (cur_pm (srv s) !!! i);
  fi_cmp : s_cmp (srv s) = zip_with flap_write PS_FLAP_TABLE (cur_pm (srv s)) }.

Lemma inv_eq s s' : s_targets s' = s_targets s -> srv s' = srv s -> flight_inv s -> flight_inv s'.
Proof. intros E1 E2 []. split; rewrite ?E1, ?E2; done. Qed.

Lemma inv_plant s s' : plant s' = plant s -> flight_inv s -> flight_inv s'.
Proof. unfold plant. intros [= E1 E2 _ _ _]. by apply inv_eq. Qed.

Lemma inv_neutral s : flight_inv s -> flight_inv (flight_targets_neutral_all s).
Proof. intros []. split; [done | by apply Forall_replicate | done..]. Qed.

Lemma inv_with_safety s r : flight_inv s -> flight_inv (with_safety s r).
Proof.
  intros Hi. unfold with_safety. destruct (transition_srv {| s with safety := r.1 |} r.2) as (E1 & _ & _ & [E2|E2]).
  - by apply (inv_eq s).
  - by apply (inv_eq (flight_targets_neutral_all s) _ E2 E1), inv_neutral.
Qed.

Lemma inv_control s t f : flight_inv s -> flight_inv (control_rx s t f).
Proof.
  intros Hi. unfold control_rx. cbv zeta. destruct (_ =? PS_T_FLAP_CMD).
  - destruct (_ <? _); [done|]. set (cmd := wire_read (f_data f) : ps_flap_cmd_t). clearbody cmd.
    destruct (Z.leb_spec (Z.of_nat PS_FLAP_COUNT) (fc_flap cmd)) as [|Hf]; [done|].
    unfold flight_targets_set. rewrite (proj2 (Z.leb_gt _ _) Hf).
    destruct Hi as [H1 H2 H3 H4 H5]. split; cbn; [by rewrite length_insert| |done..].
    apply Forall_insert; [done|]. cbn. destruct (Z.ltb_spec (fc_pos_pm cmd) (-1000)); [lia|].
    destruct (Z.ltb_spec 1000 (fc_pos_pm cmd)); lia.
  - destruct (_ =? PS_T_MODE_SET); [|done]. apply inv_with_safety. by apply (inv_eq s).
Qed.

Lemma table_1000 i c : PS_FLAP_TABLE !! i = Some c -> forall p, in_env c p -> -1000 <= p <= 1000.
Proof.
  intros Hc p [? ?]. pose proof (Forall_lookup_1 _ _ _ _ table_ok Hc) as (_ & _ & ? & ? & _). lia.
Qed.

Lemma inv_servo s : flight_inv s -> flight_inv (servo_turn undef s).
Proof.
  intros [H1 H2 H3 H4 H5]. unfold servo_turn.
  set (ca := ps_safety_can_actuate _). set (sc := flight_param_rate_scale _).
  assert (length (cur_pm (servo_tick undef (srv s) (s_targets s) ca sc)) = PS_FLAP_COUNT) as Hl.
  { unfold servo_tick. cbv zeta. cbn [cur_pm].
    destruct (wants_spec ca _ H1) as (Hw & _).
    rewrite !length_zip_with, length_fmap, H3, Hw, H1, table_length. reflexivity. }
  split; cbn [s_targets srv]; [done | done | done | | reflexivity].
  intros i c Hc. pose proof (lookup_lt_Some _ _ _ Hc) as Hi. rewrite table_length in Hi.
  destruct (lookup_in_range _ i _ H1 Hi) as [t Ht]. destruct (lookup_in_range _ i _ H3 Hi) as [p Hp].
  rewrite (list_lookup_total_correct _ _ _ (servo_tick_flap undef (srv s) _ ca sc i c t p H1 Hc Ht Hp)).
  pose proof (wants_env ca _ i c H1 Hc) as Hw. pose proof (H4 i c Hc) as Hcur.
  rewrite (list_lookup_total_correct _ _ _ Hp) in Hcur.
  destruct (slew_spec p (wants ca (s_targets s) !!! i).1 (slew_step undef ca sc c t)) as (Hb & _);
    [by apply (table_1000 i c) | by apply (table_1000 i c) | apply slew_step_pos |].
  unfold in_env in *. lia.
Qed.

Lemma flight_inv_step s ev : flight_inv s -> flight_inv (fstep s ev).
Proof.
  intros Hi. destruct ev; cbn [fstep].
  - by apply inv_control.
  - by apply inv_with_safety.
  - by apply (inv_eq s).
  - by apply inv_servo.
  - by apply (inv_plant s); [apply aero_plant|].
  - by apply (inv_plant s); [apply comms_plant|].
Qed.

Lemma flight_inv_run s evs : flight_inv s -> flight_inv (frun s evs).
Proof. revert s. induction evs as [|ev evs IH]; intros s Hi; [done|]. apply IH, flight_inv_step, Hi. Qed.

(** The node after boot: neutral targets and positions. *)
Definition booted (s : flight) : Prop :=
  s_targets s = replicate PS_FLAP_COUNT neutral_target /\ srv s = servo_start.

Lemma inv_booted s : booted s -> flight_inv s.
Proof.
  intros [E1 E2]. split; rewrite ?E1, ?E2; [done | by apply Forall_replicate | done | | reflexivity].
  intros i c Hc. pose proof (lookup_lt_Some _ _ _ Hc) as Hi. rewrite table_length in Hi. cbn [cur_pm servo_start].
  rewrite lookup_total_replicate_2 by done.
  pose proof (Forall_lookup_1 _ _ _ _ table_ok Hc) as (_ & _ & ? & ? & _). unfold in_env. lia.
Qed.

(** C26: No command can drive a servo out of its envelope.  From boot, through any sequence of
    CONTROL frames (malformed ones included), safety events, parameter changes and task
    turns: every compare value lies between the mechanical limits of its flap, every
    position lies in the flap's envelope, every stored target is within one thousand
    permille; and a servo turn moves a flap toward its target by at most the slew step,
    never past it. *)
Theorem flight_actuation_envelope s0 evs i c : booted s0 -> PS_FLAP_TABLE !! i = Some c ->
  let s := frun s0 evs in
  pulse_min_us c <= s_cmp (srv s) !!! i <= pulse_max_us c /\
  in_env c (cur_pm (srv s) !!! i) /\
  (forall t, s_targets s !! i = Some t -> -1000 <= t_pos_pm t <= 1000 /\
     let p := cur_pm (srv s) !!! i in let p' := cur_pm (srv (servo_turn undef s)) !!! i in
     let want := (wants (ps_safety_can_actuate (safety s)) (s_targets s) !!! i).1 in
     Z.min p want <= p' <= Z.max p want /\
     Z.abs (p' - p) <= slew_step undef (ps_safety_can_actuate (safety s)) (s_rate_scale (prm s)) c t).
Proof.
  intros Hb Hc s. assert (flight_inv s) as [H1 H2 H3 H4 H5] by (apply flight_inv_run, inv_booted, Hb). clearbody s.
  pose proof (lookup_lt_Some _ _ _ Hc) as Hi. rewrite table_length in Hi.
  destruct (lookup_in_range _ i _ H3 Hi) as [p Hp]. pose proof (Forall_lookup_1 _ _ _ _ table_ok Hc) as Hok.
  split; [|split].
  - assert (s_cmp (srv s) !!! i = flap_write c p) as ->.
    { apply list_lookup_total_correct. by rewrite H5, lookup_zip_with, Hc, Hp. }
    by apply flap_write_range.
  - by apply H4.
  - intros t Ht. split; [exact (Forall_lookup_1 _ _ _ _ H2 Ht)|]. cbv zeta.
    pose proof (H4 i c Hc) as Hcur. rewrite (list_lookup_total_correct _ _ _ Hp) in *.
    unfold servo_turn. cbn [srv].
    rewrite (list_lookup_total_correct _ _ _ (servo_tick_flap undef (srv s) _ _ _ i c t p H1 Hc Ht Hp)).
    unfold flight_param_rate_scale.
    destruct (slew_spec p (wants (ps_safety_can_actuate (safety s)) (s_targets s) !!! i).1
      (slew_step undef (ps_safety_can_actuate (safety s)) (s_rate_scale (prm s)) c t)) as (A & B & _);
      [by apply (table_1000 i c) | apply (table_1000 i c Hc), wants_env; done | apply slew_step_pos | done].
Qed.

(** ** ESTOP *)

(** The event carries no CLEAR_ESTOP that a counter [k] would accept. *)
Definition no_clear (k : Z) (ev : fev) : Prop :=
  match ev with
  | FSafety t e => match core_event e with
                   | Some (EvClear magic counter) => magic <> PS_CLEAR_ESTOP_MAGIC \/ counter <= k
                   | _ => True
                   end
  | _ => True
  end.

Definition latched_at (k : Z) (s : flight) : Prop :=
  started (safety s) = true /\ latched (core (safety s)) /\ clear_counter (core (safety s)) = k.

Lemma latched_plant k s s' : plant s' = plant s -> latched_at k s -> latched_at k s'.
Proof. unfold plant, latched_at. intros [= _ _ _ E1 E2]. by rewrite E1, E2. Qed.

Lemma latched_with_safety k s r : started r.1 = true -> latched (core r.1) -> clear_counter (core r.1) = k ->
  latched_at k (with_safety s r).
Proof.
  intros. unfold with_safety, latched_at. destruct (transition_srv {| s with safety := r.1 |} r.2) as (_ & -> & _). done.
Qed.

(** A step of the glue that brings no valid clear keeps the latch. *)
Lemma latched_gstep k g t e : started g = true -> latched (core g) -> clear_counter (core g) = k ->
  no_clear k (FSafety t e) ->
  started (gstep g t e).1 = true /\ latched (core (gstep g t e).1) /\ clear_counter (core (gstep g t e).1) = k.
Proof.
  intros Hst Hl Hk Hn. pose proof (gstep_tracks g t e Hst) as Ht. cbn in Hn.
  destruct (core_event e) as [e'|].
  - destruct Ht as [(Ec & _ & _ & Es) _]. pose proof (latched_step (core g) t e' Hl) as Hls.
    rewrite Ec. destruct (SafetySpec.step (core g) t e') as [c' l]. cbn [fst].
    destruct Hls as (L & _ & C & _); [destruct e'; cbn; try done; by rewrite Hk|]. split_and!; [done | done | congruence].
  - destruct Ht as [(Ec & _ & _ & Es) _]. by rewrite Ec.
Qed.

Lemma latched_fstep k s ev : latched_at k s -> no_clear k ev -> latched_at k (fstep s ev).
Proof.
  intros (Hst & Hl & Hk) Hn. destruct ev as [t f|t e| | | |]; cbn [fstep].
  - unfold control_rx. cbv zeta.
    pose proof (latched_gstep k (safety s) t GCmd Hst Hl Hk I) as (A & B & C). cbn [gstep fst] in A, B, C.
    destruct (_ =? PS_T_FLAP_CMD).
    + destruct (_ <? _); [done|]. destruct (_ <=? _) eqn:Ef; [done|].
      unfold flight_targets_set. rewrite Ef. done.
    + destruct (_ =? PS_T_MODE_SET); [|done]. set (ms := ms_target_state _). clearbody ms.
      destruct (latched_gstep k (ps_safety_note_cmd (safety s) t) t (GModeSet ms) A B C I) as (A' & B' & C').
      by apply latched_with_safety.
  - destruct (latched_gstep k (safety s) t e Hst Hl Hk Hn) as (A & B & C). by apply latched_with_safety.
  - done.
  - done.
  - apply (latched_plant k s); [apply aero_plant | done].
  - apply (latched_plant k s); [apply comms_plant | done].
Qed.

Lemma latched_not_act k s : latched_at k s -> ps_safety_can_actuate (safety s) = false.
Proof. intros (Hst & [Hs _] & _). unfold ps_safety_can_actuate. by rewrite Hst, Hs. Qed.

(** In a turn without actuation every flap moves at least one permille toward neutral. *)
Lemma passive_turn s i c : flight_inv s -> ps_safety_can_actuate (safety s) = false -> PS_FLAP_TABLE !! i = Some c ->
  Z.abs (cur_pm (srv (servo_turn undef s)) !!! i) <= Z.max 0 (Z.abs (cur_pm (srv s) !!! i) - 1).
Proof.
  intros [H1 H2 H3 H4 H5] Ha Hc. pose proof (lookup_lt_Some _ _ _ Hc) as Hi. rewrite table_length in Hi.
  destruct (lookup_in_range _ i _ H1 Hi) as [t Ht]. destruct (lookup_in_range _ i _ H3 Hi) as [p Hp].
  pose proof (H4 i c Hc) as Hcur. unfold servo_turn. cbn [srv]. rewrite Ha.
  rewrite (list_lookup_total_correct _ _ _ (servo_tick_flap undef (srv s) _ false _ i c t p H1 Hc Ht Hp)).
  rewrite (list_lookup_total_correct _ _ _ Hp) in *.
  assert ((wants false (s_targets s) !!! i).1 = 0) as ->.
  { destruct (wants_spec false _ H1) as (_ & _ & [_ T] & _). specialize (T i).
    rewrite length_zip_with, table_length, H1, Nat.min_id in T. specialize (T Hi).
    rewrite (zip_wants_lookup _ _ _ _ _ Hc Ht) in T.
    pose proof (want_passive c t (Forall_lookup_1 _ _ _ _ table_ok Hc)) as E. rewrite E in T. lia. }
  pose proof (slew_step_pos undef false (flight_param_rate_scale (prm s)) c t) as Hs.
  destruct (slew_spec p 0 (slew_step undef false (flight_param_rate_scale (prm s)) c t)) as (_ & _ & D);
    [by apply (table_1000 i c) | lia | done |]. lia.
Qed.

Fixpoint servo_turns (evs : list fev) : nat :=
  match evs with [] => 0 | FServo :: evs => S (servo_turns evs) | _ :: evs => servo_turns evs end.

Lemma fstep_srv s ev : ev <> FServo -> srv (fstep s ev) = srv s.
Proof.
  intros Hne. destruct ev as [t f|t e| | |ir raw mv|prev]; cbn [fstep]; [| |done|done| |].
  - unfold control_rx. cbv zeta. destruct (_ =? PS_T_FLAP_CMD).
    + destruct (_ <? _); [done|]. destruct (_ <=? _) eqn:Ef; [done|]. unfold flight_targets_set. by rewrite Ef.
    + destruct (_ =? PS_T_MODE_SET); [|done]. unfold with_safety.
      match goal with |- context [flight_safety_on_transition ?s0 ?l] => destruct (transition_srv s0 l) as (-> & _) end.
      done.
  - unfold with_safety.
    match goal with |- context [flight_safety_on_transition ?s0 ?l] => destruct (transition_srv s0 l) as (-> & _) end.
    done.
  - pose proof (aero_plant s ir raw mv) as E. unfold plant in E. by injection E.
  - pose proof (comms_plant s prev) as E. unfold plant in E. by injection E.
Qed.

Lemma estop_run k i c evs s : flight_inv s -> latched_at k s -> Forall (no_clear k) evs -> PS_FLAP_TABLE !! i = Some c ->
  flight_inv (frun s evs) /\ latched_at k (frun s evs) /\
  Z.abs (cur_pm (srv (frun s evs)) !!! i) <= Z.max 0 (Z.abs (cur_pm (srv s) !!! i) - Z.of_nat (servo_turns evs)).
Proof.
  intros Hi Hl Hn Hc. revert s Hi Hl. induction Hn as [|ev evs Hev _ IH]; intros s Hi Hl.
  { split_and!; [done | done | cbn; lia]. }
  cbn [frun foldl]. destruct (IH (fstep s ev) (flight_inv_step s ev Hi) (latched_fstep k s ev Hl Hev)) as (A & B & C).
  split_and!; [exact A | exact B|]. etransitivity; [exact C|].
  destruct (decide (servo_turns (ev :: evs) = S (servo_turns evs))) as [E|E].
  - assert (ev = FServo) as -> by (destruct ev; cbn in E; done || lia).
    cbn [fstep servo_turns]. pose proof (passive_turn s i c Hi (latched_not_act k s Hl) Hc). lia.
  - assert (ev <> FServo) as Hne by (intros ->; done). rewrite (fstep_srv s ev Hne).
    assert (servo_turns (ev :: evs) = servo_turns evs) as -> by (destruct ev; done). done.
Qed.

(** C27: ESTOP takes the flaps to neutral.  Once the node is latched, whatever commands, frames,
    parameter changes and task turns follow, as long as no valid CLEAR_ESTOP is among
    them: no actuation is possible, and after a thousand turns of the servo task (ten
    seconds; the slowest the slew limit can make it) every flap stands at its neutral
    pulse and stays there. *)
Theorem flight_estop_neutral s0 evs0 k evs i c : booted s0 -> latched_at k (frun s0 evs0) ->
  Forall (no_clear k) evs -> (1000 <= servo_turns evs)%nat -> PS_FLAP_TABLE !! i = Some c ->
  let s := frun (frun s0 evs0) evs in
  ps_safety_can_actuate (safety s) = false /\ cur_pm (srv s) !!! i = 0 /\ s_cmp (srv s) !!! i = pulse_neutral_us c.
Proof.
  intros Hb Hl Hn Ht Hc s. pose proof (flight_inv_run s0 evs0 (inv_booted s0 Hb)) as Hi.
  destruct (estop_run k i c evs _ Hi Hl Hn Hc) as ([H1 H2 H3 H4 H5] & Hls & Hz). fold s in H1, H2, H3, H4, H5, Hls, Hz.
  pose proof (table_1000 i c Hc _ (fi_env _ Hi i c Hc)) as Hr. clearbody s.
  split_and!; [by apply (latched_not_act k) | lia|].
  pose proof (lookup_lt_Some _ _ _ Hc) as Hlt. rewrite table_length in Hlt.
  destruct (lookup_in_range _ i _ H3 Hlt) as [p Hp]. rewrite (list_lookup_total_correct _ _ _ Hp) in Hz.
  apply list_lookup_total_correct. rewrite H5, lookup_zip_with, Hc, Hp. cbn [mbind option_bind].
  replace p with 0 by lia. f_equal. apply flap_write_neutral, (Forall_lookup_1 _ _ _ _ table_ok Hc).
Qed.

(** ** Flap telemetry *)

(** The aero turns of a run, and whether flap [i] is due in one of them whatever its state. *)
Lemma slot_in_window t i : 0 <= t -> 0 <= i ->
  exists d, 1 <= d <= 50 /\ (t + d) mod 5 = 0 /\ ((t + d) / 5) mod 10 = i mod 10.
Proof.
  intros Ht Hi. pose (m := t / 5). pose (j := (i - (m + 1)) mod 10).
  assert (0 <= j < 10) as Hj by (apply Z.mod_pos_bound; lia).
  exists (5 * (m + 1 + j) - t). pose proof (Z.div_mod t 5 ltac:(lia)) as Hd. pose proof (Z.mod_pos_bound t 5 ltac:(lia)).
  fold m in Hd. split; [lia|]. replace (t + (5 * (m + 1 + j) - t)) with ((m + 1 + j) * 5) by lia.
  rewrite Z.mod_mul, Z.div_mul by lia. split; [done|]. unfold j. rewrite Zplus_mod_idemp_r. f_equal. lia.
Qed.

(** No flap goes silent: in any fifty consecutive turns of the aero task (half a second)
    there is one in which the flap's state is sent, even if nothing about it changed.
    Ticks are below the wrap of the 32-bit counter. *)
Theorem flap_keepalive tick i : 0 <= tick < 4294967296 - 50 -> (i < PS_FLAP_COUNT)%nat ->
  exists d, 1 <= d <= 50 /\ u32 (tick + d) mod 5 = 0 /\
    forall snap last, flap_due (u32 (tick + d)) i snap last = true.
Proof.
  intros Ht Hi. destruct (slot_in_window tick (Z.of_nat i)) as (d & Hd & H5 & H10); [lia..|].
  exists d. rewrite u32_id by clia. split_and!; [lia | lia | done |]. intros snap last. unfold flap_due.
  rewrite H10, Z.eqb_refl, orb_true_r. done.
Qed.

End FlightSpec.

(** ** Where the limits fall short *)

Definition cmd (p r : Z) : flight_target_t := {| t_pos_pm := p; t_rate_lim := r; t_brake := false |}.

(** [n] servo turns with constant targets, at the default rate scale. *)
Definition hold (undef : f32 -> Z) (n : nat) (tgt : list flight_target_t) (s : servo) : servo :=
  Nat.iter n (fun s => servo_tick undef s tgt true (of_Z 1)) s.

Definition targets01 (a b : flight_target_t) : list flight_target_t := a :: b :: replicate 10 neutral_target.

(** The joint limit holds of the targets but not of the positions that are written.  Flap 0
    is driven to 900; then flap 0 is commanded to neutral with the slowest rate and its
    partner to 900 with the default rate.  At every turn the targets respect the pair's
    limit of 1400, yet after seventy-five turns the two flaps stand at 825 and 900. *)
Theorem servo_transient_overlap undef :
  let s1 := hold undef 75 (targets01 (cmd 900 0) neutral_target) servo_start in
  let tgt := targets01 (cmd 0 1) (cmd 900 0) in
  let s2 := hold undef 75 tgt s1 in
  Forall (joint (wants true tgt)) PS_FLAP_PAIRS /\
  cur_pm s2 !!! 0%nat = 825 /\ cur_pm s2 !!! 1%nat = 900 /\
  s_cmp s2 !!! 0%nat = 1995 /\ s_cmp s2 !!! 1%nat = 2040.
Proof.
  split; [repeat constructor; vm_compute; congruence|]. split_and!; vm_compute; reflexivity.
Qed.

(** *** Parameters *)

Lemma SFcompare_swap x y : SFcompare y x = CompOpp <$> SFcompare x y.
Proof.
  destruct x as [sx|sx| |sx mx ex], y as [sy|sy| |sy my ey]; try destruct sx; try destruct sy; cbn; try done;
    rewrite (Z.compare_antisym ex ey); destruct (ex ?= ey) eqn:Ee; cbn; try done;
    rewrite (Pos.compare_cont_antisym mx my Eq) || rewrite (Pos.compare_antisym mx my); cbn;
    rewrite ?CompOpp_involutive; try done; by destruct (mx ?= my)%positive.
Qed.

(** Not smaller is at least, for numbers. *)
Lemma not_SFltb x y : x <> S754_nan -> y <> S754_nan -> SFltb x y = false -> SFleb y x = true.
Proof.
  intros Hx Hy. unfold SFltb, SFleb. rewrite (SFcompare_swap x y).
  destruct (SFcompare x y) as [[]|] eqn:E; cbn; try done.
  destruct x as [sx|sx| |sx mx ex], y as [sy|sy| |sy my ey]; try destruct sx; try destruct sy; cbn in E; try done;
    destruct (ex ?= ey); done.
Qed.

(** The check of the run-time parameters accepts exactly the numbers of the documented
    ranges, and every NaN: a refused value leaves both parameters alone, an accepted number
    lies in its range and changes only its own parameter, and a NaN is stored as the rate
    scale, after which the slew step is whatever the undefined conversion of a NaN to an
    integer gives. *)
Theorem flight_param_check undef p name v :
  ((flight_param_set p name v).2 = false -> (flight_param_set p name v).1 = p) /\
  ((flight_param_set p name v).2 = true -> v <> S754_nan ->
     (name = Some RateScale /\ SFleb (dlit 5 100) v = true /\ SFleb v (dlit 1 1) = true /\
      (flight_param_set p name v).1 = {| s_rho := s_rho p; s_rate_scale := to_float v |}) \/
     (name = Some Rho /\ SFleb (dlit 1 2) v = true /\ SFleb v (dlit 5 2) = true /\
      (flight_param_set p name v).1 = {| s_rho := to_float v; s_rate_scale := s_rate_scale p |})) /\
  flight_param_set p (Some RateScale) S754_nan = ({| s_rho := s_rho p; s_rate_scale := S754_nan |}, true) /\
  forall can_act c t, let step := Z.quot (i32 (undef S754_nan * 10)) 1000 in
    slew_step undef can_act S754_nan c t = Z.max 1 step.
Proof.
  split_and!.
  - unfold flight_param_set. destruct name as [[]|]; try done; by destruct (_ || _).
  - unfold flight_param_set. destruct name as [[]|]; try done; destruct (_ || _) eqn:E; try done; intros _ Hv;
      apply orb_false_iff in E as [E1 E2]; (apply not_SFltb in E1; [| exact Hv | vm_compute; discriminate]);
      (apply not_SFltb in E2; [| vm_compute; discriminate | exact Hv]);
      [right | left]; exact (conj eq_refl (conj E1 (conj E2 eq_refl))).
  - reflexivity.
  - intros can_act c t step. unfold slew_step. cbv zeta.
    assert (forall x : f32, (x * S754_nan)%f32 = S754_nan) as -> by (intros []; reflexivity).
    change (default (undef S754_nan) _) with (undef S754_nan). fold step. unfold SERVO_TASK_PERIOD_MS. fold step.
    clearbody step. destruct (Z.ltb_spec step 1); lia.
Qed.

(** ** Witnesses *)

Definition demo_undef (_ : f32) : Z := 0.

Definition demo_flight : flight :=
  {| s_targets := replicate PS_FLAP_COUNT neutral_target; srv := servo_start;
     prm := {| s_rho := PS_RHO_DEFAULT; s_rate_scale := of_Z 1 |};
     s_telem_seq := replicate 256 0; safety := demo_glue; aero_tick := 0; q_filt := of_Z 0;
     last_sent := s_states servo_start; imu_ok := false; imu := {| gyr_per_lsb := of_Z 0; acc_g_per_lsb := of_Z 0 |};
     mahony := ps_mahony_init (of_Z 0) (of_Z 0) |}.

Lemma demo_booted : booted demo_flight.
Proof. split; reflexivity. Qed.

Lemma flight_actuation_envelope_witness :
  900 <= s_cmp (srv (frun demo_undef demo_flight [FServo])) !!! 0%nat <= 2100.
Proof.
  pose proof (flight_actuation_envelope demo_undef demo_flight [FServo] 0 (row 10 900 1500 2100 (-900) 900 800 250 120)
                demo_booted eq_refl) as [Hp _]. exact Hp.
Defined.

Lemma flap_keepalive_witness :
  exists d, 1 <= d <= 50 /\ u32 (7 + d) mod 5 = 0 /\ forall snap last, flap_due (u32 (7 + d)) 3 snap last = true.
Proof. apply (flap_keepalive 7 3); [lia | unfold PS_FLAP_COUNT; lia]. Defined.

(** A node that hears an ESTOP and then runs its servo task a thousand times. *)
Definition demo_estop : fev := FSafety 7 (GRaise PS_ESTOP_OPERATOR).

Lemma flight_estop_neutral_witness :
  let s := frun demo_undef (frun demo_undef demo_flight [demo_estop]) (replicate 1000 FServo) in
  ps_safety_can_actuate (safety s) = false /\ cur_pm (srv s) !!! 0%nat = 0 /\ s_cmp (srv s) !!! 0%nat = 1500.
Proof.
  refine (flight_estop_neutral demo_undef demo_flight [demo_estop] 0 (replicate 1000 FServo) 0
           (row 10 900 1500 2100 (-900) 900 800 250 120) demo_booted _ _ _ eq_refl).
  - vm_compute. repeat split; done.
  - by apply Forall_replicate.
  - assert (forall n, servo_turns (replicate n FServo) = n) as -> by (induction n; cbn; congruence). lia.
Defined.
