(* ===== verification/Limb.v ===== *)
(** The limb nodes (src/firmware/apps/node_limb/main): joint commands, telemetry and
    counters (comms_task.c), the 1 kHz control loop with its encoders, cascaded controllers,
    torque limit, actuation gate and overcurrent trip (control_task.c), the transition
    callback (safety_glue.c) and the joint tables of the four boards (board_limb.h).

    The configuration without CONFIG_PS_LIMB_BENCH is modelled.  What the hardware answers
    in a tick (encoder words, converter samples, sensor registers, comparator errors, clock
    readings) is the argument [tick_env].  The safety glue is that of [SafetyEsp]. *)
From stdpp Require Import strings.
From S2P Require Import Prelude CanId Wire Rtos Txq Can Safety SafetySpec SafetyEsp Float32 Ctl Imu.
From Stdlib Require Import SpecFloat.

Definition PS_LIMB_JOINT_COUNT : nat := 2.

(** ** board_limb.h *)

Record ps_limb_joint_cfg_t := {
  name : string;
  mcpwm_group : Z; gates : list Z; encoder_cs_gpio : Z; adc_ia : Z; adc_ib : Z; pole_pairs : Z;
  gear_ratio : f32; dir_sign : Z; pos_min_crad : Z; pos_max_crad : Z; torque_limit_cnm : Z; kt_nm_per_a : f32;
  cur_mv_per_a : f32; cur_offset_mv : f32; k_imp_nm_per_rad : f32; d_imp_nms_per_rad : f32;
  pos_kp : f32; pos_ki : f32; pos_kd : f32; pos_vel_limit_rad_s : f32;
  vel_kp : f32; vel_ki : f32; vel_kd : f32; cur_kp : f32; cur_ki : f32 }.

Definition PS_LIMB_JOINT_TABLE_COMMON (name0 name1 : string) (gear0 gear1 : f32) (dir pmin0 pmax0 pmin1 pmax1 tlim0 tlim1 : Z)
    (kt0 kt1 kimp0 dimp0 kimp1 dimp1 : f32) : list ps_limb_joint_cfg_t := [
  {| name := name0; mcpwm_group := 0; gates := [21; 22; 23; 24; 25; 33]; encoder_cs_gpio := 14; adc_ia := 0; adc_ib := 1;
     pole_pairs := 7; gear_ratio := gear0; dir_sign := dir; pos_min_crad := pmin0; pos_max_crad := pmax0;
     torque_limit_cnm := tlim0; kt_nm_per_a := kt0; cur_mv_per_a := of_Z 55; cur_offset_mv := of_Z 1650;
     k_imp_nm_per_rad := kimp0; d_imp_nms_per_rad := dimp0;
     pos_kp := of_Z 6; pos_ki := flit 1 2; pos_kd := flit 5 100; pos_vel_limit_rad_s := of_Z 4;
     vel_kp := flit 5 2; vel_ki := of_Z 4; vel_kd := of_Z 0; cur_kp := of_Z 4; cur_ki := of_Z 800 |};
  {| name := name1; mcpwm_group := 1; gates := [34; 35; 36; 37; 38; 39]; encoder_cs_gpio := 15; adc_ia := 2; adc_ib := 3;
     pole_pairs := 7; gear_ratio := gear1; dir_sign := dir; pos_min_crad := pmin1; pos_max_crad := pmax1;
     torque_limit_cnm := tlim1; kt_nm_per_a := kt1; cur_mv_per_a := of_Z 55; cur_offset_mv := of_Z 1650;
     k_imp_nm_per_rad := kimp1; d_imp_nms_per_rad := dimp1;
     pos_kp := of_Z 5; pos_ki := flit 4 10; pos_kd := flit 4 100; pos_vel_limit_rad_s := of_Z 5;
     vel_kp := of_Z 2; vel_ki := of_Z 3; vel_kd := of_Z 0; cur_kp := of_Z 4; cur_ki := of_Z 800 |} ].

Definition arm_table (dir : Z) : list ps_limb_joint_cfg_t :=
  PS_LIMB_JOINT_TABLE_COMMON "elbow" "wrist" (of_Z 6) (of_Z 4) dir (-10) 260 (-157) 157 4000 1500
    (flit 18 100) (flit 12 100) (of_Z 15) (flit 1 2) (of_Z 6) (flit 2 10).

Definition leg_table (dir : Z) : list ps_limb_joint_cfg_t :=
  PS_LIMB_JOINT_TABLE_COMMON "hip" "knee" (of_Z 9) (of_Z 8) dir (-52) 209 0 244 8000 6000
    (flit 25 100) (flit 22 100) (of_Z 25) (flit 8 10) (of_Z 20) (flit 6 10).

(** The table of a board; the build refuses any other node. *)
Definition PS_LIMB_JOINTS (node : Z) : list ps_limb_joint_cfg_t :=
  if node =? 1 then arm_table 1 else if node =? 2 then arm_table (-1)
  else if node =? 3 then leg_table 1 else if node =? 4 then leg_table (-1) else [].

Definition PS_LIMB_V_BUS_VOLTS : f32 := of_Z 24.
Definition PS_STRAIN_CN_PER_COUNT : f32 := flit 25 2.

(** ** limb_tasks.h *)

Record limb_setpoint_t := { sp_mode : Z; sp_pos_crad : Z; sp_vel_crad_s : Z; sp_eff_cNm : Z }.
Record limb_joint_state_t := { lj_pos_crad : Z; lj_vel_crad_s : Z; lj_eff_cNm : Z; lj_saturated : bool; lj_passive : bool }.
Record limb_sensor_snapshot_t := { sn_quat : ps_imu_quat_t; sn_acc : ps_imu_acc_t; sn_gyr : ps_imu_gyr_t;
                                   sn_force : ps_force_t; imu_valid : bool }.
Record limb_counters_t := { control_ticks : Z; overcurrent_trips : Z; joint_cmd_rx : Z; mode_set_rx : Z; cmd_rejected : Z }.
Record limb_timing_t := { max_exec_us : Z; missed_ticks : Z; stack_free_bytes : Z }.

Definition passive_setpoint : limb_setpoint_t := {| sp_mode := PS_JMODE_PASSIVE; sp_pos_crad := 0; sp_vel_crad_s := 0; sp_eff_cNm := 0 |}.

(** ** Encoder *)

Definition CTRL_TICK_S : f32 := (of_Z 1 / of_Z 1000)%f32.
Definition TWO_PI : f32 := rlit 6283185307 1000000000.
Definition RAD_S_TO_DDPS : f32 := rlit 5729578 10000.
Definition DAMP_THRESHOLD_RAD_S : f32 := of_Z 5.
Definition OVERCURRENT_TRIP_TICKS : Z := 5.
Definition SENSOR_TICK_DIV : Z := 4.
Definition STACK_SAMPLE_TICKS : Z := 10000.
Definition STRAIN_TARE_SAMPLES : Z := 32.

(** Values of array elements that do not exist. *)
#[export] Instance pid_inhabited : Inhabited ps_pid_t :=
  populate {| kp := of_Z 0; ki := of_Z 0; kd := of_Z 0; out_min := of_Z 0; out_max := of_Z 0; integ := of_Z 0;
              prev_err := of_Z 0; primed := false |}.
#[export] Instance foc_inhabited : Inhabited ps_foc_ctl_t :=
  populate {| pid_d := inhabitant; pid_q := inhabitant; v_limit := of_Z 0 |}.

Record limb_encoder_t := { last_raw : Z; have_last : bool; angle_rad : f32; vel_rad_s : f32 }.

Definition encoder_zero : limb_encoder_t := {| last_raw := 0; have_last := false; angle_rad := of_Z 0; vel_rad_s := of_Z 0 |}.

#[export] Instance encoder_inhabited : Inhabited limb_encoder_t := populate encoder_zero.

(** [rx]: the two bytes received, or [None] where the transfer fails. *)
Definition encoder_read_raw14 (e : limb_encoder_t) (rx : option (Z * Z)) : Z :=
  match rx with
  | None => last_raw e
  | Some (b0, b1) => Z.land (Z.lor (Z.shiftl b0 8) b1) 0x3FFF
  end.

(** The signed difference of two samples through the wrap of the angle. *)
Definition encoder_delta (raw last : Z) : Z :=
  let delta := raw - last in
  if 8192 <? delta then delta - 16384 else if delta <? -8192 then delta + 16384 else delta.

Definition encoder_update (e : limb_encoder_t) (dt : f32) (rx : option (Z * Z)) : limb_encoder_t :=
  let raw := encoder_read_raw14 e rx in
  let e := if have_last e then
      let dtheta := (of_Z (encoder_delta raw (last_raw e)) * (TWO_PI / of_Z 16384))%f32 in
      {| e with angle_rad := (angle_rad e + dtheta)%f32;
                vel_rad_s := (vel_rad_s e + flit 1 4 * (dtheta / dt - vel_rad_s e))%f32 |}
    else e in
  {| e with last_raw := raw; have_last := true |}.

Definition encoder_electrical_theta (raw pole_pairs : Z) : f32 :=
  let mech := (of_Z raw * (TWO_PI / of_Z 16384))%f32 in
  fmodf (mech * of_Z pole_pairs)%f32 TWO_PI.

(** [raw]: the sample, or [None] where the conversion fails. *)
Definition adc_read_amps (raw : option Z) (offset_mv mv_per_a : f32) : f32 :=
  match raw with
  | None => of_Z 0
  | Some raw => ((of_Z raw * (of_Z 3300 / of_Z 4095) - offset_mv) / mv_per_a)%f32
  end.

(** ** Shared state *)

Section Limb.
Context `{RtosQueue} `{TwaiDlc} (undef : f32 -> Z) (undef_d : spec_float -> Z) (sinf cosf : f32 -> f32).

Record limb := {
  joints : list ps_limb_joint_cfg_t;
  s_setpoints : list limb_setpoint_t;
  s_states : list limb_joint_state_t;
  s_sensors : limb_sensor_snapshot_t;
  s_pos_pid : list ps_pid_t; s_vel_pid : list ps_pid_t; s_foc : list ps_foc_ctl_t;
  s_torque_limit_cnm : list Z; s_oc_ticks : list Z;
  s_focdrv : list (option ps_focdrv_ctx); s_enc : list limb_encoder_t;
  s_imu : imu_mpu6050_t; s_imu_ok : bool; s_mahony : ps_mahony_t; s_strain_offset : list f32;
  s_timing : limb_timing_t; s_ctr : limb_counters_t;
  s_seq : list Z; s_node_id : Z; s_glue : glue;
  ctl_tick : Z; comms_tick : Z; prev_can : ps_can_stats_t;
}.

Definition limb_setpoint_set (s : limb) (joint : Z) (sp : option limb_setpoint_t) : limb :=
  match sp with
  | Some sp => if Z.of_nat PS_LIMB_JOINT_COUNT <=? joint then s
               else {| s with s_setpoints := <[Z.to_nat joint := sp]> (s_setpoints s) |}
  | None => s
  end.

Definition limb_setpoint_zero_all (s : limb) : limb :=
  {| s with s_setpoints := replicate PS_LIMB_JOINT_COUNT passive_setpoint |}.

Definition limb_control_timing (s : limb) : limb_timing_t := s_timing s.
Definition limb_counters_get (s : limb) : limb_counters_t := s_ctr s.

Definition limb_control_reset_pids (s : limb) : limb :=
  {| s with s_pos_pid := ps_pid_reset <$> s_pos_pid s; s_vel_pid := ps_pid_reset <$> s_vel_pid s;
            s_foc := ps_foc_ctl_reset <$> s_foc s |}.

Definition limb_counters_bump_control_tick (s : limb) : limb :=
  {| s with s_ctr := {| (s_ctr s) with control_ticks := u32 (control_ticks (s_ctr s) + 1) |} |}.
Definition limb_counters_bump_overcurrent (s : limb) : limb :=
  {| s with s_ctr := {| (s_ctr s) with overcurrent_trips := u32 (overcurrent_trips (s_ctr s) + 1) |} |}.
Definition bump_joint_cmd_rx (s : limb) : limb :=
  {| s with s_ctr := {| (s_ctr s) with joint_cmd_rx := u32 (joint_cmd_rx (s_ctr s) + 1) |} |}.
Definition bump_mode_set_rx (s : limb) : limb :=
  {| s with s_ctr := {| (s_ctr s) with mode_set_rx := u32 (mode_set_rx (s_ctr s) + 1) |} |}.
Definition bump_cmd_rejected (s : limb) : limb :=
  {| s with s_ctr := {| (s_ctr s) with cmd_rejected := u32 (cmd_rejected (s_ctr s) + 1) |} |}.

(** ** safety_glue.c *)

Definition limb_safety_on_transition (s : limb) (new_state : Z) : limb :=
  if (new_state =? PS_STATE_PASSIVE) || (new_state =? PS_STATE_ESTOP) || (new_state =? PS_STATE_FAULT)
  then limb_setpoint_zero_all s
  else if new_state =? PS_STATE_OPERATIONAL then limb_control_reset_pids s
  else s.

Definition limb_safety_glue_init (s : limb) : limb := limb_setpoint_zero_all s.

(** Whatever the safety glue does, its callbacks included. *)
Definition with_glue (s : limb) (r : glue * list user_call) : limb :=
  foldl (fun s u => limb_safety_on_transition s (uc_new u)) {| s with s_glue := r.1 |} r.2.

(** ** Parameters *)

Fixpoint after_prefix (p s : string) : option string :=
  match p, s with
  | EmptyString, _ => Some s
  | String a p, String b s => if Ascii.eqb a b then after_prefix p s else None
  | String _ _, EmptyString => None
  end.

(** The joint whose name and an underscore start the parameter's name, and the rest. *)
Fixpoint param_match_joint (js : list ps_limb_joint_cfg_t) (j : nat) (nm : string) : option (nat * string) :=
  match js with
  | [] => None
  | cfg :: js => match after_prefix (name cfg +:+ "_") nm with
                 | Some suffix => Some (j, suffix)
                 | None => param_match_joint js (S j) nm
                 end
  end.

(** [(float)value] of a double, and the reverse. *)
Definition to_float (x : spec_float) : f32 :=
  match x with S754_finite s m e => binary_round 24 128 s m e | _ => x end.
Definition to_double (x : f32) : spec_float :=
  match x with S754_finite s m e => binary_round 53 1024 s m e | _ => x end.
Definition double_of_Z (z : Z) : spec_float := binary_normalize 53 1024 z 0 false.

(** The torque limit stored for a value: never negative, never above the board's. *)
Definition torque_clamp (value : spec_float) (board_max : Z) : Z :=
  let v := i32 (default (undef_d value) (to_int (-2147483648) 2147483647 value)) in
  let v := if v <? 0 then 0 else v in
  let v := if board_max <? v then board_max else v in
  i16 v.

Definition limb_param_set (s : limb) (nm : option string) (value : spec_float) : limb * bool :=
  match nm with
  | None => (s, false)
  | Some nm =>
    match param_match_joint (joints s) 0 nm with
    | None => (s, false)
    | Some (j, suffix) =>
      if String.eqb suffix "pos_kp" then
        ({| s with s_pos_pid := alter (fun p => {| p with kp := to_float value |}) j (s_pos_pid s) |}, true)
      else if String.eqb suffix "pos_ki" then
        ({| s with s_pos_pid := alter (fun p => {| p with ki := to_float value |}) j (s_pos_pid s) |}, true)
      else if String.eqb suffix "vel_kp" then
        ({| s with s_vel_pid := alter (fun p => {| p with kp := to_float value |}) j (s_vel_pid s) |}, true)
      else if String.eqb suffix "vel_ki" then
        ({| s with s_vel_pid := alter (fun p => {| p with ki := to_float value |}) j (s_vel_pid s) |}, true)
      else if String.eqb suffix "torque_limit_cnm" then
        match joints s !! j with
        | Some cfg => ({| s with s_torque_limit_cnm := <[j := torque_clamp value (torque_limit_cnm cfg)]> (s_torque_limit_cnm s) |}, true)
        | None => (s, false)
        end
      else (s, false)
    end
  end.

Definition limb_param_get (s : limb) (nm : option string) : option spec_float :=
  match nm with
  | None => None
  | Some nm =>
    match param_match_joint (joints s) 0 nm with
    | None => None
    | Some (j, suffix) =>
      if String.eqb suffix "pos_kp" then (fun p => to_double (kp p)) <$> s_pos_pid s !! j
      else if String.eqb suffix "pos_ki" then (fun p => to_double (ki p)) <$> s_pos_pid s !! j
      else if String.eqb suffix "vel_kp" then (fun p => to_double (kp p)) <$> s_vel_pid s !! j
      else if String.eqb suffix "vel_ki" then (fun p => to_double (ki p)) <$> s_vel_pid s !! j
      else if String.eqb suffix "torque_limit_cnm" then double_of_Z <$> s_torque_limit_cnm s !! j
      else None
    end
  end.

(** ** CONTROL frames *)

Definition handle_joint_cmd (s : limb) (t : Z) (f : ps_can_frame_t) : limb :=
  if f_dlc f <? Z.of_nat (wire_size ps_joint_cmd_t) then bump_cmd_rejected s else
  let cmd : ps_joint_cmd_t := wire_read (f_data f) in
  if (Z.of_nat PS_LIMB_JOINT_COUNT <=? jc_joint cmd) || (PS_JMODE_IMPEDANCE <? jc_mode cmd) then bump_cmd_rejected s else
  match joints s !! Z.to_nat (jc_joint cmd) with
  | None => s
  | Some board =>
    let pos := jc_pos_crad cmd in
    let pos := if pos <? pos_min_crad board then pos_min_crad board
               else if pos_max_crad board <? pos then pos_max_crad board else pos in
    let sp := {| sp_mode := jc_mode cmd; sp_pos_crad := pos; sp_vel_crad_s := jc_vel_crad_s cmd; sp_eff_cNm := jc_eff_cNm cmd |} in
    let s := limb_setpoint_set s (jc_joint cmd) (Some sp) in
    let s := {| s with s_glue := ps_safety_note_cmd (s_glue s) t |} in
    bump_joint_cmd_rx s
  end.

Definition handle_mode_set (s : limb) (t : Z) (f : ps_can_frame_t) : limb :=
  let ms : ps_mode_set_t := wire_read (copy_short (wire_size ps_mode_set_t) f) in
  let s := {| s with s_glue := ps_safety_note_cmd (s_glue s) t |} in
  let s := with_glue s (ps_safety_note_mode_set (s_glue s) t (ms_target_state ms)) in
  bump_mode_set_rx s.

Definition control_rx_cb (s : limb) (t : Z) (f : ps_can_frame_t) : limb :=
  let type := ps_can_id_type (f_id f) in
  if type =? PS_T_JOINT_CMD then handle_joint_cmd s t f
  else if type =? PS_T_MODE_SET then handle_mode_set s t f
  else s.

(** ** The control loop *)

(** What the hardware answers for one joint in one tick. *)
Record joint_env := { je_rx : option (Z * Z); je_ia : option Z; je_ib : option Z; je_errs : nat -> esp_err_t }.

(** The current limit that a torque limit stands for. *)
Definition current_limit (cfg : ps_limb_joint_cfg_t) (limit_cnm : Z) : f32 :=
  (of_Z limit_cnm / of_Z 100 / (gear_ratio cfg * kt_nm_per_a cfg))%f32.

(** The switch on the mode: the position and velocity controllers and the current target. *)
Definition joint_target (cfg : ps_limb_joint_cfg_t) (sp : limb_setpoint_t) (pp vp : ps_pid_t) (out_pos out_vel : f32) :
    ps_pid_t * ps_pid_t * f32 :=
  let dir := of_Z (dir_sign cfg) in
  if sp_mode sp =? PS_JMODE_POSITION then
    let pos_target := (of_Z (sp_pos_crad sp) / of_Z 100)%f32 in
    let '(pp, vel_target) := ps_pid_step pp (pos_target - out_pos)%f32 CTRL_TICK_S in
    let '(vp, i_cmd) := ps_pid_step vp (vel_target - out_vel)%f32 CTRL_TICK_S in
    (pp, vp, (dir * i_cmd)%f32)
  else if sp_mode sp =? PS_JMODE_VELOCITY then
    let vel_target := (of_Z (sp_vel_crad_s sp) / of_Z 100)%f32 in
    let '(vp, i_cmd) := ps_pid_step vp (vel_target - out_vel)%f32 CTRL_TICK_S in
    (pp, vp, (dir * i_cmd)%f32)
  else if sp_mode sp =? PS_JMODE_TORQUE then
    let torque_out := (of_Z (sp_eff_cNm sp) / of_Z 100)%f32 in
    (pp, vp, (dir * (torque_out / gear_ratio cfg) / kt_nm_per_a cfg)%f32)
  else if sp_mode sp =? PS_JMODE_IMPEDANCE then
    let pos_target := (of_Z (sp_pos_crad sp) / of_Z 100)%f32 in
    let vel_target := (of_Z (sp_vel_crad_s sp) / of_Z 100)%f32 in
    let torque_out := (k_imp_nm_per_rad cfg * (pos_target - out_pos) + d_imp_nms_per_rad cfg * (vel_target - out_vel))%f32 in
    (pp, vp, (dir * (torque_out / gear_ratio cfg) / kt_nm_per_a cfg)%f32)
  else (ps_pid_reset pp, ps_pid_reset vp, of_Z 0).

Definition clamp_iq (iq i_limit : f32) : f32 * bool :=
  if (i_limit <? iq)%f32 then (i_limit, true)
  else if (iq <? fopp i_limit)%f32 then (fopp i_limit, true)
  else (iq, false).

(** The single write path of the actuation. *)
Definition joint_write (gate energize : bool) (drv : option ps_focdrv_ctx) (duty : list f32) (motor_vel : f32)
    (errs : nat -> esp_err_t) : option ps_focdrv_ctx :=
  if energize && gate then (ps_focdrv_set_duty undef errs drv (Some duty)).1
  else if (DAMP_THRESHOLD_RAD_S <? fabsf motor_vel)%f32 then (ps_focdrv_brake drv).1
  else (ps_focdrv_disable drv).1.

(** The overcurrent counter of a joint and whether it trips. *)
Definition oc_step (ticks : Z) (i_mag i_limit : f32) : Z * bool :=
  if (i_limit <? i_mag)%f32 then
    let ticks := u32 (ticks + 1) in
    if OVERCURRENT_TRIP_TICKS <? ticks then (0, true) else (ticks, false)
  else (0, false).

(** The measured currents in the rotor frame, and their magnitude. *)
Definition measured_dq (ia ib theta_e : f32) : ps_dq_t := ps_foc_park sinf cosf (ps_foc_clarke ia ib) theta_e.
Definition dq_mag (dq : ps_dq_t) : f32 := sqrtf (dq_d dq * dq_d dq + dq_q dq * dq_q dq)%f32.

(** The body of the loop over the joints; [t] and [t'] are the clock readings of a trip. *)
Definition control_joint (s : limb) (j : nat) (sp : limb_setpoint_t) (can_act_global : bool) (env : joint_env) (t t' : Z) : limb :=
  match joints s !! j with
  | None => s
  | Some cfg =>
    let enc := encoder_update (s_enc s !!! j) CTRL_TICK_S (je_rx env) in
    let ia := adc_read_amps (je_ia env) (cur_offset_mv cfg) (cur_mv_per_a cfg) in
    let ib := adc_read_amps (je_ib env) (cur_offset_mv cfg) (cur_mv_per_a cfg) in
    let theta_e := encoder_electrical_theta (last_raw enc) (pole_pairs cfg) in
    let out_pos := (of_Z (dir_sign cfg) * angle_rad enc / gear_ratio cfg)%f32 in
    let out_vel := (of_Z (dir_sign cfg) * vel_rad_s enc / gear_ratio cfg)%f32 in
    let i_limit := current_limit cfg (s_torque_limit_cnm s !!! j) in
    let energize := negb (sp_mode sp =? PS_JMODE_PASSIVE) in
    let '(pp, vp, iq_target) := joint_target cfg sp (s_pos_pid s !!! j) (s_vel_pid s !!! j) out_pos out_vel in
    let '(iq_target, saturated) := clamp_iq iq_target i_limit in
    let '(foc, duty) := ps_foc_ctl_step sinf cosf (s_foc s !!! j) ia ib theta_e (of_Z 0) iq_target PS_LIMB_V_BUS_VOLTS CTRL_TICK_S in
    let drv := joint_write (ps_safety_can_actuate (s_glue s)) energize (s_focdrv s !!! j) duty (vel_rad_s enc) (je_errs env) in
    let dq := measured_dq ia ib theta_e in
    let '(oc, trip) := oc_step (s_oc_ticks s !!! j) (dq_mag dq) i_limit in
    let s := {| s with s_enc := <[j := enc]> (s_enc s); s_pos_pid := <[j := pp]> (s_pos_pid s);
                       s_vel_pid := <[j := vp]> (s_vel_pid s); s_foc := <[j := foc]> (s_foc s);
                       s_focdrv := <[j := drv]> (s_focdrv s); s_oc_ticks := <[j := oc]> (s_oc_ticks s) |} in
    let s := if trip then
        let '(g, _, calls) := ps_safety_raise_estop (s_glue s) PS_ESTOP_SOFTWARE t t' in
        limb_counters_bump_overcurrent (with_glue s (g, calls))
      else s in
    {| s with s_states := <[j := {|
         lj_pos_crad := sat_i16 undef (out_pos * of_Z 100)%f32;
         lj_vel_crad_s := sat_i16 undef (out_vel * of_Z 100)%f32;
         lj_eff_cNm := sat_i16 undef (dq_q dq * kt_nm_per_a cfg * gear_ratio cfg * of_Z 100)%f32;
         lj_saturated := saturated; lj_passive := negb energize || negb can_act_global |}]> (s_states s) |}
  end.

(** ** The 250 Hz sensor pass *)

Definition zero_snapshot : limb_sensor_snapshot_t :=
  {| sn_quat := {| iq_qw := 0; iq_qx := 0; iq_qy := 0; iq_qz := 0 |}; sn_acc := {| ia_ax := 0; ia_ay := 0; ia_az := 0; ia_rsvd := 0 |};
     sn_gyr := {| ig_gx := 0; ig_gy := 0; ig_gz := 0; ig_rsvd := 0 |};
     sn_force := {| fo_ch0 := 0; fo_ch1 := 0; fo_ch2 := 0; fo_ch3 := 0 |}; imu_valid := false |}.

(** The attitude: the filter and the snapshot. *)
Definition sensor_imu (s : limb) (raw : option (list Z)) : ps_mahony_t * limb_sensor_snapshot_t :=
  let none := (s_mahony s, zero_snapshot) in
  if negb (s_imu_ok s) then none else
  match imu_mpu6050_read (s_imu s) raw with
  | Some ([a0; a1; a2], [g0; g1; g2]) =>
    let m := ps_mahony_update (s_mahony s) g0 g1 g2 a0 a1 a2 (of_Z SENSOR_TICK_DIV * CTRL_TICK_S)%f32 in
    let q := ps_mahony_get_quat_q15 undef m in
    (m, {| zero_snapshot with
           sn_quat := {| iq_qw := q !!! 0%nat; iq_qx := q !!! 1%nat; iq_qy := q !!! 2%nat; iq_qz := q !!! 3%nat |};
           sn_acc := {| ia_ax := sat_i16 undef (a0 * of_Z 1000)%f32; ia_ay := sat_i16 undef (a1 * of_Z 1000)%f32;
                        ia_az := sat_i16 undef (a2 * of_Z 1000)%f32; ia_rsvd := 0 |};
           sn_gyr := {| ig_gx := sat_i16 undef (g0 * RAD_S_TO_DDPS)%f32; ig_gy := sat_i16 undef (g1 * RAD_S_TO_DDPS)%f32;
                        ig_gz := sat_i16 undef (g2 * RAD_S_TO_DDPS)%f32; ig_rsvd := 0 |};
           imu_valid := true |})
  | _ => none
  end.

(** A strain channel: zero where the conversion fails. *)
Definition strain_cN (raw : option Z) (offset : f32) : Z :=
  match raw with Some raw => sat_i16 undef ((of_Z raw - offset) * PS_STRAIN_CN_PER_COUNT)%f32 | None => 0 end.

Definition sensor_pass (s : limb) (imu_raw : option (list Z)) (strain : nat -> option Z) : limb :=
  let '(m, snap) := sensor_imu s imu_raw in
  let ch c := strain_cN (strain c) (s_strain_offset s !!! c) in
  {| s with s_mahony := m;
            s_sensors := {| snap with sn_force := {| fo_ch0 := ch 0%nat; fo_ch1 := ch 1%nat; fo_ch2 := ch 2%nat; fo_ch3 := ch 3%nat |} |} |}.

(** ** One turn of [control_task] *)

Record tick_env := {
  te_pending : Z;                     (* notifications taken *)
  te_joint : nat -> joint_env;
  te_imu : option (list Z); te_strain : nat -> option Z;
  te_exec_us : Z; te_stack : Z;       (* the clock difference and the stack mark *)
  te_t : Z; te_t' : Z }.              (* the clock at a trip, before and after the sends *)

(** Missed ticks and counters. *)
Definition turn_begin (s : limb) (env : tick_env) : limb :=
  let s := if 1 <? te_pending env
           then {| s with s_timing := {| (s_timing s) with missed_ticks := u32 (missed_ticks (s_timing s) + (te_pending env - 1)) |} |}
           else s in
  let s := {| s with ctl_tick := u32 (ctl_tick s + 1) |} in
  limb_counters_bump_control_tick s.

(** The loop over the joints, on a snapshot of the setpoints. *)
Definition turn_joints (s : limb) (env : tick_env) : limb :=
  let sp := s_setpoints s in
  let can_act_global := ps_safety_can_actuate (s_glue s) in
  foldl (fun s j => match sp !! j with
                    | Some x => control_joint s j x can_act_global (te_joint env j) (te_t env) (te_t' env)
                    | None => s end) s (seq 0 PS_LIMB_JOINT_COUNT).

(** Sensors and timing. *)
Definition turn_end (s : limb) (env : tick_env) : limb :=
  let s := if ctl_tick s mod SENSOR_TICK_DIV =? 0 then sensor_pass s (te_imu env) (te_strain env) else s in
  let s := if max_exec_us (s_timing s) <? u32 (te_exec_us env)
           then {| s with s_timing := {| (s_timing s) with max_exec_us := u32 (te_exec_us env) |} |} else s in
  if (ctl_tick s =? 1) || (ctl_tick s mod STACK_SAMPLE_TICKS =? 0)
  then {| s with s_timing := {| (s_timing s) with stack_free_bytes := u32 (te_stack env) |} |} else s.

Definition control_turn (s : limb) (env : tick_env) : limb := turn_end (turn_joints (turn_begin s env) env) env.

(** *** Initialisation *)

(** The tare of one strain channel: failed samples count as zero. *)
Definition strain_tare (samples : list (option Z)) : f32 :=
  (of_Z (foldl (fun sum r => (sum + default 0 r)%Z) 0%Z samples) / of_Z STRAIN_TARE_SAMPLES)%f32.

(** The controllers, the stage and the torque limit of one joint. *)
Definition init_joint (s : limb) (j : nat) (cfg : ps_limb_joint_cfg_t) (drv : option ps_focdrv_ctx) : limb :=
  let i_limit := current_limit cfg (torque_limit_cnm cfg) in
  {| s with
     s_enc := <[j := encoder_zero]> (s_enc s);
     s_focdrv := <[j := drv]> (s_focdrv s);
     s_pos_pid := alter (ps_pid_init (pos_kp cfg) (pos_ki cfg) (pos_kd cfg) (fopp (pos_vel_limit_rad_s cfg)) (pos_vel_limit_rad_s cfg)) j (s_pos_pid s);
     s_vel_pid := alter (ps_pid_init (vel_kp cfg) (vel_ki cfg) (vel_kd cfg) (fopp i_limit) i_limit) j (s_vel_pid s);
     s_foc := alter (fun c => ps_foc_ctl_init c (cur_kp cfg) (cur_ki cfg) (PS_LIMB_V_BUS_VOLTS * flit 1 2)%f32) j (s_foc s);
     s_torque_limit_cnm := <[j := torque_limit_cnm cfg]> (s_torque_limit_cnm s) |}.

Definition focdrv_config (cfg : ps_limb_joint_cfg_t) : ps_focdrv_config_t :=
  {| group_id := mcpwm_group cfg; gpios := gates cfg; pwm_hz := 0; deadtime_ns := 0 |}.

(** [control_init_hw] where every checked call succeeds (any failure aborts the node, see [Boot]);
    [imu_calls] and [samples] are the answers of the sensors. *)
Definition control_init_hw (s : limb) (imu_calls : list esp_err_t) (samples : nat -> list (option Z)) : limb :=
  let '(imu, err) := limb_imu_init (s_imu s) imu_calls in
  let s := {| s with s_imu := imu; s_imu_ok := is_ok err; s_mahony := ps_mahony_init (flit 1 2) (flit 1 100);
                     s_strain_offset := (fun c => strain_tare (samples c)) <$> seq 0 4 |} in
  foldl (fun s j => match joints s !! j with
                    | Some cfg =>
                      init_joint s j cfg (ps_focdrv_init (Some (focdrv_config cfg)) true (fun _ => ESP_OK) ≫= fst)
                    | None => s end) s (seq 0 PS_LIMB_JOINT_COUNT).

(** ** comms_task.c: telemetry *)

Definition limb_telem_send (s : limb) (cls type : Z) (payload : list Z) (len : Z) : limb :=
  let k := Z.to_nat type in
  let f := {| f_id := ps_can_id_pack cls (s_node_id s) PS_NODE_ORCH type (s_seq s !!! k); f_dlc := len;
              f_data := bput 0 (take (Z.to_nat len) payload) (replicate 8 0) |} in
  {| s with s_seq := <[k := u8 (s_seq s !!! k + 1)]> (s_seq s);
            s_glue := {| (s_glue s) with can := (ps_can_send (can (s_glue s)) (Some f)).1 |} |}.

Definition joint_msg (j : nat) (st : limb_joint_state_t) : ps_joint_state_t :=
  {| js_joint := u8 (Z.of_nat j);
     js_flags := Z.lor (if lj_saturated st then 1 else 0) (if lj_passive st then 2 else 0);
     js_pos_crad := lj_pos_crad st; js_vel_crad_s := lj_vel_crad_s st; js_eff_cNm := lj_eff_cNm st |}.

Definition send_joint (s : limb) (j : nat) (st : limb_joint_state_t) : limb :=
  limb_telem_send s PS_CLS_TELEM PS_T_JOINT_STATE (wire_write (joint_msg j st)) 8.

Definition send_sensors (s : limb) (snap : limb_sensor_snapshot_t) : limb :=
  let s := if imu_valid snap then
      let s := limb_telem_send s PS_CLS_TELEM PS_T_IMU_QUAT (wire_write (sn_quat snap)) 8 in
      let s := limb_telem_send s PS_CLS_TELEM PS_T_IMU_ACC (wire_write (sn_acc snap)) 8 in
      limb_telem_send s PS_CLS_TELEM PS_T_IMU_GYR (wire_write (sn_gyr snap)) 8
    else s in
  limb_telem_send s PS_CLS_TELEM PS_T_FORCE (wire_write (sn_force snap)) 8.

Definition limb_stats (cur prev : ps_can_stats_t) (st : Z) : ps_node_stats_t :=
  let sat z := u16 (if 0xFFFF <? z then 0xFFFF else z) in
  {| ns_cpu_pct := 0; ns_state := st;
     ns_rx_fps := sat (u32 (rx_frames cur - rx_frames prev));
     ns_tx_fps := sat (u32 (tx_frames cur - tx_frames prev));
     ns_err_cnt := sat (u32 (u32 (bus_errors cur - bus_errors prev) + u32 (rx_dropped cur - rx_dropped prev) +
                             u32 (tx_timeouts cur - tx_timeouts prev))) |}.

Definition send_housekeeping (s : limb) : limb :=
  let cur := ps_can_get_stats (can (s_glue s)) (prev_can s) in
  let stats := limb_stats cur (prev_can s) (ps_safety_state (s_glue s)) in
  let s := {| s with prev_can := cur |} in
  let s := limb_telem_send s PS_CLS_TELEM PS_T_NODE_STATS (wire_write stats) 8 in
  let ver := {| ve_major := 0; ve_minor := 1; ve_patch := 0; ve_node_state := ps_safety_state (s_glue s); ve_git_short := 0 |} in
  limb_telem_send s PS_CLS_MGMT PS_T_VERSION (wire_write ver) 8.

(** One turn of [comms_task]. *)
Definition comms_turn (s : limb) : limb :=
  let s := {| s with comms_tick := u32 (comms_tick s + 1) |} in
  let st := s_states s in
  let s := foldl (fun s j => match st !! j with Some x => send_joint s j x | None => s end) s (seq 0 PS_LIMB_JOINT_COUNT) in
  let s := send_sensors s (s_sensors s) in
  if comms_tick s mod 100 =? 0 then send_housekeeping s else s.

End Limb.
