(* ===== verification/LimbSpec.v ===== *)
(** What the limb nodes guarantee: joints that are energised only through an open gate and
    a command, targets and current targets within the board's limits, limpness after a trip until a new
    command, the overcurrent trip, the unwrapping of the encoder; and what a NaN gain does
    to the duties. *)
From stdpp Require Import strings.
From S2P Require Import Prelude CanId Wire Rtos Txq Can Safety SafetySpec SafetyEsp Float32 FloatVal Ctl CtlSpec Imu Limb.
From Stdlib Require Import SpecFloat.

(** ** Encoder *)

(** The positions of a shaft over time, in counts, each sample taken modulo one turn: the
    sum of the deltas. *)
Fixpoint unwrapped (last : Z) (ps : list Z) : Z :=
  match ps with [] => 0 | p :: ps => encoder_delta (p mod 16384) (last mod 16384) + unwrapped p ps end.

Fixpoint slow (last : Z) (ps : list Z) : Prop :=
  match ps with [] => True | p :: ps => Z.abs (p - last) <= 8191 /\ slow p ps end.

Lemma encoder_delta_exact p q : Z.abs (q - p) <= 8191 -> encoder_delta (q mod 16384) (p mod 16384) = q - p.
Proof.
  intros Hd. unfold encoder_delta. cbv zeta.
  destruct (Z.ltb_spec 8192 (q mod 16384 - p mod 16384)); [|destruct (Z.ltb_spec (q mod 16384 - p mod 16384) (-8192))];
    Z.to_euclidean_division_equations; lia.
Qed.

(** The encoder is unwrapped exactly: however far the shaft turns, as long as it moves less
    than half a turn between two samples, the deltas of the 14-bit samples add up to its
    displacement. *)
Theorem encoder_unwraps p ps : slow p ps -> unwrapped p ps = default p (list.last ps) - p.
Proof.
  revert p. induction ps as [|q ps IH]; intros p Hs; [cbn; lia|]. destruct Hs as [Hd Hs]. cbn [unwrapped].
  rewrite encoder_delta_exact, (IH q Hs) by done. destruct ps as [|r ps]; [cbn; lia|].
  rewrite last_cons_cons. destruct (list.last (r :: ps)) eqn:E; [cbn; lia|]. by apply last_None in E.
Qed.

(** ** Runs of a node *)

Section LimbSpec.
Context `{RtosQueue} `{TwaiDlc} (undef : f32 -> Z) (undef_d : spec_float -> Z) (sinf cosf : f32 -> f32).

Inductive lev :=
  | LControl (t : Z) (f : ps_can_frame_t)
  | LSafety (t : Z) (e : gev)
  | LParam (nm : option string) (value : spec_float)
  | LTick (env : tick_env)
  | LComms.

Definition lstep (s : limb) (ev : lev) : limb :=
  match ev with
  | LControl t f => control_rx_cb s t f
  | LSafety t e => with_glue s (gstep (s_glue s) t e)
  | LParam nm v => (limb_param_set undef_d s nm v).1
  | LTick env => control_turn undef sinf cosf s env
  | LComms => comms_turn s
  end.

Definition lrun (s : limb) (evs : list lev) : limb := foldl lstep s evs.

(** *** The invariant *)

Definition setpoint_ok (cfg : ps_limb_joint_cfg_t) (sp : limb_setpoint_t) : Prop :=
  pos_min_crad cfg <= sp_pos_crad sp <= pos_max_crad cfg /\ sp_mode sp <= PS_JMODE_IMPEDANCE.

Definition torque_ok (cfg : ps_limb_joint_cfg_t) (l : Z) : Prop := 0 <= l <= torque_limit_cnm cfg.

(** The parts of the state the invariant speaks about. *)
Record limits := { li_joints : list ps_limb_joint_cfg_t; li_sp : list limb_setpoint_t; li_torque : list Z;
                   li_drv : list (option ps_focdrv_ctx) }.

Definition limits_of (s : limb) : limits :=
  {| li_joints := joints s; li_sp := s_setpoints s; li_torque := s_torque_limit_cnm s; li_drv := s_focdrv s |}.

Definition stage_ok (d : option ps_focdrv_ctx) : Prop := exists h, d = Some h /\ drv_ok h.

Record limits_ok (l : limits) : Prop := {
  lo_node : exists n, 1 <= n <= 4 /\ li_joints l = PS_LIMB_JOINTS n;
  lo_sp : Forall2 setpoint_ok (li_joints l) (li_sp l);
  lo_torque : Forall2 torque_ok (li_joints l) (li_torque l);
  lo_drv : length (li_drv l) = PS_LIMB_JOINT_COUNT /\ Forall stage_ok (li_drv l) }.

Definition cfg_ok (c : ps_limb_joint_cfg_t) : Prop :=
  pos_min_crad c <= 0 <= pos_max_crad c /\ 0 <= torque_limit_cnm c <= 32767.

Lemma tables_ok n : 1 <= n <= 4 -> length (PS_LIMB_JOINTS n) = PS_LIMB_JOINT_COUNT /\ Forall cfg_ok (PS_LIMB_JOINTS n).
Proof.
  intros Hn. assert (n = 1 \/ n = 2 \/ n = 3 \/ n = 4) as [->|[->|[->| ->]]] by lia;
    (split; [done|]); repeat constructor; vm_compute; congruence.
Qed.

Lemma limits_joints l : limits_ok l -> length (li_joints l) = PS_LIMB_JOINT_COUNT /\ Forall cfg_ok (li_joints l).
Proof. intros [(n & Hn & ->) _ _ _]. by apply tables_ok. Qed.

Lemma passive_ok l : limits_ok l -> limits_ok {| l with li_sp := replicate PS_LIMB_JOINT_COUNT passive_setpoint |}.
Proof.
  intros Hl. destruct (limits_joints l Hl) as [Hlen Hc]. destruct Hl as [H1 H2 H3 H4]. split; cbn [li_joints li_sp li_torque li_drv]; [done| |done..].
  apply Forall2_replicate_r; [done|]. apply (list.Forall_impl _ _ _ Hc). intros c (? & _). by split.
Qed.

Lemma transition_limits s st : limits_ok (limits_of s) -> limits_ok (limits_of (limb_safety_on_transition s st)).
Proof.
  intros Hl. unfold limb_safety_on_transition. destruct (_ || _ || _); [by apply (passive_ok _ Hl)|].
  by destruct (_ =? _).
Qed.

Lemma with_glue_limits s r : limits_ok (limits_of s) -> limits_ok (limits_of (with_glue s r)).
Proof.
  intros Hl. unfold with_glue. destruct r as [g calls]. cbn [fst snd]. set (s0 := {| s with s_glue := g |}).
  assert (limits_ok (limits_of s0)) as H0' by done. clearbody s0. clear Hl.
  revert s0 H0'. induction calls as [|u calls IH]; intros s0 H0'; [done|]. cbn [foldl]. by apply IH, transition_limits.
Qed.

Lemma control_rx_limits s t f : limits_ok (limits_of s) -> limits_ok (limits_of (control_rx_cb s t f)).
Proof.
  intros Hl. unfold control_rx_cb. cbv zeta. destruct (_ =? _); [|destruct (_ =? _); [|done]].
  - unfold handle_joint_cmd. destruct (_ <? _); [done|]. cbv zeta. set (cmd := wire_read (f_data f) : ps_joint_cmd_t). clearbody cmd.
    destruct (Z.leb_spec (Z.of_nat PS_LIMB_JOINT_COUNT) (jc_joint cmd)) as [|Hj]; [done|].
    destruct (Z.ltb_spec PS_JMODE_IMPEDANCE (jc_mode cmd)) as [|Hm]; [done|]. cbn [orb].
    destruct (joints s !! Z.to_nat (jc_joint cmd)) as [board|] eqn:Eb; [|done].
    unfold limb_setpoint_set. rewrite (proj2 (Z.leb_gt _ _) Hj).
    destruct (limits_joints _ Hl) as [_ Hc]. pose proof (Forall_lookup_1 _ _ _ _ Hc Eb) as (Hr & _).
    destruct Hl as [H1 H2 H3 H4]. split; cbn; [done| |done..].
    cbn in H2. rewrite <- (list_insert_id _ _ _ Eb). apply Forall2_insert; [done|]. split; cbn; [|done].
    destruct (Z.ltb_spec (jc_pos_crad cmd) (pos_min_crad board)); [lia|].
    destruct (Z.ltb_spec (pos_max_crad board) (jc_pos_crad cmd)); lia.
  - unfold handle_mode_set. cbv zeta. apply (with_glue_limits {| s with s_glue := ps_safety_note_cmd (s_glue s) t |}), Hl.
Qed.

Lemma torque_clamp_ok v cfg : cfg_ok cfg -> torque_ok cfg (torque_clamp undef_d v (torque_limit_cnm cfg)).
Proof.
  intros (_ & Hb & Hb'). unfold torque_clamp, torque_ok. cbv zeta. set (x := i32 _). clearbody x.
  destruct (Z.ltb_spec x 0); [destruct (Z.ltb_spec (torque_limit_cnm cfg) 0)
                             | destruct (Z.ltb_spec (torque_limit_cnm cfg) x)]; rewrite i16_id by clia; lia.
Qed.

Lemma param_set_limits s nm v : limits_ok (limits_of s) -> limits_ok (limits_of (limb_param_set undef_d s nm v).1).
Proof.
  intros Hl. unfold limb_param_set. destruct nm as [nm|]; [|done].
  destruct (param_match_joint (joints s) 0 nm) as [[j suf]|]; [|done].
  destruct (String.eqb suf "pos_kp"); [done|]. destruct (String.eqb suf "pos_ki"); [done|].
  destruct (String.eqb suf "vel_kp"); [done|]. destruct (String.eqb suf "vel_ki"); [done|].
  destruct (String.eqb suf "torque_limit_cnm"); [|done]. destruct (joints s !! j) as [cfg|] eqn:Ec; [|done].
  destruct (limits_joints _ Hl) as [_ Hc]. pose proof (Forall_lookup_1 _ _ _ _ Hc Ec) as Hcfg.
  destruct Hl as [H1 H2 H3 H4]. split; cbn [fst]; [done | done | | done]. cbn in H3 |- *.
  rewrite <- (list_insert_id _ _ _ Ec). apply Forall2_insert; [done|]. by apply torque_clamp_ok.
Qed.

(** *** The actuation *)

(** No switch of the stage follows its comparator: all six off, or the three low sides on. *)
Definition limp (d : option ps_focdrv_ctx) : Prop :=
  exists h, d = Some h /\ gen_high h = replicate 3 (Some false) /\
    (gen_low h = replicate 3 (Some false) \/ gen_low h = replicate 3 (Some true)).

Lemma joint_write_spec gate en d duty v errs : stage_ok d ->
  stage_ok (joint_write undef gate en d duty v errs) /\
  (en && gate = false -> limp (joint_write undef gate en d duty v errs)).
Proof.
  intros (h & -> & Hh). assert (forall op, stage_ok (drv_step undef (Some h) op)) as Hs.
  { intros op. destruct (drv_step_ok undef h op Hh) as (h' & -> & ?). by exists h'. }
  unfold joint_write. destruct (en && gate).
  { split; [|done]. exact (Hs (SetDuty duty errs)). }
  destruct (fltb _ _).
  - split; [exact (Hs Brake)|]. intros _. eexists. split; [reflexivity|]. destruct Hh as (_ & B & C & _).
    destruct h as [cs hs ls p ph tr]; cbn in *. destruct hs as [|? [|? [|? []]]], ls as [|? [|? [|? []]]]; try discriminate; auto.
  - split; [exact (Hs Disable)|]. intros _. eexists. split; [reflexivity|]. destruct Hh as (_ & B & C & _).
    destruct h as [cs hs ls p ph tr]; cbn in *. destruct hs as [|? [|? [|? []]]], ls as [|? [|? [|? []]]]; try discriminate; auto.
Qed.

(** What a call of the safety glue can change of the limits. *)
Lemma with_glue_frame s r : joints (with_glue s r) = joints s /\ s_torque_limit_cnm (with_glue s r) = s_torque_limit_cnm s /\
  s_focdrv (with_glue s r) = s_focdrv s /\ s_glue (with_glue s r) = r.1 /\
  (s_setpoints (with_glue s r) = s_setpoints s \/ s_setpoints (with_glue s r) = replicate PS_LIMB_JOINT_COUNT passive_setpoint).
Proof.
  unfold with_glue. destruct r as [g calls]. cbn [fst snd]. set (s0 := {| s with s_glue := g |}).
  assert (joints s0 = joints s /\ s_torque_limit_cnm s0 = s_torque_limit_cnm s /\ s_focdrv s0 = s_focdrv s /\ s_glue s0 = g /\
    (s_setpoints s0 = s_setpoints s \/ s_setpoints s0 = replicate PS_LIMB_JOINT_COUNT passive_setpoint)) as Hs0
    by (split_and!; auto). clearbody s0.
  revert s0 Hs0. induction calls as [|u calls IH]; intros s0 (E1 & E2 & E3 & E4 & E5); [done|]. cbn [foldl]. apply IH.
  unfold limb_safety_on_transition. destruct (_ || _ || _); [split_and!; auto|]. destruct (_ =? _); split_and!; auto.
Qed.

(** One joint: the stage of that joint is written once, nothing else of the limits changes
    except that a trip makes every setpoint passive. *)
Lemma control_joint_frame s j sp ca env t t' : let s' := control_joint undef sinf cosf s j sp ca env t t' in
  joints s' = joints s /\ s_torque_limit_cnm s' = s_torque_limit_cnm s /\
  (s_setpoints s' = s_setpoints s \/ s_setpoints s' = replicate PS_LIMB_JOINT_COUNT passive_setpoint) /\
  (s_glue s' = s_glue s \/ s_glue s' = (ps_safety_raise_estop (s_glue s) PS_ESTOP_SOFTWARE t t').1.1) /\
  ((joints s !! j = None /\ s' = s) \/ exists duty v,
     s_focdrv s' = <[j := joint_write undef (ps_safety_can_actuate (s_glue s)) (negb (sp_mode sp =? PS_JMODE_PASSIVE))
                         (s_focdrv s !!! j) duty v (je_errs env)]> (s_focdrv s)).
Proof.
  cbv zeta. unfold control_joint. destruct (joints s !! j) as [cfg|]; [|by auto 10].
  cbv zeta. set (enc' := encoder_update _ _ _). set (th := encoder_electrical_theta _ _). clearbody enc' th.
  destruct (joint_target _ _ _ _ _ _) as [[pp' vp'] iq]. destruct (clamp_iq _ _) as [iq' sat].
  destruct (ps_foc_ctl_step _ _ _ _ _ _ _ _ _ _) as [foc' duty]. set (dq := measured_dq _ _ _ _ _). clearbody dq.
  destruct (oc_step _ _ _) as [oc' trip].
  set (s1 := {| s with s_enc := _; s_pos_pid := _; s_vel_pid := _; s_foc := _; s_focdrv := _; s_oc_ticks := _ |}).
  set (s2 := if trip then _ else s1).
  assert (joints s2 = joints s /\ s_torque_limit_cnm s2 = s_torque_limit_cnm s /\
    (s_setpoints s2 = s_setpoints s \/ s_setpoints s2 = replicate PS_LIMB_JOINT_COUNT passive_setpoint) /\
    (s_glue s2 = s_glue s \/ s_glue s2 = (ps_safety_raise_estop (s_glue s) PS_ESTOP_SOFTWARE t t').1.1) /\
    s_focdrv s2 = s_focdrv s1) as (E1 & E2 & E3 & E4 & E5).
  { unfold s2. destruct trip; [|by auto 10]. change (s_glue s1) with (s_glue s).
    destruct (ps_safety_raise_estop (s_glue s) PS_ESTOP_SOFTWARE t t') as [[g err] calls].
    destruct (with_glue_frame s1 (g, calls)) as (F1 & F2 & F3 & F4 & F5). split_and!; [exact F1 | exact F2 | exact F5 | by right | exact F3]. }
  clearbody s2. split_and!; [exact E1 | exact E2 | exact E3 | exact E4 |]. right. exists duty, (vel_rad_s enc'). exact E5.
Qed.

Lemma control_joint_limits s j sp ca env t t' : (j < PS_LIMB_JOINT_COUNT)%nat -> limits_ok (limits_of s) ->
  limits_ok (limits_of (control_joint undef sinf cosf s j sp ca env t t')).
Proof.
  intros Hj Hl. destruct (control_joint_frame s j sp ca env t t') as (E1 & E2 & E3 & _ & E5). cbv zeta in *.
  set (s' := control_joint _ _ _ _ _ _ _ _ _ _) in *. clearbody s'.
  assert (length (s_focdrv s') = PS_LIMB_JOINT_COUNT /\ Forall stage_ok (s_focdrv s')) as Hd.
  { destruct (lo_drv _ Hl) as [Hlen Hd]. cbn in Hlen, Hd. destruct E5 as [[_ ->]|(duty & v & ->)]; [done|].
    rewrite length_insert. split; [done|]. apply Forall_insert; [done|]. apply joint_write_spec.
    apply (Forall_lookup_1 _ _ j _ Hd), list_lookup_lookup_total_lt. by rewrite Hlen. }
  destruct E3 as [E3|E3].
  - destruct Hl as [H1 H2 H3 H4]. split; cbn; rewrite ?E1, ?E2, ?E3; done.
  - destruct (passive_ok _ Hl) as [H1 H2 H3 H4]. cbn [limits_of li_joints li_sp li_torque li_drv] in *.
    split; cbn [limits_of li_joints li_sp li_torque li_drv]; rewrite ?E1, ?E2, ?E3; done.
Qed.

(** The parts of the state that command, gate and write the joints. *)
Definition plant (s : limb) := (joints s, s_setpoints s, s_torque_limit_cnm s, s_focdrv s, core (s_glue s), started (s_glue s), user_cb (s_glue s)).

Lemma plant_limits s s' : plant s' = plant s -> limits_of s' = limits_of s.
Proof. unfold plant, limits_of. intros [= -> -> -> -> _ _]. done. Qed.

Lemma plant_eq s s' : plant s' = plant s -> joints s' = joints s /\ s_setpoints s' = s_setpoints s /\
  s_focdrv s' = s_focdrv s /\ core (s_glue s') = core (s_glue s) /\ started (s_glue s') = started (s_glue s).
Proof. unfold plant. by intros [= -> -> _ -> -> -> _]. Qed.

Lemma begin_plant s env : plant (turn_begin s env) = plant s.
Proof. unfold turn_begin. cbv zeta. by destruct (1 <? _). Qed.

Lemma end_plant s env : plant (turn_end undef s env) = plant s.
Proof.
  unfold turn_end. cbv zeta. set (s1 := if _ mod SENSOR_TICK_DIV =? 0 then _ else s).
  assert (plant s1 = plant s) as E1.
  { unfold s1. destruct (_ =? 0); [|done]. unfold sensor_pass. by destruct (sensor_imu _ _ _). }
  clearbody s1. set (s2 := if _ <? _ then _ else s1). assert (plant s2 = plant s1) as E2 by (unfold s2; by destruct (_ <? _)).
  clearbody s2. destruct (_ || _); exact (eq_trans E2 E1).
Qed.

Lemma limb_telem_plant s c ty pl len : plant (limb_telem_send s c ty pl len) = plant s.
Proof. done. Qed.

Lemma limb_comms_plant s : plant (comms_turn s) = plant s.
Proof.
  unfold comms_turn. cbv zeta. set (s0 := {| s with comms_tick := _ |}).
  change (plant s) with (plant s0). clearbody s0. set (sts := s_states s0). clearbody sts.
  set (s1 := foldl _ s0 _). assert (plant s1 = plant s0) as E1.
  { unfold s1. cbn [foldl seq PS_LIMB_JOINT_COUNT]. by destruct (sts !! 0%nat), (sts !! 1%nat). }
  clearbody s1. rewrite <- E1.
  assert (plant (send_sensors s1 (s_sensors s1)) = plant s1) as E2 by (unfold send_sensors; cbv zeta; by destruct (imu_valid _)).
  set (s2 := send_sensors _ _) in *. clearbody s2. rewrite <- E2. by destruct (_ =? 0).
Qed.

Lemma joints_limits s env : limits_ok (limits_of s) -> limits_ok (limits_of (turn_joints undef sinf cosf s env)).
Proof.
  intros Hl. unfold turn_joints. cbv zeta. generalize (ps_safety_can_actuate (s_glue s)) as ca. generalize (s_setpoints s) as sps.
  intros sps ca. cbn [foldl seq PS_LIMB_JOINT_COUNT].
  destruct (sps !! 0%nat), (sps !! 1%nat); try done; repeat apply control_joint_limits; done || (unfold PS_LIMB_JOINT_COUNT; lia).
Qed.

Lemma turn_limits s env : limits_ok (limits_of s) -> limits_ok (limits_of (control_turn undef sinf cosf s env)).
Proof.
  intros Hl. unfold control_turn. rewrite (plant_limits _ _ (end_plant _ env)). apply joints_limits.
  by rewrite (plant_limits _ _ (begin_plant s env)).
Qed.

Lemma limits_step s ev : limits_ok (limits_of s) -> limits_ok (limits_of (lstep s ev)).
Proof.
  intros Hl. destruct ev; cbn [lstep].
  - by apply control_rx_limits.
  - by apply with_glue_limits.
  - by apply param_set_limits.
  - by apply turn_limits.
  - by rewrite (plant_limits _ _ (limb_comms_plant s)).
Qed.

Lemma limits_run s evs : limits_ok (limits_of s) -> limits_ok (limits_of (lrun s evs)).
Proof. revert s. induction evs as [|ev evs IH]; intros s Hl; [done|]. by apply IH, limits_step. Qed.

(** *** Boot *)

(** The memory before the node starts, with a safety glue [g]. *)
Definition limb_zero (n : Z) (g : glue) : limb :=
  {| joints := PS_LIMB_JOINTS n; s_setpoints := replicate PS_LIMB_JOINT_COUNT passive_setpoint;
     s_states := replicate PS_LIMB_JOINT_COUNT {| lj_pos_crad := 0; lj_vel_crad_s := 0; lj_eff_cNm := 0; lj_saturated := false; lj_passive := false |};
     s_sensors := zero_snapshot;
     s_pos_pid := replicate PS_LIMB_JOINT_COUNT zero_pid; s_vel_pid := replicate PS_LIMB_JOINT_COUNT zero_pid;
     s_foc := replicate PS_LIMB_JOINT_COUNT {| pid_d := zero_pid; pid_q := zero_pid; v_limit := of_Z 0 |};
     s_torque_limit_cnm := replicate PS_LIMB_JOINT_COUNT 0; s_oc_ticks := replicate PS_LIMB_JOINT_COUNT 0;
     s_focdrv := replicate PS_LIMB_JOINT_COUNT None; s_enc := replicate PS_LIMB_JOINT_COUNT encoder_zero;
     s_imu := {| gyr_per_lsb := of_Z 0; acc_g_per_lsb := of_Z 0 |}; s_imu_ok := false; s_mahony := ps_mahony_init (of_Z 0) (of_Z 0);
     s_strain_offset := replicate 4 (of_Z 0);
     s_timing := {| max_exec_us := 0; missed_ticks := 0; stack_free_bytes := 0 |};
     s_ctr := {| control_ticks := 0; overcurrent_trips := 0; joint_cmd_rx := 0; mode_set_rx := 0; cmd_rejected := 0 |};
     s_seq := replicate 256 0; s_node_id := n; s_glue := g; ctl_tick := 0; comms_tick := 0;
     prev_can := {| rx_frames := 0; tx_frames := 0; rx_dropped := 0; tx_timeouts := 0; bus_errors := 0; recoveries := 0 |} |}.

(** A node of board [n] that has run its initialisation. *)
Definition limb_boot (n : Z) (g : glue) (imu_calls : list esp_err_t) (samples : nat -> list (option Z)) : limb :=
  control_init_hw (limb_safety_glue_init (limb_zero n g)) imu_calls samples.

Lemma boot_limits n g calls samples : 1 <= n <= 4 -> limits_ok (limits_of (limb_boot n g calls samples)).
Proof.
  intros Hn. assert (forall c, stage_ok (ps_focdrv_init (Some (focdrv_config c)) true (fun _ => ESP_OK) ≫= fst)) as Hs.
  { intros c. eexists. split; [reflexivity|]. unfold drv_ok. cbn. split_and!; try done; repeat constructor; done || lia. }
  assert (n = 1 \/ n = 2 \/ n = 3 \/ n = 4) as [->|[->|[->| ->]]] by lia; unfold limb_boot, control_init_hw;
    destruct (limb_imu_init _ _) as [imu err]; cbn [foldl seq PS_LIMB_JOINT_COUNT]; (split;
    [ by eexists; split; [|reflexivity]; lia
    | repeat constructor; vm_compute; congruence
    | repeat constructor; vm_compute; congruence
    | split; [done|]; repeat constructor; apply Hs ]).
Qed.

(** *** Limits *)

Lemma fltb_irrefl x : fltb x x = false.
Proof.
  unfold fltb, SFltb. destruct x as [|[]| |[] m e]; try done; cbn; rewrite Z.compare_refl;
    change (Pos.compare_cont Eq m m) with (m ?= m)%positive; by rewrite Pos.compare_refl.
Qed.

Lemma joints_turn s env : joints (turn_joints undef sinf cosf s env) = joints s.
Proof.
  unfold turn_joints. cbv zeta. generalize (ps_safety_can_actuate (s_glue s)) as ca. generalize (s_setpoints s) as sps.
  intros sps ca. cbn [foldl seq PS_LIMB_JOINT_COUNT].
  destruct (sps !! 0%nat), (sps !! 1%nat); rewrite ?(proj1 (control_joint_frame _ _ _ _ _ _ _)); done.
Qed.

Lemma joints_step s ev : joints (lstep s ev) = joints s.
Proof.
  destruct ev as [t f|t e|nm v|env|]; cbn [lstep].
  - unfold control_rx_cb. cbv zeta. destruct (_ =? _); [|destruct (_ =? _); [|done]].
    + unfold handle_joint_cmd. destruct (_ <? _); [done|]. cbv zeta. destruct (_ || _); [done|].
      destruct (joints s !! _); [|done]. unfold limb_setpoint_set. by destruct (_ <=? _).
    + unfold handle_mode_set. cbv zeta.
      match goal with |- joints (bump_mode_set_rx (with_glue ?x ?r)) = _ => destruct (with_glue_frame x r) as (E & _) end. exact E.
  - apply with_glue_frame.
  - unfold limb_param_set. destruct nm; [|done]. destruct (param_match_joint _ _ _) as [[? suf]|]; [|done].
    repeat (case_match; try done).
  - unfold control_turn. destruct (plant_eq _ _ (end_plant (turn_joints undef sinf cosf (turn_begin s env) env) env)) as [-> _].
    rewrite joints_turn. by destruct (plant_eq _ _ (begin_plant s env)) as [-> _].
  - by destruct (plant_eq _ _ (limb_comms_plant s)) as [-> _].
Qed.

Lemma joints_boot n g calls samples : 1 <= n <= 4 -> joints (limb_boot n g calls samples) = PS_LIMB_JOINTS n.
Proof.
  intros Hn. unfold limb_boot, control_init_hw. destruct (limb_imu_init _ _). cbn [foldl seq PS_LIMB_JOINT_COUNT].
  assert (n = 1 \/ n = 2 \/ n = 3 \/ n = 4) as [->|[->|[->| ->]]] by lia; reflexivity.
Qed.

Lemma joints_run s evs : joints (lrun s evs) = joints s.
Proof. revert s. induction evs as [|ev evs IH]; intros s; [done|]. cbn [lrun foldl]. unfold lrun in IH. by rewrite IH, joints_step. Qed.

(** The current limits of the boards are numbers that are not negative: the tables are
    checked at every torque limit a node can hold. *)
Definition limit_check (n : Z) : bool :=
  forallb (fun cfg => forallb (fun l => let lim := current_limit cfg l in fleb lim lim && negb (fltb lim (fopp lim)))
    (seqZ 0 (torque_limit_cnm cfg + 1))) (PS_LIMB_JOINTS n).

Lemma limit_sound n j cfg l : 1 <= n <= 4 -> PS_LIMB_JOINTS n !! j = Some cfg -> 0 <= l <= torque_limit_cnm cfg ->
  let lim := current_limit cfg l in fleb lim lim = true /\ fltb lim (fopp lim) = false.
Proof.
  intros Hn Hj Hl. assert (limit_check n = true) as Hc.
  { assert (n = 1 \/ n = 2 \/ n = 3 \/ n = 4) as [->|[->|[->| ->]]] by lia; vm_compute; reflexivity. }
  unfold limit_check in Hc. rewrite forallb_forall in Hc. specialize (Hc cfg (proj1 (list_elem_of_In _ _) (list_elem_of_lookup_2 _ _ _ Hj))).
  rewrite forallb_forall in Hc. specialize (Hc l). cbv zeta in *. apply andb_true_iff in Hc as [H1 H2%negb_true_iff]; [done|].
  apply list_elem_of_In, elem_of_seqZ. lia.
Qed.

(** Comparison of floats that are numbers is total. *)
Lemma SFcompare_flip (x y : f32) : SFcompare y x = (CompOpp <$> SFcompare x y).
Proof.
  destruct x as [[]|[]| |[] m e], y as [[]|[]| |[] m' e']; try done; cbn; rewrite (Z.compare_antisym e e');
    destruct (e ?= e')%Z; cbn; try done; change (Pos.compare_cont Eq m' m) with (m' ?= m)%positive;
    change (Pos.compare_cont Eq m m') with (m ?= m')%positive; rewrite (Pos.compare_antisym m m'); by destruct (m ?= m')%positive.
Qed.

Lemma not_less_leb (x y : f32) : fltb x y = false -> x <> S754_nan -> y <> S754_nan -> fleb y x = true.
Proof.
  unfold fltb, fleb, SFltb, SFleb. rewrite (SFcompare_flip x y). intros Hlt Hx Hy.
  destruct (SFcompare x y) as [[]|] eqn:E; try done. by destruct x, y.
Qed.

Definition within (lim iq : f32) : Prop := iq = S754_nan \/ (fopp lim <=? iq)%f32 = true /\ (iq <=? lim)%f32 = true.

Lemma clamp_within iq lim : fleb lim lim = true -> fltb lim (fopp lim) = false -> within lim (clamp_iq iq lim).1.
Proof.
  intros Hn Hl. assert (lim <> S754_nan) as Hln by (by intros ->).
  assert (fopp lim <> S754_nan) as Hon by (by destruct lim).
  assert (fleb (fopp lim) lim = true) as Hol by (by apply not_less_leb).
  assert (fleb (fopp lim) (fopp lim) = true) as Hoo by (by apply not_less_leb; [apply fltb_irrefl|..]).
  unfold within, clamp_iq. destruct (fltb lim iq) eqn:E1; cbn [fst]; [by right|].
  destruct (fltb iq (fopp lim)) eqn:E2; cbn [fst]; [by right|].
  assert (iq = S754_nan \/ iq <> S754_nan) as [|Hq] by (destruct iq; [by right|by right|by left|by right]); [by left|]. right. split; by apply not_less_leb.
Qed.

(** Joint [j] is written with duties the current loop computes from a current target within
    the limit. *)
Definition driven (s s' : limb) (j : nat) (lim : f32) : Prop := exists iq ia ib theta gate en vel errs,
  within lim iq /\
  s_focdrv s' !!! j = joint_write undef gate en (s_focdrv s !!! j)
    (ps_foc_ctl_step sinf cosf (s_foc s !!! j) ia ib theta (of_Z 0) iq PS_LIMB_V_BUS_VOLTS CTRL_TICK_S).2 vel errs.

(** An e-stop raised here leaves the current loops alone: only a start of operation resets
    them. *)
Lemma raise_estop_calls g cause t t' u : u ∈ (ps_safety_raise_estop g cause t t').2 -> uc_new u = PS_STATE_ESTOP.
Proof.
  unfold ps_safety_raise_estop. destruct (negb (started g)); [by intros ?%elem_of_nil|]. cbv zeta.
  destruct (send_repeat _ _ _ _) as [g' errs]. unfold ps_safety_core_on_estop.
  destruct (_ && _); unfold go; cbn [on_transition]; [|destruct (_ =? _); [|destruct (on_transition (core g'))]]; cbn [snd]; unfold on_core_transition; destruct (user_cb g');
    cbn [fmap list_fmap snd]; first [by intros ?%elem_of_nil | by intros ->%list_elem_of_singleton].
Qed.

Lemma with_glue_foc s r : (forall u, u ∈ r.2 -> uc_new u = PS_STATE_ESTOP) -> s_foc (with_glue s r) = s_foc s.
Proof.
  unfold with_glue. destruct r as [g calls]. cbn [fst snd]. set (s0 := {| s with s_glue := g |}). change (s_foc s) with (s_foc s0).
  clearbody s0. revert s0. induction calls as [|u calls IH]; intros s0 Hu; [done|]. cbn [foldl].
  rewrite IH by (intros u' ?; apply Hu; by right). by rewrite (Hu u) by left.
Qed.

Lemma control_joint_driven s j sp ca env t t' cfg : joints s !! j = Some cfg -> (j < length (s_focdrv s))%nat ->
  let lim := current_limit cfg (s_torque_limit_cnm s !!! j) in fleb lim lim = true -> fltb lim (fopp lim) = false ->
  driven s (control_joint undef sinf cosf s j sp ca env t t') j lim.
Proof.
  intros Hj Hlen lim Hn Hl. unfold control_joint. rewrite Hj. cbv zeta. fold lim.
  set (enc' := encoder_update _ _ _). set (th := encoder_electrical_theta _ _). clearbody enc' th.
  destruct (joint_target _ _ _ _ _ _) as [[pp' vp'] iq]. pose proof (clamp_within iq lim Hn Hl) as Hw.
  destruct (clamp_iq iq lim) as [iq' sat]. cbn [fst] in Hw.
  match goal with |- context [ps_foc_ctl_step _ _ _ ?a ?b _ _ _ _ _] => set (ia := a); set (ib := b) end.
  destruct (ps_foc_ctl_step sinf cosf (s_foc s !!! j) ia ib th (of_Z 0) iq' PS_LIMB_V_BUS_VOLTS CTRL_TICK_S) as [foc' duty] eqn:Ef.
  destruct (oc_step _ _ _) as [oc' trip].
  exists iq', ia, ib, th, (ps_safety_can_actuate (s_glue s)), (negb (sp_mode sp =? PS_JMODE_PASSIVE)), (vel_rad_s enc'), (je_errs env).
  split; [exact Hw|]. rewrite Ef. cbn [snd s_focdrv]. destruct trip.
  - destruct (ps_safety_raise_estop _ _ _ _) as [[g err] calls]. unfold limb_counters_bump_overcurrent.
    match goal with |- context [with_glue ?x ?r] => destruct (with_glue_frame x r) as (_ & _ & E & _) end.
    cbn [s_focdrv]. rewrite E. by apply list_lookup_total_insert_eq.
  - by apply list_lookup_total_insert_eq.
Qed.

Lemma control_joint_foc s i j sp ca env t t' : i <> j ->
  s_foc (control_joint undef sinf cosf s i sp ca env t t') !!! j = s_foc s !!! j.
Proof.
  intros Hij. unfold control_joint. destruct (joints s !! i); [|done]. cbv zeta.
  destruct (joint_target _ _ _ _ _ _) as [[pp' vp'] iq]. destruct (clamp_iq _ _) as [iq' sat].
  destruct (ps_foc_ctl_step _ _ _ _ _ _ _ _ _ _) as [foc' duty]. destruct (oc_step _ _ _) as [oc' trip].
  cbn [s_foc]. destruct trip; [|by apply list_lookup_total_insert_ne].
  destruct (ps_safety_raise_estop _ _ _ _) as [[g err] calls] eqn:Er. unfold limb_counters_bump_overcurrent. cbn [s_foc].
  rewrite with_glue_foc by (intros u Hu; cbn [snd] in Hu; eapply raise_estop_calls; by rewrite Er). by apply list_lookup_total_insert_ne.
Qed.

Lemma joint_other s i j sp ca env t t' : i <> j ->
  s_focdrv (control_joint undef sinf cosf s j sp ca env t t') !!! i = s_focdrv s !!! i.
Proof.
  intros Hij. destruct (control_joint_frame s j sp ca env t t') as (_ & _ & _ & _ & [[_ ->]|(duty & v & ->)]); [done|].
  by rewrite list_lookup_total_insert_ne.
Qed.

(** A control tick drives each joint once. *)
Lemma turn_driven s env j cfg l : limits_ok (limits_of s) -> joints s !! j = Some cfg -> s_torque_limit_cnm s !! j = Some l ->
  (let lim := current_limit cfg l in fleb lim lim = true /\ fltb lim (fopp lim) = false) ->
  driven s (control_turn undef sinf cosf s env) j (current_limit cfg l).
Proof.
  intros Hl Hj Ht [Hn Hlim]. unfold control_turn, driven.
  destruct (plant_eq _ _ (end_plant (turn_joints undef sinf cosf (turn_begin s env) env) env)) as (_ & _ & -> & _).
  assert (plant (turn_begin s env) = plant s /\ s_foc (turn_begin s env) = s_foc s) as [Hp Hf]
    by (split; [apply begin_plant|]; unfold turn_begin; cbv zeta; by destruct (1 <? _)).
  set (s0 := turn_begin s env) in *. clearbody s0. rewrite <- Hf. pose proof (plant_eq _ _ Hp) as (E1 & E2 & E3 & _). rewrite <- E3.
  assert (s_torque_limit_cnm s0 = s_torque_limit_cnm s) as E4 by (unfold plant in Hp; congruence).
  rewrite <- E1 in Hj. rewrite <- E4 in Ht. assert (limits_ok (limits_of s0)) as Hl0 by (by rewrite (plant_limits _ _ Hp)). clear E1 E2 E3 E4 Hp Hf Hl s.
  assert (length (s_setpoints s0) = PS_LIMB_JOINT_COUNT) as Hs.
  { pose proof (Forall2_length (lo_sp _ Hl0)) as E. cbn in E. rewrite <- E. apply (limits_joints _ Hl0). }
  destruct (lo_drv _ Hl0) as [Hlen _]. cbn in Hlen. pose proof (lookup_lt_Some _ _ _ Hj) as Hlt.
  destruct (limits_joints _ Hl0) as [Hjl _]. cbn in Hjl. rewrite Hjl in Hlt.
  unfold turn_joints. cbv zeta. set (ca := ps_safety_can_actuate (s_glue s0)). clearbody ca.
  destruct (s_setpoints s0) as [|sp0 [|sp1 []]]; try done. cbn [foldl seq PS_LIMB_JOINT_COUNT lookup list_lookup].
  set (s1 := control_joint undef sinf cosf s0 0 sp0 ca (te_joint env 0) (te_t env) (te_t' env)).
  apply list_lookup_total_correct in Ht. destruct j as [|[|j]]; [| |unfold PS_LIMB_JOINT_COUNT in Hlt; lia].
  - rewrite joint_other by done. pose proof (control_joint_driven s0 0 sp0 ca (te_joint env 0) (te_t env) (te_t' env) cfg Hj) as Hd.
    rewrite Ht in Hd. apply Hd; [rewrite Hlen; unfold PS_LIMB_JOINT_COUNT; lia|done|done].
  - destruct (control_joint_frame s0 0 sp0 ca (te_joint env 0) (te_t env) (te_t' env)) as (F1 & F2 & _).
    pose proof (control_joint_driven s1 1 sp1 ca (te_joint env 1) (te_t env) (te_t' env) cfg) as Hd.
    cbv zeta in F1, F2. fold s1 in F1, F2. rewrite F1, F2, Ht in Hd. specialize (Hd Hj).
    destruct Hd as (iq & ia & ib & th & gt & en & v & er & Hw & He); [|done|done|].
    { destruct (lo_drv _ (control_joint_limits s0 0 sp0 ca (te_joint env 0) (te_t env) (te_t' env) ltac:(unfold PS_LIMB_JOINT_COUNT; lia) Hl0)) as [Hx _].
      cbn in Hx. fold s1 in Hx. rewrite Hx. unfold PS_LIMB_JOINT_COUNT. lia. }
    exists iq, ia, ib, th, gt, en, v, er. split; [done|]. rewrite He. unfold s1 at 1 2. by rewrite joint_other, control_joint_foc by done.
Qed.


(** *** The gate *)

(** Raising an e-stop closes the gate. *)
Lemma raise_closes g cause t t' : ps_safety_can_actuate (ps_safety_raise_estop g cause t t').1.1 = false.
Proof.
  unfold ps_safety_raise_estop. destruct (started g) eqn:Es; cbn [negb]; [|unfold ps_safety_can_actuate; cbn [fst]; by rewrite Es].
  cbv zeta. destruct (send_repeat _ _ _ _) as [g' errs]. pose proof (on_estop_latches (core g') t' cause) as [Hs _].
  destruct (ps_safety_core_on_estop (core g') t' cause) as [c trs]. cbn [fst] in *. unfold ps_safety_can_actuate. cbn [started core].
  rewrite Hs. apply andb_false_r.
Qed.

Lemma joint_gate s j sp ca env t t' : ps_safety_can_actuate (s_glue s) = false ->
  ps_safety_can_actuate (s_glue (control_joint undef sinf cosf s j sp ca env t t')) = false.
Proof.
  intros Hg. destruct (control_joint_frame s j sp ca env t t') as (_ & _ & _ & [->| ->] & _); [done|]. apply raise_closes.
Qed.

(** The stage of a joint after its write. *)
Lemma joint_stage s j sp ca env t t' : limits_ok (limits_of s) -> (j < PS_LIMB_JOINT_COUNT)%nat ->
  ps_safety_can_actuate (s_glue s) = false \/ sp_mode sp = PS_JMODE_PASSIVE ->
  limp (s_focdrv (control_joint undef sinf cosf s j sp ca env t t') !!! j).
Proof.
  intros Hl Hj Hc. destruct (lo_drv _ Hl) as [Hlen Hd]. cbn in Hlen, Hd. destruct (limits_joints _ Hl) as [Hjl _]. cbn in Hjl.
  destruct (control_joint_frame s j sp ca env t t') as (_ & _ & _ & _ & [[Hn _]|(duty & v & ->)]).
  { apply lookup_ge_None in Hn. lia. }
  rewrite list_lookup_total_insert_eq by lia. apply joint_write_spec.
  - apply (Forall_lookup_1 _ _ j _ Hd), list_lookup_lookup_total_lt. by rewrite Hlen.
  - destruct Hc as [->|E]; [apply andb_false_r|]. by rewrite E.
Qed.

Lemma turn_limp s env j : limits_ok (limits_of s) -> (j < PS_LIMB_JOINT_COUNT)%nat ->
  (ps_safety_can_actuate (s_glue s) = false \/ exists sp, s_setpoints s !! j = Some sp /\ sp_mode sp = PS_JMODE_PASSIVE) ->
  limp (s_focdrv (turn_joints undef sinf cosf s env) !!! j).
Proof.
  intros Hl Hj Hc. assert (length (s_setpoints s) = PS_LIMB_JOINT_COUNT) as Hs.
  { pose proof (Forall2_length (lo_sp _ Hl)) as E. cbn in E. rewrite <- E. apply (limits_joints _ Hl). }
  unfold turn_joints. cbv zeta. set (ca := ps_safety_can_actuate (s_glue s)).
  assert (limits_ok (limits_of s) /\ (ca = false -> ps_safety_can_actuate (s_glue s) = false)) as [_ Hca] by done.
  destruct (s_setpoints s) as [|sp0 [|sp1 []]]; try done. cbn [foldl seq PS_LIMB_JOINT_COUNT lookup list_lookup].
  set (s1 := control_joint undef sinf cosf s 0 sp0 ca (te_joint env 0) (te_t env) (te_t' env)).
  assert (limits_ok (limits_of s1)) as Hl1 by (apply control_joint_limits; [unfold PS_LIMB_JOINT_COUNT; lia | done]).
  assert (ca = false -> ps_safety_can_actuate (s_glue s1) = false) as H1 by (intros E; by apply joint_gate).
  destruct j as [|[|j]]; [| |unfold PS_LIMB_JOINT_COUNT in Hj; lia].
  - rewrite joint_other by done. apply joint_stage; [done | done |]. destruct Hc as [?|(sp & [= <-] & ?)]; auto.
  - apply joint_stage; [done | done |]. destruct Hc as [?|(sp & [= <-] & ?)]; auto.
Qed.

(** C32: A joint is energised only through its gate.  In every state a node can reach, a control
    tick leaves the stage of a joint limp (its high side switches off, its low side
    switches all off or all on) if the safety gate is closed when the tick starts or the
    setpoint of the joint is passive; and no event but a control tick touches a stage. *)
Theorem limb_gate n g calls samples evs env j : 1 <= n <= 4 -> (j < PS_LIMB_JOINT_COUNT)%nat ->
  let s := lrun (limb_boot n g calls samples) evs in
  (ps_safety_can_actuate (s_glue s) = false \/ (exists sp, s_setpoints s !! j = Some sp /\ sp_mode sp = PS_JMODE_PASSIVE) ->
     limp (s_focdrv (control_turn undef sinf cosf s env) !!! j)) /\
  (forall ev, match ev with LTick _ => False | _ => True end -> s_focdrv (lstep s ev) = s_focdrv s).
Proof.
  intros Hn Hj s. assert (limits_ok (limits_of s)) as Hl by (apply limits_run, boot_limits, Hn). clearbody s. split.
  - intros Hc. unfold control_turn.
    destruct (plant_eq _ _ (end_plant (turn_joints undef sinf cosf (turn_begin s env) env) env)) as (_ & _ & -> & _).
    destruct (plant_eq _ _ (begin_plant s env)) as (_ & E2 & _ & E4 & E5).
    apply turn_limp; [by rewrite (plant_limits _ _ (begin_plant s env)) | done |]. rewrite E2.
    unfold ps_safety_can_actuate in *. by rewrite E4, E5.
  - intros ev Hev. destruct ev as [t f|t e|nm v|env'|]; [| | |done|]; cbn [lstep].
    + unfold control_rx_cb. cbv zeta. destruct (_ =? _); [|destruct (_ =? _); [|done]].
      * unfold handle_joint_cmd. destruct (_ <? _); [done|]. cbv zeta. destruct (_ || _); [done|].
        destruct (joints s !! _); [|done]. unfold limb_setpoint_set. by destruct (_ <=? _).
      * unfold handle_mode_set. cbv zeta.
        match goal with |- s_focdrv (bump_mode_set_rx (with_glue ?x ?r)) = _ => destruct (with_glue_frame x r) as (_ & _ & E & _) end. exact E.
    + apply with_glue_frame.
    + unfold limb_param_set. destruct nm; [|done]. destruct (param_match_joint _ _ _) as [[? suf]|]; [|done].
      repeat (case_match; try done).
    + by destruct (plant_eq _ _ (limb_comms_plant s)) as (_ & _ & -> & _).
Qed.

(** *** Limp until commanded *)

(** The event is not a JOINT_CMD for joint [j]. *)
Definition no_cmd (j : nat) (ev : lev) : Prop :=
  match ev with
  | LControl t f => ps_can_id_type (f_id f) = PS_T_JOINT_CMD -> Z.to_nat (jc_joint (wire_read (f_data f))) <> j
  | _ => True
  end.

Definition passive_at (j : nat) (s : limb) : Prop := exists sp, s_setpoints s !! j = Some sp /\ sp_mode sp = PS_JMODE_PASSIVE.

Lemma passive_same j s s' : s_setpoints s' = s_setpoints s \/ s_setpoints s' = replicate PS_LIMB_JOINT_COUNT passive_setpoint ->
  (j < PS_LIMB_JOINT_COUNT)%nat -> passive_at j s -> passive_at j s'.
Proof.
  unfold passive_at. intros [->| ->] Hj Hp; [done|]. exists passive_setpoint. by rewrite lookup_replicate_2.
Qed.

Lemma setpoints_turn s env : s_setpoints (turn_joints undef sinf cosf s env) = s_setpoints s \/
  s_setpoints (turn_joints undef sinf cosf s env) = replicate PS_LIMB_JOINT_COUNT passive_setpoint.
Proof.
  unfold turn_joints. cbv zeta. generalize (ps_safety_can_actuate (s_glue s)) as ca.
  intros ca. cbn [foldl seq PS_LIMB_JOINT_COUNT].
  assert (forall s j x, let s' := control_joint undef sinf cosf s j x ca (te_joint env j) (te_t env) (te_t' env) in
    s_setpoints s' = s_setpoints s \/ s_setpoints s' = replicate PS_LIMB_JOINT_COUNT passive_setpoint) as Hj
    by (intros s1 j x; apply (control_joint_frame s1 j x)).
  destruct (s_setpoints s !! 0%nat) as [x0|], (s_setpoints s !! 1%nat) as [x1|]; [| exact (Hj s 0%nat x0) | exact (Hj s 1%nat x1) | by left].
  set (s1 := control_joint undef sinf cosf s 0 x0 _ _ _ _). destruct (Hj s 0%nat x0) as [E0|E0], (Hj s1 1%nat x1) as [E1|E1]; fold s1 in E0;
    rewrite ?E1, ?E0; auto.
Qed.

Lemma passive_step j s ev : (j < PS_LIMB_JOINT_COUNT)%nat -> no_cmd j ev -> passive_at j s -> passive_at j (lstep s ev).
Proof.
  intros Hj Hn Hp. destruct ev as [t f|t e|nm v|env|]; cbn [lstep].
  - unfold control_rx_cb. cbv zeta. destruct (Z.eqb_spec (ps_can_id_type (f_id f)) PS_T_JOINT_CMD) as [Et|].
    + specialize (Hn Et). unfold handle_joint_cmd. destruct (_ <? _); [done|]. cbv zeta. set (cmd := wire_read (f_data f) : ps_joint_cmd_t) in *.
      clearbody cmd. destruct (_ || _); [done|]. destruct (joints s !! _); [|done]. unfold limb_setpoint_set. destruct (_ <=? _); [done|].
      destruct Hp as (sp & Hs & Hm). exists sp. split; [|done]. cbn. by rewrite list_lookup_insert_ne.
    + destruct (_ =? _); [|done]. unfold handle_mode_set. cbv zeta. eapply (passive_same j s); [|done|done].
      match goal with |- s_setpoints (bump_mode_set_rx (with_glue ?x ?r)) = _ \/ _ => destruct (with_glue_frame x r) as (_ & _ & _ & _ & E) end. exact E.
  - eapply (passive_same j s); [|done|done]. apply (with_glue_frame s).
  - eapply (passive_same j s); [left|done|done]. unfold limb_param_set. destruct nm; [|done].
    destruct (param_match_joint _ _ _) as [[? suf]|]; [|done]. repeat (case_match; try done).
  - unfold control_turn. eapply (passive_same j s); [|done|done].
    destruct (plant_eq _ _ (end_plant (turn_joints undef sinf cosf (turn_begin s env) env) env)) as (_ & -> & _).
    destruct (plant_eq _ _ (begin_plant s env)) as (_ & <- & _). apply setpoints_turn.
  - eapply (passive_same j s); [left|done|done]. apply (plant_eq _ _ (limb_comms_plant s)).
Qed.

Lemma passive_run j s evs : (j < PS_LIMB_JOINT_COUNT)%nat -> Forall (no_cmd j) evs -> passive_at j s -> passive_at j (lrun s evs).
Proof.
  intros Hj Hn. revert s. induction Hn as [|ev evs He _ IH]; intros s Hp; [done|]. by apply IH, passive_step.
Qed.

Definition drops (u : user_call) : Prop := uc_new u = PS_STATE_PASSIVE \/ uc_new u = PS_STATE_ESTOP \/ uc_new u = PS_STATE_FAULT.

Lemma drop_passive s g calls j : (j < PS_LIMB_JOINT_COUNT)%nat -> Exists drops calls -> passive_at j (with_glue s (g, calls)).
Proof.
  intros Hj. unfold with_glue. cbn [fst snd]. generalize {| s with s_glue := g |} as s0. induction calls as [|u calls IH]; intros s0 Hx; [by inversion Hx|].
  cbn [foldl]. apply Exists_cons in Hx as [Hd|Hx]; [|by apply IH].
  assert (passive_at j (limb_safety_on_transition s0 (uc_new u))) as Hp.
  { exists passive_setpoint. split; [|done]. unfold limb_safety_on_transition. destruct Hd as [-> | [-> | ->]]; cbn;
      destruct j as [|[|j]]; done || (unfold PS_LIMB_JOINT_COUNT in Hj; lia). }
  clear IH. revert Hp. generalize (limb_safety_on_transition s0 (uc_new u)) as s1. induction calls as [|u' calls IH]; intros s1 Hp; [done|].
  cbn [foldl]. apply IH. eapply (passive_same j s1); [|done|done]. unfold limb_safety_on_transition.
  destruct (_ || _ || _); [by right|]. destruct (_ =? _); by left.
Qed.

(** C33: After a drop a joint stays limp until it is commanded again.  Take any reachable state
    in which a safety event reports a transition to PASSIVE, ESTOP or FAULT, and any
    further events, a return to OPERATIONAL included, without a JOINT_CMD for the joint:
    its setpoint is passive and every control tick leaves its stage limp. *)
Theorem limb_limp_until_commanded n g calls samples evs0 t e evs j env : 1 <= n <= 4 -> (j < PS_LIMB_JOINT_COUNT)%nat ->
  let s := lrun (limb_boot n g calls samples) evs0 in
  Exists drops (gstep (s_glue s) t e).2 -> Forall (no_cmd j) evs ->
  let s' := lrun (lstep s (LSafety t e)) evs in
  passive_at j s' /\ limp (s_focdrv (control_turn undef sinf cosf s' env) !!! j).
Proof.
  intros Hn Hj s Hx Hev s'. assert (limits_ok (limits_of s)) as Hl by (apply limits_run, boot_limits, Hn).
  assert (passive_at j (lstep s (LSafety t e))) as Hp.
  { cbn [lstep]. destruct (gstep (s_glue s) t e) as [g' cs]. by apply drop_passive. }
  pose proof (passive_run j _ evs Hj Hev Hp) as Hp'. fold s' in Hp'.
  assert (limits_ok (limits_of s')) as Hl' by (apply limits_run, limits_step, Hl). clearbody s'. split; [done|].
  unfold control_turn.
  destruct (plant_eq _ _ (end_plant (turn_joints undef sinf cosf (turn_begin s' env) env) env)) as (_ & _ & -> & _).
  destruct (plant_eq _ _ (begin_plant s' env)) as (_ & E2 & _).
  apply turn_limp; [by rewrite (plant_limits _ _ (begin_plant s' env)) | done |]. right. by rewrite E2.
Qed.

(** *** Overcurrent *)

(** The magnitude of the measured current and the limit it is compared to. *)
Definition joint_measure (s : limb) (j : nat) (cfg : ps_limb_joint_cfg_t) (env : joint_env) : f32 * f32 :=
  let enc := encoder_update (s_enc s !!! j) CTRL_TICK_S (je_rx env) in
  (dq_mag (measured_dq sinf cosf (adc_read_amps (je_ia env) (cur_offset_mv cfg) (cur_mv_per_a cfg))
             (adc_read_amps (je_ib env) (cur_offset_mv cfg) (cur_mv_per_a cfg))
             (encoder_electrical_theta (last_raw enc) (pole_pairs cfg))),
   current_limit cfg (s_torque_limit_cnm s !!! j)).

Definition over (m : f32 * f32) : bool := (m.2 <? m.1)%f32.

(** The number of over-limit measurements at the end of a history. *)
Fixpoint trailing (h : list (f32 * f32)) : Z :=
  match h with
  | [] => 0
  | m :: h' => if forallb over (m :: h') then trailing h' + 1 else trailing h'
  end.

Lemma trailing_snoc h m : trailing (h ++ [m]) = if over m then trailing h + 1 else 0.
Proof.
  induction h as [|x h IH].
  - cbn. by destruct (over m).
  - change ((x :: h) ++ [m]) with (x :: (h ++ [m])). cbn [trailing]. rewrite IH.
    change (x :: (h ++ [m])) with ((x :: h) ++ [m]). rewrite forallb_app. cbn [forallb].
    destruct (over m); cbn [andb]; [rewrite andb_true_r; by destruct (over x && forallb over h) | by rewrite andb_false_r].
Qed.

Lemma trailing_nonneg h : 0 <= trailing h.
Proof. induction h as [|m h IH]; cbn [trailing]; [lia|]. destruct (forallb _ _); lia. Qed.

Definition oc_run (h : list (f32 * f32)) : Z := foldl (fun c m => (oc_step c m.1 m.2).1) 0 h.

(** The counter of a joint after a history of measurements, and the next step. *)
Lemma oc_counts h m : oc_run h = trailing h mod 6 /\
  (oc_step (oc_run h) m.1 m.2).2 = over m && ((trailing h + 1) mod 6 =? 0).
Proof.
  assert (forall c m, 0 <= c < 6 -> oc_step c m.1 m.2 =
    (if over m then (c + 1) mod 6 else 0, over m && ((c + 1) mod 6 =? 0))) as Hstep.
  { intros c m0 Hc. unfold oc_step, over. destruct (fltb m0.2 m0.1); [|done]. cbv zeta.
    rewrite u32_id by clia. unfold OVERCURRENT_TRIP_TICKS. cbn [andb].
    destruct (Z.ltb_spec 5 (c + 1)); [replace c with 5 by lia; done|].
    rewrite Z.mod_small by lia. destruct (Z.eqb_spec (c + 1) 0); [lia|done]. }
  assert (oc_run h = trailing h mod 6) as E.
  { induction h as [|x h IH] using rev_ind; [done|]. unfold oc_run in *. rewrite foldl_app. cbn [foldl]. rewrite IH, trailing_snoc.
    rewrite Hstep by (apply Z.mod_pos_bound; lia). cbn [fst]. destruct (over x); [|done]. by rewrite Zplus_mod_idemp_l. }
  split; [done|]. rewrite E, Hstep by (apply Z.mod_pos_bound; lia). cbn [snd]. by rewrite Zplus_mod_idemp_l.
Qed.

Lemma control_joint_oc s j sp ca env t t' cfg : joints s !! j = Some cfg ->
  let s' := control_joint undef sinf cosf s j sp ca env t t' in
  let m := joint_measure s j cfg env in
  s_oc_ticks s' = <[j := (oc_step (s_oc_ticks s !!! j) m.1 m.2).1]> (s_oc_ticks s) /\
  (if (oc_step (s_oc_ticks s !!! j) m.1 m.2).2
   then s_glue s' = (ps_safety_raise_estop (s_glue s) PS_ESTOP_SOFTWARE t t').1.1 /\
        overcurrent_trips (s_ctr s') = u32 (overcurrent_trips (s_ctr s) + 1)
   else s_glue s' = s_glue s /\ s_ctr s' = s_ctr s).
Proof.
  intros Hc. cbv zeta. unfold control_joint, joint_measure. rewrite Hc. cbv zeta. cbn [fst snd].
  set (enc' := encoder_update _ _ _). set (th := encoder_electrical_theta _ _). clearbody enc' th.
  destruct (joint_target _ _ _ _ _ _) as [[pp' vp'] iq]. destruct (clamp_iq _ _) as [iq' sat].
  destruct (ps_foc_ctl_step _ _ _ _ _ _ _ _ _ _) as [foc' duty]. set (dq := measured_dq _ _ _ _ _). clearbody dq.
  destruct (oc_step _ _ _) as [oc' trip]. cbn [fst snd].
  set (s1 := {| s with s_enc := _; s_pos_pid := _; s_vel_pid := _; s_foc := _; s_focdrv := _; s_oc_ticks := _ |}).
  assert (s_oc_ticks s1 = <[j:=oc']> (s_oc_ticks s) /\ s_glue s1 = s_glue s /\ s_ctr s1 = s_ctr s) as (E1 & E2 & E3) by done.
  clearbody s1. destruct trip; [|split_and!; [exact E1 | exact E2 | exact E3]]. rewrite E2.
  destruct (ps_safety_raise_estop (s_glue s) PS_ESTOP_SOFTWARE t t') as [[g err] calls]. cbn [fst].
  assert (s_oc_ticks (with_glue s1 (g, calls)) = s_oc_ticks s1 /\ s_glue (with_glue s1 (g, calls)) = g /\
    s_ctr (with_glue s1 (g, calls)) = s_ctr s1) as (F1 & F2 & F3).
  { unfold with_glue. cbn [fst snd]. set (s0 := {| s1 with s_glue := g |}).
    assert (s_oc_ticks s0 = s_oc_ticks s1 /\ s_glue s0 = g /\ s_ctr s0 = s_ctr s1) as Hs0 by done. clearbody s0.
    revert s0 Hs0. induction calls as [|u calls IH]; intros s0 Hs0; [done|]. cbn [foldl]. apply IH.
    unfold limb_safety_on_transition. destruct (_ || _ || _); [done|]. by destruct (_ =? _). }
  set (s2 := with_glue s1 (g, calls)) in *. clearbody s2. cbn [s_oc_ticks s_glue s_ctr limb_counters_bump_overcurrent overcurrent_trips].
  rewrite F1, F2, F3, E1, E3. done.
Qed.

(** The overcurrent trip.  If the history of a joint's measurements has left its counter
    where it is, a tick trips exactly if it is over the limit and the number of
    over-limit ticks in a row, it included, is a multiple of six; a trip latches the node
    in ESTOP with the gate closed, in the same tick and even if no frame could be sent, and
    is counted; a tick that does not trip leaves the safety state alone. *)
Theorem limb_overcurrent s j sp ca env t t' cfg h : joints s !! j = Some cfg -> started (s_glue s) = true ->
  s_oc_ticks s !! j = Some (oc_run h) ->
  let m := joint_measure s j cfg env in
  let s' := control_joint undef sinf cosf s j sp ca env t t' in
  s_oc_ticks s' !! j = Some (oc_run (h ++ [m])) /\
  if over m && (trailing (h ++ [m]) mod 6 =? 0)
  then latched (core (s_glue s')) /\ ps_safety_can_actuate (s_glue s') = false /\
       overcurrent_trips (s_ctr s') = u32 (overcurrent_trips (s_ctr s) + 1)
  else s_glue s' = s_glue s.
Proof.
  intros Hc Hst Hoc m s'. destruct (control_joint_oc s j sp ca env t t' cfg Hc) as [E1 E2]. fold m s' in E1, E2.
  rewrite (list_lookup_total_correct _ _ _ Hoc) in E1, E2. destruct (oc_counts h m) as [_ Ht]. split.
  - rewrite E1, list_lookup_insert_eq by (by eapply lookup_lt_Some). unfold oc_run. by rewrite foldl_app.
  - rewrite Ht in E2. rewrite trailing_snoc. destruct (over m); cbn [andb] in *; [|by destruct E2].
    destruct (_ =? 0); [|by destruct E2]. destruct E2 as [Eg Ec]. split_and!; [|rewrite Eg; apply raise_closes | exact Ec].
    rewrite Eg. unfold ps_safety_raise_estop. rewrite Hst. cbn [negb]. cbv zeta. destruct (send_repeat _ _ _ _) as [g' errs].
    pose proof (on_estop_latches (core g') t' PS_ESTOP_SOFTWARE) as Hl. by destruct (ps_safety_core_on_estop _ _ _).
Qed.

(** *** A gain that is not a number *)

Lemma pid_nan p err dt : kp p = S754_nan \/ err = S754_nan -> (ps_pid_step p err dt).2 = S754_nan.
Proof.
  intros Hn. unfold ps_pid_step, pid_unsat. cbv zeta. assert (fmul (kp p) err = S754_nan) as ->.
  { destruct Hn as [->| ->]; [done | apply fmul_nan_r]. }
  cbn [snd]. change (fadd S754_nan (integ p)) with S754_nan.
  match goal with |- context [fadd (fadd S754_nan ?a) ?b] => change (fadd (fadd S754_nan a) b) with S754_nan end.
  by rewrite fltb_nan_r, fltb_nan_l.
Qed.

Lemma svpwm_nan v_bus : (v_bus <=? of_Z 0)%f32 = false ->
  ps_foc_svpwm {| alpha := S754_nan; beta := S754_nan |} v_bus = [S754_nan; S754_nan; S754_nan].
Proof. intros E. unfold ps_foc_svpwm. by rewrite E. Qed.

Lemma foc_nan c ia ib th id v_bus dt : (v_bus <=? of_Z 0)%f32 = false ->
  (ps_foc_ctl_step sinf cosf c ia ib th id S754_nan v_bus dt).2 = [S754_nan; S754_nan; S754_nan].
Proof.
  intros Hb. unfold ps_foc_ctl_step. set (i_dq := ps_foc_park _ _ _ _). clearbody i_dq.
  destruct (ps_pid_step (pid_d c) _ dt) as [pd vd].
  pose proof (pid_nan (pid_q c) (fsub S754_nan (dq_q i_dq)) dt (or_intror eq_refl)) as Hq.
  destruct (ps_pid_step (pid_q c) _ dt) as [pq vq]. cbn [snd] in *. subst vq. unfold ps_foc_inv_park. cbn [dq_d dq_q].
  change (fmul S754_nan (sinf th)) with S754_nan. change (fmul S754_nan (cosf th)) with S754_nan.
  rewrite fsub_nan_r, fadd_nan_r. by apply svpwm_nan.
Qed.

Lemma target_nan cfg sp pp vp out_pos out_vel : kp vp = S754_nan ->
  sp_mode sp = PS_JMODE_POSITION \/ sp_mode sp = PS_JMODE_VELOCITY ->
  (joint_target cfg sp pp vp out_pos out_vel).2 = S754_nan.
Proof.
  intros Hk [E|E]; unfold joint_target; rewrite E; cbn [Z.eqb]; cbv zeta;
    change (PS_JMODE_POSITION =? PS_JMODE_POSITION) with true; change (PS_JMODE_VELOCITY =? PS_JMODE_POSITION) with false;
    change (PS_JMODE_VELOCITY =? PS_JMODE_VELOCITY) with true; cbv iota.
  - destruct (ps_pid_step pp _ _) as [pp' vt]. pose proof (pid_nan vp (fsub vt out_vel) CTRL_TICK_S (or_introl Hk)) as Hn.
    destruct (ps_pid_step vp _ _) as [vp' i]. cbn [snd] in *. subst i. apply fmul_nan_r.
  - match goal with |- context [ps_pid_step vp ?e ?d] => pose proof (pid_nan vp e d (or_introl Hk)) as Hn; destruct (ps_pid_step vp e d) as [vp' i] end.
    cbn [snd] in *. subst i. apply fmul_nan_r.
Qed.

(** The duties a joint is written with. *)
Definition joint_duty (s : limb) (j : nat) (cfg : ps_limb_joint_cfg_t) (sp : limb_setpoint_t) (env : joint_env) : list f32 :=
  let enc := encoder_update (s_enc s !!! j) CTRL_TICK_S (je_rx env) in
  let out_pos := (of_Z (dir_sign cfg) * angle_rad enc / gear_ratio cfg)%f32 in
  let out_vel := (of_Z (dir_sign cfg) * vel_rad_s enc / gear_ratio cfg)%f32 in
  let iq := (joint_target cfg sp (s_pos_pid s !!! j) (s_vel_pid s !!! j) out_pos out_vel).2 in
  (ps_foc_ctl_step sinf cosf (s_foc s !!! j) (adc_read_amps (je_ia env) (cur_offset_mv cfg) (cur_mv_per_a cfg))
     (adc_read_amps (je_ib env) (cur_offset_mv cfg) (cur_mv_per_a cfg))
     (encoder_electrical_theta (last_raw enc) (pole_pairs cfg)) (of_Z 0)
     (clamp_iq iq (current_limit cfg (s_torque_limit_cnm s !!! j))).1 PS_LIMB_V_BUS_VOLTS CTRL_TICK_S).2.

Lemma control_joint_drv s j sp ca env t t' cfg : joints s !! j = Some cfg ->
  exists v, s_focdrv (control_joint undef sinf cosf s j sp ca env t t') =
    <[j := joint_write undef (ps_safety_can_actuate (s_glue s)) (negb (sp_mode sp =? PS_JMODE_PASSIVE)) (s_focdrv s !!! j)
             (joint_duty s j cfg sp env) v (je_errs env)]> (s_focdrv s).
Proof.
  intros Hc. unfold control_joint, joint_duty. rewrite Hc. cbv zeta. set (enc' := encoder_update _ _ _).
  set (th := encoder_electrical_theta _ _). exists (vel_rad_s enc'). clearbody enc' th.
  destruct (joint_target _ _ _ _ _ _) as [[pp' vp'] iq]. cbn [snd]. destruct (clamp_iq _ _) as [iq' sat]. cbn [fst].
  destruct (ps_foc_ctl_step _ _ _ _ _ _ _ _ _ _) as [foc' duty]. cbn [snd]. set (dq := measured_dq _ _ _ _ _). clearbody dq.
  destruct (oc_step _ _ _) as [oc' trip].
  set (s1 := {| s with s_enc := _; s_pos_pid := _; s_vel_pid := _; s_foc := _; s_focdrv := _; s_oc_ticks := _ |}).
  destruct trip; [|done]. change (s_glue s1) with (s_glue s).
  destruct (ps_safety_raise_estop (s_glue s) PS_ESTOP_SOFTWARE t t') as [[g err] calls].
  destruct (with_glue_frame s1 (g, calls)) as (_ & _ & F3 & _). exact F3.
Qed.

(** The compare value an undefined conversion leaves: any value of the period. *)
Definition nan_ticks (period : Z) : Z := if period <? u32 (undef S754_nan) then period else u32 (undef S754_nan).

Lemma set_duty_nan errs h : length (cmpr h) = 3%nat -> length (gen_high h) = 3%nat -> length (gen_low h) = 3%nat ->
  (forall i, errs i = ESP_OK) -> exists h', set_duty_loop undef errs h 0 [S754_nan; S754_nan; S754_nan] = (h', ESP_OK) /\
    cmpr h' = replicate 3 (nan_ticks (period_ticks h)) /\ gen_high h' = replicate 3 None /\ gen_low h' = replicate 3 None.
Proof.
  intros L1 L2 L3 He. cbn [set_duty_loop]. rewrite !He. cbn [is_ok]. eexists. split; [reflexivity|].
  destruct h as [cs hs ls p d]. cbn in *. destruct cs as [|? [|? [|? []]]]; try discriminate.
  destruct hs as [|? [|? [|? []]]]; try discriminate. destruct ls as [|? [|? [|? []]]]; try discriminate. done.
Qed.

(** The parameter server hands the duties to chance.  A NaN for the gain of a velocity loop
    is accepted and stored; in the next tick in which that joint is commanded in position
    or velocity mode with the gate open, the current target is a NaN that no clamp stops,
    and the three compare values of the joint are whatever the undefined conversion of a
    NaN to an integer gives, with every switch following them. *)
Theorem limb_nan_gain s sp ca env t t' h :
  joints s = PS_LIMB_JOINTS 1 -> length (s_vel_pid s) = PS_LIMB_JOINT_COUNT ->
  sp_mode sp = PS_JMODE_POSITION \/ sp_mode sp = PS_JMODE_VELOCITY ->
  ps_safety_can_actuate (s_glue s) = true -> s_focdrv s !! 0%nat = Some (Some h) ->
  length (cmpr h) = 3%nat -> length (gen_high h) = 3%nat -> length (gen_low h) = 3%nat -> (forall i, je_errs env i = ESP_OK) ->
  let '(s1, ok) := limb_param_set undef_d s (Some "elbow_vel_kp") S754_nan in
  ok = true /\
  exists h', s_focdrv (control_joint undef sinf cosf s1 0 sp ca env t t') !! 0%nat = Some (Some h') /\
    cmpr h' = replicate 3 (nan_ticks (period_ticks h)) /\
    gen_high h' = replicate 3 None /\ gen_low h' = replicate 3 None.
Proof.
  intros Ej Hv Hm Hg Hd L1 L2 L3 He. unfold limb_param_set. rewrite Ej.
  change (param_match_joint (PS_LIMB_JOINTS 1) 0 "elbow_vel_kp") with (Some (0%nat, "vel_kp")). cbv iota beta.
  change (String.eqb "vel_kp" "pos_kp") with false. change (String.eqb "vel_kp" "pos_ki") with false.
  change (String.eqb "vel_kp" "vel_kp") with true. cbv iota. split; [done|].
  match goal with |- context [control_joint undef sinf cosf ?x] => set (s1 := x) end.
  assert (joints s1 = PS_LIMB_JOINTS 1 /\ s_glue s1 = s_glue s /\ s_focdrv s1 = s_focdrv s /\ kp (s_vel_pid s1 !!! 0%nat) = S754_nan)
    as (J1 & G1 & D1 & K1).
  { unfold s1. cbn [joints s_glue s_focdrv s_vel_pid]. split_and!; [done..|]. destruct (s_vel_pid s); [done|reflexivity]. }
  clearbody s1. assert (exists cfg, joints s1 !! 0%nat = Some cfg) as [cfg Hc] by (rewrite J1; by eexists).
  destruct (control_joint_drv s1 0 sp ca env t t' cfg Hc) as [v ->].
  assert (joint_duty s1 0 cfg sp env = [S754_nan; S754_nan; S754_nan]) as ->.
  { unfold joint_duty. cbv zeta. rewrite target_nan by done. unfold clamp_iq. rewrite fltb_nan_r, fltb_nan_l. cbn [fst].
    by apply foc_nan. }
  rewrite D1, G1, Hg, (list_lookup_total_correct _ _ _ Hd), list_lookup_insert_eq by (by eapply lookup_lt_Some).
  assert (negb (sp_mode sp =? PS_JMODE_PASSIVE) = true) as -> by (by destruct Hm as [->| ->]).
  unfold joint_write. cbn [andb]. destruct (set_duty_nan (je_errs env) h L1 L2 L3 He) as (h' & E & A & B & C).
  exists h'. unfold ps_focdrv_set_duty. rewrite E. done.
Qed.

End LimbSpec.

(** ** Witnesses *)

Definition undef0 (_ : f32) : Z := 0.
Definition sin0 (_ : f32) : f32 := of_Z 0.
Definition cos1 (_ : f32) : f32 := of_Z 1.

Definition limb_cfg : ps_safety_config_t :=
  {| cfg_can := Some demo_can; cfg_node_id := PS_NODE_ARM_R; cfg_on_transition := Some 1; cfg_arg := 0 |}.
Definition limb_glue : glue := (ps_safety_start off_glue (Some limb_cfg) 0 true ESP_OK ESP_OK).1.
Definition demo_limb : limb := limb_boot 1 limb_glue [] (fun _ => []).

Definition quiet_joint : joint_env := {| je_rx := Some (0, 0); je_ia := Some 2048; je_ib := Some 2048; je_errs _ := ESP_OK |}.
Definition quiet_tick : tick_env :=
  {| te_pending := 1; te_joint _ := quiet_joint; te_imu := None; te_strain _ := None; te_exec_us := 100; te_stack := 1000; te_t := 7; te_t' := 8 |}.

Lemma encoder_unwraps_witness : unwrapped 16000 [17000; 20000; 12000] = -4000.
Proof. apply (encoder_unwraps 16000 [17000; 20000; 12000]). cbn. repeat split; lia. Defined.


Definition demo_run (evs : list lev) : limb := lrun undef0 undef0 sin0 cos1 (limb_boot 1 limb_glue [] (fun _ => [])) evs.

Lemma limb_gate_witness : limp (s_focdrv (control_turn undef0 sin0 cos1 (demo_run []) quiet_tick) !!! 0%nat).
Proof.
  destruct (limb_gate undef0 undef0 sin0 cos1 1 limb_glue [] (fun _ => []) [] quiet_tick 0 ltac:(lia) ltac:(unfold PS_LIMB_JOINT_COUNT; lia))
    as [Hl _]. apply Hl. left. vm_compute. reflexivity.
Defined.

Lemma limb_limp_until_commanded_witness :
  let s' := lrun undef0 undef0 sin0 cos1 (lstep undef0 undef0 sin0 cos1 (demo_run []) (LSafety 5 (GRaise PS_ESTOP_OPERATOR))) [LComms] in
  passive_at 1 s' /\ limp (s_focdrv (control_turn undef0 sin0 cos1 s' quiet_tick) !!! 1%nat).
Proof.
  refine (limb_limp_until_commanded undef0 undef0 sin0 cos1 1 limb_glue [] (fun _ => []) [] 5 (GRaise PS_ESTOP_OPERATOR) [LComms] 1
            quiet_tick _ _ _ _).
  - lia.
  - unfold PS_LIMB_JOINT_COUNT. lia.
  - vm_compute. constructor. right. left. reflexivity.
  - by repeat constructor.
Defined.

Lemma limb_overcurrent_witness : exists cfg,
  s_oc_ticks (control_joint undef0 sin0 cos1 demo_limb 0 passive_setpoint false quiet_joint 7 8) !! 0%nat =
    Some (oc_run ([] ++ [joint_measure sin0 cos1 demo_limb 0 cfg quiet_joint])).
Proof.
  eexists. refine (proj1 (limb_overcurrent undef0 sin0 cos1 demo_limb 0 passive_setpoint false quiet_joint 7 8 _ [] _ _ _));
    vm_compute; reflexivity.
Defined.

(** A node whose gate is open. *)
Definition live_limb : limb := {| demo_limb with s_glue := (grun demo_glue demo_glue_run).1 |}.
Definition demo_stage : ps_focdrv_ctx := default (drv_blank 0) (s_focdrv live_limb !!! 0%nat).
Definition velocity_setpoint : limb_setpoint_t := {| sp_mode := PS_JMODE_VELOCITY; sp_pos_crad := 0; sp_vel_crad_s := 50; sp_eff_cNm := 0 |}.

Lemma limb_nan_gain_witness :
  let '(s1, ok) := limb_param_set undef0 live_limb (Some "elbow_vel_kp") S754_nan in
  ok = true /\
  exists h', s_focdrv (control_joint (fun _ => 77) sin0 cos1 s1 0 velocity_setpoint true quiet_joint 7 8) !! 0%nat = Some (Some h') /\
    cmpr h' = replicate 3 (nan_ticks (fun _ => 77) (period_ticks demo_stage)) /\ gen_high h' = replicate 3 None /\ gen_low h' = replicate 3 None.
Proof.
  refine (limb_nan_gain (fun _ => 77) undef0 sin0 cos1 live_limb velocity_setpoint true quiet_joint 7 8 demo_stage _ _ _ _ _ _ _ _ _).
  - reflexivity.
  - reflexivity.
  - by right.
  - vm_compute. reflexivity.
  - vm_compute. reflexivity.
  - reflexivity.
  - reflexivity.
  - reflexivity.
  - reflexivity.
Defined.
