(* ===== verification/Led.v ===== *)
(** The status ring of the hub (src/firmware/apps/node_chest_hub/main/led_task.c): 24
    pixels that show the state of the suit, unless a pattern sent to the hub has taken the
    ring over for a while. *)
From S2P Require Import Prelude CanId Wire Rtos Float32 FloatVal.
From Stdlib Require Import SpecFloat.

Definition HUB_LED_COUNT : Z := 24.
Definition HUB_LED_MAX_BRIGHTNESS : Z := 160.
Definition HUB_LED_OVERRIDE_TIMEOUT_MS : Z := 5000.

(** A pixel: red, green, blue. *)
Definition pixel : Type := (Z * Z * Z)%type.

Definition scale (v bright : Z) : Z := u8 (u32 (v * bright) / 255).

(** The ring, [s_strip], as the calls of the driver leave it. *)
Definition fill (strip : list pixel) (r g b : Z) : list pixel :=
  foldl (fun strip i => <[i := (r, g, b)]> strip) strip (seq 0 (Z.to_nat HUB_LED_COUNT)).

Definition wave (phase_ms period_ms : Z) : f32 :=
  let x := (of_Z (phase_ms mod period_ms) / of_Z period_ms)%f32 in
  if (x <? flit 1 2)%f32 then (x * of_Z 2)%f32 else (of_Z 2 - x * of_Z 2)%f32.

(** Four pixels behind [head], each half as bright as the one before; [color] gives the
    pixel for a brightness. *)
Definition spinner (strip : list pixel) (head bright : Z) (color : Z -> pixel) : list pixel :=
  foldl (fun strip i =>
    let px := Z.rem (head - i + HUB_LED_COUNT) HUB_LED_COUNT in
    <[Z.to_nat px := color (u8 (bright .>> i))]> strip) strip [0; 1; 2; 3].

Section Led.
(** [undef]: what a conversion to [uint8_t] yields where C leaves it undefined. *)
Context (undef : f32 -> Z).

Definition level (x : f32) : Z := u8 (default (undef x) (to_u8 x)).

Definition render_state (strip : list pixel) (state t_ms : Z) : list pixel :=
  if state =? PS_STATE_BOOT then
    let strip := fill strip 0 0 0 in
    spinner strip (t_ms / 60 mod HUB_LED_COUNT) HUB_LED_MAX_BRIGHTNESS (fun v => (0, 0, v))
  else if state =? PS_STATE_STANDBY then
    let v := level (wave t_ms 2000 * of_Z HUB_LED_MAX_BRIGHTNESS)%f32 in
    fill strip v (scale v 140) 0
  else if state =? PS_STATE_OPERATIONAL then
    let v := level ((flit 55 100 + flit 45 100 * wave t_ms 2000) * of_Z HUB_LED_MAX_BRIGHTNESS)%f32 in
    fill strip (scale v 190) (scale v 220) v
  else if state =? PS_STATE_PASSIVE then
    fill strip HUB_LED_MAX_BRIGHTNESS (scale HUB_LED_MAX_BRIGHTNESS 120) 0
  else if state =? PS_STATE_ESTOP then
    fill strip (if t_ms / 100 mod 2 =? 0 then 0 else 255) 0 0
  else if t_ms / 300 mod 2 =? 0 then fill strip 180 90 0
  else fill strip 255 0 0.

(** The time a pattern takes: two seconds at speed 1, at least 50 ms. *)
Definition override_period (p : ps_led_pattern_t) : Z :=
  let period := if lp_speed p =? 0 then 1000 else 2000 / lp_speed p in
  if period <? 50 then 50 else period.

Definition render_override (strip : list pixel) (p : ps_led_pattern_t) (t_ms : Z) : list pixel :=
  let bright := if lp_brightness p =? 0 then HUB_LED_MAX_BRIGHTNESS else lp_brightness p in
  let period := override_period p in
  let color v := (scale (lp_r p) v, scale (lp_g p) v, scale (lp_b p) v) in
  if lp_pattern p =? 1 then
    let w := wave t_ms period in
    let v := level (w * of_Z bright)%f32 in
    fill strip (scale (lp_r p) v) (scale (lp_g p) v) (scale (lp_b p) v)
  else if lp_pattern p =? 2 then
    let strip := fill strip 0 0 0 in
    spinner strip (t_ms / (period / HUB_LED_COUNT + 1) mod HUB_LED_COUNT) bright color
  else fill strip (scale (lp_r p) bright) (scale (lp_g p) bright) (scale (lp_b p) bright).

(** The file-static state and [t0], the time the task started. *)
Record led := { s_strip : list pixel; s_override : ps_led_pattern_t; s_override_active : bool;
                s_override_until_us : Z; t0_us : Z }.

(** One turn of [led_task]: [now] and [now'] are its two clock readings, in microseconds,
    and [state] is the state of the suit. *)
Definition led_turn (s : led) (now now' state : Z) : led :=
  let t_ms := u32 (Z.quot (now - t0_us s) 1000) in
  let override_ok := s_override_active s && negb (state =? PS_STATE_ESTOP) && (now' <? s_override_until_us s) in
  let s := if s_override_active s && negb override_ok then {| s with s_override_active := false |} else s in
  {| s with s_strip := if override_ok then render_override (s_strip s) (s_override s) t_ms
                       else render_state (s_strip s) state t_ms |}.

Definition hub_led_override (s : led) (now : Z) (pat : option ps_led_pattern_t) : led :=
  match pat with
  | None => s
  | Some pat => {| s with s_override := pat; s_override_until_us := now + HUB_LED_OVERRIDE_TIMEOUT_MS * 1000;
                          s_override_active := true |}
  end.

(** The ring cleared, no override; the task started at [t0]. *)
Definition zero_pattern : ps_led_pattern_t :=
  {| lp_pattern := 0; lp_r := 0; lp_g := 0; lp_b := 0; lp_speed := 0; lp_brightness := 0; lp_rsvd := 0 |}.
Definition led_start (t0 : Z) : led :=
  {| s_strip := replicate (Z.to_nat HUB_LED_COUNT) (0, 0, 0); s_override := zero_pattern; s_override_active := false;
     s_override_until_us := 0; t0_us := t0 |}.

(** [new_err], [task_ok]: whether the driver and the task could be created. *)
Definition hub_led_start (new_err : esp_err_t) (task_ok : bool) (t0 : Z) : option led * esp_err_t :=
  if negb (is_ok new_err) then (None, new_err) else
  if negb task_ok then (None, ESP_ERR_NO_MEM) else (Some (led_start t0), ESP_OK).

End Led.

(** ** The ring does not depend on what it showed before *)

Definition blank : list pixel := replicate 24 (0, 0, 0).

Lemma foldl_insert_seq {A} (x : A) n k (l : list A) : (k + n <= length l)%nat ->
  foldl (fun l i => <[i := x]> l) l (seq k n) = take k l ++ replicate n x ++ drop (k + n) l.
Proof.
  revert k l. induction n as [|n IH]; intros k l Hl; cbn [seq foldl replicate app].
  { rewrite Nat.add_0_r. symmetry. apply take_drop. }
  rewrite IH by (rewrite length_insert; lia). rewrite drop_insert_lt by lia.
  rewrite (take_S_r _ k x) by (apply list_lookup_insert_eq; lia). rewrite take_insert_ge, <- app_assoc by lia.
  by replace (S k + n)%nat with (k + S n)%nat by lia.
Qed.

Lemma fill_all strip r g b : length strip = 24%nat -> fill strip r g b = replicate 24 (r, g, b).
Proof.
  intros Hl. unfold fill. change (Z.to_nat HUB_LED_COUNT) with 24%nat. rewrite foldl_insert_seq by lia.
  rewrite take_0, drop_ge by (rewrite Hl; done). by rewrite app_nil_r.
Qed.

Lemma length_spinner strip head bright color : length (spinner strip head bright color) = length strip.
Proof. unfold spinner. cbn [foldl]. by rewrite !length_insert. Qed.

Section Spec.
Context (undef : f32 -> Z).

Lemma render_state_blank strip st t : length strip = 24%nat ->
  render_state undef strip st t = render_state undef blank st t /\ length (render_state undef strip st t) = 24%nat.
Proof.
  intros Hl. assert (length blank = 24%nat) as Hb by done. unfold render_state. cbv zeta.
  repeat case_match; rewrite ?(fill_all strip), ?(fill_all blank) by done; rewrite ?length_spinner, ?length_replicate; done.
Qed.

Lemma render_override_blank strip p t : length strip = 24%nat ->
  render_override undef strip p t = render_override undef blank p t /\ length (render_override undef strip p t) = 24%nat.
Proof.
  intros Hl. assert (length blank = 24%nat) as Hb by done. unfold render_override. cbv zeta.
  repeat case_match; rewrite ?(fill_all strip), ?(fill_all blank) by done; rewrite ?length_spinner, ?length_replicate; done.
Qed.

(** ** What the ring shows *)

(** What happens to the ring: a pattern arrives, or the task draws a frame. *)
Inductive lev := LOverride (now : Z) (pat : option ps_led_pattern_t) | LFrame (now now' state : Z).

Definition lstep (s : led) (e : lev) : led :=
  match e with
  | LOverride now pat => hub_led_override s now pat
  | LFrame now now' state => led_turn undef s now now' state
  end.

(** The pattern that has taken the ring over, and when it arrived: the latest one, unless
    the suit has been stopped or the pattern was found expired since. *)
Definition live_step (l : option (ps_led_pattern_t * Z)) (e : lev) : option (ps_led_pattern_t * Z) :=
  match e, l with
  | LOverride now (Some p), _ => Some (p, now)
  | LFrame _ now' state, Some (_, t) => if negb (state =? PS_STATE_ESTOP) && (now' <? t + 5000000) then l else None
  | _, _ => l
  end.
Definition live (evs : list lev) : option (ps_led_pattern_t * Z) := foldl live_step None evs.

Definition led_rel (t0 : Z) (s : led) (l : option (ps_led_pattern_t * Z)) : Prop :=
  length (s_strip s) = 24%nat /\ t0_us s = t0 /\
  match l with
  | Some (p, t) => s_override_active s = true /\ s_override s = p /\ s_override_until_us s = t + 5000000
  | None => s_override_active s = false
  end.

Definition ring_of (t0 : Z) (l : option (ps_led_pattern_t * Z)) (now now' st : Z) : list pixel :=
  let t_ms := u32 (Z.quot (now - t0) 1000) in
  match l with
  | Some (p, t) => if negb (st =? PS_STATE_ESTOP) && (now' <? t + 5000000) then render_override undef blank p t_ms
                   else render_state undef blank st t_ms
  | None => render_state undef blank st t_ms
  end.

Lemma turn_ring t0 s l now now' st : led_rel t0 s l ->
  led_rel t0 (led_turn undef s now now' st) (live_step l (LFrame now now' st)) /\
  s_strip (led_turn undef s now now' st) = ring_of t0 l now now' st.
Proof.
  intros (Hl & Ht & Hs). unfold led_turn, ring_of. rewrite Ht. cbv zeta.
  destruct (render_state_blank (s_strip s) st (u32 (Z.quot (now - t0) 1000)) Hl) as [E1 L1].
  destruct l as [[p t]|]; cbn [live_step].
  - destruct Hs as (Ha & <- & Hu). rewrite Ha, Hu. cbn [andb].
    destruct (render_override_blank (s_strip s) (s_override s) (u32 (Z.quot (now - t0) 1000)) Hl) as [E2 L2].
    destruct (negb (st =? PS_STATE_ESTOP) && (now' <? t + 5000000)); (split; [split_and! |]; done).
  - rewrite Hs. cbn [andb]. split; [|done]. split_and!; done.
Qed.

Lemma rel_run t0 evs : led_rel t0 (foldl lstep (led_start t0) evs) (live evs).
Proof.
  unfold live. induction evs as [|e evs IH] using rev_ind; [done|]. rewrite !foldl_app. cbn [foldl].
  destruct e as [now [p|]|now now' st]; cbn [lstep hub_led_override live_step].
  - destruct IH as (? & ? & _). split_and!; done.
  - destruct (foldl live_step None evs) as [[]|]; exact IH.
  - apply (turn_ring t0), IH.
Qed.

(** The pattern is live because it arrived last, and no frame since it arrived found the
    suit stopped or the pattern expired. *)
Lemma live_some evs p t : live evs = Some (p, t) ->
  exists e1 e2, evs = e1 ++ LOverride t (Some p) :: e2 /\
    Forall (fun e => match e with
                     | LFrame _ now' st => st <> PS_STATE_ESTOP /\ now' < t + 5000000
                     | LOverride _ pat => pat = None
                     end) e2.
Proof.
  unfold live. induction evs as [|e evs IH] using rev_ind; [done|]. rewrite foldl_app. cbn [foldl].
  destruct e as [now [q|]|now now' st]; cbn [live_step].
  - intros [= -> ->]. by exists evs, [].
  - destruct (foldl live_step None evs) as [[q u]|]; [|done]. intros [= -> ->].
    destruct (IH eq_refl) as (e1 & e2 & -> & Hf). exists e1, (e2 ++ [LOverride now None]). rewrite <- app_assoc.
    split; [done|]. apply Forall_app. split; [done|]. by repeat constructor.
  - destruct (foldl live_step None evs) as [[q u]|]; [|done].
    destruct (negb (st =? PS_STATE_ESTOP) && (now' <? u + 5000000)) eqn:E; [|done]. intros [= -> ->].
    destruct (IH eq_refl) as (e1 & e2 & -> & Hf). exists e1, (e2 ++ [LFrame now now' st]). rewrite <- app_assoc.
    split; [done|]. apply Forall_app. split; [done|]. bools. repeat constructor; lia.
Qed.

Lemma estop_ring t : render_state undef blank PS_STATE_ESTOP t =
  replicate 24 (if t / 100 mod 2 =? 0 then 0 else 255, 0, 0).
Proof. unfold render_state. cbn [Z.eqb PS_STATE_ESTOP PS_STATE_BOOT PS_STATE_STANDBY PS_STATE_OPERATIONAL PS_STATE_PASSIVE]. by apply fill_all. Qed.

(** C34: Nothing leaves the ring lying about an e-stop.  After any sequence of patterns sent to
    the hub and frames drawn, a frame drawn while the suit is stopped is the 5 Hz red
    strobe and no pattern stays in force behind it; and a frame is the pattern of the state
    of the suit unless a pattern arrived less than five seconds ago, and since then no
    other one and no stop of the suit, in which case it is that pattern. *)
Theorem led_tells_the_truth t0 evs now now' st :
  let s := foldl lstep (led_start t0) evs in
  let ring := s_strip (led_turn undef s now now' st) in
  let t_ms := u32 (Z.quot (now - t0) 1000) in
  (st = PS_STATE_ESTOP -> ring = replicate 24 (if t_ms / 100 mod 2 =? 0 then 0 else 255, 0, 0) /\
     s_override_active (led_turn undef s now now' st) = false) /\
  ring = ring_of t0 (live evs) now now' st /\
  (forall p t, live evs = Some (p, t) -> exists e1 e2, evs = e1 ++ LOverride t (Some p) :: e2 /\
    Forall (fun e => match e with
                     | LFrame _ now' st => st <> PS_STATE_ESTOP /\ now' < t + 5000000
                     | LOverride _ pat => pat = None
                     end) e2).
Proof.
  cbv zeta. destruct (turn_ring t0 _ _ now now' st (rel_run t0 evs)) as [(_ & _ & R) E].
  split_and!; [|done|apply live_some]. intros ->. rewrite E. unfold ring_of. cbv zeta.
  destruct (live evs) as [[p t]|]; cbn in R |- *; split; auto using estop_ring.
Qed.

End Spec.

(** ** Brightness *)

Lemma scale_le v b : is_u8 v -> is_u8 b -> 0 <= scale v b <= Z.min v b.
Proof.
  unfold scale. cint. intros Hv Hb. assert (0 <= v * b <= 255 * 255) by nia.
  rewrite (Z.mod_small (v * b)) by lia. assert (v * b / 255 <= Z.min v b); [apply Z.div_le_upper_bound; nia|].
  assert (0 <= v * b / 255) by (apply Z.div_pos; lia). rewrite Z.mod_small by lia. lia.
Qed.

(** The two breathing levels at every millisecond of their period. *)
Definition level_okb (x : f32) : bool := match to_u8 x with Some v => v <=? HUB_LED_MAX_BRIGHTNESS | None => false end.
Definition standby_level (t : Z) : f32 := (wave t 2000 * of_Z HUB_LED_MAX_BRIGHTNESS)%f32.
Definition operational_level (t : Z) : f32 :=
  ((flit 55 100 + flit 45 100 * wave t 2000) * of_Z HUB_LED_MAX_BRIGHTNESS)%f32.

Lemma levels_checked : forallb (fun t => level_okb (standby_level t) && level_okb (operational_level t)) (seqZ 0 2000) = true.
Proof. vm_compute. reflexivity. Qed.

Lemma wave_mod t period : wave t period = wave (t mod period) period.
Proof. unfold wave. by rewrite Zmod_mod. Qed.

Lemma levels_ok t : level_okb (standby_level t) = true /\ level_okb (operational_level t) = true.
Proof.
  pose proof levels_checked as W. rewrite forallb_forall in W.
  specialize (W (t mod 2000) ltac:(apply list_elem_of_In, elem_of_seqZ; lia)). bools.
  unfold standby_level, operational_level in *. by rewrite (wave_mod t).
Qed.

(** A level that is checked does not depend on undefined conversions. *)
Lemma level_ok undef x : level_okb x = true -> exists v, to_u8 x = Some v /\ level undef x = v /\ 0 <= v <= 160.
Proof.
  unfold level_okb, level. destruct (to_u8 x) as [v|] eqn:E; [|done]. intros Hv%Z.leb_le.
  pose proof (to_int_range _ _ _ _ E). exists v. split_and!; [done | cbn [default]; apply u8_id; clia | lia | exact Hv].
Qed.

(** Every channel of a pixel between 0 and that of [m]. *)
Definition within (m p : pixel) : Prop :=
  let '(mr, mg, mb) := m in let '(r, g, b) := p in 0 <= r <= mr /\ 0 <= g <= mg /\ 0 <= b <= mb.

Lemma within_fill m strip r g b : length strip = 24%nat -> within m (r, g, b) -> Forall (within m) (fill strip r g b).
Proof. intros Hl Hw. rewrite fill_all by done. by apply Forall_replicate. Qed.

Lemma within_spinner m head bright color : within m (0, 0, 0) -> (forall v, is_u8 v -> within m (color v)) ->
  Forall (within m) (spinner (fill blank 0 0 0) head bright color).
Proof.
  intros Hm Hc. rewrite fill_all by done. unfold spinner. cbn [foldl].
  do 4 (apply Forall_insert; [|apply Hc, u8_range]). by apply Forall_replicate.
Qed.

Lemma within_scaled r g b v : is_u8 r -> is_u8 g -> is_u8 b -> is_u8 v ->
  within (r, g, b) (scale r v, scale g v, scale b v).
Proof.
  intros Hr Hg Hb Hv. pose proof (scale_le r v Hr Hv). pose proof (scale_le g v Hg Hv). pose proof (scale_le b v Hb Hv).
  cbn [within]. lia.
Qed.

(** The pattern a state shows, where it is not a fixed colour. *)
Lemma within_state undef st t : st = PS_STATE_BOOT \/ st = PS_STATE_STANDBY \/ st = PS_STATE_OPERATIONAL \/ st = PS_STATE_PASSIVE ->
  Forall (within (160, 160, 160)) (render_state undef blank st t).
Proof.
  destruct (levels_ok t) as [L1 L2].
  destruct (level_ok undef _ L1) as (v1 & _ & E1 & H1). destruct (level_ok undef _ L2) as (v2 & _ & E2 & H2).
  pose proof (scale_le v1 140). pose proof (scale_le v2 190). pose proof (scale_le v2 220). pose proof (scale_le 160 120).
  cint. unfold render_state, standby_level, operational_level in *.
  intros [-> | [-> | [-> | ->]]]; cbn [Z.eqb PS_STATE_BOOT PS_STATE_STANDBY PS_STATE_OPERATIONAL PS_STATE_PASSIVE Pos.eqb]; cbv zeta.
  - unfold spinner, HUB_LED_MAX_BRIGHTNESS. rewrite fill_all by done. cbn [foldl].
    do 4 (apply Forall_insert; [|repeat split; vm_compute; congruence]). apply Forall_replicate. cbn [within]. lia.
  - rewrite E1. apply within_fill; [done|]. cbn [within]. lia.
  - rewrite E2. apply within_fill; [done|]. cbn [within]. lia.
  - apply within_fill; [done|]. cbn [within]. unfold HUB_LED_MAX_BRIGHTNESS. lia.
Qed.

(** The ring keeps to its brightness.  In the four states without an alarm no channel
    exceeds 160 and the ring is the same whatever an undefined conversion would give, none
    being reached at any time of the breathing cycle; a pattern sent to the hub is never
    shown brighter, in any channel, than the colour it carries.  Rounding included, at
    every time. *)
Theorem led_brightness undef undef' st p t :
  (st = PS_STATE_BOOT \/ st = PS_STATE_STANDBY \/ st = PS_STATE_OPERATIONAL \/ st = PS_STATE_PASSIVE ->
   Forall (within (160, 160, 160)) (render_state undef blank st t)) /\
  render_state undef blank st t = render_state undef' blank st t /\
  (is_u8 (lp_r p) -> is_u8 (lp_g p) -> is_u8 (lp_b p) -> is_u8 (lp_brightness p) ->
   Forall (within (lp_r p, lp_g p, lp_b p)) (render_override undef blank p t)).
Proof.
  split_and!; [apply within_state | |].
  - destruct (levels_ok t) as [L1 L2]. unfold standby_level, operational_level in *. unfold render_state. cbv zeta.
    destruct (level_ok undef _ L1) as (v & E & -> & _). destruct (level_ok undef' _ L1) as (v' & E' & -> & _).
    rewrite E in E'. injection E' as <-.
    destruct (level_ok undef _ L2) as (w & F & -> & _). destruct (level_ok undef' _ L2) as (w' & F' & -> & _).
    rewrite F in F'. by injection F' as <-.
  - intros Hr Hg Hb Hv. unfold render_override. cbv zeta.
    destruct (_ =? 1); [apply within_fill; [done|]; apply within_scaled; [done..|apply u8_range]|].
    destruct (_ =? 2); [apply within_spinner; [cbn [within]; clia | intros; by apply within_scaled]|].
    apply within_fill; [done|]. apply within_scaled; [done..|]. destruct (_ =? 0); [unfold HUB_LED_MAX_BRIGHTNESS; clia | done].
Qed.

(** The witness of [led_brightness]: the pattern is solid white at brightness 40. *)
Lemma led_brightness_witness :
  let p := {| lp_pattern := 0; lp_brightness := 40; lp_r := 255; lp_g := 255; lp_b := 255; lp_speed := 0; lp_rsvd := 0 |} in
  Forall (within (160, 160, 160)) (render_state (fun _ => 0) blank PS_STATE_STANDBY 700) /\
  Forall (within (255, 255, 255)) (render_override (fun _ => 0) blank p 700).
Proof.
  intros p. destruct (led_brightness (fun _ => 0) (fun _ => 1) PS_STATE_STANDBY p 700) as (H1 & _ & H2).
  split; [apply H1; auto | apply H2; cbn; clia].
Defined.
