(* ===== verification/Helmet.v ===== *)
(** The helmet (src/firmware/apps/node_helmet/main): the model behind the heads-up display
    (hud_model.c) and its rendering (hud_task.c), the reaction to safety transitions
    (safety_glue.c), the microphone and speaker paths (audio_in_task.c,
    audio_out_task.c), telemetry and the display feed (comms_task.c) and the ESP-NOW
    beacon (espnow_diag.c).

    A C string is the list of its bytes before the terminator; an array of [char] is the
    list of its bytes.  Every function that takes the lock of the model is one step. *)
From stdpp Require Import strings.
From S2P Require Import Prelude CanId Wire Rtos Txq Can Safety SafetySpec SafetyEsp Adpcm Audio EnergyGate Float32.
From Stdlib Require Import SpecFloat.

(** ** hud_model.c *)

Definition HELMET_MAX_WARNINGS : Z := 6.
Definition HELMET_WARNING_LEN : Z := 40.

(** [ias_ms] is left out: nothing writes it. *)
Record hud_model_t := {
  safety_state : Z; battery_pct : Z; battery_valid : bool; cloud_up : bool;
  warnings : list (list Z); warning_count : Z }.

(** The bytes of a literal. *)
Definition lit (s : string) : list Z := (fun c => Z.of_N (Ascii.N_of_ascii c)) <$> String.list_ascii_of_string s.

(** The C string an array holds: its bytes before the first zero. *)
Fixpoint cstr (row : list Z) : list Z :=
  match row with [] => [] | c :: row => if c =? 0 then [] else c :: cstr row end.

(** [strncpy(row, text, n)] and the terminator written after it, into an array of [n + 1]. *)
Definition copy_row (n : nat) (text : list Z) : list Z := take n text ++ replicate (n - length (take n text)) 0 ++ [0].

Definition helmet_hud_set_state (m : hud_model_t) (st : Z) : hud_model_t := {| m with safety_state := st |}.
Definition helmet_hud_set_battery (m : hud_model_t) (pct : Z) : hud_model_t :=
  {| m with battery_pct := pct; battery_valid := true |}.
Definition helmet_hud_set_cloud (m : hud_model_t) (up : bool) : hud_model_t := {| m with cloud_up := up |}.

Definition helmet_hud_push_warning (m : hud_model_t) (text : option (list Z)) : hud_model_t :=
  match text with
  | None => m
  | Some text =>
    let m := if HELMET_MAX_WARNINGS <=? warning_count m then
               {| m with warnings := take 5 (drop 1 (warnings m)) ++ drop 5 (warnings m);
                         warning_count := HELMET_MAX_WARNINGS - 1 |}
             else m in
    {| m with warnings := <[Z.to_nat (warning_count m) := copy_row (Z.to_nat (HELMET_WARNING_LEN - 1)) text]> (warnings m);
              warning_count := u8 (warning_count m + 1) |}
  end.

Definition helmet_hud_clear_warnings (m : hud_model_t) : hud_model_t := {| m with warning_count := 0 |}.

(** The zeroed model of a program that starts. *)
Definition hud_zero : hud_model_t :=
  {| safety_state := 0; battery_pct := 0; battery_valid := false; cloud_up := false;
     warnings := replicate 6 (replicate 40 0); warning_count := 0 |}.

(** ** safety_glue.c *)

Definition helmet_safety_on_transition (m : hud_model_t) (new_state cause : Z) : hud_model_t :=
  let m := helmet_hud_set_state m new_state in
  if new_state =? PS_STATE_ESTOP then helmet_hud_push_warning m (Some (lit "E-STOP LATCHED"))
  else if new_state =? PS_STATE_PASSIVE then
    helmet_hud_push_warning m (Some (if cause =? PS_ESTOP_COMM_LOSS then lit "LINK LOST - LIMP" else lit "PASSIVE MODE"))
  else if new_state =? PS_STATE_FAULT then helmet_hud_push_warning m (Some (lit "NODE FAULT"))
  else if new_state =? PS_STATE_OPERATIONAL then helmet_hud_clear_warnings m
  else m.

(** ** hud_task.c *)

Inductive palette := GREEN | AMBER | ORANGE | RED | BLUE_GREY.

Definition colour_for_state (st : Z) : palette :=
  if st =? PS_STATE_OPERATIONAL then GREEN else if st =? PS_STATE_STANDBY then AMBER
  else if st =? PS_STATE_PASSIVE then ORANGE else if st =? PS_STATE_ESTOP then RED
  else if st =? PS_STATE_FAULT then RED else BLUE_GREY.

Definition name_for_state (st : Z) : list Z :=
  if st =? PS_STATE_BOOT then lit "BOOT" else if st =? PS_STATE_STANDBY then lit "STANDBY"
  else if st =? PS_STATE_OPERATIONAL then lit "ACTIVE" else if st =? PS_STATE_PASSIVE then lit "PASSIVE"
  else if st =? PS_STATE_ESTOP then lit "E-STOP" else if st =? PS_STATE_FAULT then lit "FAULT" else lit "?".

(** [sizeof(buf)] of [hud_task]. *)
Definition HUD_BUF : Z := HELMET_MAX_WARNINGS * HELMET_WARNING_LEN + 8.

(** [strncat(buf, s, n)] into an array of [HUD_BUF] bytes that holds the string [buf];
    [None] where it would write past the end. *)
Definition strncat (buf s : list Z) (n : Z) : option (list Z) :=
  let r := buf ++ take (Z.to_nat n) s in
  if Z.of_nat (length r) + 1 <=? HUD_BUF then Some r else None.

(** The loop over the warnings; the sizes are computed in [size_t]. *)
Fixpoint join_warnings (buf : list Z) (rows : list (list Z)) : option (list Z) :=
  match rows with
  | [] => Some buf
  | row :: rows =>
    match strncat buf (cstr row) (u32 (HUD_BUF - Z.of_nat (length buf) - 2)) with
    | Some buf =>
      match strncat buf [10] (u32 (HUD_BUF - Z.of_nat (length buf) - 1)) with
      | Some buf => join_warnings buf rows
      | None => None
      end
    | None => None
    end
  end.

(** ["%u%%"] of a byte. *)
Definition percent (n : Z) : list Z :=
  let d k := 48 + n / k mod 10 in
  (if n <? 10 then [d 1] else if n <? 100 then [d 10; d 1] else [d 100; d 10; d 1]) ++ lit "%".

(** What a turn of [hud_task] draws; [d_warn] is [None] if the text overran its buffer. *)
Record display := { d_banner : list Z; d_colour : palette; d_bar : Z; d_battery : list Z; d_warn : option (list Z); d_link : list Z }.

Definition hud_turn (m : hud_model_t) : display :=
  {| d_banner := name_for_state (safety_state m); d_colour := colour_for_state (safety_state m);
     d_bar := if battery_valid m then battery_pct m else 0;
     d_battery := if battery_valid m then percent (battery_pct m) else lit "--%";
     d_warn := join_warnings [] (take (Z.to_nat (warning_count m)) (warnings m));
     d_link := lit "CLOUD " ++ (if cloud_up m then lit "UP" else lit "--") |}.

(** ** The node *)

Definition HELMET_VOX_THRESHOLD_DBFS : Z := -38.
Definition HELMET_VOX_HANG_MS : Z := 300.
Definition HELMET_VOX_MAX_UTTER_MS : Z := 8000.
Definition HELMET_SPK_BLOCK_SAMPLES : Z := 128.

Section Helmet.
Context `{RtosQueue} `{TwaiDlc} (undef : f32 -> Z).

(** The file-static state of the tasks; the CAN handle is the one the safety glue holds. *)
Record helmet := {
  hud : hud_model_t; h_glue : glue;
  s_tx : ps_audio_tx_t; s_gate : ps_egate_t; s_wake_pending : bool; streaming : bool;
  s_rx : ps_audio_rx_t;
  s_env_seq : Z; s_stats_seq : Z; s_rx_count : Z }.

Definition h_send (s : helmet) (f : ps_can_frame_t) : helmet :=
  {| s with h_glue := {| (h_glue s) with can := (ps_can_send (can (h_glue s)) (Some f)).1 |} |}.

(** Whatever the safety glue does, its callbacks included. *)
Definition h_safety (s : helmet) (r : glue * list user_call) : helmet :=
  {| s with h_glue := r.1;
            hud := foldl (fun m u => helmet_safety_on_transition m (uc_new u) (uc_cause u)) (hud s) r.2 |}.

(** *** audio_in_task.c *)

Definition helmet_take_wake_event (s : helmet) : helmet * bool := ({| s with s_wake_pending := false |}, s_wake_pending s).

(** The frame of [emit_frame]; the payload is at most eight bytes. *)
Definition emit_frame (e : emission) : ps_can_frame_t :=
  {| f_id := e_id e; f_dlc := e_dlc e;
     f_data := take (Z.to_nat (e_dlc e)) (e_data e) ++ replicate (8 - Z.to_nat (e_dlc e)) 0 |}.

Definition ctl_frame (cmd : Z) : ps_can_frame_t :=
  let ctl := {| ac_dir := PS_AUDIO_DIR_UP; ac_cmd := cmd; ac_sample_rate := PS_AUDIO_SAMPLE_RATE; ac_rsvd := 0 |} in
  {| f_id := ps_can_id_pack PS_CLS_AUDIO PS_NODE_HELMET PS_NODE_ORCH PS_T_AUDIO_CTL 0;
     f_dlc := Z.of_nat (wire_size ps_audio_ctl_t); f_data := wire_write ctl |}.

(** Pairs of samples averaged; an odd last one is dropped. *)
Fixpoint decimate (raw : list Z) : list Z :=
  match raw with
  | a :: b :: raw => i16 (Z.quot ((a .>> 16) + (b .>> 16)) 2) :: decimate raw
  | _ => []
  end.

(** One turn of [audio_in_task] on a block that was read ([raw], at time [now_ms]): the
    state, and the frames handed to the bus in order. *)
Definition audio_in_frames (s : helmet) (raw : list Z) (now_ms : Z) : helmet * list ps_can_frame_t :=
  let pcm8k := decimate raw in
  let '(g, open) := ps_egate_process (s_gate s) pcm8k now_ms in
  let s := {| s with s_gate := g |} in
  let '(s, fs1) :=
    if open && negb (streaming s) then
      let '(tx, sync) := ps_audio_tx_sync (s_tx s) in
      ({| s with s_tx := tx; s_wake_pending := true; streaming := true |}, [ctl_frame 1; emit_frame sync])
    else (s, []) in
  let '(s, fs2) :=
    if streaming s then let '(tx, es) := ps_audio_tx_push (s_tx s) pcm8k in ({| s with s_tx := tx |}, emit_frame <$> es)
    else (s, []) in
  let '(s, fs3) :=
    if negb open && streaming s then ({| s with streaming := false |}, [ctl_frame 0]) else (s, []) in
  (s, fs1 ++ fs2 ++ fs3).

(** [raw] is [None] where the read fails. *)
Definition audio_in_turn (s : helmet) (raw : option (list Z)) (now_ms : Z) : helmet :=
  match raw with
  | None => s
  | Some raw => let '(s, fs) := audio_in_frames s raw now_ms in foldl h_send s fs
  end.

(** *** audio_out_task.c *)

Definition audio_rx_cb (s : helmet) (frame : ps_can_frame_t) : helmet :=
  if negb (ps_can_id_dst (f_id frame) =? PS_NODE_HELMET) then s else
  {| s with s_rx := ps_audio_rx_on_frame (s_rx s) {| e_id := f_id frame; e_data := f_data frame; e_dlc := f_dlc frame |} |}.

(** One turn of [audio_out_task]: the block written to the speaker. *)
Definition audio_out_turn (s : helmet) : helmet * list Z :=
  let '(rx, got) := ps_audio_rx_pull (s_rx s) HELMET_SPK_BLOCK_SAMPLES in
  ({| s with s_rx := rx |}, got ++ replicate (Z.to_nat HELMET_SPK_BLOCK_SAMPLES - length got) 0).

(** *** comms_task.c *)

Definition telem_send (s : helmet) (type : Z) (payload : list Z) (len seq : Z) : helmet :=
  h_send s {| f_id := ps_can_id_pack PS_CLS_TELEM PS_NODE_HELMET PS_NODE_ORCH type seq; f_dlc := len;
              f_data := bput 0 (take (Z.to_nat len) payload) (replicate 8 0) |}.

(** The two payloads of a turn; [tsens] is [None] where the sensor fails. *)
Definition env_msg (tsens : option f32) : ps_env_t :=
  {| en_temp_cC := match tsens with
                   | Some t => i16 (default (undef (t * of_Z 100)%f32) (to_i16 (t * of_Z 100)%f32))
                   | None => 0
                   end;
     en_rh_pm := 0xFFFF; en_press_dhPa := 0xFFFF; en_rsvd := 0 |}.

Definition helmet_stats (cs : ps_can_stats_t) (st : Z) : ps_node_stats_t :=
  {| ns_cpu_pct := 0; ns_state := st; ns_rx_fps := u16 (rx_frames cs .& 0xFFFF);
     ns_tx_fps := u16 (tx_frames cs .& 0xFFFF); ns_err_cnt := u16 (bus_errors cs .& 0xFFFF) |}.

Definition h_comms_turn (s : helmet) (tsens : option f32) : helmet :=
  let s := telem_send s PS_T_ENV (wire_write (env_msg tsens)) (Z.of_nat (wire_size ps_env_t)) (s_env_seq s) in
  let s := {| s with s_env_seq := u8 (s_env_seq s + 1) |} in
  let cs := ps_can_get_stats (can (h_glue s)) (Build_ps_can_stats_t 0 0 0 0 0 0) in
  let st := helmet_stats cs (ps_safety_state (h_glue s)) in
  let s := telem_send s PS_T_NODE_STATS (wire_write st) (Z.of_nat (wire_size ps_node_stats_t)) (s_stats_seq s) in
  {| s with s_stats_seq := u8 (s_stats_seq s + 1) |}.

(** A marker: its name space and text ([None]: a null pointer) and the double [scale.x]. *)
Definition hud_marker_cb (s : helmet) (ns : option (list Z)) (scale_x : spec_float) (text : option (list Z)) : helmet :=
  match ns with
  | None => s
  | Some ns =>
    if bool_decide (ns = lit "battery") then
      if SFleb (S754_zero false) scale_x && SFleb scale_x (binary_normalize 53 1024 100 0 false)
      then {| s with hud := helmet_hud_set_battery (hud s) (u8 (default (undef scale_x) (to_u8 scale_x))) |} else s
    else if bool_decide (ns = lit "warning") && negb (bool_decide (text = None))
    then {| s with hud := helmet_hud_push_warning (hud s) text |}
    else if bool_decide (ns = lit "clear") then {| s with hud := helmet_hud_clear_warnings (hud s) |}
    else s
  end.

(** *** espnow_diag.c *)

Definition on_recv (s : helmet) : helmet := {| s with s_rx_count := u32 (s_rx_count s + 1) |}.

(** The bytes broadcast by [beacon_cb]. *)
Definition beacon_cb (s : helmet) : list Z :=
  wire_write {| ns_cpu_pct := 0; ns_state := ps_safety_state (h_glue s); ns_rx_fps := 0; ns_tx_fps := 0;
                ns_err_cnt := u16 (s_rx_count s .& 0xFFFF) |}.

(** The state after [ps_safety_start], [helmet_audio_out_start] and
    [helmet_audio_in_start]; [mean_square] is the double arithmetic of the gate's threshold. *)
Definition helmet_start (g : glue) (mean_square : Z -> QArith_base.Q) : helmet :=
  {| hud := hud_zero; h_glue := g;
     s_tx := ps_audio_tx_init (replicate 16 0) PS_AUDIO_DIR_UP PS_NODE_HELMET PS_NODE_ORCH;
     s_gate := ps_egate_init mean_square HELMET_VOX_THRESHOLD_DBFS HELMET_VOX_HANG_MS HELMET_VOX_MAX_UTTER_MS;
     s_wake_pending := false; streaming := false;
     s_rx := ps_audio_rx_init (replicate 4096 0); s_env_seq := 0; s_stats_seq := 0; s_rx_count := 0 |}.

End Helmet.
