(* ===== verification/HelmetSpec.v ===== *)
(** Properties of the helmet: the banner is the state of the node, the warning list is
    shown exactly, and the voice uplink carries what the gate lets through. *)
From stdpp Require Import strings.
From S2P Require Import Prelude CanId Wire Rtos Txq Can Safety SafetySpec SafetyEsp Adpcm Audio EnergyGate Float32 Helmet.
From Stdlib Require Import SpecFloat.

(** ** The warning list *)

(** The functions through which the model is written. *)
Inductive hop := OState (st : Z) | OBattery (pct : Z) | OCloud (up : bool) | OPush (text : option (list Z)) | OClear.

Definition hud_op (m : hud_model_t) (o : hop) : hud_model_t :=
  match o with
  | OState st => helmet_hud_set_state m st
  | OBattery pct => helmet_hud_set_battery m pct
  | OCloud up => helmet_hud_set_cloud m up
  | OPush text => helmet_hud_push_warning m text
  | OClear => helmet_hud_clear_warnings m
  end.

(** What the list promises: the last six texts since it was cleared, each cut to 39 bytes. *)
Definition recent_op (l : list (list Z)) (o : hop) : list (list Z) :=
  match o with
  | OPush (Some text) => let l := l ++ [take 39 text] in drop (length l - 6) l
  | OClear => []
  | _ => l
  end.
Definition recent (ops : list hop) : list (list Z) := foldl recent_op [] ops.

(** A C string has no zero byte before its end. *)
Definition hop_ok (o : hop) : Prop := match o with OPush (Some text) => Forall (fun c => c <> 0) text | _ => True end.

Lemma cstr_app l r : Forall (fun c => c <> 0) l -> cstr (l ++ 0 :: r) = l.
Proof. induction 1 as [|c l Hc _ IH]; [done|]. cbn [cstr app]. rewrite (proj2 (Z.eqb_neq _ _) Hc). by rewrite IH. Qed.

Lemma cstr_row n text : Forall (fun c => c <> 0) text -> cstr (copy_row n text) = take n text.
Proof.
  intros Ht. unfold copy_row. set (k := (n - length (take n text))%nat).
  assert (replicate k 0 ++ [0] = 0 :: replicate k 0) as -> by (clear; induction k as [|k IH]; [done|]; cbn; by rewrite IH).
  by apply cstr_app, Forall_take.
Qed.

Definition warn_rel (m : hud_model_t) (l : list (list Z)) : Prop :=
  length (warnings m) = 6%nat /\ warning_count m = Z.of_nat (length l) /\ (length l <= 6)%nat /\
  cstr <$> take (length l) (warnings m) = l /\ Forall (fun w => (length w <= 39)%nat) l.

Lemma warn_push m l text : warn_rel m l -> Forall (fun c => c <> 0) text ->
  warn_rel (helmet_hud_push_warning m (Some text)) (recent_op l (OPush (Some text))).
Proof.
  intros (Hw & Hc & Hl & He & Hs) Ht. unfold helmet_hud_push_warning, recent_op, HELMET_MAX_WARNINGS. rewrite Hc. cbv zeta.
  change (Z.to_nat (HELMET_WARNING_LEN - 1)) with 39%nat.
  assert (length (take 39 text) <= 39)%nat as H39 by (rewrite length_take; lia).
  assert (forall (w : list (list Z)) k, length w = 6%nat -> (k < 6)%nat -> cstr <$> take k w = take k (drop (length l - k) l) ->
    (length l - k <= 1)%nat -> (k <= length l)%nat ->
    cstr <$> take (S k) (<[k := copy_row 39 text]> w) = drop (length l - k) l ++ [take 39 text]) as Hput.
  { intros w k Hw' Hk Hp _ Hk'. rewrite (take_S_r _ k (copy_row 39 text)) by (apply list_lookup_insert_eq; lia).
    rewrite take_insert_ge, fmap_app, Hp by lia. rewrite take_ge by (rewrite length_drop; lia). cbn. by rewrite cstr_row. }
  destruct (Z.leb_spec 6 (Z.of_nat (length l))) as [Hfull|Hroom]; cbn [warnings warning_count].
  - assert (length l = 6%nat) as H6 by lia. rewrite length_app, H6. cbn [length]. change (6 + 1 - 6)%nat with 1%nat.
    change (Z.to_nat (6 - 1)) with 5%nat. change (u8 (6 - 1 + 1)) with 6.
    assert (drop 1 (l ++ [take 39 text]) = drop 1 l ++ [take 39 text]) as Ed by (destruct l; [done|]; cbn; by rewrite !drop_0).
    rewrite H6 in Hput. specialize (Hput (take 5 (drop 1 (warnings m)) ++ drop 5 (warnings m)) 5%nat).
    unfold warn_rel. cbn [warnings warning_count]. rewrite Ed, length_app, length_drop, H6. cbn [length Nat.add Nat.sub].
    split_and!; [rewrite length_insert, length_app, length_take, !length_drop, Hw; done | done | lia | | ].
    + apply Hput; [rewrite length_app, length_take, !length_drop, Hw; done | lia | | lia..].
      rewrite take_app_le by (rewrite length_take, length_drop, Hw; lia). rewrite take_take. change (5 `min` 5)%nat with 5%nat.
      change (6 - 5)%nat with 1%nat. rewrite H6, (take_ge _ 6) in He by lia. by rewrite <- He, <- fmap_drop, <- fmap_take.
    + apply Forall_app. split; [by apply Forall_drop | by apply Forall_singleton].
  - rewrite length_app. cbn [length]. replace (length l + 1 - 6)%nat with 0%nat by lia. rewrite drop_0.
    rewrite Hc, Nat2Z.id. unfold warn_rel. cbn [warnings warning_count]. rewrite length_app. cbn [length].
    rewrite !Nat.add_1_r. split_and!; [by rewrite length_insert | clia | lia | | ].
    + specialize (Hput (warnings m) (length l)). rewrite Nat.sub_diag, drop_0 in Hput. apply Hput; [done | lia | | lia..].
      by rewrite He, take_ge.
    + apply Forall_app. split; [done | by apply Forall_singleton].
Qed.

Lemma warn_run ops : Forall hop_ok ops -> warn_rel (foldl hud_op hud_zero ops) (recent ops).
Proof.
  unfold recent. induction ops as [|o ops IH] using rev_ind; [intros _; split_and!; done || (cbn; lia)|]. intros [Ho Hlast]%Forall_app.
  rewrite !foldl_app. cbn [foldl]. specialize (IH Ho). inversion_clear Hlast as [|? ? Hok _].
  destruct o as [| | |[text|]|]; cbn [hud_op recent_op]; try exact IH.
  - by apply warn_push.
  - destruct IH as (Hw & _). split_and!; [done | done | cbn; lia | done | done].
Qed.

(** ** Rendering *)

Definition listing (l : list (list Z)) : list Z := mjoin ((fun w => w ++ [10]) <$> l).

(** As long as there is room for every line, the buffer holds them all. *)
Lemma join_exact rows : forall buf, Forall (fun r => (length (cstr r) <= 39)%nat) rows ->
  (length buf + 40 * length rows <= 240)%nat ->
  join_warnings buf rows = Some (buf ++ listing (cstr <$> rows)).
Proof.
  induction rows as [|row rows IH]; intros buf Hr Hl; cbn [join_warnings].
  { unfold listing. cbn. by rewrite app_nil_r. }
  inversion_clear Hr as [|? ? H1 H2]. cbn [length] in Hl. unfold strncat, HUD_BUF, HELMET_MAX_WARNINGS, HELMET_WARNING_LEN.
  rewrite (take_ge (cstr row)) by clia. rewrite length_app.
  rewrite (proj2 (Z.leb_le _ _)) by lia. rewrite (take_ge [10]) by (rewrite ?length_app; cbn [length]; clia). rewrite !length_app. cbn [length].
  rewrite (proj2 (Z.leb_le _ _)) by lia. rewrite IH; [|done|rewrite !length_app; cbn [length]; lia].
  change (listing (cstr <$> row :: rows)) with ((cstr row ++ [10]) ++ listing (cstr <$> rows)). by rewrite <- !app_assoc.
Qed.

(** The warning list is shown as it is.  Through any sequence of writes to the model, the
    display shows the last six warnings since the list was cleared, oldest first, each cut
    to 39 bytes and on a line of its own: a full list loses its oldest entry and never
    hides the newest; no index leaves the array, the text never overruns its buffer and
    no line is truncated on the way to the screen. *)
Theorem hud_warnings_exact ops : Forall hop_ok ops ->
  let m := foldl hud_op hud_zero ops in
  d_warn (hud_turn m) = Some (listing (recent ops)) /\
  warning_count m = Z.of_nat (length (recent ops)) /\ (length (recent ops) <= 6)%nat /\
  length (warnings m) = 6%nat.
Proof.
  intros Hops. cbv zeta. destruct (warn_run ops Hops) as (Hw & Hc & Hl & He & Hs).
  split_and!; [|done..]. unfold hud_turn. cbn [d_warn]. rewrite Hc, Nat2Z.id, join_exact; cbn [length app].
  - by rewrite He.
  - rewrite <- He in Hs at 1. by apply Forall_fmap in Hs.
  - rewrite length_take, Hw. lia.
Qed.

Lemma hud_warnings_exact_witness :
  let ops := [OPush (Some (lit "LINK LOST - LIMP")); OState 3; OPush None; OPush (Some (lit "E-STOP LATCHED"))] in
  d_warn (hud_turn (foldl hud_op hud_zero ops)) =
    Some (lit "LINK LOST - LIMP" ++ [10] ++ lit "E-STOP LATCHED" ++ [10]).
Proof.
  intros ops. destruct (hud_warnings_exact ops) as [E _]; [|exact E].
  repeat constructor; done.
Defined.

(** ** The banner *)

Section Banner.
Context `{RtosQueue} `{TwaiDlc} (undef : f32 -> Z).

(** What happens to a helmet. *)
Inductive hev :=
  | HSafety (t : Z) (e : gev)
  | HMarker (ns : option (list Z)) (scale_x : spec_float) (text : option (list Z))
  | HCloud (up : bool)
  | HMic (raw : option (list Z)) (now_ms : Z) | HSpk | HAudio (f : ps_can_frame_t)
  | HComms (tsens : option f32) | HWake | HEspNow.

Definition hstep (s : helmet) (e : hev) : helmet :=
  match e with
  | HSafety t e => h_safety s (gstep (h_glue s) (u32 t) e)
  | HMarker ns x text => hud_marker_cb undef s ns x text
  | HCloud up => {| s with hud := helmet_hud_set_cloud (hud s) up |}
  | HMic raw now => audio_in_turn s raw now
  | HSpk => (audio_out_turn s).1
  | HAudio f => audio_rx_cb s f
  | HComms tsens => h_comms_turn undef s tsens
  | HWake => (helmet_take_wake_event s).1
  | HEspNow => on_recv s
  end.

(** The display and the safety glue agree on the state. *)
Definition banner_inv (s : helmet) : Prop :=
  safety_state (hud s) = state (core (h_glue s)) /\ started (h_glue s) = true /\
  is_Some (user_cb (h_glue s)) /\
  on_transition (core (h_glue s)) = Some on_core_transition_cb /\ cb_arg (core (h_glue s)) = 0.

Lemma push_state m text : safety_state (helmet_hud_push_warning m text) = safety_state m.
Proof. destruct text; [|done]. unfold helmet_hud_push_warning. cbv zeta. by case_match. Qed.

Lemma transition_state m st cause : safety_state (helmet_safety_on_transition m st cause) = st.
Proof. unfold helmet_safety_on_transition. repeat case_match; by rewrite ?push_state. Qed.

Lemma path_state (g : glue) cb arg l : forall m st st', is_Some (user_cb g) -> path cb arg st l st' -> safety_state m = st ->
  safety_state (foldl (fun m u => helmet_safety_on_transition m (uc_new u) (uc_cause u)) m (on_core_transition g l)) = st'.
Proof.
  unfold on_core_transition. intros m st st' [ucb ->]. revert m st. induction l as [|x l IH]; intros m st; cbn [path].
  - by intros <-.
  - intros (_ & _ & _ & _ & Hp) _. cbn [fmap list_fmap foldl uc_new uc_cause]. apply (IH _ (tr_new x)); [done|].
    apply transition_state.
Qed.

Lemma safety_banner s t e : banner_inv s -> banner_inv (h_safety s (gstep (h_glue s) t e)).
Proof.
  intros (Hs & Hst & Hu & Ho & Ha). pose proof (gstep_tracks (h_glue s) t e Hst) as Ht.
  destruct (gstep (h_glue s) t e) as [g calls]. unfold h_safety. cbn [fst snd] in *.
  destruct (core_event e) as [e'|]; destruct Ht as [(Tc & Tu & Ta & Ts) ->]; unfold banner_inv; cbn [hud h_glue];
    rewrite Tc, Tu, Ts; [|by split_and!].
  destruct (reports_step on_core_transition_cb 0 (core (h_glue s)) t e' Ho Ha) as (R1 & R2 & R3).
  split_and!; [|done..]. by eapply path_state.
Qed.

(** Everything else leaves the state on the display and the safety core alone. *)
Definition same_state (s s' : helmet) : Prop :=
  safety_state (hud s') = safety_state (hud s) /\ core (h_glue s') = core (h_glue s) /\
  started (h_glue s') = started (h_glue s) /\ user_cb (h_glue s') = user_cb (h_glue s).

Lemma same_banner s s' : same_state s s' -> banner_inv s -> banner_inv s'.
Proof. unfold banner_inv. by intros (-> & -> & -> & ->). Qed.

#[local] Instance same_state_preorder : PreOrder same_state.
Proof. split; [by intros s; split_and!|]. intros a b c (? & ? & ? & ?) (? & ? & ? & ?). split_and!; congruence. Qed.

Lemma sends_same fs s : same_state s (foldl h_send s fs).
Proof. revert s. induction fs as [|f fs IH]; intros s; [done|]. cbn [foldl]. etransitivity; [|apply IH]. done. Qed.

Lemma mic_same s raw now : same_state s (audio_in_turn s raw now).
Proof.
  destruct raw as [raw|]; [|done]. unfold audio_in_turn.
  destruct (audio_in_frames s raw now) as [s' fs] eqn:E. etransitivity; [|apply sends_same].
  unfold audio_in_frames in E. cbv zeta in E. destruct (ps_egate_process _ _ _) as [g o].
  repeat case_match; simplify_eq; done.
Qed.

Lemma other_same s e : (forall t g, e <> HSafety t g) -> same_state s (hstep s e).
Proof.
  intros He. destruct e as [t g|ns x text|up|raw now| |f|ts| |]; cbn [hstep].
  - by destruct (He t g).
  - unfold hud_marker_cb. repeat case_match; done || (split_and!; [apply push_state | done..]).
  - done.
  - apply mic_same.
  - unfold audio_out_turn. by destruct (ps_audio_rx_pull _ _).
  - unfold audio_rx_cb. by case_match.
  - done.
  - done.
  - done.
Qed.

Lemma banner_run s evs : banner_inv s -> banner_inv (foldl hstep s evs).
Proof.
  revert s. induction evs as [|e evs IH]; intros s Hs; [done|]. cbn [foldl]. apply IH.
  destruct e; try (eapply same_banner; [apply other_same; congruence | done]). by apply safety_banner.
Qed.

Lemma start_cb g0 cfg t lock ce se g : ps_safety_start g0 (Some cfg) t lock ce se = (g, ESP_OK) ->
  user_cb g = cfg_on_transition cfg.
Proof.
  unfold ps_safety_start. destruct (cfg_can cfg) as [c0|]; [|done]. destruct (started g0); [done|].
  destruct lock; [|done]. cbn. destruct ce; cbn; try done; destruct se; cbn; try done. by intros [= <-].
Qed.

(** The banner cannot lie.  After a successful start of the safety glue with the helmet's
    callback, through any sequence of safety frames, ticks, link changes, display markers
    from the network (of any content), ESP-NOW frames, audio and telemetry: the banner is
    the name of the state the safety core is in, and it is the green ACTIVE exactly when
    the node's own actuation gate is open. *)
Theorem hud_banner_is_the_state g0 cfg cb t lock ce se g ms evs :
  ps_safety_start g0 (Some cfg) t lock ce se = (g, ESP_OK) -> cfg_on_transition cfg = Some cb ->
  let s := foldl hstep (helmet_start g ms) evs in
  let d := hud_turn (hud s) in
  d_banner d = name_for_state (ps_safety_state (h_glue s)) /\
  d_colour d = colour_for_state (ps_safety_state (h_glue s)) /\
  (ps_safety_can_actuate (h_glue s) = true <-> d_banner d = lit "ACTIVE" /\ d_colour d = GREEN).
Proof.
  intros Hstart Hcb. destruct (start_ok _ _ _ _ _ _ _ Hstart) as [Hst Hc]. cbv zeta.
  assert (banner_inv (helmet_start g ms)) as Hi.
  { unfold banner_inv. cbn [hud h_glue helmet_start]. rewrite Hc, (start_cb _ _ _ _ _ _ _ Hstart), Hcb. by split_and!. }
  destruct (banner_run _ evs Hi) as (Hs & Hst' & _). set (s := foldl hstep _ evs) in *. clearbody s.
  unfold hud_turn, ps_safety_state, ps_safety_can_actuate. cbn [d_banner d_colour]. rewrite Hs, Hst'. cbn [andb].
  split_and!; [done..|]. rewrite Z.eqb_eq. split; [by intros -> | intros [_ Hg]].
  unfold colour_for_state in Hg. destruct (Z.eqb_spec (state (core (h_glue s))) PS_STATE_OPERATIONAL); [done|].
  by repeat case_match.
Qed.

End Banner.

Definition helmet_cfg : ps_safety_config_t :=
  {| cfg_can := Some (ps_can_open_ctx PS_NODE_HELMET 0 0); cfg_node_id := PS_NODE_HELMET; cfg_on_transition := Some 9; cfg_arg := 0 |}.
Definition helmet_glue : glue := (ps_safety_start off_glue (Some helmet_cfg) 0 true ESP_OK ESP_OK).1.
Definition arming : list hev :=
  [HSafety 0 GTick; HSafety 3 (GModeSet PS_STATE_OPERATIONAL); HMarker (Some (lit "clear")) S754_nan None;
   HSafety 4 (GRx beat_frame); HSafety 5 GTick].

Lemma hud_banner_is_the_state_witness :
  let s := foldl (hstep (fun _ => 0)) (helmet_start helmet_glue (fun _ => QArith_base.inject_Z 1)) arming in
  ps_safety_can_actuate (h_glue s) = true <-> d_banner (hud_turn (hud s)) = lit "ACTIVE" /\ d_colour (hud_turn (hud s)) = GREEN.
Proof.
  intros s. pose proof (hud_banner_is_the_state (fun _ => 0) off_glue helmet_cfg 9 0 true ESP_OK ESP_OK helmet_glue
    (fun _ => QArith_base.inject_Z 1) arming ltac:(vm_compute; reflexivity) eq_refl) as (_ & _ & E). exact E.
Defined.

(** ** The voice uplink *)

(** Emissions as the packetiser makes them: eight bytes, and no control frame. *)
Definition em_ok (e : emission) : Prop :=
  e_dlc e = 8 /\ length (e_data e) = 8%nat /\ ps_can_id_type (e_id e) <> PS_T_AUDIO_CTL.

Definition tx_shape (tx : ps_audio_tx_t) : Prop :=
  0 <= src_node tx < 32 /\ 0 <= dst_node tx < 32 /\ length (pend tx) = 16%nat /\ (pending_n tx <= 16)%nat.

Lemma shape_type tx type : tx_shape tx -> is_u8 type ->
  ps_can_id_type (ps_can_id_pack PS_CLS_AUDIO (src_node tx) (dst_node tx) type (u8 (frame_seq tx .& 0xFF))) = type.
Proof. intros (? & ? & _) ?. apply type_pack; done || apply u8_range. Qed.

Lemma sync_em tx : tx_shape tx -> em_ok (tx_emit_sync tx).2.
Proof. intros Hs. split_and!; [done | done|]. cbn [snd tx_emit_sync e_id]. by rewrite shape_type. Qed.

Lemma frame_em tx : tx_shape tx -> tx_shape (tx_frame tx).1 /\ Forall em_ok (tx_frame tx).2.
Proof.
  intros Hs. unfold tx_frame.
  set (p := if negb (tx_started tx) || (PS_AUDIO_SYNC_INTERVAL <=? frames_since_sync tx)
            then let '(tx, e) := tx_emit_sync tx in (tx, [e]) else (tx, [])).
  assert (tx_shape p.1 /\ Forall em_ok p.2) as [H1 H2].
  { subst p. destruct (negb _ || _); [|done]. split; [exact Hs|]. apply Forall_singleton, (sync_em tx Hs). }
  destruct p as [tx1 sync]. cbn [fst snd] in *. cbv zeta.
  pose proof (decode_stream 8 (take PS_AUDIO_FRAME_SAMPLES (pend tx1)) (enc tx1)) as Hd.
  destruct (ps_adpcm_encode (enc tx1) _) as [st adpcm]. destruct Hd as (Hl & _).
  { rewrite length_take. destruct H1 as (_ & _ & -> & _). done. }
  split; [destruct H1 as (? & ? & ? & _); repeat (split; [done|]); cbn; lia|]. apply Forall_app. split; [done|].
  apply Forall_singleton. split_and!; [done | done|]. cbn [e_id].
  rewrite shape_type; [by destruct (_ =? PS_AUDIO_DIR_UP) | done | by destruct (_ =? PS_AUDIO_DIR_UP)].
Qed.

Lemma push_em fuel : forall tx pcm, tx_shape tx -> tx_shape (tx_push_loop fuel tx pcm).1 /\ Forall em_ok (tx_push_loop fuel tx pcm).2.
Proof.
  induction fuel as [|fuel IH]; intros tx pcm Hs; cbn [tx_push_loop]; [done|].
  destruct (length pcm =? 0)%nat; [done|]. cbv zeta. set (k := if (_ <? _)%nat then _ else _).
  set (tx1 := {| tx with pend := _; pending_n := _ |}).
  assert (k <= length pcm /\ pending_n tx + k <= 16)%nat as [Hk Hk16].
  { subst k. unfold PS_AUDIO_FRAME_SAMPLES. destruct Hs as (_ & _ & _ & ?).
    destruct (Nat.ltb_spec (length pcm) (16 - pending_n tx)); lia. }
  assert (tx_shape tx1) as H1.
  { destruct Hs as (? & ? & Hp & ?). split; [done|]. split; [done|]. split; [|exact Hk16]. cbn [tx1 pend]. rewrite length_bput; [done|].
    rewrite length_take. lia. }
  assert (exists tx2 out, (if (pending_n tx1 =? PS_AUDIO_FRAME_SAMPLES)%nat then tx_frame tx1 else (tx1, [])) = (tx2, out) /\
    tx_shape tx2 /\ Forall em_ok out) as (tx2 & out & -> & H2 & Ho).
  { destruct (_ =? _)%nat; [|by eexists _, _]. pose proof (frame_em tx1 H1) as [??]. destruct (tx_frame tx1). by eexists _, _. }
  specialize (IH tx2 (drop k pcm) H2). destruct (tx_push_loop fuel tx2 (drop k pcm)) as [tx3 out'].
  destruct IH as [H3 H4]. split; [done|]. by apply Forall_app.
Qed.

(** A frame of the bus as the receiver's decoder takes it. *)
Definition to_em (f : ps_can_frame_t) : emission := {| e_id := f_id f; e_data := f_data f; e_dlc := f_dlc f |}.

Lemma em_frame e : em_ok e -> to_em (emit_frame e) = e.
Proof.
  intros (Hd & Hl & _). destruct e as [id data dlc]. cbn in *. unfold to_em, emit_frame. cbn [f_id f_data f_dlc e_id e_data e_dlc].
  rewrite Hd. change (Z.to_nat 8) with 8%nat. rewrite take_ge by lia. cbn. by rewrite app_nil_r.
Qed.

Lemma em_frames es : Forall em_ok es -> to_em <$> (emit_frame <$> es) = es.
Proof. induction 1 as [|e es He _ IH]; [done|]. cbn [fmap list_fmap]. rewrite em_frame by done. by f_equal. Qed.

Lemma ctl_ignored rx cmd : ps_audio_rx_on_frame rx (to_em (ctl_frame cmd)) = rx.
Proof. reflexivity. Qed.

Lemma ok_shape tx : tx_ok tx -> tx_shape tx.
Proof. intros (_ & _ & _ & ? & ? & ? & ?). split; [done|]. split; [done|]. split; [done|lia]. Qed.

Lemma sync_exact tx rx : tx_ok tx -> ring_ok rx ->
  exact_from tx rx [] (tx_emit_sync tx).1 (ps_audio_rx_on_frame rx (tx_emit_sync tx).2).
Proof.
  intros Hok Hr. pose proof (sync_spec tx rx Hok) as Hs. destruct (tx_emit_sync tx) as [tx1 e]. cbn [fst snd].
  destruct Hs as (S1 & S2 & S3 & S4 & S5 & _ & _ & S8 & S9 & S10 & S11 & S12).
  set (rx1 := ps_audio_rx_on_frame rx e) in *. clearbody rx1.
  assert (ring_ok rx1) as Hr1 by (unfold ring_ok; by rewrite S9, S10, S11).
  destruct (exact_refl tx1 rx1 S1 Hr1 (fun _ => S2)) as (_ & _ & _ & R4 & R5 & R6 & _).
  assert (partial tx1 = partial tx) as Hp by (unfold partial; by rewrite S4, S5).
  assert (buffered rx1 = buffered rx) as Hb by (unfold buffered, ps_audio_rx_available; by rewrite S9, S10, S11).
  unfold exact_from. cbv zeta in *. rewrite Hp in *. rewrite S3, Hb in *. split_and!; done || by auto.
Qed.

Lemma push_exact tx rx pcm : tx_ok tx -> ring_ok rx -> (tx_started tx = true -> synced tx rx) ->
  exact_from tx rx pcm (ps_audio_tx_push tx pcm).1 (rx_all rx (ps_audio_tx_push tx pcm).2).
Proof.
  intros Hok Hr Hs. pose proof (push_loop_exact (length pcm) tx rx pcm ltac:(lia) Hok Hr Hs) as Hp.
  unfold ps_audio_tx_push. by destruct (tx_push_loop (length pcm) tx pcm).
Qed.

(** The frames of an uplink are bracketed if every utterance starts with a control frame
    that opens it and ends with one that closes it, and nothing is sent outside: [on]
    tells whether the first frame is inside an utterance; the result, whether the next
    one would be. *)
Fixpoint bracketed (on : bool) (fs : list ps_can_frame_t) : option bool :=
  match fs with
  | [] => Some on
  | f :: fs =>
    if ps_can_id_type (f_id f) =? PS_T_AUDIO_CTL then
      let ctl : ps_audio_ctl_t := wire_read (f_data f) in
      if ac_cmd ctl =? (if on then 0 else 1) then bracketed (negb on) fs else None
    else if on then bracketed on fs else None
  end.

Lemma bracketed_app on fs1 fs2 : bracketed on (fs1 ++ fs2) = match bracketed on fs1 with Some on => bracketed on fs2 | None => None end.
Proof. revert on. induction fs1 as [|f fs1 IH]; intros on; [done|]. cbn [app bracketed]. cbv zeta.
  destruct (_ =? PS_T_AUDIO_CTL); [destruct (_ =? _)|destruct on]; done || apply IH. Qed.

Lemma bracketed_data es : Forall em_ok es -> bracketed true (emit_frame <$> es) = Some true.
Proof.
  induction 1 as [|e es (_ & _ & Ht) _ IH]; [done|]. cbn [fmap list_fmap bracketed emit_frame f_id].
  by rewrite (proj2 (Z.eqb_neq _ _) Ht).
Qed.

Lemma gate_result g pcm t : (ps_egate_process g pcm t).2 = open (ps_egate_process g pcm t).1.
Proof. unfold ps_egate_process. by destruct (length pcm =? 0)%nat. Qed.

Section Voice.
Context `{RtosQueue} `{TwaiDlc}.

(** The uplink in order: the streaming flag follows the gate, and [rx] is a receiver that
    has been given every frame. *)
Definition voice_inv (s : helmet) (rx : ps_audio_rx_t) : Prop :=
  tx_ok (s_tx s) /\ ring_ok rx /\ (tx_started (s_tx s) = true -> synced (s_tx s) rx) /\ streaming s = open (s_gate s).

Definition heard_block (s s' : helmet) (raw : list Z) : list Z := if streaming s || open (s_gate s') then decimate raw else [].

Lemma mic_step s rx raw t : voice_inv s rx ->
  let '(s', fs) := audio_in_frames s raw t in
  streaming s' = open (s_gate s') /\ bracketed (streaming s) fs = Some (streaming s') /\
  exact_from (s_tx s) rx (heard_block s s' raw) (s_tx s') (rx_all rx (to_em <$> fs)).
Proof.
  intros (Hok & Hr & Hs & Hst). unfold audio_in_frames, heard_block. cbv zeta. pose proof (gate_result (s_gate s) (decimate raw) t) as Hg.
  destruct (ps_egate_process (s_gate s) (decimate raw) t) as [g op]. cbn [fst snd] in Hg. subst op.
  pose proof (sync_exact (s_tx s) rx Hok Hr) as Hx. pose proof (sync_em (s_tx s) (ok_shape _ Hok)) as Hw.
  unfold ps_audio_tx_sync. cbn [s_tx streaming]. destruct (tx_emit_sync (s_tx s)) as [tx1 sync]. cbn [fst snd] in Hx, Hw.
  assert (forall tx rx, tx_ok tx -> ring_ok rx -> (tx_started tx = true -> synced tx rx) ->
    let p := ps_audio_tx_push tx (decimate raw) in
    exact_from tx rx (decimate raw) p.1 (rx_all rx (to_em <$> (emit_frame <$> p.2))) /\
    bracketed true (emit_frame <$> p.2) = Some true) as Hpush.
  { intros tx rx' Ho Hr' Hs'. cbv zeta. pose proof (push_em (length (decimate raw)) tx (decimate raw) (ok_shape _ Ho)) as [_ He].
    change (tx_push_loop (length (decimate raw)) tx (decimate raw)) with (ps_audio_tx_push tx (decimate raw)) in He.
    rewrite em_frames by done. split; [by apply push_exact | by apply bracketed_data]. }
  destruct (open g) eqn:Eo, (streaming s) eqn:Es; cbn [andb orb negb streaming s_tx s_gate]; rewrite ?Es;
    cbn [andb negb orb streaming s_tx s_gate].
  - destruct (Hpush (s_tx s) rx Hok Hr Hs) as [P1 P2]. destruct (ps_audio_tx_push (s_tx s) (decimate raw)) as [tx es]. cbn in P1, P2 |- *.
    rewrite app_nil_r. split_and!; [done|done|exact P1].
  - pose proof Hx as (X1 & X2 & X3 & _). destruct (Hpush tx1 _ X1 X2 X3) as [P1 P2].
    destruct (ps_audio_tx_push tx1 (decimate raw)) as [tx es]. cbn [fst snd] in P1, P2. cbn [streaming s_tx s_gate].
    split; [done|]. rewrite app_nil_r. cbn [app]. split.
    + destruct Hw as (_ & _ & Hty). cbn [bracketed]. change (ps_can_id_type (f_id (ctl_frame 1)) =? PS_T_AUDIO_CTL) with true.
      cbn iota. change (ac_cmd (wire_read (f_data (ctl_frame 1))) =? 1) with true. cbn [negb emit_frame f_id].
      by rewrite (proj2 (Z.eqb_neq _ _) Hty).
    + cbn [app fmap list_fmap rx_all fold_left]. rewrite ctl_ignored, em_frame, Eo by done.
      apply (exact_trans (s_tx s) rx [] tx1 (ps_audio_rx_on_frame rx sync)); done.
  - destruct (Hpush (s_tx s) rx Hok Hr Hs) as [P1 P2]. destruct (ps_audio_tx_push (s_tx s) (decimate raw)) as [tx es]. cbn [fst snd] in P1, P2.
    cbn [streaming s_tx s_gate app]. split; [done|]. rewrite bracketed_app, P2. split; [done|].
    rewrite fmap_app, rx_all_app. cbn [fmap list_fmap rx_all fold_left]. by rewrite ctl_ignored.
  - rewrite Eo. split; [done|]. split; [done|]. by apply exact_refl.
Qed.

(** Blocks of samples with the times they were read at; the frames sent and the samples
    of the blocks during which the gate was open, or which shut it. *)
Fixpoint mic_run (s : helmet) (blocks : list (list Z * Z)) : helmet * list ps_can_frame_t * list Z :=
  match blocks with
  | [] => (s, [], [])
  | (raw, t) :: blocks =>
    let '(s1, fs) := audio_in_frames s raw t in
    let '(s2, fs', pcm) := mic_run s1 blocks in (s2, fs ++ fs', heard_block s s1 raw ++ pcm)
  end.

Lemma mic_run_exact blocks : forall s rx, voice_inv s rx ->
  let '(s', fs, pcm) := mic_run s blocks in
  streaming s' = open (s_gate s') /\ bracketed (streaming s) fs = Some (streaming s') /\
  exact_from (s_tx s) rx pcm (s_tx s') (rx_all rx (to_em <$> fs)).
Proof.
  induction blocks as [|[raw t] blocks IH]; intros s rx Hv; cbn [mic_run].
  { destruct Hv as (? & ? & ? & ?). split; [done|]. split; [done|]. by apply exact_refl. }
  pose proof (mic_step s rx raw t Hv) as Hm. destruct (audio_in_frames s raw t) as [s1 fs]. destruct Hm as (M1 & M2 & M3).
  pose proof M3 as (X1 & X2 & X3 & _). specialize (IH s1 (rx_all rx (to_em <$> fs))).
  destruct (mic_run s1 blocks) as [[s2 fs'] pcm]. destruct IH as (I1 & I2 & I3); [by split_and!|].
  split; [done|]. rewrite bracketed_app, M2. split; [done|]. rewrite fmap_app, rx_all_app.
  eapply exact_trans; [apply Hv | exact M3 | exact I3].
Qed.

(** The voice uplink carries what the gate lets through, exactly.  Whatever blocks the
    microphone delivers, at whatever times: the frames on the bus are well bracketed
    utterances, an opening control frame, data, a closing one, with nothing outside; the
    uplink is open exactly when the gate is; and a receiver that is given the frames in
    order, wherever the utterances begin and end, hears the encoder's reconstruction of
    precisely the samples of the blocks the gate was open for or shut by, with no gap. *)
Theorem voice_uplink_exact g ms blocks :
  let '(s, fs, pcm) := mic_run (helmet_start g ms) blocks in
  let rx := rx_all (ps_audio_rx_init (replicate 4096 0)) (to_em <$> fs) in
  bracketed false fs = Some (streaming s) /\ streaming s = open (s_gate s) /\
  buffered rx = bapp [] (reconstruction ps_adpcm_init (take (whole (length pcm)) pcm)) /\ gaps rx = 0.
Proof.
  pose proof (mic_run_exact blocks (helmet_start g ms) (ps_audio_rx_init (replicate 4096 0))) as Hm.
  destruct (mic_run (helmet_start g ms) blocks) as [[s fs] pcm]. destruct Hm as (M1 & M2 & _ & _ & _ & _ & _ & M6 & M7 & _).
  - split; [|split; [|done]]; [|split_and!; cbn; lia].
    split_and!; cbn; try done; try clia; try lia; try apply adpcm_ok_init.
  - by split_and!.
Qed.

End Voice.
