(* ===== verification/Uros.v ===== *)
(** The micro-ROS plane (src/firmware/components/ps_uros): the byte-stream transport over CAN
    (ps_uros_transport_can.c) and the session task (ps_uros_task.c), as built with the
    client library.  FreeRTOS stream buffers and the client library are not part of the
    repository: the former are the class [RtosStream], the answers of the latter are
    arguments. *)
From S2P Require Import Prelude CanId Wire Rtos Txq Can.

(** A stream buffer: a send takes as many bytes as there is room for, a receive hands out
    the oldest ones.  [stored] is the content, oldest first. *)
Class RtosStream := {
  stream : Type;
  xStreamBufferCreate : nat -> stream;
  xStreamBufferSend : stream -> list Z -> stream * nat;
  xStreamBufferReceive : stream -> nat -> stream * list Z;
  xStreamBufferReset : stream -> stream;
  stored : stream -> list Z;
  room : stream -> nat;
  stored_create : forall n, stored (xStreamBufferCreate n) = [] /\ room (xStreamBufferCreate n) = n;
  stored_send : forall b l, let k := Nat.min (length l) (room b) in
    (xStreamBufferSend b l).2 = k /\ stored (xStreamBufferSend b l).1 = stored b ++ take k l /\
    room (xStreamBufferSend b l).1 = (room b - k)%nat;
  stored_receive : forall b n, (xStreamBufferReceive b n).2 = take n (stored b) /\
    stored (xStreamBufferReceive b n).1 = drop n (stored b) /\
    room (xStreamBufferReceive b n).1 = (room b + Nat.min n (length (stored b)))%nat;
  stored_reset : forall b, stored (xStreamBufferReset b) = [] /\ room (xStreamBufferReset b) = (room b + length (stored b))%nat;
}.

(** The interface implemented by a list and the room left. *)
#[export] Program Instance list_stream : RtosStream := {|
  stream := (list Z * nat)%type;
  xStreamBufferCreate n := ([], n);
  xStreamBufferSend b l := let k := Nat.min (length l) b.2 in ((b.1 ++ take k l, (b.2 - k)%nat), k);
  xStreamBufferReceive b n := ((drop n b.1, (b.2 + Nat.min n (length b.1))%nat), take n b.1);
  xStreamBufferReset b := ([], (b.2 + length b.1)%nat);
  stored b := b.1; room b := b.2 |}.
Solve Obligations with done.

Section Uros.
Context `{RtosQueue} `{TwaiDlc} `{RtosStream}.

(** ** ps_uros_transport_can.c *)

Record transport := { t_can : option ps_can_ctx; t_node_id : Z; t_rx : stream; t_rx_overruns : Z }.

Definition xrce_rx (t : transport) (frame : ps_can_frame_t) : transport :=
  if f_dlc frame =? 0 then t else
  let '(b, sent) := xStreamBufferSend (t_rx t) (take (Z.to_nat (f_dlc frame)) (f_data frame)) in
  {| t with t_rx := b; t_rx_overruns := if Z.of_nat sent =? f_dlc frame then t_rx_overruns t else u32 (t_rx_overruns t + 1) |}.

Definition xrce_rx_cb : Z := 21.

(** [alloc]: whether the stream buffer could be created.  Where it could not, nothing is
    registered and the old buffer is not used again. *)
Definition ps_uros_transport_init (t : transport) (can : option ps_can_ctx) (node_id : Z) (ring_bytes : nat) (alloc : bool) :
    transport * esp_err_t :=
  let t := {| t with t_can := can; t_node_id := node_id |} in
  if negb alloc then (t, ESP_ERR_NO_MEM) else
  let '(c, err) := ps_can_register_class_cb can PS_CLS_XRCE (Some xrce_rx_cb) in
  ({| t with t_can := c; t_rx := xStreamBufferCreate ring_bytes |}, err).

Definition ps_uros_open (t : transport) : transport * bool := ({| t with t_rx := xStreamBufferReset (t_rx t) |}, true).
Definition ps_uros_close (t : transport) : transport * bool := (t, true).

(** The frame for the bytes of [buf] from [written] on. *)
Definition xrce_frame (node_id : Z) (buf : list Z) (written : nat) : ps_can_frame_t :=
  let chunk := if (8 <? length buf - written)%nat then 8%nat else (length buf - written)%nat in
  {| f_id := ps_can_id_pack PS_CLS_XRCE node_id PS_NODE_ORCH PS_T_XRCE_STREAM 0; f_dlc := Z.of_nat chunk;
     f_data := take chunk (drop written buf) ++ replicate (8 - chunk) 0 |}.

(** The loop of [ps_uros_write]; also the frames that were accepted for sending. *)
Fixpoint write_loop (fuel : nat) (t : transport) (buf : list Z) (written : nat) : transport * nat * list ps_can_frame_t :=
  match fuel with
  | O => (t, written, [])
  | S fuel =>
    if (length buf <=? written)%nat then (t, written, []) else
    let f := xrce_frame (t_node_id t) buf written in
    let '(c, err) := ps_can_send (t_can t) (Some f) in
    let t := {| t with t_can := c |} in
    if negb (is_ok err) then (t, written, [])
    else let '(t, w, fs) := write_loop fuel t buf (written + Z.to_nat (f_dlc f)) in (t, w, f :: fs)
  end.

(** Every turn writes at least one byte.  The bytes written, [*err] and the frames. *)
Definition ps_uros_write (t : transport) (buf : list Z) : transport * (nat * Z) * list ps_can_frame_t :=
  let '(t, written, fs) := write_loop (length buf) t buf 0 in
  (t, (written, if (written =? length buf)%nat then 0 else 1), fs).

(** A receive that waits is one made when the wait ends. *)
Definition ps_uros_read (t : transport) (len : nat) : transport * (list Z * Z) :=
  let '(b, got) := xStreamBufferReceive (t_rx t) len in
  ({| t with t_rx := b |}, (got, if (0 <? length got)%nat then 0 else 1)).

(** *** What one side writes the other reads *)

Definition payload (f : ps_can_frame_t) : list Z := take (Z.to_nat (f_dlc f)) (f_data f).

Definition xrce_shape (f : ps_can_frame_t) : Prop := 1 <= f_dlc f <= 8 /\ length (f_data f) = 8%nat.
Definition xrce_ok (node_id : Z) (f : ps_can_frame_t) : Prop :=
  f_id f = ps_can_id_pack PS_CLS_XRCE node_id PS_NODE_ORCH PS_T_XRCE_STREAM 0 /\ xrce_shape f.

Lemma xrce_frame_spec node buf w : (w < length buf)%nat -> let f := xrce_frame node buf w in
  let k := Z.to_nat (f_dlc f) in
  xrce_ok node f /\ (1 <= k <= 8)%nat /\ (w + k <= length buf)%nat /\ payload f = take k (drop w buf).
Proof.
  intros Hw. cbv zeta. unfold xrce_frame, payload, xrce_ok, xrce_shape. cbn [f_id f_dlc f_data].
  set (k := if (8 <? length buf - w)%nat then 8%nat else (length buf - w)%nat).
  assert (1 <= k <= 8 /\ w + k <= length buf)%nat as [Hk Hkw]
    by (subst k; destruct (Nat.ltb_spec 8 (length buf - w)); lia).
  rewrite Nat2Z.id. assert (length (take k (drop w buf)) = k) as Hl by (rewrite length_take, length_drop; lia).
  split_and!; [done | lia | lia | rewrite length_app, length_replicate, Hl; lia | lia..|].
  by rewrite take_app_length'.
Qed.

Lemma write_loop_spec fuel : forall t buf w, (length buf - w <= fuel)%nat -> (w <= length buf)%nat ->
  let '(t', w', fs) := write_loop fuel t buf w in
  (w <= w' <= length buf)%nat /\ Forall (xrce_ok (t_node_id t)) fs /\
  mjoin (payload <$> fs) = take (w' - w) (drop w buf) /\ t_node_id t' = t_node_id t /\ t_rx t' = t_rx t.
Proof.
  induction fuel as [|fuel IH]; intros t buf w Hf Hw; cbn [write_loop].
  { replace (w - w)%nat with 0%nat by lia. split_and!; done || lia. }
  destruct (Nat.leb_spec (length buf) w).
  { replace (w - w)%nat with 0%nat by lia. split_and!; done || lia. }
  destruct (xrce_frame_spec (t_node_id t) buf w) as (Hok & Hk & Hkw & Hp); [lia|]. cbv zeta.
  set (f := xrce_frame (t_node_id t) buf w) in *. clearbody f. set (k := Z.to_nat (f_dlc f)) in *.
  destruct (ps_can_send (t_can t) (Some f)) as [c err]. destruct (is_ok err); cbn [negb].
  2: { replace (w - w)%nat with 0%nat by lia. split_and!; done || lia. }
  specialize (IH {| t with t_can := c |} buf (w + k)%nat ltac:(lia) ltac:(lia)).
  destruct (write_loop fuel _ buf (w + k)) as [[t' w'] fs]. destruct IH as (I1 & I2 & I3 & I4 & I5).
  split_and!; [lia | lia | by constructor | | done | done].
  change (mjoin (payload <$> f :: fs)) with (payload f ++ mjoin (payload <$> fs)).
  rewrite I3, Hp, <- drop_drop. replace (w' - w)%nat with (k + (w' - (w + k)))%nat by lia.
  rewrite <- (take_drop k (drop w buf)) at 3. rewrite take_app_add' by (rewrite length_take, length_drop; lia). done.
Qed.

(** Frames delivered to a side with room for them. *)
Lemma xrce_rx_all fs : forall r, Forall xrce_shape fs ->
  (length (mjoin (payload <$> fs)) <= room (t_rx r))%nat ->
  let r' := foldl xrce_rx r fs in
  stored (t_rx r') = stored (t_rx r) ++ mjoin (payload <$> fs) /\ t_rx_overruns r' = t_rx_overruns r /\
  room (t_rx r') = (room (t_rx r) - length (mjoin (payload <$> fs)))%nat.
Proof.
  induction fs as [|f fs IH]; intros r Hok Hroom; cbv zeta; cbn [foldl].
  { cbn. rewrite app_nil_r. split_and!; done || lia. }
  inversion_clear Hok as [|? ? (Hd & Hl) Hfs].
  change (mjoin (payload <$> f :: fs)) with (payload f ++ mjoin (payload <$> fs)) in *.
  rewrite length_app in Hroom. assert (length (payload f) = Z.to_nat (f_dlc f)) as Hp by (unfold payload; rewrite length_take; lia).
  assert (stored (t_rx (xrce_rx r f)) = stored (t_rx r) ++ payload f /\ t_rx_overruns (xrce_rx r f) = t_rx_overruns r /\
    room (t_rx (xrce_rx r f)) = (room (t_rx r) - length (payload f))%nat) as (E1 & E2 & E3).
  { unfold xrce_rx. rewrite (proj2 (Z.eqb_neq _ _)) by lia. fold (payload f).
    pose proof (stored_send (t_rx r) (payload f)) as (S1 & S2 & S3).
    destruct (xStreamBufferSend (t_rx r) (payload f)) as [b sent]. cbn [fst snd t_rx t_rx_overruns] in *.
    rewrite Nat.min_l in * by lia. rewrite take_ge in S2 by lia. subst sent. rewrite Hp, Z2Nat.id by lia.
    rewrite Z.eqb_refl. rewrite <- Hp. by split_and!. }
  specialize (IH (xrce_rx r f) Hfs ltac:(lia)) as (I1 & I2 & I3). cbv zeta in *.
  rewrite I1, I2, I3, E1, E2, E3, length_app, app_assoc. split_and!; done || lia.
Qed.

(** The transport is a byte stream.  A write hands the bus a prefix of the buffer, cut
    into frames of one to eight bytes with the XRCE identifier of the node, reports its
    length, and reports an error exactly if it is not the whole buffer; the frames,
    delivered in order to a side whose buffer has room, append exactly those bytes to
    what it holds, with no overrun; and a read hands out the oldest bytes, reporting an
    error exactly if there is none. *)
Theorem uros_stream_exact t r buf n : 
  let '(t', (written, err), fs) := ps_uros_write t buf in
  (written <= length buf)%nat /\ (err = 0 <-> written = length buf) /\ Forall (xrce_ok (t_node_id t)) fs /\
  ((written <= room (t_rx r))%nat ->
   let r' := foldl xrce_rx r fs in
   stored (t_rx r') = stored (t_rx r) ++ take written buf /\ t_rx_overruns r' = t_rx_overruns r /\
   let '(r'', (got, err')) := ps_uros_read r' n in
   got = take n (stored (t_rx r) ++ take written buf) /\ (err' = 0 <-> got <> []) /\
   stored (t_rx r'') = drop n (stored (t_rx r) ++ take written buf)).
Proof.
  unfold ps_uros_write. pose proof (write_loop_spec (length buf) t buf 0 ltac:(lia) ltac:(lia)) as Hw.
  destruct (write_loop (length buf) t buf 0) as [[t' w] fs]. destruct Hw as (W1 & W2 & W3 & _). rewrite drop_0, Nat.sub_0_r in W3.
  split; [lia|]. split; [destruct (Nat.eqb_spec w (length buf)); done|]. split; [done|]. intros Hroom. cbv zeta.
  assert (length (mjoin (payload <$> fs)) <= room (t_rx r))%nat as Hl by (rewrite W3, length_take; lia).
  assert (Forall xrce_shape fs) as Hsh by (eapply Forall_impl; [|exact W2]; by intros f []).
  destruct (xrce_rx_all fs r Hsh Hl) as (X1 & X2 & _). cbv zeta in X1, X2. rewrite W3 in X1.
  split; [done|]. split; [done|]. unfold ps_uros_read. pose proof (stored_receive (t_rx (foldl xrce_rx r fs)) n) as (R1 & R2 & _).
  destruct (xStreamBufferReceive _ n) as [b got]. cbn [fst snd t_rx] in *. rewrite X1 in R1, R2.
  split; [done|]. split; [|done]. destruct got; cbn; done.
Qed.

End Uros.

Lemma uros_stream_exact_witness :
  let off := {| t_can := None; t_node_id := 3; t_rx := xStreamBufferCreate 64; t_rx_overruns := 0 |} in
  let t := (ps_uros_transport_init off (Some (ps_can_open_ctx 3 0 0)) 3 64 true).1 in
  let buf := [126; 1; 2; 3; 4; 5; 6; 7; 8; 9; 126] in
  let '(t', (written, err), fs) := ps_uros_write t buf in
  written = 11%nat /\ length fs = 2%nat /\ stored (t_rx (foldl xrce_rx t fs)) = buf.
Proof.
  intros off t buf. pose proof (uros_stream_exact t t buf 11) as Hx.
  assert ((ps_uros_write t buf).1.2.1 = 11%nat /\ length (ps_uros_write t buf).2 = 2%nat) as [E1 E2] by (vm_compute; split; reflexivity).
  destruct (ps_uros_write t buf) as [[t' [w err]] fs]. cbn [fst snd] in E1, E2. subst w.
  destruct Hx as (_ & _ & _ & Hx). assert (11 <= room (t_rx t))%nat as Hroom by (vm_compute; lia).
  destruct (Hx Hroom) as (Hs & _). split; [reflexivity|]. split; [exact E2|exact Hs].
Defined.

(** ** ps_uros_task.c *)

Definition CONFIG_PS_UROS_PING_PERIOD_MS : Z := 2000.

Inductive link_state_t := LINK_WAITING_AGENT | LINK_CONNECTED.

(** The calls of the session task that the application, or the client library's objects,
    see. *)
Inductive ucall :=
  | CreateEntities | DestroyEntities | OnAgentState (up : bool)
  | FiniExecutor | FiniNode | FiniSupport.

(** Of the configuration, what the task computes with: whether the optional callbacks are
    there, and the spin period. *)
Record ps_uros_config_t := { has_destroy : bool; has_agent_state : bool; spin_period_ms : Z }.

Record session := { u_link : link_state_t; u_since_ping_ms : Z; u_connected : bool }.

Definition set_connected (cfg : ps_uros_config_t) (s : session) (up : bool) : session * list ucall :=
  if bool_decide (u_connected s = up) then (s, [])
  else ({| s with u_connected := up |}, if has_agent_state cfg then [OnAgentState up] else []).

Definition spin_ms (cfg : ps_uros_config_t) : Z := if spin_period_ms cfg =? 0 then 10 else spin_period_ms cfg.

(** One turn of [session_task].  [ping]: whether the agent answers the ping of this turn,
    where one is made; [init]: whether the support, the node and the executor could be
    initialised, in this order. *)
Definition session_turn (cfg : ps_uros_config_t) (s : session) (ping init : bool) : session * list ucall :=
  match u_link s with
  | LINK_WAITING_AGENT =>
    if ping then
      if init then
        let '(s, cs) := set_connected cfg s true in
        ({| s with u_since_ping_ms := 0; u_link := LINK_CONNECTED |}, CreateEntities :: cs)
      else (s, [FiniSupport])
    else (s, [])
  | LINK_CONNECTED =>
    let s := {| s with u_since_ping_ms := u32 (u_since_ping_ms s + spin_ms cfg) |} in
    if CONFIG_PS_UROS_PING_PERIOD_MS <=? u_since_ping_ms s then
      let s := {| s with u_since_ping_ms := 0 |} in
      if ping then (s, []) else
      let '(s, cs) := set_connected cfg s false in
      ({| s with u_link := LINK_WAITING_AGENT |},
       cs ++ (if has_destroy cfg then [DestroyEntities] else []) ++ [FiniExecutor; FiniNode; FiniSupport])
    else (s, [])
  end.

Definition session_start : session := {| u_link := LINK_WAITING_AGENT; u_since_ping_ms := 0; u_connected := false |}.

Definition ps_uros_connected (s : session) : bool := u_connected s.

(** [ps_uros_start]: [args] tells whether the four required fields are there; the rest are
    the answers of the platform in order. *)
Definition ps_uros_start (args : bool) (init : esp_err_t) (transport task : bool) : option session * esp_err_t :=
  if negb args then (None, ESP_ERR_INVALID_ARG) else
  if negb (is_ok init) then (None, init) else
  if negb transport then (None, ESP_FAIL) else
  if negb task then (None, ESP_ERR_NO_MEM) else (Some session_start, ESP_OK).

(** *** The session as the application sees it *)

Fixpoint session_run (cfg : ps_uros_config_t) (s : session) (turns : list (bool * bool)) : session * list ucall :=
  match turns with
  | [] => (s, [])
  | (ping, init) :: turns =>
    let '(s, l) := session_turn cfg s ping init in let '(s, l') := session_run cfg s turns in (s, l ++ l')
  end.

Definition linked (s : session) : bool := match u_link s with LINK_CONNECTED => true | LINK_WAITING_AGENT => false end.

(** The calls an application gets when sessions come and go: entities are created once per
    session and announced; a lost session is announced, its entities are destroyed, and
    the objects of the client are finalised in the reverse order of their creation.  A
    failed attempt to connect shows as [FiniSupport] alone. *)
Definition up_calls (cfg : ps_uros_config_t) : list ucall :=
  CreateEntities :: if has_agent_state cfg then [OnAgentState true] else [].
Definition down_calls (cfg : ps_uros_config_t) : list ucall :=
  (if has_agent_state cfg then [OnAgentState false] else []) ++ (if has_destroy cfg then [DestroyEntities] else []) ++
  [FiniExecutor; FiniNode; FiniSupport].

Inductive lifecycle (cfg : ps_uros_config_t) : bool -> list ucall -> bool -> Prop :=
  | lc_nil b : lifecycle cfg b [] b
  | lc_fail l b : lifecycle cfg false l b -> lifecycle cfg false (FiniSupport :: l) b
  | lc_up l b : lifecycle cfg true l b -> lifecycle cfg false (up_calls cfg ++ l) b
  | lc_down l b : lifecycle cfg false l b -> lifecycle cfg true (down_calls cfg ++ l) b.

Definition session_inv (s : session) : Prop := u_connected s = linked s /\ 0 <= u_since_ping_ms s < 2000.

Lemma turn_inv cfg s ping init : session_inv s -> session_inv (session_turn cfg s ping init).1.
Proof.
  intros [Hc Hp]. unfold session_turn, session_inv, linked, set_connected, CONFIG_PS_UROS_PING_PERIOD_MS in *.
  destruct s as [[] p c]; cbn in *; subst c; cbn.
  - destruct ping, init; cbn; split; done || lia.
  - destruct (Z.leb_spec 2000 (u32 (p + spin_ms cfg))); [destruct ping|]; cbn; split; try done; try lia; clia.
Qed.

Lemma turn_calls cfg s ping init l b : session_inv s -> lifecycle cfg (linked (session_turn cfg s ping init).1) l b ->
  lifecycle cfg (linked s) ((session_turn cfg s ping init).2 ++ l) b.
Proof.
  intros [Hc Hp]. unfold session_turn, session_inv, linked, set_connected in *.
  destruct s as [[] p c]; cbn in *; subst c; cbn.
  - destruct ping; [destruct init|]; cbn; intros Hl; [by apply (lc_up cfg l) | by apply lc_fail | done].
  - destruct (_ <=? _); [|by cbn]. destruct ping; cbn; [done|]. intros Hl. by apply (lc_down cfg l).
Qed.

Lemma session_run_spec cfg turns : forall s, session_inv s ->
  let '(s', l) := session_run cfg s turns in session_inv s' /\ lifecycle cfg (linked s) l (linked s').
Proof.
  induction turns as [|[ping init] turns IH]; intros s Hi; cbn [session_run]; [split; [done|constructor]|].
  pose proof (turn_inv cfg s ping init Hi) as H1.
  assert (forall l b, lifecycle cfg (linked (session_turn cfg s ping init).1) l b ->
    lifecycle cfg (linked s) ((session_turn cfg s ping init).2 ++ l) b) as H2 by (intros; by apply turn_calls).
  destruct (session_turn cfg s ping init) as [s1 l]. cbn [fst snd] in *. specialize (IH s1 H1).
  destruct (session_run cfg s1 turns) as [s2 l']. destruct IH as [I1 I2]. split; [done|]. by apply H2.
Qed.

(** A connected session with silent pings: after [n] turns it is gone, or [n] spins have
    been counted. *)
Lemma silent_turns cfg n : forall s turns, session_inv s -> 0 < spin_ms cfg <= 1000000 -> Forall (fun t => t.1 = false) turns ->
  length turns = n -> u_link s = LINK_CONNECTED -> 2000 <= u_since_ping_ms s + Z.of_nat n * spin_ms cfg ->
  (exists k, (k <= n)%nat /\ u_link (session_run cfg s (take k turns)).1 = LINK_WAITING_AGENT).
Proof.
  induction n as [|n IH]; intros s turns [Hc Hp] Hsp Hs Hl Hk Hn; [lia|].
  destruct turns as [|[ping init] turns]; [done|]. inversion_clear Hs as [|? ? H1 H2]. cbn in H1. subst ping.
  destruct (Z.le_gt_cases 2000 (u_since_ping_ms s + spin_ms cfg)).
  - exists 1%nat. split; [lia|]. cbn [take session_run]. unfold session_turn, CONFIG_PS_UROS_PING_PERIOD_MS. rewrite Hk. cbn.
    rewrite (proj2 (Z.leb_le _ _)) by clia. by destruct (set_connected cfg _ _).
  - destruct (IH {| s with u_since_ping_ms := u_since_ping_ms s + spin_ms cfg |} turns) as (k & Hk1 & Hk2).
    { split; [exact Hc | cbn; lia]. } { done. } { done. } { cbn in Hl. lia. } { done. } { cbn. lia. }
    exists (S k). split; [lia|]. cbn [take session_run]. unfold session_turn at 1, CONFIG_PS_UROS_PING_PERIOD_MS. rewrite Hk. cbn [u_since_ping_ms].
    replace (u32 (u_since_ping_ms s + spin_ms cfg)) with (u_since_ping_ms s + spin_ms cfg) by clia.
    rewrite (proj2 (Z.leb_gt _ _)) by lia. rewrite <- Hk. destruct (session_run cfg _ (take k turns)). exact Hk2.
Qed.

(** The session is all or nothing.  Over any run of the task, the connected flag is up
    exactly while the link is; the application's calls follow the life cycle: entities
    created and announced, then announced lost, destroyed and every object finalised,
    before any next session; and once an agent falls silent for good a connected session
    is torn down within the ping period, counted in spins. *)
Theorem uros_session_lifecycle cfg turns silent : 0 < spin_ms cfg <= 1000000 ->
  let '(s, calls) := session_run cfg session_start turns in
  ps_uros_connected s = linked s /\ lifecycle cfg false calls (linked s) /\
  (linked s = true -> Forall (fun t => t.1 = false) silent -> 2000 <= Z.of_nat (length silent) * spin_ms cfg ->
   exists k, (k <= length silent)%nat /\ u_link (session_run cfg s (take k silent)).1 = LINK_WAITING_AGENT).
Proof.
  intros Hsp. pose proof (session_run_spec cfg turns session_start ltac:(split; cbn; done || lia)) as Hr.
  destruct (session_run cfg session_start turns) as [s calls]. destruct Hr as [Hi Hl].
  split; [apply Hi|]. split; [exact Hl|]. intros Hk Hs Hn.
  apply (silent_turns cfg (length silent)); [done..| |destruct Hi; lia]. unfold linked in Hk. by destruct (u_link s).
Qed.

Lemma uros_session_lifecycle_witness :
  let cfg := {| has_destroy := true; has_agent_state := true; spin_period_ms := 0 |} in
  let s := (session_run cfg session_start [(false, true); (true, false); (true, true)]).1 in
  exists k, (k <= 200)%nat /\ u_link (session_run cfg s (take k (replicate 200 (false, true)))).1 = LINK_WAITING_AGENT.
Proof.
  intros cfg s. pose proof (uros_session_lifecycle cfg [(false, true); (true, false); (true, true)] (replicate 200 (false, true))
    ltac:(vm_compute; split; done)) as (_ & _ & Hx).
  apply Hx; [reflexivity | by apply Forall_replicate | vm_compute; discriminate].
Defined.
