(* ===== verification/Boot.v ===== *)
(** Start-up of the nodes: the [app_main] of each application (src/firmware/apps/*/main/app_main.c)
    and the start functions it calls that have no model elsewhere.

    A start-up is a computation on the node being built that ends with a value or with the
    error on which ESP_ERROR_CHECK aborts the node.  The answers of the platform (memory,
    tasks, timers, drivers) are arguments.  The tasks are listed in the order in which they
    start; those of a start function of the hub that fails are left out, as the node aborts.
    The control task of a limb and the servo and aero tasks of the flight node set up their
    hardware when they first run, with checks of their own that abort the node; each runs on
    the other core, at any point after it was created, which is one more argument.
    The applications' own data (the setpoints [limb_safety_glue_init] clears, the audio
    state) are set up in the models of the applications.  The endless loops at the end of
    each [app_main] only log, and pass the state of the link on to the helmet's display. *)
From stdpp Require Import strings.
From S2P Require Import Prelude Ctl Flight Limb.
From S2P Require Import CanId Wire Rtos Txq Can Safety SafetyEsp SpiFrame SpiBridge Router Gateway Bms Led Uros.

(** ** Computations that may abort the node *)

Definition boot (S A : Type) : Type := S -> S * (A + esp_err_t).
#[export] Instance boot_ret S : MRet (boot S) := fun A a s => (s, inl a).
#[export] Instance boot_bind S : MBind (boot S) := fun A B k m s =>
  match m s with (s, inl a) => k a s | (s, inr err) => (s, inr err) end.

Definition ESP_ERROR_CHECK {S} (err : esp_err_t) : boot S unit := fun s => (s, if is_ok err then inl tt else inr err).
Definition modify {S} (f : S -> S) : boot S unit := fun s => (f s, inl tt).

(** ESP_RETURN_ON_ERROR over a row of calls: the first error. *)
Fixpoint first_err (errs : list esp_err_t) : esp_err_t :=
  match errs with [] => ESP_OK | err :: errs => if is_ok err then first_err errs else err end.

(** A row of calls, each checked. *)
Definition check_all {S} (errs : list esp_err_t) : boot S unit := ESP_ERROR_CHECK (first_err errs).

(** What a new task does first, run at point [k] of the rest of the start-up, the points
    counted from its creation; from [runs_last] on, once [app_main] has reached its loop. *)
Definition runs_at {S} (k when : nat) (m : boot S unit) : boot S unit := if bool_decide (when = k) then m else mret tt.
Definition runs_last {S} (k when : nat) (m : boot S unit) : boot S unit := if bool_decide (k <= when)%nat then m else mret tt.

(** What runs once a start function has succeeded. *)
Inductive task :=
  | SafetyTick | LimbControl | ControlTimer | LimbComms | Servo | Aero | FlightComms
  | Hud | Speaker | Microphone | HelmetComms | Beacon | UrosSession
  | SpiPump | GwPump | GwDownlink | Ring | BmsTask | HubSafety | HubTimeSync
  | BenchBeat | BenchLimb.
#[export] Instance task_eq_dec : EqDecision task.
Proof. solve_decision. Defined.

Section Boot.
Context `{RtosQueue} `{TwaiDlc} `{RtosStream}.

(** ** The edge nodes *)

(** The CAN context is that of the glue, once there is one; the other users hold the same
    handle. *)
Record node := { nd_glue : glue; nd_tasks : list task; nd_xrce : transport; nd_session : option session }.

Definition spawn (t : task) : boot node unit := modify (fun s => {| s with nd_tasks := nd_tasks s ++ [t] |}).

Definition register (c : Z) (cb : Z) : boot node esp_err_t := fun s =>
  let '(ctx, err) := ps_can_register_class_cb (can (nd_glue s)) c (Some cb) in
  let g := nd_glue s in ({| s with nd_glue := {| g with can := ctx |} |}, inl err).

(** The platform's answers: to [ps_can_open], to [ps_safety_start], and to [ps_uros_start]
    where the client is part of the build. *)
Record uros_env := { u_alloc : bool; u_transport : bool; u_task : bool }.
Record edge_env := {
  b_open : open_env; b_now : Z; b_lock : bool; b_create : esp_err_t; b_start : esp_err_t; b_uros : option uros_env }.

Definition start_safety (e : edge_env) (ctx : option ps_can_ctx) (id on_transition : Z) : boot node esp_err_t := fun s =>
  let cfg := {| cfg_can := ctx; cfg_node_id := id; cfg_on_transition := Some on_transition; cfg_arg := 0 |} in
  let '(g, err) := ps_safety_start (nd_glue s) (Some cfg) (b_now e) (b_lock e) (b_create e) (b_start e) in
  ({| s with nd_glue := g; nd_tasks := nd_tasks s ++ (if is_ok err then [SafetyTick] else []) |}, inl err).

Definition CONFIG_PS_UROS_RX_RING : nat := Z.to_nat 2048.

Definition start_uros (e : edge_env) (id : Z) : boot node esp_err_t := fun s =>
  match b_uros e with
  | None => (s, inl ESP_ERR_NOT_SUPPORTED)
  | Some u =>
    let '(t, init) := ps_uros_transport_init (nd_xrce s) (can (nd_glue s)) id CONFIG_PS_UROS_RX_RING (u_alloc u) in
    let '(sess, err) := ps_uros_start true init (u_transport u) (u_task u) in
    let g := nd_glue s in
    ({| nd_glue := {| g with can := t_can t |}; nd_xrce := t; nd_session := sess;
        nd_tasks := nd_tasks s ++ (if is_ok err then [UrosSession] else []) |}, inl err)
  end.

(** The steps every edge node shares: open the bus, start the safety state machine. *)
Definition open_and_start (e : edge_env) (id on_transition : Z) : boot node unit :=
  let '(ctx, err, _) := ps_can_open (Some (id, 0, 0)) true (b_open e) in
  ESP_ERROR_CHECK err ;;
  err ← start_safety e ctx id on_transition; ESP_ERROR_CHECK err.

(** *** The limb *)

Definition limb_control_cb : Z := 31.
Definition limb_transition_cb : Z := 32.

(** The answers to [control_init_hw]: whether this is the bench build, the I2C bus, the SPI
    bus, the ADC unit and its channels, and for each joint the encoder, the memory of the
    output stage and the driver's answers to the calls that make it. *)
Record limb_hw := {
  w_bench : bool; w_i2c : esp_err_t; w_spi : esp_err_t; w_adc : esp_err_t; w_chan : Z -> esp_err_t;
  w_enc : nat -> esp_err_t; w_alloc : nat -> bool; w_drv : nat -> drv_call -> esp_err_t }.
Record limb_env := {
  l_edge : edge_env; l_control_task : bool; l_timer : list esp_err_t; l_comms_task : bool; l_hw : limb_hw; l_when : nat }.

Definition s_strain_chan : list Z := [4; 5; 6; 7].

(** The frequency of the stage is the default, so that its set-up is defined. *)
Definition stage_err (w : limb_hw) (j : nat) (cfg : ps_limb_joint_cfg_t) : esp_err_t :=
  from_option snd ESP_FAIL (ps_focdrv_init (Some (focdrv_config cfg)) (w_alloc w j) (w_drv w j)).

(** The checks of [control_init_hw], in order; what it leaves is in [Limb]. *)
Definition control_init_checks (id : Z) (w : limb_hw) : boot node unit :=
  ESP_ERROR_CHECK (w_i2c w) ;;
  if w_bench w then mret tt else
  ESP_ERROR_CHECK (w_spi w) ;; ESP_ERROR_CHECK (w_adc w) ;;
  check_all (w_chan w <$> flat_map (fun cfg => [adc_ia cfg; adc_ib cfg]) (PS_LIMB_JOINTS id)) ;;
  check_all (w_chan w <$> s_strain_chan) ;;
  check_all (concat (imap (fun j cfg => [w_enc w j; stage_err w j cfg]) (PS_LIMB_JOINTS id))).

Definition node_name_for (node_id : Z) : string :=
  if node_id =? PS_NODE_ARM_R then "node_arm_right"
  else if node_id =? PS_NODE_ARM_L then "node_arm_left"
  else if node_id =? PS_NODE_LEG_R then "node_leg_right"
  else if node_id =? PS_NODE_LEG_L then "node_leg_left"
  else "node_limb_unknown".

(** The five calls on the timer; [errs] are their answers. *)
Definition ctrl_tick_timer_start (errs : list esp_err_t) : boot node esp_err_t :=
  let err := first_err (take 5 errs) in
  (if is_ok err then spawn ControlTimer else mret tt) ;; mret err.

Definition limb_control_start (id : Z) (e : limb_env) : boot node esp_err_t :=
  if negb (l_control_task e) then mret ESP_ERR_NO_MEM else
  spawn LimbControl ;; runs_at 0 (l_when e) (control_init_checks id (l_hw e)) ;; ctrl_tick_timer_start (l_timer e).

Definition limb_comms_start (e : limb_env) : boot node esp_err_t :=
  err ← register PS_CLS_CONTROL limb_control_cb;
  if negb (is_ok err) then mret err else
  if negb (l_comms_task e) then mret ESP_ERR_NO_MEM else spawn LimbComms ;; mret ESP_OK.

(** An error of micro-ROS is logged. *)
Definition limb_app_main (id : Z) (e : limb_env) : boot node unit :=
  open_and_start (l_edge e) id limb_transition_cb ;;
  err ← limb_control_start id e; ESP_ERROR_CHECK err ;;
  runs_at 1 (l_when e) (control_init_checks id (l_hw e)) ;;
  err ← limb_comms_start e; ESP_ERROR_CHECK err ;;
  runs_at 2 (l_when e) (control_init_checks id (l_hw e)) ;;
  _ ← start_uros (l_edge e) id;
  runs_last 3 (l_when e) (control_init_checks id (l_hw e)).

(** *** The flight node *)

Definition flight_control_cb : Z := 41.
Definition flight_transition_cb : Z := 42.

(** The calls of [servo_bank_init], by group, operator and flap. *)
Inductive servo_call :=
  | new_timer (grp : nat) | new_operator (grp op : nat) | connect_timer (grp op : nat)
  | new_comparator (flap : nat) | new_generator (flap : nat) (gpio : Z) | set_compare_value (flap : nat) (us : Z)
  | set_action_on_timer (flap : nat) | set_action_on_compare (flap : nat)
  | timer_enable (grp : nat) | timer_start (grp : nat).

Definition servo_bank_calls : list servo_call :=
  flat_map (fun grp => new_timer grp :: flat_map (fun op => [new_operator grp op; connect_timer grp op]) (seq 0 3)) (seq 0 2) ++
  concat (imap (fun i c => [new_comparator i; new_generator i (gpio c); set_compare_value i (pulse_neutral_us c);
                            set_action_on_timer i; set_action_on_compare i]) PS_FLAP_TABLE) ++
  flat_map (fun grp => [timer_enable grp; timer_start grp]) (seq 0 2).

(** [f_bank]: the answers to [servo_bank_init]; [f_probe]: the I2C bus, the ADC unit and the
    channel of the aero task. *)
Record flight_env := {
  f_edge : edge_env; f_servo : bool; f_aero : bool; f_comms : bool;
  f_bank : servo_call -> esp_err_t; f_servo_when : nat; f_probe : esp_err_t * esp_err_t * esp_err_t; f_aero_when : nat }.

Definition servo_bank_checks (e : flight_env) : boot node unit :=
  if f_servo e then check_all (f_bank e <$> servo_bank_calls) else mret tt.
Definition aero_checks (e : flight_env) : boot node unit :=
  if f_aero e then let '(i2c, unit, chan) := f_probe e in ESP_ERROR_CHECK i2c ;; ESP_ERROR_CHECK unit ;; ESP_ERROR_CHECK chan
  else mret tt.

(** The three start functions only log a failure. *)
Definition servo_task_start (ok : bool) : boot node unit := if ok then spawn Servo else mret tt.
Definition aero_task_start (ok : bool) : boot node unit := if ok then spawn Aero else mret tt.
Definition comms_task_start (ok : bool) : boot node unit :=
  _ ← register PS_CLS_CONTROL flight_control_cb; if ok then spawn FlightComms else mret tt.

Definition flight_app_main (e : flight_env) : boot node unit :=
  open_and_start (f_edge e) PS_NODE_FLIGHT flight_transition_cb ;;
  servo_task_start (f_servo e) ;; runs_at 0 (f_servo_when e) (servo_bank_checks e) ;;
  aero_task_start (f_aero e) ;; runs_at 1 (f_servo_when e) (servo_bank_checks e) ;; runs_at 0 (f_aero_when e) (aero_checks e) ;;
  comms_task_start (f_comms e) ;; runs_at 2 (f_servo_when e) (servo_bank_checks e) ;; runs_at 1 (f_aero_when e) (aero_checks e) ;;
  err ← start_uros (f_edge e) PS_NODE_FLIGHT;
  (if bool_decide (err = ESP_ERR_NOT_SUPPORTED) then mret tt else ESP_ERROR_CHECK err) ;;
  runs_last 3 (f_servo_when e) (servo_bank_checks e) ;; runs_last 2 (f_aero_when e) (aero_checks e).

(** *** The helmet *)

Definition helmet_audio_cb : Z := 51.
Definition helmet_transition_cb : Z := 52.

(** Answers to the calls of each start function, in order; [h_nvs]: the first and second
    attempt to open the flash storage and its erasure. *)
Record helmet_env := {
  h_edge : edge_env; h_nvs : esp_err_t * esp_err_t * esp_err_t; h_panel : list esp_err_t; h_lvgl : esp_err_t; h_disp : bool; h_hud_task : bool;
  h_spk : list esp_err_t; h_spk_task : bool; h_mic : list esp_err_t; h_mic_task : bool; h_temp : list esp_err_t; h_comms_task : bool;
  h_espnow : list esp_err_t }.

Definition nvs_init (nvs : esp_err_t * esp_err_t * esp_err_t) : boot node unit :=
  let '(first, second, erase) := nvs in
  if bool_decide (first = ESP_ERR_NVS_NO_FREE_PAGES \/ first = ESP_ERR_NVS_NEW_VERSION_FOUND)
  then ESP_ERROR_CHECK erase ;; ESP_ERROR_CHECK second else ESP_ERROR_CHECK first.

(** The eight calls of [panel_init], the graphics port, the display and the task. *)
Definition helmet_hud_start (e : helmet_env) : boot node esp_err_t :=
  let err := first_err (take 8 (h_panel e)) in
  if negb (is_ok err) then mret err else
  if negb (is_ok (h_lvgl e)) then mret (h_lvgl e) else
  if negb (h_disp e) then mret ESP_FAIL else
  if negb (h_hud_task e) then mret ESP_ERR_NO_MEM else spawn Hud ;; mret ESP_OK.

Definition helmet_audio_out_start (e : helmet_env) : boot node esp_err_t :=
  let err := first_err (take 3 (h_spk e)) in
  if negb (is_ok err) then mret err else
  err ← register PS_CLS_AUDIO helmet_audio_cb;
  if negb (is_ok err) then mret err else
  if negb (h_spk_task e) then mret ESP_ERR_NO_MEM else spawn Speaker ;; mret ESP_OK.

Definition helmet_audio_in_start (e : helmet_env) : boot node esp_err_t :=
  let err := first_err (take 3 (h_mic e)) in
  if negb (is_ok err) then mret err else
  if negb (h_mic_task e) then mret ESP_ERR_NO_MEM else spawn Microphone ;; mret ESP_OK.

Definition helmet_comms_start (e : helmet_env) : boot node esp_err_t :=
  let err := first_err (take 2 (h_temp e)) in
  if negb (is_ok err) then mret err else
  if negb (h_comms_task e) then mret ESP_ERR_NO_MEM else spawn HelmetComms ;; mret ESP_OK.

(** The ten calls up to the start of the beacon's timer. *)
Definition helmet_espnow_start (e : helmet_env) : boot node esp_err_t :=
  let err := first_err (take 10 (h_espnow e)) in
  if negb (is_ok err) then mret err else spawn Beacon ;; mret ESP_OK.

Definition helmet_app_main (e : helmet_env) : boot node unit :=
  nvs_init (h_nvs e) ;;
  err ← helmet_hud_start e; ESP_ERROR_CHECK err ;;
  open_and_start (h_edge e) PS_NODE_HELMET helmet_transition_cb ;;
  err ← helmet_audio_out_start e; ESP_ERROR_CHECK err ;;
  err ← helmet_audio_in_start e; ESP_ERROR_CHECK err ;;
  err ← helmet_comms_start e; ESP_ERROR_CHECK err ;;
  err ← helmet_espnow_start e; ESP_ERROR_CHECK err ;;
  _ ← start_uros (h_edge e) PS_NODE_HELMET; mret tt.

(** ** The hub *)

Record hubnode := { hn_gw : gw; hn_bms : bms; hn_led : option led; hn_tasks : list task }.
Record hub_env := {
  hu_open1 : open_env; hu_open2 : open_env; hu_spi : spib_env; hu_now : Z; hu_route_q : bool; hu_pump : bool; hu_dnl : bool;
  hu_strip : esp_err_t; hu_led_task : bool; hu_t0 : Z; hu_bms : bms_start_env;
  hu_safety : esp_err_t * esp_err_t; hu_sync : esp_err_t * esp_err_t }.

Definition hspawn (ts : list task) : boot hubnode unit := modify (fun s => {| s with hn_tasks := hn_tasks s ++ ts |}).

(** [esp_timer_create] and [esp_timer_start_periodic]. *)
Definition start_periodic (t : task) (errs : esp_err_t * esp_err_t) : boot hubnode esp_err_t :=
  if negb (is_ok errs.1) then mret errs.1 else
  if negb (is_ok errs.2) then mret errs.2 else hspawn [t] ;; mret ESP_OK.

(** The queue lengths are left to the default. *)
Definition hub_start_spi (e : hub_env) : boot hubnode esp_err_t := fun s =>
  let g := hn_gw s in
  let '(b, err) := ps_spib_start (bridge g) (Some (0%nat, 0%nat)) (hu_spi e) in
  ({| s with hn_gw := {| g with bridge := b |}; hn_tasks := hn_tasks s ++ (if is_ok err then [SpiPump] else []) |}, inl err).

Definition hub_start_gateway (e : hub_env) (c1 c2 : option ps_can_ctx) : boot hubnode esp_err_t := fun s =>
  let '(g, err) := hub_gateway_start (hn_gw s) c1 c2 (hu_now e) (hu_route_q e) (hu_pump e) (hu_dnl e) in
  ({| s with hn_gw := g; hn_tasks := hn_tasks s ++ (if is_ok err then [GwPump; GwDownlink] else []) |}, inl err).

Definition hub_start_led (e : hub_env) : boot hubnode esp_err_t := fun s =>
  let '(l, err) := hub_led_start (hu_strip e) (hu_led_task e) (hu_t0 e) in
  ({| s with hn_led := l; hn_tasks := hn_tasks s ++ (if is_ok err then [Ring] else []) |}, inl err).

Definition hub_start_bms (e : hub_env) : boot hubnode esp_err_t := fun s =>
  let '(b, err) := hub_bms_start (hn_bms s) true (hu_bms e) in
  ({| s with hn_bms := b; hn_tasks := hn_tasks s ++ (if is_ok err then [BmsTask] else []) |}, inl err).

Definition hub_app_main (e : hub_env) : boot hubnode unit :=
  let '(c1, err, _) := ps_can_open (Some (0, 0, 128)) true (hu_open1 e) in
  ESP_ERROR_CHECK err ;;
  let '(c2, err, _) := ps_can_open (Some (0, 1, 128)) true (hu_open2 e) in
  ESP_ERROR_CHECK err ;;
  err ← hub_start_spi e; ESP_ERROR_CHECK err ;;
  err ← hub_start_gateway e c1 c2; ESP_ERROR_CHECK err ;;
  err ← hub_start_led e; ESP_ERROR_CHECK err ;;
  err ← hub_start_bms e; ESP_ERROR_CHECK err ;;
  err ← start_periodic HubSafety (hu_safety e); ESP_ERROR_CHECK err ;;
  err ← start_periodic HubTimeSync (hu_sync e); ESP_ERROR_CHECK err.
End Boot.
