(* ===== verification/BootSpec.v ===== *)
(** What start-up establishes ([Boot]): whatever the platform answers, no actuating task runs
    before the safety state machine does and the gate is closed; and a node that is up has
    its handlers wired to the classes they are for.  The set-up of the hardware by the tasks
    themselves is part of it, wherever it falls. *)
From stdpp Require Import strings.
From S2P Require Import Prelude Ctl Flight Limb.
From S2P Require Import CanId Wire Rtos Txq Can Safety SafetySpec SafetyEsp SpiFrame SpiBridge Router Gateway Bms Led Uros Boot.
From stdpp Require Import list.
#[local] Open Scope Z_scope.
#[local] Open Scope cint_scope.

(** ** Triples: what holds where a start-up goes on, and where it aborts *)

Definition triple {S A} (P : S -> Prop) (m : boot S A) (Q : A -> S -> Prop) (E : S -> Prop) : Prop :=
  forall s, P s -> match m s with (s', inl a) => Q a s' | (s', inr _) => E s' end.

Lemma triple_bind {S A B} P (m : boot S A) (k : A -> boot S B) Q R E :
  triple P m Q E -> (forall a, triple (Q a) (k a) R E) -> triple P (m ≫= k) R E.
Proof.
  intros Hm Hk s Hs. specialize (Hm s Hs). unfold mbind, boot_bind. destruct (m s) as [s' [a|err]]; [|done]. by apply Hk.
Qed.

Lemma triple_weaken {S A} P (m : boot S A) (Q Q' : A -> S -> Prop) (E E' : S -> Prop) :
  triple P m Q E -> (forall a s, Q a s -> Q' a s) -> (forall s, E s -> E' s) -> triple P m Q' E'.
Proof. intros Hm HQ HE s Hs. specialize (Hm s Hs). destruct (m s) as [s' [a|err]]; auto. Qed.

Lemma triple_pure {S A} (F : Prop) P (m : boot S A) Q E : (F -> triple P m Q E) -> triple (fun s => F /\ P s) m Q E.
Proof. intros Hm s [HF Hs]. by apply Hm. Qed.

(** A start function that succeeds exactly if [ok], with its error checked. *)
Definition checks {S} (ok : bool) (Q C : S -> Prop) (err : esp_err_t) (s : S) : Prop := is_ok err = ok /\ if ok then Q s else C s.

Lemma triple_then {S A} ok P (m : boot S esp_err_t) (rest : boot S A) Q C R (E : S -> Prop) :
  triple P m (checks ok Q C) E -> (ok = false -> forall s, C s -> E s) -> (ok = true -> triple Q rest R E) ->
  triple P (err ← m; ESP_ERROR_CHECK err ;; rest) R E.
Proof.
  intros Hm Hc Hr. eapply triple_bind; [exact Hm|]. intros err s [Ho Hs]. unfold ESP_ERROR_CHECK, mbind, boot_bind. rewrite Ho.
  destruct ok; [by apply Hr|by apply Hc].
Qed.

Lemma triple_if {S A} ok (P : S -> Prop) err (rest : boot S A) R (E : S -> Prop) :
  is_ok err = ok -> (ok = false -> forall s, P s -> E s) -> (ok = true -> triple P rest R E) -> triple P (ESP_ERROR_CHECK err ;; rest) R E.
Proof. intros Ho Hc Hr s Hs. unfold ESP_ERROR_CHECK, mbind, boot_bind. rewrite Ho. destruct ok; [by apply Hr|by apply Hc]. Qed.

Lemma triple_last {S} ok P (m : boot S esp_err_t) Q C (E : S -> Prop) :
  triple P m (checks ok Q C) E -> (ok = false -> forall s, C s -> E s) ->
  triple P (err ← m; ESP_ERROR_CHECK err) (fun _ s => ok = true /\ Q s) E.
Proof.
  intros Hm Hc. eapply triple_bind; [exact Hm|]. intros err s [Ho Hs]. unfold ESP_ERROR_CHECK. rewrite Ho. destruct ok; [done|by apply Hc].
Qed.

(** A computation that only checks: it goes on exactly if [ok], and leaves the state alone. *)
Definition checking {S} (ok : bool) (m : boot S unit) : Prop :=
  forall s, if ok then m s = (s, inl tt) else exists err, m s = (s, inr err).

Lemma checking_check {S} err : checking (S := S) (is_ok err) (ESP_ERROR_CHECK err).
Proof. intros s. unfold ESP_ERROR_CHECK. destruct (is_ok err); [done|by eexists]. Qed.
Lemma checking_ret {S} : checking (S := S) true (mret tt).
Proof. by intros s. Qed.
Lemma checking_then {S} b c (m n : boot S unit) : checking b m -> checking c n -> checking (b && c) (m ;; n).
Proof.
  intros Hm Hn s. specialize (Hm s). unfold mbind, boot_bind. destruct b; cbn [andb].
  - rewrite Hm. apply Hn.
  - destruct Hm as [err ->]. by eexists.
Qed.
Lemma checking_triple {S} b (m : boot S unit) P : checking b m -> triple P m (fun _ s => b = true /\ P s) (fun s => b = false /\ P s).
Proof. intros Hm s Hs. specialize (Hm s). destruct b; [by rewrite Hm|]. by destruct Hm as [err ->]. Qed.

(** Checks that fall at one point of a start-up. *)
Lemma runs_triple {S} (F : Prop) `{Decision F} b (m : boot S unit) P : checking b m ->
  triple P (if bool_decide F then m else mret tt) (fun _ s => (F -> b = true) /\ P s) (fun s => b = false /\ P s).
Proof.
  intros Hm. case_bool_decide; [|by intros s Hs; split].
  eapply triple_weaken; [by apply checking_triple|by intros a s [-> Hs]|by intros s Hs].
Qed.

(** A handler table, class by class. *)
Ltac by_class :=
  let c := fresh "c" in let Hc := fresh "Hc" in intros c Hc _;
  assert (c = 0 \/ c = 1 \/ c = 2 \/ c = 3 \/ c = 4 \/ c = 5 \/ c = 6 \/ c = 7) as [->|[->|[->|[->|[->|[->|[->| ->]]]]]]] by lia; reflexivity.

Section BootSpec.
Context `{RtosQueue} `{TwaiDlc} `{RtosStream}.

(** ** Edge nodes *)

Definition base_cbs : list (option Z) := <[Z.to_nat PS_CLS_SAFETY := Some safety_rx_cb]> (replicate (Z.to_nat PS_CAN_CLASS_COUNT) None).

(** Nothing started yet but the tasks [ts]. *)
Definition dark (ts : list task) (s : node) : Prop := started (nd_glue s) = false /\ nd_tasks s = ts.

(** The safety state machine runs, in BOOT, on a context with the handlers [cbs]. *)
Definition wired (id tr : Z) (cbs : list (option Z)) (ts : list task) (s : node) : Prop :=
  let g := nd_glue s in
  started g = true /\ state (core g) = PS_STATE_BOOT /\ g_node_id g = id /\ user_cb g = Some tr /\ nd_tasks s = ts /\
  exists ctx, can g = Some ctx /\ node_id ctx = id /\ cls_cb ctx = cbs /\ link_state ctx = PS_CAN_STATE_RUNNING.

Definition open_up (o : open_env) : bool :=
  calloc_ok o && rx_q_ok o && free_q_ok o && new_node_ok o && register_ok o && tx_task_ok o && enable_ok o && rx_task_ok o.
Definition edge_up (e : edge_env) : bool := open_up (b_open e) && b_lock e && is_ok (b_create e) && is_ok (b_start e).

Lemma open_spec id ctl len o : exists err held, ps_can_open (Some (id, ctl, len)) true o =
  (if open_up o then Some (ps_can_open_ctx id ctl len) else None, err, held) /\ is_ok err = open_up o.
Proof. unfold ps_can_open, open_up. destruct o as [[] [] [] [] [] [] [] []]; eexists _, _; split; reflexivity. Qed.

Lemma open_and_start_triple e id tr ts :
  triple (dark ts) (open_and_start e id tr) (fun _ s => edge_up e = true /\ wired id tr base_cbs (ts ++ [SafetyTick]) s) (fun s => edge_up e = false /\ dark ts s).
Proof.
  unfold open_and_start. destruct (open_spec id 0 0 (b_open e)) as (err & held & -> & Eok). unfold edge_up.
  intros s [Hg Ht]. unfold ESP_ERROR_CHECK, mbind, boot_bind. rewrite Eok. destruct (open_up (b_open e)); cbn [andb]; [|done].
  unfold start_safety, ps_safety_start. cbn [cfg_can cfg_node_id cfg_on_transition cfg_arg]. rewrite Hg.
  destruct (b_lock e); cbn [negb andb]; [|by split; [|split; [|cbn; rewrite Ht, app_nil_r]]].
  cbn [can ps_can_register_class_cb]. change (PS_CAN_CLASS_COUNT <=? PS_CLS_SAFETY) with false. cbn [is_ok negb can ps_can_register_state_cb].
  destruct (is_ok (b_create e)) eqn:Ec; cbn [negb andb]; rewrite ?Ec; [|by split; [|split; [|cbn; rewrite Ht, app_nil_r]]].
  destruct (is_ok (b_start e)) eqn:Es; cbn [negb]; rewrite ?Es; [|by split; [|split; [|cbn; rewrite Ht, app_nil_r]]].
  cbn [is_ok]. split; [done|]. unfold wired. cbn. rewrite Ht. split_and!; try done. by eexists.
Qed.

(** The tasks that drive actuators. *)
Definition actuates (t : task) : Prop := t = LimbControl \/ t = Servo.

(** No actuating task without the safety state machine, and the gate closed. *)
Definition calm (s : node) : Prop :=
  ps_safety_can_actuate (nd_glue s) = false /\ (forall t, actuates t -> t ∈ nd_tasks s -> started (nd_glue s) = true).

Lemma wired_calm id tr cbs ts s : wired id tr cbs ts s -> calm s.
Proof. intros (Hst & Hc & _). split; [|done]. unfold ps_safety_can_actuate. by rewrite Hst, Hc. Qed.
Lemma dark_calm ts s : Forall (fun t => ~ actuates t) ts -> dark ts s -> calm s.
Proof.
  intros HF [Hst Ht]. split; [unfold ps_safety_can_actuate; by rewrite Hst|]. rewrite Ht. intros t Ha Hin.
  rewrite Forall_forall in HF. by destruct (HF t Hin).
Qed.

(** Whether micro-ROS comes up or is not part of the build. *)
Definition uros_up (e : edge_env) : bool := match b_uros e with None => true | Some u => u_alloc u && u_transport u && u_task u end.

Section Wired.
Context (id tr : Z) (cbs : list (option Z)) (ts : list task).

Lemma spawn_triple t E : triple (wired id tr cbs ts) (spawn t) (fun _ => wired id tr cbs (ts ++ [t])) E.
Proof. intros s (W1 & W2 & W3 & W4 & W5 & W6). unfold wired. cbn. rewrite W5. by split_and!. Qed.

Lemma register_triple c cb E : 0 <= c < 8 ->
  triple (wired id tr cbs ts) (register c cb) (fun err s => err = ESP_OK /\ wired id tr (<[Z.to_nat c := Some cb]> cbs) ts s) E.
Proof.
  intros Hc s (W1 & W2 & W3 & W4 & W5 & ctx & W6 & W7 & W8 & W9). unfold register, ps_can_register_class_cb. rewrite W6.
  destruct (Z.leb_spec PS_CAN_CLASS_COUNT c); [unfold PS_CAN_CLASS_COUNT in *; lia|]. unfold wired. cbn. rewrite <- W8. split_and!; try done. by eexists.
Qed.

(** micro-ROS may register its class and may run its session. *)
Definition with_uros (s : node) : Prop := exists cbs' us,
  (cbs' = cbs \/ cbs' = <[Z.to_nat PS_CLS_XRCE := Some xrce_rx_cb]> cbs) /\ (us = [] \/ us = [UrosSession]) /\ wired id tr cbs' (ts ++ us) s.

Lemma uros_triple e E : triple (wired id tr cbs ts) (start_uros e id)
  (fun err s => is_ok err || bool_decide (err = ESP_ERR_NOT_SUPPORTED) = uros_up e /\ with_uros s) E.
Proof.
  intros s Hw. pose proof Hw as (W1 & W2 & W3 & W4 & W5 & ctx & W6 & W7 & W8 & W9). unfold start_uros, with_uros, uros_up.
  destruct (b_uros e) as [u|]; [|split; [done|]; exists cbs, []; rewrite app_nil_r; split_and!; auto].
  rewrite W6. unfold ps_uros_transport_init, ps_can_register_class_cb. change (PS_CAN_CLASS_COUNT <=? PS_CLS_XRCE) with false.
  destruct (u_alloc u); cbn [negb].
  - destruct (ps_uros_start _ _ _ _) as [sess err] eqn:Eu. split.
    { unfold ps_uros_start in Eu. cbn [negb is_ok] in Eu. by destruct (u_transport u), (u_task u); injection Eu as <- <-. }
    exists (<[Z.to_nat PS_CLS_XRCE := Some xrce_rx_cb]> cbs), (if is_ok err then [UrosSession] else []).
    split; [by right|]. split; [destruct (is_ok err); auto|]. unfold wired. cbn. rewrite W5, <- W8. split_and!; try done. by eexists.
  - cbn. split; [done|]. exists cbs, []. split; [by left|]. split; [by left|]. unfold wired. cbn. rewrite W5. split_and!; try done. by exists ctx.
Qed.
End Wired.

(** *** Readiness *)

(** A node that is up: calm, in BOOT, with [ts] and perhaps the session running, and every
    frame for it or for all but those of XRCE is handed to its class's handler. *)
Definition ready (id : Z) (handler : Z -> option Z) (ts : list task) (s : node) : Prop :=
  calm s /\ started (nd_glue s) = true /\ ps_safety_state (nd_glue s) = PS_STATE_BOOT /\
  (nd_tasks s = ts \/ nd_tasks s = ts ++ [UrosSession]) /\
  exists ctx, can (nd_glue s) = Some ctx /\ forall f,
    ps_can_id_dst (f_id f) = id \/ ps_can_id_dst (f_id f) = PS_NODE_BROADCAST -> ps_can_id_cls (f_id f) <> PS_CLS_XRCE ->
    (rx_dispatch ctx f).2 = (fun cb => (cb, f)) <$> handler (ps_can_id_cls (f_id f)).

Lemma uros_ready id tr cbs ts handler s : (forall c, 0 <= c < 8 -> c <> PS_CLS_XRCE -> cbs !!! Z.to_nat c = handler c) ->
  with_uros id tr cbs ts s -> ready id handler ts s.
Proof.
  intros Hh (cbs' & us & Hc & Hu & Hw). pose proof (wired_calm _ _ _ _ _ Hw) as Hcalm.
  destruct Hw as (W1 & W2 & W3 & W4 & W5 & ctx & W6 & W7 & W8 & W9). split; [done|]. split; [done|].
  split; [unfold ps_safety_state; by rewrite W1|]. split; [destruct Hu as [->| ->]; [rewrite app_nil_r in W5|]; auto|].
  exists ctx. split; [done|]. intros f Hd Hx. pose proof (cls_range (f_id f)) as Hr. unfold rx_dispatch.
  assert ((node_id ctx =? 0) || (ps_can_id_dst (f_id f) =? node_id ctx) || (ps_can_id_dst (f_id f) =? PS_NODE_BROADCAST) = true) as ->.
  { rewrite W7. destruct Hd as [->| ->]; [rewrite Z.eqb_refl|rewrite (Z.eqb_refl PS_NODE_BROADCAST)]; by rewrite ?orb_true_r. }
  rewrite W8. assert (cbs' !!! Z.to_nat (ps_can_id_cls (f_id f)) = handler (ps_can_id_cls (f_id f))) as ->.
  { destruct Hc as [->| ->]; [by apply Hh|]. rewrite list_lookup_total_insert_ne; [by apply Hh|]. unfold PS_CLS_XRCE in *. lia. }
  by destruct (handler _).
Qed.

Lemma with_uros_calm id tr cbs ts s : with_uros id tr cbs ts s -> calm s.
Proof. intros (? & ? & _ & _ & Hw). by eapply wired_calm. Qed.

(** The set-up of a task's hardware, at some point of the start-up of a node that comes up
    only if [b]. *)
Lemma wired_point id tr cbs ts (up b : bool) (F : Prop) `{Decision F} m : checking b m -> (b = false -> up = false) ->
  triple (wired id tr cbs ts) (if bool_decide F then m else mret tt)
    (fun _ s => (F -> b = true) /\ wired id tr cbs ts s) (fun s => up = false /\ calm s).
Proof.
  intros Hm Hb. eapply triple_weaken; [by apply runs_triple|intros a s Hs; exact Hs|]. intros s [Hf Hs]. split; [auto|by eapply wired_calm].
Qed.

(** *** The limb *)

(** Every checked call of [control_init_hw] succeeds. *)
Definition hw_up (id : Z) (w : limb_hw) : bool :=
  is_ok (w_i2c w) &&
  (w_bench w ||
   is_ok (w_spi w) && (is_ok (w_adc w) &&
   (is_ok (first_err (w_chan w <$> flat_map (fun cfg => [adc_ia cfg; adc_ib cfg]) (PS_LIMB_JOINTS id))) &&
   (is_ok (first_err (w_chan w <$> s_strain_chan)) &&
    is_ok (first_err (concat (imap (fun j cfg => [w_enc w j; stage_err w j cfg]) (PS_LIMB_JOINTS id)))))))).
Definition limb_up (id : Z) (e : limb_env) : bool :=
  edge_up (l_edge e) && (l_control_task e && is_ok (first_err (take 5 (l_timer e)))) && l_comms_task e && hw_up id (l_hw e).
Definition limb_handler (c : Z) : option Z := if c =? PS_CLS_SAFETY then Some safety_rx_cb else if c =? PS_CLS_CONTROL then Some limb_control_cb else None.

Lemma hw_checking id w : checking (hw_up id w) (control_init_checks id w).
Proof.
  unfold hw_up, control_init_checks. apply checking_then; [apply checking_check|]. destruct (w_bench w); cbn [orb]; [apply checking_ret|].
  repeat (apply checking_then; [apply checking_check|]). apply checking_check.
Qed.

Lemma limb_control_triple e id tr cbs ts (E : node -> Prop) : (hw_up id (l_hw e) = false -> forall s, calm s -> E s) ->
  triple (wired id tr cbs ts) (limb_control_start id e)
  (checks (l_control_task e && is_ok (first_err (take 5 (l_timer e))))
     (fun s => (l_when e = 0%nat -> hw_up id (l_hw e) = true) /\ wired id tr cbs (ts ++ [LimbControl; ControlTimer]) s) calm) E.
Proof.
  intros HE. unfold limb_control_start, ctrl_tick_timer_start. set (err := first_err _). clearbody err. destruct (l_control_task e); cbn [negb andb].
  2: { intros s Hs. split; [done|]. by eapply wired_calm. }
  eapply triple_bind; [apply spawn_triple|]. intros u. eapply triple_bind.
  { eapply triple_weaken; [apply runs_triple, hw_checking|intros a s Hs; exact Hs|]. intros s [Hf Hs]. apply HE; [done|by eapply wired_calm]. }
  intros u1 s [Hw Hs]. unfold mbind, boot_bind. destruct (is_ok err) eqn:Eo.
  - pose proof (spawn_triple id tr cbs (ts ++ [LimbControl]) ControlTimer E s Hs) as Hp. unfold spawn, modify, mret, boot_ret in *.
    split; [done|]. split; [done|]. by rewrite <- app_assoc in Hp.
  - split; [done|]. by eapply wired_calm.
Qed.

Lemma limb_comms_triple e id tr cbs ts E : triple (wired id tr cbs ts) (limb_comms_start e)
  (checks (l_comms_task e) (wired id tr (<[Z.to_nat PS_CLS_CONTROL := Some limb_control_cb]> cbs) (ts ++ [LimbComms])) calm) E.
Proof.
  unfold limb_comms_start. eapply triple_bind; [by apply register_triple|]. intros err. cbv beta. apply triple_pure. intros ->. cbn [is_ok negb].
  destruct (l_comms_task e); cbn [negb]; [|intros s Hs; split; [done|by eapply wired_calm]].
  eapply triple_bind; [apply spawn_triple|]. intros u s Hs. by split.
Qed.

Lemma limb_triple id e : triple (dark []) (limb_app_main id e)
  (fun _ s => limb_up id e = true /\ ready id limb_handler [SafetyTick; LimbControl; ControlTimer; LimbComms] s)
  (fun s => limb_up id e = false /\ calm s).
Proof.
  unfold limb_app_main, limb_up. eapply triple_bind.
  { eapply triple_weaken; [apply open_and_start_triple|intros a s Hs; exact Hs|]. intros s [-> Hs]. split; [done|]. by eapply dark_calm; [|exact Hs]. }
  intros u. cbv beta. apply triple_pure. intros ->. cbn [andb].
  pose proof (hw_checking id (l_hw e)) as Hhw. set (hw := hw_up id (l_hw e)) in *. cbv zeta.
  eapply triple_then; [apply limb_control_triple; by intros Hf s Hs; fold hw in Hf; rewrite Hf, andb_false_r|by intros -> s Hs|]. intros ->.
  apply triple_pure. fold hw. intros Hw0. eapply triple_bind; [apply (wired_point _ _ _ _ _ _ _ _ Hhw); intros ->; apply andb_false_r|].
  intros u1. cbv beta. apply triple_pure. intros Hw1. eapply triple_then; [apply limb_comms_triple|by intros -> s Hs|]. intros ->.
  eapply triple_bind; [apply (wired_point _ _ _ _ _ _ _ _ Hhw); intros ->; apply andb_false_r|]. intros u2. cbv beta. apply triple_pure. intros Hw2.
  eapply triple_bind; [apply uros_triple|]. intros err. cbv beta. apply triple_pure. intros _. eapply triple_weaken; [apply runs_triple, Hhw|..].
  - intros a s [Hw3 Hs]. split; [destruct (l_when e) as [|[|[|n]]]; auto; apply Hw3; lia|]. eapply uros_ready; [|exact Hs]. by_class.
  - intros s [-> Hs]. rewrite andb_false_r. split; [done|]. by eapply with_uros_calm.
Qed.

(** *** The flight node *)

(** Every checked call of the tasks that were created succeeds. *)
Definition bank_up (e : flight_env) : bool := negb (f_servo e) || is_ok (first_err (f_bank e <$> servo_bank_calls)).
Definition probe_up (e : flight_env) : bool := negb (f_aero e) || is_ok (f_probe e).1.1 && (is_ok (f_probe e).1.2 && is_ok (f_probe e).2).
Definition flight_up (e : flight_env) : bool := edge_up (f_edge e) && uros_up (f_edge e) && bank_up e && probe_up e.
Definition flight_handler (c : Z) : option Z := if c =? PS_CLS_SAFETY then Some safety_rx_cb else if c =? PS_CLS_CONTROL then Some flight_control_cb else None.
Definition flight_tasks (e : flight_env) : list task :=
  [SafetyTick] ++ (if f_servo e then [Servo] else []) ++ (if f_aero e then [Aero] else []) ++ (if f_comms e then [FlightComms] else []).

Lemma spawn_if_triple id tr cbs ts (b : bool) t E :
  triple (wired id tr cbs ts) (if b then spawn t else mret tt) (fun _ => wired id tr cbs (ts ++ if b then [t] else [])) E.
Proof. destruct b; [apply spawn_triple|]. intros s Hs. cbn. by rewrite app_nil_r. Qed.

Lemma bank_checking e : checking (bank_up e) (servo_bank_checks e).
Proof. unfold bank_up, servo_bank_checks. destruct (f_servo e); [apply checking_check|apply checking_ret]. Qed.

Lemma probe_checking e : checking (probe_up e) (aero_checks e).
Proof.
  unfold probe_up, aero_checks. destruct (f_aero e); [|apply checking_ret]. destruct (f_probe e) as [[i u] c]. cbn [negb orb fst snd].
  repeat (apply checking_then; [apply checking_check|]). apply checking_check.
Qed.

(** The points at which the two tasks set up their hardware. *)
Ltac flight_point Hp Hw := eapply triple_bind;
  [apply (wired_point _ _ _ _ _ _ _ _ Hp); intros ->; by rewrite ?andb_false_r|];
  let v := fresh "v" in intros v; cbv beta; apply triple_pure; intros Hw.

Lemma flight_triple e : triple (dark []) (flight_app_main e)
  (fun _ s => flight_up e = true /\ ready PS_NODE_FLIGHT flight_handler (flight_tasks e) s) (fun s => flight_up e = false /\ calm s).
Proof.
  unfold flight_app_main, flight_up. eapply triple_bind.
  { eapply triple_weaken; [apply open_and_start_triple|intros a s Hs; exact Hs|]. intros s [-> Hs]. split; [done|]. by eapply dark_calm; [|exact Hs]. }
  intros u. cbv beta. apply triple_pure. intros ->. cbn [andb].
  pose proof (bank_checking e) as Hb. pose proof (probe_checking e) as Hp. set (bank := bank_up e) in *. set (probe := probe_up e) in *.
  eapply triple_bind; [apply spawn_if_triple|]. intros u1. flight_point Hb Hb0.
  eapply triple_bind; [apply spawn_if_triple|]. intros u2. flight_point Hb Hb1. flight_point Hp Hp0.
  eapply triple_bind. { eapply triple_bind; [by apply register_triple|]. intros err. cbv beta. apply triple_pure. intros ->. apply spawn_if_triple. }
  intros u3. flight_point Hb Hb2. flight_point Hp Hp1.
  eapply triple_bind; [apply uros_triple|]. intros err. cbv beta. apply triple_pure. intros Ho. rewrite <- Ho.
  eapply triple_bind; [|intros u4; eapply triple_bind; [eapply triple_weaken; [apply (runs_triple _ _ _ _ Hb)|intros a s Hs; exact Hs|]|]].
  - eapply triple_weaken; [apply (checking_triple (is_ok err || bool_decide (err = ESP_ERR_NOT_SUPPORTED)))|intros a s Hs; exact Hs|].
    + case_bool_decide; [rewrite orb_true_r; apply checking_ret|rewrite orb_false_r; apply checking_check].
    + intros s [-> Hs]. split; [done|by eapply with_uros_calm].
  - intros s [-> [-> Hs]]. split; [done|by eapply with_uros_calm].
  - intros u5. cbv beta. apply triple_pure. intros Hb3. eapply triple_weaken; [apply (runs_triple _ _ _ _ Hp)|..].
    + intros a s [Hp2 [-> Hs]]. split.
      { assert (bank = true) as -> by (destruct (f_servo_when e) as [|[|[|n]]]; auto; apply Hb3; lia).
        destruct (f_aero_when e) as [|[|n]]; auto. apply Hp2. lia. }
      rewrite <- !app_assoc in Hs. eapply uros_ready; [|exact Hs]. by_class.
    + intros s [-> [-> Hs]]. split; [by rewrite andb_false_r|by eapply with_uros_calm].
Qed.

(** *** The helmet *)

Definition nvs_up (nvs : esp_err_t * esp_err_t * esp_err_t) : bool :=
  let '(first, second, erase) := nvs in
  is_ok first || (bool_decide (first = ESP_ERR_NVS_NO_FREE_PAGES \/ first = ESP_ERR_NVS_NEW_VERSION_FOUND) && is_ok erase && is_ok second).
Definition hud_up (e : helmet_env) : bool := is_ok (first_err (take 8 (h_panel e))) && is_ok (h_lvgl e) && h_disp e && h_hud_task e.
Definition voice_up (e : helmet_env) : bool :=
  is_ok (first_err (take 3 (h_spk e))) && h_spk_task e && (is_ok (first_err (take 3 (h_mic e))) && h_mic_task e).
Definition helmet_up (e : helmet_env) : bool :=
  nvs_up (h_nvs e) && hud_up e && edge_up (h_edge e) && voice_up e && (is_ok (first_err (take 2 (h_temp e))) && h_comms_task e) &&
  is_ok (first_err (take 10 (h_espnow e))).
Definition helmet_handler (c : Z) : option Z := if c =? PS_CLS_SAFETY then Some safety_rx_cb else if c =? PS_CLS_AUDIO then Some helmet_audio_cb else None.

Lemma nvs_triple nvs ts : triple (dark ts) (nvs_init nvs) (fun _ s => nvs_up nvs = true /\ dark ts s) (fun s => nvs_up nvs = false /\ dark ts s).
Proof.
  destruct nvs as [[first second] erase]. intros s Hs. unfold nvs_init, nvs_up, ESP_ERROR_CHECK, mbind, boot_bind.
  case_bool_decide as Eb; [destruct Eb as [->| ->]; by destruct (is_ok erase), (is_ok second)|by destruct (is_ok first)].
Qed.

Lemma hud_triple e E : triple (dark []) (helmet_hud_start e) (checks (hud_up e) (dark [Hud]) (dark [])) E.
Proof.
  intros s [Hg Ht]. unfold helmet_hud_start, hud_up. destruct (is_ok (first_err _)) eqn:E1; cbn [negb andb]; [|by split].
  destruct (is_ok (h_lvgl e)) eqn:E2; cbn [negb andb]; [|by split]. destruct (h_disp e); cbn [negb andb]; [|by split].
  destruct (h_hud_task e); cbn [negb]; [|by split]. split; [done|]. split; [done|]. cbn. by rewrite Ht.
Qed.

(** A start function that runs [t] where [err] and [ok] allow it. *)
Lemma guarded_triple id tr cbs ts err (ok : bool) t E :
  triple (wired id tr cbs ts) (if negb (is_ok err) then mret err else if negb ok then mret ESP_ERR_NO_MEM else spawn t ;; mret ESP_OK)
    (checks (is_ok err && ok) (wired id tr cbs (ts ++ [t])) calm) E.
Proof.
  destruct (is_ok err) eqn:Eo; cbn [negb andb]; [|intros s Hs; split; [done|by eapply wired_calm]].
  destruct ok; cbn [negb]; [|intros s Hs; split; [done|by eapply wired_calm]].
  eapply triple_bind; [apply spawn_triple|]. intros u s Hs. by split.
Qed.

Lemma audio_out_triple e id tr cbs ts E : triple (wired id tr cbs ts) (helmet_audio_out_start e)
  (checks (is_ok (first_err (take 3 (h_spk e))) && h_spk_task e) (wired id tr (<[Z.to_nat PS_CLS_AUDIO := Some helmet_audio_cb]> cbs) (ts ++ [Speaker])) calm) E.
Proof.
  unfold helmet_audio_out_start. destruct (is_ok (first_err _)) eqn:Eo; cbn [negb andb]; [|intros s Hs; split; [done|by eapply wired_calm]].
  eapply triple_bind; [by apply register_triple|]. intros err. cbv beta. apply triple_pure. intros ->.
  apply (guarded_triple id tr _ ts ESP_OK (h_spk_task e) Speaker E).
Qed.

Lemma espnow_triple e id tr cbs ts E : triple (wired id tr cbs ts) (helmet_espnow_start e)
  (checks (is_ok (first_err (take 10 (h_espnow e)))) (wired id tr cbs (ts ++ [Beacon])) calm) E.
Proof.
  pose proof (guarded_triple id tr cbs ts (first_err (take 10 (h_espnow e))) true Beacon E) as Hg. by rewrite andb_true_r in Hg.
Qed.

Lemma helmet_triple e : triple (dark []) (helmet_app_main e)
  (fun _ s => helmet_up e = true /\ ready PS_NODE_HELMET helmet_handler [Hud; SafetyTick; Speaker; Microphone; HelmetComms; Beacon] s)
  (fun s => helmet_up e = false /\ calm s).
Proof.
  assert (forall ts s, ts = [] \/ ts = [Hud] -> dark ts s -> calm s) as Hdark.
  { intros ts s Ht Hs. eapply dark_calm; [|exact Hs]. unfold actuates. destruct Ht as [->| ->]; repeat constructor. by intros [?|?]. }
  unfold helmet_app_main, helmet_up, voice_up. eapply triple_bind.
  { eapply triple_weaken; [apply nvs_triple|intros a s Hs; exact Hs|]. intros s [-> Hs]. split; [done|]. eapply (Hdark []); auto. }
  intros u. cbv beta. apply triple_pure. intros ->.
  eapply triple_then; [apply hud_triple|intros -> s Hs; split; [done|by eapply (Hdark []); auto]|]. intros ->.
  eapply triple_bind.
  { eapply triple_weaken; [apply open_and_start_triple|intros a s Hs; exact Hs|]. intros s [-> Hs]. split; [done|]. eapply (Hdark [Hud]); auto. }
  intros u1. cbv beta. apply triple_pure. intros ->.
  eapply triple_then; [apply audio_out_triple|by intros -> s Hs|]. intros ->.
  eapply triple_then; [apply guarded_triple|by intros -> s Hs|]. intros ->.
  eapply triple_then; [apply guarded_triple|by intros -> s Hs|]. intros ->.
  eapply triple_then; [apply espnow_triple|by intros -> s Hs|]. intros ->.
  eapply triple_bind; [apply uros_triple|]. intros err s [_ Hs]. split; [done|]. eapply uros_ready; [|exact Hs]. by_class.
Qed.

(** ** The hub *)

Definition hub_tasks : list task := [SpiPump; GwPump; GwDownlink; Ring; BmsTask; HubSafety; HubTimeSync].

Definition spi_up (e : spib_env) : bool := queues_ok e && is_ok (gpio_err e) && is_ok (slave_err e) && task_ok e.
Definition gateway_up (e : hub_env) : bool := hu_route_q e && hu_pump e && hu_dnl e.
Definition ring_up (e : hub_env) : bool := is_ok (hu_strip e) && hu_led_task e.
Definition bms_up (e : bms_start_env) : bool :=
  is_ok (in_err e) && is_ok (out_err e) && is_ok (latch_err e) && is_ok (adc_err e) && bms_task_ok e && is_ok (isr_err e).
Definition timer_up (errs : esp_err_t * esp_err_t) : bool := is_ok errs.1 && is_ok errs.2.
Definition hub_up (e : hub_env) : bool :=
  open_up (hu_open1 e) && open_up (hu_open2 e) && spi_up (hu_spi e) && gateway_up e && ring_up e && bms_up (hu_bms e) &&
  timer_up (hu_safety e) && timer_up (hu_sync e).

(** A hub out of reset. *)
Definition unlinked (s : hubnode) : Prop :=
  s_started (bridge (hn_gw s)) = false /\ s_last_pub_state (hn_gw s) = 0xFF /\ flag_set (hn_gw s) = false /\ hn_tasks s = [].
(** The link to the orchestrator runs; nothing has been published on it. *)
Definition linked (s : hubnode) : Prop :=
  s_started (bridge (hn_gw s)) = true /\ s_last_pub_state (hn_gw s) = 0xFF /\ flag_set (hn_gw s) = false /\ hn_tasks s = [SpiPump].

(** Every frame of the six assigned classes that [ctx] receives, whoever it is for, is handed
    to the gateway as one of port [p]. *)
Definition takes_all (p : Z) (ctx : ps_can_ctx) : Prop := forall f, ps_can_id_cls (f_id f) <= PS_CLS_MGMT ->
  (rx_dispatch ctx f).2 = Some (gw_rx_token p, f).

Definition routing (ts : list task) (s : hubnode) : Prop :=
  s_started (bridge (hn_gw s)) = true /\ Gateway.published (hn_gw s) /\ hn_tasks s = ts /\
  exists c1 c2, s_can (hn_gw s) = [Some c1; Some c2] /\ takes_all PS_PORT_CAN1 c1 /\ takes_all PS_PORT_CAN2 c2.

(** The gateway's tasks run only on a link that runs. *)
Definition link_first (s : hubnode) : Prop := GwPump ∈ hn_tasks s -> s_started (bridge (hn_gw s)) = true.

Lemma unlinked_first s : unlinked s -> link_first s.
Proof. intros (_ & _ & _ & Ht). unfold link_first. rewrite Ht. by intros ?%not_elem_of_nil. Qed.
Lemma linked_first s : linked s -> link_first s.
Proof. intros (Hb & _) _. exact Hb. Qed.
Lemma routing_first ts s : routing ts s -> link_first s.
Proof. intros (Hb & _) _. exact Hb. Qed.

(** The link's start function, called out of reset. *)
Lemma spib_start_spec b e : s_started b = false ->
  let '(b', err) := ps_spib_start b (Some (0%nat, 0%nat)) e in
  is_ok err = spi_up e /\ s_sticky_flags b' = s_sticky_flags b /\ (spi_up e = true -> s_started b' = true).
Proof.
  intros Hs. unfold ps_spib_start, spi_up. rewrite Hs. cbn [Nat.eqb].
  destruct (queues_ok e); [|done]. destruct (is_ok (gpio_err e)) eqn:E1; cbn [negb andb]; [|by rewrite E1].
  destruct (is_ok (slave_err e)) eqn:E2; cbn [negb andb]; [|by rewrite E2].
  match goal with |- context [spib_build_tx ?x _] => set (b1 := x) end.
  pose proof (sticky_build_tx b1 (s_tx b1 !!! 0%nat)) as S1. change (s_sticky_flags b1) with (s_sticky_flags b) in S1.
  destruct (spib_build_tx b1 _) as [b2 f2]. cbn [fst] in S1.
  match goal with |- context [spib_build_tx ?x _] => set (b3 := x) end. pose proof (sticky_build_tx b3 (s_tx b3 !!! 1%nat)) as S3.
  change (s_sticky_flags b3) with (s_sticky_flags b2) in S3. destruct (spib_build_tx b3 _) as [b4 f4]. cbn [fst] in S3.
  destruct (task_ok e); cbn; by rewrite S3.
Qed.

Lemma spi_triple e E : triple unlinked (hub_start_spi e) (checks (spi_up (hu_spi e)) linked link_first) E.
Proof.
  intros s (U1 & U2 & U3 & U4). pose proof (spib_start_spec (bridge (hn_gw s)) (hu_spi e) U1) as Hb. unfold hub_start_spi.
  destruct (ps_spib_start _ _ _) as [b err]. destruct Hb as (Ho & Hf & Hst). split; [done|]. rewrite Ho. destruct (spi_up (hu_spi e)).
  - unfold linked, flag_set in *. cbn. rewrite U4, Hf. by split_and!; [apply Hst|..].
  - unfold link_first. cbn. rewrite U4. by intros ?%not_elem_of_nil.
Qed.

(** A promiscuous context with the gateway's handler on the classes below [k]. *)
Definition covers (p k : Z) (ctx : ps_can_ctx) : Prop :=
  node_id ctx = 0 /\ length (cls_cb ctx) = 8%nat /\ forall c, 0 <= c < k -> cls_cb ctx !!! Z.to_nat c = Some (gw_rx_token p).

Lemma covers_register p k ctx : 0 <= k < 8 -> covers p k ctx -> exists ctx',
  ps_can_register_class_cb (Some ctx) k (Some (gw_rx_token p)) = (Some ctx', ESP_OK) /\ covers p (k + 1) ctx'.
Proof.
  intros Hk (Hn & Hl & Hc). unfold ps_can_register_class_cb. destruct (Z.leb_spec PS_CAN_CLASS_COUNT k); [unfold PS_CAN_CLASS_COUNT in *; lia|].
  eexists. split; [reflexivity|]. split; [done|]. cbn. split; [by rewrite length_insert|]. intros c Hr.
  destruct (decide (c = k)) as [->|Hne]; [apply list_lookup_total_insert_eq; lia|].
  rewrite list_lookup_total_insert_ne by lia. apply Hc. lia.
Qed.

Lemma covers_classes n : forall k c1 c2, 0 <= k -> k + Z.of_nat n <= 8 -> covers PS_PORT_CAN1 k c1 -> covers PS_PORT_CAN2 k c2 ->
  exists c1' c2', register_classes (seqZ k (Z.of_nat n)) (Some c1) (Some c2) = (Some c1', Some c2', ESP_OK) /\
    covers PS_PORT_CAN1 (k + Z.of_nat n) c1' /\ covers PS_PORT_CAN2 (k + Z.of_nat n) c2'.
Proof.
  induction n as [|n IH]; intros k c1 c2 H0k Hk C1 C2; [exists c1, c2; by rewrite Z.add_0_r|].
  rewrite seqZ_cons by lia. cbn [register_classes].
  destruct (covers_register _ k c1 ltac:(lia) C1) as (d1 & -> & D1), (covers_register _ k c2 ltac:(lia) C2) as (d2 & -> & D2). cbn [is_ok negb].
  replace (k + Z.of_nat (S n)) with (Z.succ k + Z.of_nat n) by lia. replace (Z.pred (Z.of_nat (S n))) with (Z.of_nat n) by lia.
  apply IH; [lia|lia|done|done].
Qed.

Lemma covers_takes_all p ctx : covers p 6 ctx -> takes_all p ctx.
Proof.
  intros (Hn & _ & Hc) f Hf. unfold rx_dispatch, PS_CLS_MGMT in *. rewrite Hn. pose proof (cls_range (f_id f)).
  rewrite Hc by lia. done.
Qed.

Lemma opened_covers p ctl len : covers p 0 (ps_can_open_ctx 0 ctl len).
Proof. split; [done|]. split; [done|]. intros c Hc. lia. Qed.

Lemma gateway_triple e c1 c2 E : covers PS_PORT_CAN1 0 c1 -> covers PS_PORT_CAN2 0 c2 ->
  triple linked (hub_start_gateway e (Some c1) (Some c2)) (checks (gateway_up e) (routing [SpiPump; GwPump; GwDownlink]) link_first) E.
Proof.
  intros C1 C2 s (U1 & U2 & U3 & U4). destruct (covers_classes 6 0 c1 c2 ltac:(lia) ltac:(lia) C1 C2) as (c1' & c2' & Er & T1 & T2).
  unfold hub_start_gateway, hub_gateway_start, gateway_up. change (seqZ PS_CLS_SAFETY (PS_CLS_MGMT + 1)) with (seqZ 0 (Z.of_nat 6)).
  rewrite Er. cbn [is_ok negb].
  destruct (hu_route_q e), (hu_pump e), (hu_dnl e); cbn [negb andb is_ok]; (split; [done|]); unfold link_first, routing; cbn; try (intros _; exact U1).
  rewrite U4. split_and!; [done| |done|].
  - split; cbn; [by rewrite U2|by right].
  - exists c1', c2'. split; [done|]. by split; apply covers_takes_all.
Qed.

(** The remaining start functions leave the gateway alone. *)
Lemma routing_add ts ts' (s s' : hubnode) : hn_gw s' = hn_gw s -> hn_tasks s' = hn_tasks s ++ ts' -> routing ts s -> routing (ts ++ ts') s'.
Proof. intros Eg Et (R1 & R2 & R3 & R4). unfold routing. rewrite Eg, Et, R3. by split_and!. Qed.

Lemma ring_triple e ts E : triple (routing ts) (hub_start_led e) (checks (ring_up e) (routing (ts ++ [Ring])) link_first) E.
Proof.
  intros s Hs. pose proof (routing_first _ _ Hs) as Hf. unfold hub_start_led, hub_led_start, ring_up, checks.
  destruct (is_ok (hu_strip e)) eqn:E1, (hu_led_task e); cbn [negb andb is_ok]; rewrite ?E1; (split; [done|]).
  1: by eapply routing_add; [..|exact Hs].
  all: eapply routing_first, (routing_add ts []); [..|exact Hs]; done.
Qed.

Lemma bms_triple e ts E : triple (routing ts) (hub_start_bms e) (checks (bms_up (hu_bms e)) (routing (ts ++ [BmsTask])) link_first) E.
Proof.
  intros s Hs. unfold hub_start_bms. destruct (hub_bms_start _ _ _) as [b err] eqn:Eb.
  assert (is_ok err = bms_up (hu_bms e)) as Ho.
  { unfold hub_bms_start in Eb. cbn [negb] in Eb. unfold bms_up.
    repeat match type of Eb with (if negb ?c then _ else _) = _ => destruct c eqn:?; cbn [negb andb] in * end; injection Eb as _ <-; done. }
  split; [done|]. rewrite Ho. destruct (bms_up _); [by eapply routing_add; [..|exact Hs]|].
  eapply routing_first, (routing_add ts []); [..|exact Hs]; done.
Qed.

Lemma timer_triple t errs ts E : triple (routing ts) (start_periodic t errs) (checks (timer_up errs) (routing (ts ++ [t])) link_first) E.
Proof.
  intros s Hs. pose proof (routing_first _ _ Hs) as Hf. unfold start_periodic, timer_up, checks.
  destruct (is_ok errs.1) eqn:E1, (is_ok errs.2) eqn:E2; cbn [negb andb]; (split; [done|]); try exact Hf.
  by eapply routing_add; [..|exact Hs].
Qed.

(** The hub comes up exactly if every call of its start-up succeeds, and then routes; where it
    aborts, the gateway has not run without the link. *)
Lemma hub_triple e : triple unlinked (hub_app_main e) (fun _ s => hub_up e = true /\ routing hub_tasks s) (fun s => hub_up e = false /\ link_first s).
Proof.
  unfold hub_app_main, hub_up. destruct (open_spec 0 0 128 (hu_open1 e)) as (err1 & held1 & -> & E1).
  destruct (open_spec 0 1 128 (hu_open2 e)) as (err2 & held2 & -> & E2).
  eapply triple_if; [exact E1|by intros ->; split; [|apply unlinked_first]|]. intros ->.
  eapply triple_if; [exact E2|by intros ->; split; [|apply unlinked_first]|]. intros ->. cbn [andb].
  eapply triple_then; [apply spi_triple|by intros ->|]. intros ->.
  eapply triple_then; [apply gateway_triple; apply opened_covers|by intros ->|]. intros ->.
  eapply triple_then; [apply ring_triple|by intros ->|]. intros ->.
  eapply triple_then; [apply bms_triple|by intros ->|]. intros ->.
  eapply triple_then; [apply timer_triple|by intros ->|]. intros ->.
  eapply triple_weaken; [eapply triple_last; [apply timer_triple|]|..].
  2: { intros u s [-> Hs]. by split. }
  2: { intros s Hs. exact Hs. }
  intros -> s Hs. by split.
Qed.

(** ** Start-up *)

(** What a start-up leaves: where it ends, what the checked calls answered and the state; where
    it aborts, the same. *)
Definition outcome {S} (r : S * (unit + esp_err_t)) (up : bool) (Q E : S -> Prop) : Prop :=
  match r with (s, inl _) => up = true /\ Q s | (s, inr _) => up = false /\ E s end.


(** The defect board_limb.h names: the gates of joint 0 include pins 22 to 25, so a limb in
    the full build does not come up on a chip whose driver refuses a generator on a pin it
    does not have (the ESP32-S3 has 0 to 21 and 26 to 48); the bench build is not touched. *)
Definition s3_pin (g : Z) : bool := (0 <=? g) && (g <=? 21) || (26 <=? g) && (g <=? 48).

Lemma first_err_in errs : (exists err, err ∈ errs /\ is_ok err = false) -> is_ok (first_err errs) = false.
Proof.
  induction errs as [|x errs IH]; intros (err & Hin & He); [by apply elem_of_nil in Hin|]. cbn [first_err].
  apply elem_of_cons in Hin. destruct (is_ok x) eqn:Ex; [|done]. apply IH. destruct Hin as [->|]; [congruence|by exists err].
Qed.

Lemma stage_refused w j cfg c : (forall p d, c ∈ init_calls (focdrv_config cfg) p d) -> is_ok (w_drv w j c) = false ->
  is_ok (stage_err w j cfg) = false.
Proof.
  intros Hc Hd. unfold stage_err, ps_focdrv_init. destruct (w_alloc w j); [|done]. cbn [negb pwm_hz focdrv_config].
  change (u32 _ =? 0) with false. cbn beta iota zeta. set (calls := init_calls _ _ _).
  assert (c ∈ calls) as Hin by apply Hc. destruct (list_find _ calls) as [[i x]|] eqn:Ef; cbn [from_option snd].
  - by apply list_find_Some in Ef as (_ & Ef & _).
  - by apply list_find_None in Ef as Hf; rewrite Forall_forall in Hf; destruct (Hf c Hin).
Qed.

Theorem limb_board_defect (s : node) id e : started (nd_glue s) = false -> nd_tasks s = [] -> 1 <= id <= 4 ->
  w_bench (l_hw e) = false ->
  (forall j i sd g, s3_pin g = false -> is_ok (w_drv (l_hw e) j (mcpwm_new_generator i sd g)) = false) ->
  exists s' err, limb_app_main id e s = (s', inr err) /\ calm s'.
Proof.
  intros Hs Ht Hid Hb Hdrv. pose proof (limb_triple id e s (conj Hs Ht)) as Hl.
  destruct (limb_app_main id e s) as [s' [u|err]]; [|exists s', err; by destruct Hl]. destruct Hl as [Hup _]. exfalso.
  assert (hw_up id (l_hw e) = false) as Hf; [|unfold limb_up in Hup; by rewrite Hf, andb_false_r in Hup].
  unfold hw_up. rewrite Hb. cbn [orb]. set (w := l_hw e) in *.
  assert (exists c0 rest, PS_LIMB_JOINTS id = c0 :: rest /\ gates c0 = [21; 22; 23; 24; 25; 33]) as (c0 & rest & -> & Hg).
  { assert (id = 1 \/ id = 2 \/ id = 3 \/ id = 4) as [->|[->|[->| ->]]] by lia; eexists _, _; split; reflexivity. }
  rewrite (first_err_in (concat _)), !andb_false_r; [done|]. exists (stage_err w 0 c0). split; [cbn; right; left|].
  apply (stage_refused w 0 c0 (mcpwm_new_generator 0 LowSide 22)); [|by apply Hdrv].
  intros p d. unfold init_calls, phase_calls, focdrv_config. cbn [gpios group_id]. rewrite Hg. apply list_elem_of_In. cbn. tauto.
Qed.

(** Start-up of the hub, whatever the platform answers to any call: it comes up exactly if
    every call succeeds.  Then the link to the orchestrator runs, the published state agrees
    with the mirror of the suit's, and each bus hands every frame of the six assigned
    classes, whoever it is for, to the gateway as one of its own port.  Where it aborts, the
    gateway has not run without the link. *)
Theorem hub_boot_routes (s : hubnode) e : unlinked s -> outcome (hub_app_main e s) (hub_up e) (routing hub_tasks) link_first.
Proof. apply (hub_triple e s). Qed.
End BootSpec.

(** ** Examples *)

Definition all_open : open_env := Build_open_env true true true true true true true true.
Definition demo_edge : edge_env := {| b_open := all_open; b_now := 0; b_lock := true; b_create := ESP_OK; b_start := ESP_OK; b_uros := None |}.
Definition demo_node : node :=
  {| nd_glue := off_glue; nd_tasks := []; nd_xrce := {| t_can := None; t_node_id := 0; t_rx := xStreamBufferCreate 0; t_rx_overruns := 0 |}; nd_session := None |}.
Definition demo_hw : limb_hw :=
  {| w_bench := false; w_i2c := ESP_OK; w_spi := ESP_OK; w_adc := ESP_OK; w_chan := fun _ => ESP_OK; w_enc := fun _ => ESP_OK;
     w_alloc := fun _ => true; w_drv := fun _ _ => ESP_OK |}.
Definition demo_limb_env : limb_env :=
  {| l_edge := demo_edge; l_control_task := true; l_timer := replicate 5 ESP_OK; l_comms_task := true; l_hw := demo_hw; l_when := 2 |}.
(** On the chip. *)
Definition s3_env : limb_env :=
  {| demo_limb_env with l_hw := {| demo_hw with w_drv := fun _ c =>
       match c with mcpwm_new_generator _ _ g => if s3_pin g then ESP_OK else ESP_ERR_INVALID_ARG | _ => ESP_OK end |} |}.
(** The servo task could not be created, so that its bank does not matter. *)
Definition demo_flight_env : flight_env :=
  {| f_edge := demo_edge; f_servo := false; f_aero := true; f_comms := true; f_bank := fun _ => ESP_FAIL; f_servo_when := 0;
     f_probe := (ESP_OK, ESP_OK, ESP_OK); f_aero_when := 7 |}.


Lemma limb_board_defect_witness : exists s' err, limb_app_main PS_NODE_LEG_L s3_env demo_node = (s', inr err) /\ calm s'.
Proof.
  apply (limb_board_defect demo_node PS_NODE_LEG_L s3_env); [reflexivity|reflexivity|unfold PS_NODE_LEG_L; lia|reflexivity|].
  intros j i sd g Hg. cbn. by rewrite Hg.
Defined.

Definition demo_hubnode : hubnode :=
  {| hn_gw := {| demo_gw with bridge := spib_off (xQueueCreate 0) (xQueueCreate 0) |};
     hn_bms := {| s_trip_cycles := 0; s_trip_flag := false; s_rearm_requested := false; s_cell_mv := []; s_ntc_cC := []; s_pack_cV := 0; s_curr_cA := 0;
       s_fault_bits := 0; s_short_latched := false; s_full_scan_done := false; s_tick := 0; s_deb := []; s_tripped := []; s_warn_last_ms := [];
       s_safety_low := 0; s_estop_seq := 0; s_summary_seq := 0; s_cells_seq := 0; s_stats_seq := 0; s_cells_group := 0; s_prev_can := [];
       s_prev_spib := s_stats (spib_off (xQueueCreate 0) (xQueueCreate 0)); notified := false; mux_sel := 0; strobes := 0 |};
     hn_led := None; hn_tasks := [] |}.
Definition demo_hub_env : hub_env :=
  {| hu_open1 := all_open; hu_open2 := all_open; hu_spi := all_ok; hu_now := 5; hu_route_q := true; hu_pump := true; hu_dnl := true;
     hu_strip := ESP_OK; hu_led_task := true; hu_t0 := 0;
     hu_bms := {| in_err := ESP_OK; out_err := ESP_OK; latch_err := ESP_OK; adc_err := ESP_OK; bms_task_ok := true; isr_err := ESP_OK; latch_level := true |};
     hu_safety := (ESP_OK, ESP_OK); hu_sync := (ESP_OK, ESP_OK) |}.

Lemma hub_boot_routes_witness : unlinked demo_hubnode /\ routing hub_tasks (hub_app_main demo_hub_env demo_hubnode).1.
Proof.
  assert (unlinked demo_hubnode) as Hu by (split_and!; reflexivity). split; [exact Hu|].
  pose proof (hub_boot_routes demo_hubnode demo_hub_env Hu) as Hr.
  destruct (hub_app_main demo_hub_env demo_hubnode) as [s [u|err]]; [exact (proj2 Hr)|]. destruct Hr as [Hr _]. discriminate Hr.
Defined.
