(* ===== verification/Entities.v ===== *)
(** The application side of the micro-ROS plane: the entities each edge node creates for a
    session, its parameter, timer and subscription callbacks, and how the session task
    drives them (comms_task.c of node_limb, node_flight and node_helmet, as built with the
    client library; the configurations handed to [ps_uros_start] by their app_main.c).

    The client library is not part of the repository.  A call to it is an entry of a log,
    [rcall]; what it does with the call is not modelled, and the nodes do not look at its
    answers. *)
From stdpp Require Import strings.
From S2P Require Import Prelude CanId Wire Rtos Txq Can Safety SafetyEsp Float32 Limb LimbSpec Flight FlightSpec Helmet HelmetSpec Uros Boot.
From Stdlib Require Import SpecFloat.

(** ** The client library, as called *)

Inductive robj := ParamServer | AlivePub | AliveTimer | VoicePub | AmbientPub | HudSub | PubTimer.

Inductive rinit :=
  | AsServer (max_params : Z)
  | AsPublisher (type topic : string)
  | AsSubscription (type topic : string)
  | AsTimer (ms : Z).

Inductive rmsg := MUInt32 (n : Z) | MBool (b : bool) | MString (s : string) | MTemperature (t variance : spec_float).

(** [RFini o nd]: [nd] tells whether the node handed to the call is one that was set; a timer
    needs none. *)
Inductive rcall :=
  | RInit (o : robj) (i : rinit)
  | RExecutorAdd (o : robj)
  | RAddParameter (nm : string)
  | RSetDouble (nm : string) (v : spec_float)
  | RMarkerInit
  | RPublish (o : robj) (m : rmsg)
  | RAnswer (ok : bool)
  | RFini (o : robj) (nd : bool)
  | RFiniExecutor | RFiniNode | RFiniSupport.

(** A [Parameter] handed to a callback: its name, and its value where its type is double. *)
Record RosParameter := { p_name : option string; p_double : option spec_float }.

(** What [snprintf] leaves in a buffer of [size] bytes. *)
Definition snprintf (size : nat) (text : string) : string := String.substring 0 (size - 1) text.

(** ** An application of the session task *)

(** The application's state, the steps of its other tasks, the callbacks the executor can run,
    and the functions of its [ps_uros_config_t]; a callback answers with the calls it makes. *)
Class UrosApp := {
  app_t : Type;
  task : Type;
  callback : Type;
  run_task : app_t -> task -> app_t;
  run_callback : app_t -> callback -> app_t * list rcall;
  create_entities : app_t -> app_t * list rcall;
  destroy_entities : option (app_t -> list rcall);
  config : ps_uros_config_t;
}.

Section Driven.
Context {A : UrosApp}.

Inductive step := Other (t : task) | Callback (cb : callback).

(** The executor spins, and so runs callbacks, only while there is a session. *)
Definition run_step (up : bool) (a : app_t) (s : step) : app_t * list rcall :=
  match s with
  | Other t => (run_task a t, [])
  | Callback cb => if up then run_callback a cb else (a, [])
  end.

Fixpoint run_steps (up : bool) (a : app_t) (ss : list step) : app_t * list rcall :=
  match ss with
  | [] => (a, [])
  | s :: ss => let '(a, l) := run_step up a s in let '(a, l') := run_steps up a ss in (a, l ++ l')
  end.

(** What a call of the session task amounts to. *)
Definition on_ucall (a : app_t) (u : ucall) : app_t * list rcall :=
  match u with
  | CreateEntities => create_entities a
  | DestroyEntities => (a, match destroy_entities with Some f => f a | None => [] end)
  | OnAgentState _ => (a, [])
  | FiniExecutor => (a, [RFiniExecutor])
  | FiniNode => (a, [RFiniNode])
  | FiniSupport => (a, [RFiniSupport])
  end.

Fixpoint on_ucalls (a : app_t) (us : list ucall) : app_t * list rcall :=
  match us with
  | [] => (a, [])
  | u :: us => let '(a, l) := on_ucall a u in let '(a, l') := on_ucalls a us in (a, l ++ l')
  end.

(** A turn of the session task: [steps] happen up to the end of its spin, where there is a
    session; then the link is looked after. *)
Record turn := { steps : list step; t_ping : bool; t_init : bool }.

Definition app_turn (ss : session) (a : app_t) (t : turn) : session * app_t * list rcall :=
  let '(a, l) := run_steps (linked ss) a (steps t) in
  let '(ss, us) := session_turn config ss (t_ping t) (t_init t) in
  let '(a, l') := on_ucalls a us in
  (ss, a, l ++ l').

Fixpoint app_run (ss : session) (a : app_t) (ts : list turn) : session * app_t * list rcall :=
  match ts with
  | [] => (ss, a, [])
  | t :: ts => let '(ss, a, l) := app_turn ss a t in let '(ss, a, l') := app_run ss a ts in (ss, a, l ++ l')
  end.
End Driven.

(** ** node_limb *)

Section Limb.
Context `{RtosQueue} `{TwaiDlc} (undef : f32 -> Z) (undef_d : spec_float -> Z) (sinf cosf : f32 -> f32).

Definition UROS_PARAMS_PER_JOINT : nat := 5.
Definition UROS_MAX_PARAMS : nat := PS_LIMB_JOINT_COUNT * UROS_PARAMS_PER_JOINT.

(** The node with the buffers of its parameter names and the beacon's counter. *)
Record limb_app := { la_limb : limb; s_param_names : list string; s_alive_data : Z }.

(** [None]: the null pointer of a deletion. *)
Definition uros_on_param_changed (a : limb_app) (new_param : option RosParameter) : limb_app * bool :=
  match new_param with
  | Some {| p_name := nm; p_double := Some v |} =>
    let '(s, ok) := limb_param_set undef_d (la_limb a) nm v in ({| a with la_limb := s |}, ok)
  | _ => (a, false)
  end.

Definition uros_alive_timer_cb (a : limb_app) : limb_app * list rcall :=
  let a := {| a with s_alive_data := u32 (s_alive_data a + 1) |} in
  (a, [RPublish AlivePub (MUInt32 (s_alive_data a))]).

Definition suffixes : list string := ["pos_kp"; "pos_ki"; "vel_kp"; "vel_ki"; "torque_limit_cnm"]%string.

(** The body of the inner loop, for the parameter [n]. *)
Definition declare_param (a : limb_app) (n : nat) (joint suffix : string) : limb_app * list rcall :=
  let nm := snprintf 40 (joint +:+ "_" +:+ suffix) in
  let a := {| a with s_param_names := <[n := nm]> (s_param_names a) |} in
  let v := default (S754_zero false) (limb_param_get (la_limb a) (Some nm)) in
  (a, [RAddParameter nm; RSetDouble nm v]).

(** The two loops, as the pairs of names they run through; [n] counts along. *)
Fixpoint declare_params (a : limb_app) (n : nat) (ps : list (string * string)) : limb_app * list rcall :=
  match ps with
  | [] => (a, [])
  | (joint, suffix) :: ps =>
    let '(a, l) := declare_param a n joint suffix in
    let '(a, l') := declare_params a (S n) ps in (a, l ++ l')
  end.

Definition param_pairs (js : list ps_limb_joint_cfg_t) : list (string * string) :=
  cfg ← js; suffix ← suffixes; [(name cfg, suffix)].

Definition limb_uros_create_entities (arg : string) (a : limb_app) : limb_app * list rcall :=
  let '(a, l) := declare_params a 0 (param_pairs (joints (la_limb a))) in
  ({| a with s_alive_data := 0 |},
   [RInit ParamServer (AsServer (Z.of_nat UROS_MAX_PARAMS)); RExecutorAdd ParamServer] ++ l ++
   [RInit AlivePub (AsPublisher "std_msgs/UInt32" arg); RInit AliveTimer (AsTimer 1000); RExecutorAdd AliveTimer]).

Inductive limb_cb := LimbParam (new_param : option RosParameter) | LimbAlive.

Definition alive_topic (node_id : Z) : string := snprintf 64 ("/suit/nodes/" +:+ node_name_for node_id +:+ "/alive").

Definition limb_uros (node_id : Z) : UrosApp := {|
  app_t := limb_app; task := lev; callback := limb_cb;
  run_task a ev := {| a with la_limb := lstep undef undef_d sinf cosf (la_limb a) ev |};
  run_callback a cb :=
    match cb with
    | LimbParam p => let '(a, ok) := uros_on_param_changed a p in (a, [RAnswer ok])
    | LimbAlive => uros_alive_timer_cb a
    end;
  create_entities := limb_uros_create_entities (alive_topic node_id);
  destroy_entities := None;
  config := {| has_destroy := false; has_agent_state := false; spin_period_ms := 0 |} |}.
End Limb.

(** ** node_flight *)

Section Flight.
Context `{RtosQueue} `{TwaiDlc} (undef : f32 -> Z).

(** The node, and whether [s_uros_node] is set. *)
Record flight_app := { fa_flight : flight; s_uros_node : bool }.

Definition param_of (nm : string) : param :=
  if String.eqb nm "rho" then Rho else if String.eqb nm "rate_scale" then RateScale else OtherParam.

Definition on_param_changed (a : flight_app) (new_param : option RosParameter) : flight_app * bool :=
  match new_param with
  | Some {| p_name := nm; p_double := Some v |} =>
    let '(p, ok) := flight_param_set (prm (fa_flight a)) (param_of <$> nm) v in
    ({| a with fa_flight := {| (fa_flight a) with prm := p |} |}, ok)
  | _ => (a, false)
  end.

Definition alive_timer_cb (a : flight_app) : flight_app * list rcall := (a, [RPublish AlivePub (MBool true)]).

Definition flight_uros_create_entities (a : flight_app) : flight_app * list rcall :=
  let a := {| a with s_uros_node := true |} in
  (a, [RInit ParamServer (AsServer 2); RExecutorAdd ParamServer;
       RAddParameter "rho"; RSetDouble "rho" (to_double (flight_param_rho (prm (fa_flight a))));
       RAddParameter "rate_scale"; RSetDouble "rate_scale" (to_double (flight_param_rate_scale (prm (fa_flight a))));
       RInit AlivePub (AsPublisher "std_msgs/Bool" "~/alive"); RInit AliveTimer (AsTimer 1000); RExecutorAdd AliveTimer]).

Definition flight_uros_destroy_entities (a : flight_app) : list rcall :=
  [RFini AliveTimer true; RFini AlivePub (s_uros_node a); RFini ParamServer (s_uros_node a)].

Inductive flight_cb := FlightParam (new_param : option RosParameter) | FlightAlive.

Definition flight_uros : UrosApp := {|
  app_t := flight_app; task := fev; callback := flight_cb;
  run_task a ev := {| a with fa_flight := fstep undef (fa_flight a) ev |};
  run_callback a cb :=
    match cb with
    | FlightParam p => let '(a, ok) := on_param_changed a p in (a, [RAnswer ok])
    | FlightAlive => alive_timer_cb a
    end;
  create_entities := flight_uros_create_entities;
  destroy_entities := Some flight_uros_destroy_entities;
  config := {| has_destroy := true; has_agent_state := false; spin_period_ms := 0 |} |}.
End Flight.

(** ** node_helmet *)

Section Helmet.
Context `{RtosQueue} `{TwaiDlc} (undef : f32 -> Z).

(** [tsens]: what the temperature sensor reads, [None] where it fails. *)
Definition pub_timer_cb (s : helmet) (tsens : option f32) : helmet * list rcall :=
  let '(s, wake) := helmet_take_wake_event s in
  (s, (if wake then [RPublish VoicePub (MString (snprintf 32 "wake"))] else []) ++
      match tsens with
      | Some t => [RPublish AmbientPub (MTemperature (to_double t) (S754_zero false))]
      | None => []
      end).

Definition helmet_uros_create_entities (s : helmet) : helmet * list rcall :=
  (s, [RInit VoicePub (AsPublisher "std_msgs/String" "/suit/voice/trigger");
       RInit AmbientPub (AsPublisher "sensor_msgs/Temperature" "/suit/environment/ambient");
       RMarkerInit;
       RInit HudSub (AsSubscription "visualization_msgs/Marker" "/suit/hud/telemetry_display"); RExecutorAdd HudSub;
       RInit PubTimer (AsTimer 250); RExecutorAdd PubTimer]).

Inductive helmet_cb := HelmetMarker (ns : option (list Z)) (scale_x : spec_float) (text : option (list Z)) | HelmetTimer (tsens : option f32).

Definition helmet_uros : UrosApp := {|
  app_t := helmet; task := hev; callback := helmet_cb;
  run_task s ev := hstep undef s ev;
  run_callback s cb :=
    match cb with
    | HelmetMarker ns x text => (hud_marker_cb undef s ns x text, [])
    | HelmetTimer tsens => pub_timer_cb s tsens
    end;
  create_entities := helmet_uros_create_entities;
  destroy_entities := None;
  config := {| has_destroy := false; has_agent_state := false; spin_period_ms := 0 |} |}.
End Helmet.
