(* ===== verification/EntitiesSpec.v ===== *)
(** What the micro-ROS side of the edge nodes promises: the parameters of a node are one store
    that outlives its sessions ([params_survive_reconnect]), and which entities are finalised
    with the session they were created for ([entities_finalised]). *)
From stdpp Require Import strings gmap.
From S2P Require Import Prelude CanId Wire Rtos Txq Can Safety SafetySpec SafetyEsp Float32 Ctl Limb LimbSpec Flight FlightSpec Helmet HelmetSpec Uros Boot Entities.
From stdpp Require Import list.
From Stdlib Require Import SpecFloat.
#[local] Open Scope Z_scope.
#[local] Open Scope cint_scope.

(** ** A parameter store *)

(** What the agent sees of the parameters: values declared and answers to changes. *)
Inductive obs := ODeclare (nm : string) (v : spec_float) | OAnswer (ok : bool).

Definition observe (r : rcall) : option obs :=
  match r with RSetDouble nm v => Some (ODeclare nm v) | RAnswer ok => Some (OAnswer ok) | _ => None end.
Definition observed (l : list rcall) : list obs := omap observe l.

Lemma observed_app l l' : observed (l ++ l') = observed l ++ observed l'.
Proof. apply omap_app. Qed.

(** A node's parameters: their names, and what is stored for a value, or that it is refused. *)
Record board := { names : list string; admit_value : string -> spec_float -> option spec_float }.

Abbreviation store := (gmap string spec_float).

Definition change (b : board) (m : store) (p : option RosParameter) : store * bool :=
  match p with
  | Some {| p_name := Some nm; p_double := Some v |} =>
    match admit_value b nm v with Some w => (<[nm := w]> m, true) | None => (m, false) end
  | _ => (m, false)
  end.

Definition declare (b : board) (m : store) : list obs := (fun nm => ODeclare nm (default (S754_zero false) (m !! nm))) <$> names b.

Section Refinement.
Context {A : UrosApp} (b : board) (param_of_cb : callback -> option (option RosParameter)).

(** The store driven by the session: changes come in while there is one, and its values are
    declared when one begins. *)
Fixpoint store_steps (up : bool) (m : store) (ss : list step) : store * list obs :=
  match ss with
  | [] => (m, [])
  | s :: ss =>
    match (match s with Callback cb => if up then param_of_cb cb else None | Other _ => None end) with
    | Some p => let '(m, ok) := change b m p in let '(m, l) := store_steps up m ss in (m, OAnswer ok :: l)
    | None => store_steps up m ss
    end
  end.

Definition is_create (u : ucall) : bool := match u with CreateEntities => true | _ => false end.

Fixpoint store_run (ss : session) (m : store) (ts : list turn) : list obs :=
  match ts with
  | [] => []
  | t :: ts =>
    let '(m, l) := store_steps (linked ss) m (steps t) in
    let '(ss, us) := session_turn config ss (t_ping t) (t_init t) in
    l ++ (_ ← List.filter is_create us; declare b m) ++ store_run ss m ts
  end.

(** What a node has to show: [view] reads a parameter, [quiet] are the tasks that set none. *)
Class ParamNode (view : app_t -> string -> option spec_float) (valid : app_t -> Prop) (quiet : task -> Prop) := {
  pn_task : forall a t, valid a -> quiet t -> valid (run_task a t) /\ forall nm, view (run_task a t) nm = view a nm;
  pn_plain : forall a cb, valid a -> param_of_cb cb = None ->
    let '(a', l) := run_callback a cb in valid a' /\ observed l = [] /\ forall nm, view a' nm = view a nm;
  pn_change : forall a cb p, valid a -> param_of_cb cb = Some p ->
    let '(a', l) := run_callback a cb in valid a' /\
    forall m : store, (forall nm, view a nm = m !! nm) ->
    observed l = [OAnswer (change b m p).2] /\ forall nm, view a' nm = (change b m p).1 !! nm;
  pn_create : forall a, valid a -> let '(a', l) := create_entities a in valid a' /\ (forall nm, view a' nm = view a nm) /\
    observed l = (fun nm => ODeclare nm (default (S754_zero false) (view a nm))) <$> names b;
  pn_destroy : forall a f, destroy_entities = Some f -> observed (f a) = [];
}.

Context (view : app_t -> string -> option spec_float) (valid : app_t -> Prop) (quiet : task -> Prop) `{!ParamNode view valid quiet}.

Definition holds (a : app_t) (m : store) : Prop := valid a /\ forall nm, view a nm = m !! nm.

Definition quiet_step (s : step) : Prop := match s with Other t => quiet t | Callback _ => True end.
Definition quiet_turn (t : turn) : Prop := Forall quiet_step (steps t).

Lemma steps_refine up ss : forall a m, holds a m -> Forall quiet_step ss ->
  let '(a', l) := run_steps up a ss in let '(m', l') := store_steps up m ss in holds a' m' /\ observed l = l'.
Proof.
  induction ss as [|s ss IH]; intros a m [Hv Hm] Hq; [done|]. apply Forall_cons in Hq as [Hs Hq]. cbn [run_steps store_steps].
  destruct s as [t|cb]; cbn [run_step].
  - destruct (pn_task a t Hv Hs) as [Hv' Hw]. specialize (IH (run_task a t) m). cbn [app].
    destruct (run_steps up (run_task a t) ss), (store_steps up m ss). apply IH; [|done]. split; [done|]. intros nm. by rewrite Hw.
  - destruct up; cbn [app]; [|specialize (IH a m); destruct (run_steps false a ss), (store_steps false m ss); by apply IH].
    destruct (param_of_cb cb) as [p|] eqn:Ep.
    + pose proof (pn_change a cb p Hv Ep) as Hc. destruct (run_callback a cb) as [a1 l1]. destruct Hc as [Hv1 Hc]. destruct (Hc m Hm) as [Ho Hm1].
      destruct (change b m p) as [m1 ok]. cbn [fst snd] in *. specialize (IH a1 m1). destruct (run_steps true a1 ss), (store_steps true m1 ss).
      destruct IH as [? <-]; [done|done|]. split; [done|]. by rewrite observed_app, Ho.
    + pose proof (pn_plain a cb Hv Ep) as Hc. destruct (run_callback a cb) as [a1 l1]. destruct Hc as (Hv1 & Ho & Hm1). specialize (IH a1 m).
      destruct (run_steps true a1 ss), (store_steps true m ss). destruct IH as [? <-]; [|done|].
      { split; [done|]. intros nm. by rewrite Hm1. }
      split; [done|]. by rewrite observed_app, Ho.
Qed.

Lemma ucalls_refine us : forall a m, holds a m ->
  let '(a', l) := on_ucalls a us in holds a' m /\ observed l = (_ ← List.filter is_create us; declare b m).
Proof.
  induction us as [|u us IH]; intros a m Hh; [done|]. cbn [on_ucalls].
  assert (let '(a', l) := on_ucall a u in holds a' m /\ observed l = if is_create u then declare b m else []) as Hu.
  { destruct Hh as [Hv Hm], u; cbn [on_ucall is_create]; try done.
    - pose proof (pn_create a Hv) as Hc. destruct (create_entities a) as [a1 l1]. destruct Hc as (Hv1 & Hm1 & ->). split; [split; [done|]|].
      + intros nm. by rewrite Hm1.
      + unfold declare. apply list_fmap_ext. intros _ nm _. by rewrite Hm.
    - destruct destroy_entities eqn:Ed; [|done]. by rewrite (pn_destroy a _ Ed). }
  destruct (on_ucall a u) as [a1 l1]. destruct Hu as [H1 E1]. specialize (IH a1 m H1). destruct (on_ucalls a1 us) as [a2 l2].
  destruct IH as [H2 E2]. split; [done|]. rewrite observed_app, E1, E2. cbn [List.filter]. by destruct (is_create u).
Qed.

Lemma run_refine ts : forall ss a m, holds a m -> Forall quiet_turn ts -> observed (app_run ss a ts).2 = store_run ss m ts.
Proof.
  induction ts as [|t ts IH]; intros ss a m Hh Hq; [done|]. apply Forall_cons in Hq as [Ht Hq]. cbn [app_run store_run]. unfold app_turn.
  pose proof (steps_refine (linked ss) (steps t) a m Hh Ht) as Hs. destruct (run_steps _ a _) as [a1 l1], (store_steps _ m _) as [m1 o1].
  destruct Hs as [H1 E1]. destruct (session_turn _ ss _ _) as [ss1 us]. pose proof (ucalls_refine us a1 m1 H1) as Hu.
  destruct (on_ucalls a1 us) as [a2 l2]. destruct Hu as [H2 E2]. specialize (IH ss1 a2 m1 H2 Hq).
  destruct (app_run ss1 a2 ts) as [[ss2 a3] l3]. cbn [snd] in *. by rewrite !observed_app, E1, E2, IH, app_assoc.
Qed.
End Refinement.

(** ** The limb nodes *)

Section LimbParams.
Context `{RtosQueue} `{TwaiDlc} (undef : f32 -> Z) (undef_d : spec_float -> Z) (sinf cosf : f32 -> f32).

Definition limb_names (node : Z) : list string := (fun p => p.1 +:+ "_" +:+ p.2)%string <$> param_pairs (PS_LIMB_JOINTS node).

(** A gain is stored in single precision; a torque limit as whole centinewton metres, between
    zero and the limit of the board. *)
Definition limb_admit (node : Z) (nm : string) (v : spec_float) : option spec_float :=
  match List.find (fun cfg => String.eqb nm (name cfg +:+ "_torque_limit_cnm")) (PS_LIMB_JOINTS node) with
  | Some cfg => Some (double_of_Z (torque_clamp undef_d v (torque_limit_cnm cfg)))
  | None => if bool_decide (nm ∈ limb_names node) then Some (to_double (Limb.to_float v)) else None
  end.

Definition limb_board (node : Z) : board := {| names := limb_names node; admit_value := limb_admit node |}.

Definition limb_cb_param (cb : limb_cb) : option (option RosParameter) := match cb with LimbParam p => Some p | LimbAlive => None end.

Definition limb_view (a : limb_app) (nm : string) : option spec_float := limb_param_get (la_limb a) (Some nm).

Record limb_valid (node : Z) (a : limb_app) : Prop := {
  lv_joints : joints (la_limb a) = PS_LIMB_JOINTS node;
  lv_pos : length (s_pos_pid (la_limb a)) = PS_LIMB_JOINT_COUNT;
  lv_vel : length (s_vel_pid (la_limb a)) = PS_LIMB_JOINT_COUNT;
  lv_torque : length (s_torque_limit_cnm (la_limb a)) = PS_LIMB_JOINT_COUNT }.

(** The tasks of the node; parameters are set through the parameter server alone. *)
Definition limb_quiet (e : lev) : Prop := match e with LParam _ _ => False | _ => True end.

(** *** What the other tasks leave alone *)

Definition gain (p : ps_pid_t) : f32 * f32 := (kp p, ki p).
Definition gains (s : limb) := (joints s, gain <$> s_pos_pid s, gain <$> s_vel_pid s, s_torque_limit_cnm s).

Lemma gain_lookup (l l' : list ps_pid_t) (j : nat) : gain <$> l = gain <$> l' ->
  (fun p => to_double (kp p)) <$> l !! j = (fun p => to_double (kp p)) <$> l' !! j /\
  (fun p => to_double (ki p)) <$> l !! j = (fun p => to_double (ki p)) <$> l' !! j.
Proof.
  intros E. apply (f_equal (.!! j)) in E. rewrite !list_lookup_fmap in E. destruct (l !! j), (l' !! j); try done. cbn in *.
  by injection E as -> ->.
Qed.

Lemma gains_get s s' nm : gains s' = gains s -> limb_param_get s' nm = limb_param_get s nm.
Proof.
  intros E. injection E as Ej Ep Ev Et. unfold limb_param_get. destruct nm as [nm|]; [|done]. rewrite Ej, Et.
  destruct (param_match_joint _ _ _) as [[j suf]|]; [|done]. destruct (gain_lookup _ _ j Ep) as [P1 P2], (gain_lookup _ _ j Ev) as [V1 V2].
  by rewrite P1, P2, V1, V2.
Qed.

Lemma gains_insert (l : list ps_pid_t) (j : nat) p : gain p = gain (l !!! j) -> gain <$> <[j := p]> l = gain <$> l.
Proof.
  intros E. destruct (decide (j < length l)%nat); [|by rewrite list_insert_ge by lia].
  rewrite list_fmap_insert, E. apply list_insert_id. rewrite list_lookup_fmap, list_lookup_lookup_total_lt; done.
Qed.

Lemma pid_step_gain p e dt : gain (ps_pid_step p e dt).1 = gain p.
Proof. unfold ps_pid_step. by destruct (pid_unsat p e dt). Qed.

Lemma target_gain cfg sp pp vp x v : let '(pp', vp', _) := joint_target cfg sp pp vp x v in gain pp' = gain pp /\ gain vp' = gain vp.
Proof.
  unfold joint_target. cbv zeta. repeat (destruct (_ =? _)); try done;
    repeat match goal with |- context [ps_pid_step ?p ?e ?t] => pose proof (pid_step_gain p e t); destruct (ps_pid_step p e t) end; done.
Qed.

Lemma transition_gains s st : gains (limb_safety_on_transition s st) = gains s.
Proof.
  unfold limb_safety_on_transition. destruct (_ || _ || _); [done|]. destruct (_ =? _); [|done].
  unfold gains. cbn. rewrite <- !list_fmap_compose. f_equal; f_equal; f_equal; by apply list_fmap_ext.
Qed.

Lemma with_glue_gains s r : gains (with_glue s r) = gains s.
Proof.
  unfold with_glue. change (gains s) with (gains {| s with s_glue := r.1 |}). generalize {| s with s_glue := r.1 |} as s0.
  induction (r.2) as [|u us IH]; intros s0; [done|]. cbn [foldl]. by rewrite IH, transition_gains.
Qed.

Lemma control_joint_gains s j sp ca env t t' : gains (control_joint undef sinf cosf s j sp ca env t t') = gains s.
Proof.
  unfold control_joint. destruct (joints s !! j) as [cfg|]; [|done]. cbv zeta. set (enc' := encoder_update _ _ _). clearbody enc'.
  match goal with |- context [joint_target ?c ?q ?p ?v ?x ?y] => pose proof (target_gain c q p v x y) as Ht; destruct (joint_target c q p v x y) as [[pp' vp'] iq] end.
  destruct Ht as [Hp Hv]. destruct (clamp_iq _ _) as [iq' sat]. destruct (ps_foc_ctl_step _ _ _ _ _ _ _ _ _ _) as [foc' duty].
  destruct (oc_step _ _ _) as [oc' trip]. set (s1 := {| s with s_enc := _; s_pos_pid := _; s_vel_pid := _; s_foc := _; s_focdrv := _; s_oc_ticks := _ |}).
  assert (gains s1 = gains s) as E1 by (unfold gains, s1; cbn; by rewrite !gains_insert).
  clearbody s1. destruct trip; [|exact E1]. destruct (ps_safety_raise_estop _ _ _ _) as [[g err] calls].
  rewrite <- E1, <- (with_glue_gains s1 (g, calls)). done.
Qed.

Lemma turn_gains s env : gains (control_turn undef sinf cosf s env) = gains s.
Proof.
  unfold control_turn, turn_end. cbv zeta.
  assert (gains (turn_joints undef sinf cosf (turn_begin s env) env) = gains s) as E.
  { transitivity (gains (turn_begin s env)); [|unfold turn_begin; by destruct (1 <? _)].
    unfold turn_joints. cbv zeta. generalize (ps_safety_can_actuate (s_glue (turn_begin s env))) as ca.
    generalize (s_setpoints (turn_begin s env)) as sps. generalize (turn_begin s env) as s0. intros s0 sps ca. cbn [foldl seq PS_LIMB_JOINT_COUNT].
    destruct (sps !! 0%nat), (sps !! 1%nat); by rewrite ?control_joint_gains. }
  revert E. generalize (turn_joints undef sinf cosf (turn_begin s env) env) as s1. intros s1 <-.
  transitivity (gains (if ctl_tick s1 mod SENSOR_TICK_DIV =? 0 then sensor_pass undef s1 (te_imu env) (te_strain env) else s1)).
  - generalize (if ctl_tick s1 mod SENSOR_TICK_DIV =? 0 then sensor_pass undef s1 (te_imu env) (te_strain env) else s1) as s2. intros s2.
    by destruct (_ <? _), (_ || _).
  - destruct (_ =? 0); [|done]. unfold sensor_pass. by destruct (sensor_imu _ _ _).
Qed.

Lemma comms_gains s : gains (Limb.comms_turn s) = gains s.
Proof.
  unfold Limb.comms_turn. cbv zeta. set (s0 := {| s with comms_tick := _ |}). change (gains s) with (gains s0). clearbody s0.
  set (sts := Limb.s_states s0). clearbody sts. set (s1 := foldl _ s0 _).
  assert (gains s1 = gains s0) as E1. { unfold s1. cbn [foldl seq PS_LIMB_JOINT_COUNT]. by destruct (sts !! 0%nat), (sts !! 1%nat). }
  clearbody s1. rewrite <- E1.
  assert (gains (send_sensors s1 (s_sensors s1)) = gains s1) as E2 by (unfold send_sensors; cbv zeta; by destruct (imu_valid _)).
  set (s2 := send_sensors _ _) in *. clearbody s2. rewrite <- E2. by destruct (_ =? 0).
Qed.

Lemma gains_step s ev : limb_quiet ev -> gains (lstep undef undef_d sinf cosf s ev) = gains s.
Proof.
  destruct ev as [t f|t e|nm v|env|]; cbn [lstep limb_quiet]; intros Hq.
  - unfold control_rx_cb. cbv zeta. destruct (_ =? _); [|destruct (_ =? _); [|done]].
    + unfold handle_joint_cmd. destruct (_ <? _); [done|]. cbv zeta. destruct (_ || _); [done|].
      destruct (joints s !! _); [|done]. unfold limb_setpoint_set. by destruct (_ <=? _).
    + unfold handle_mode_set. cbv zeta. match goal with |- gains (bump_mode_set_rx (with_glue ?x ?r)) = _ => exact (with_glue_gains x r) end.
  - apply with_glue_gains.
  - done.
  - apply turn_gains.
  - apply comms_gains.
Qed.

(** *** Setting and reading *)

Lemma after_prefix_inv p : forall s r, after_prefix p s = Some r -> s = p +:+ r.
Proof.
  induction p as [|a p IH]; intros s r E; cbn in *; [by injection E as ->|]. destruct s as [|b s]; [done|].
  destruct (Ascii.eqb_spec a b) as [->|]; [|done]. by rewrite (IH s r E).
Qed.

Lemma match_joint_inv js nm suf : forall i j, param_match_joint js i nm = Some (j, suf) -> exists cfg, cfg ∈ js /\ nm = (name cfg +:+ "_") +:+ suf.
Proof.
  induction js as [|cfg js IH]; intros i j E; cbn in *; [done|]. destruct (after_prefix _ nm) as [r|] eqn:Ea.
  - injection E as _ ->. exists cfg. split; [left|]. by apply after_prefix_inv.
  - destruct (IH _ _ E) as (c & Hc & ->). exists c. split; [by right|done].
Qed.
Lemma append_assoc (a b c : string) : (a +:+ b) +:+ c = a +:+ (b +:+ c).
Proof. induction a as [|x a IH]; [done|exact (f_equal (String x) IH)]. Qed.

Lemma names_in node cfg suf : cfg ∈ PS_LIMB_JOINTS node -> suf ∈ suffixes -> name cfg +:+ "_" +:+ suf ∈ limb_names node.
Proof.
  intros Hc Hs. unfold limb_names, param_pairs. apply list_elem_of_fmap. exists (name cfg, suf). split; [done|].
  apply list_elem_of_bind. exists cfg. split; [|done]. apply list_elem_of_bind. exists suf. split; [by left|done].
Qed.

Lemma limb_unknown node nm j suf : nm ∉ limb_names node -> param_match_joint (PS_LIMB_JOINTS node) 0 nm = Some (j, suf) -> suf ∉ suffixes.
Proof.
  intros Hn E Hs. destruct (match_joint_inv _ _ _ _ _ E) as (cfg & Hc & ->). apply Hn. rewrite append_assoc. by apply names_in.
Qed.

Lemma suffix_neq (suf x : string) : suf ∉ suffixes -> x ∈ suffixes -> String.eqb suf x = false.
Proof. intros Hn Hx. apply String.eqb_neq. by intros ->. Qed.

Lemma set_unknown node s nm v : joints s = PS_LIMB_JOINTS node -> nm ∉ limb_names node -> limb_param_set undef_d s (Some nm) v = (s, false).
Proof.
  intros Hj Hn. unfold limb_param_set. rewrite Hj. destruct (param_match_joint _ 0 nm) as [[j suf]|] eqn:E; [|done].
  pose proof (limb_unknown node nm j suf Hn E) as Hs. by rewrite !(suffix_neq suf) by (done || (by apply (bool_decide_unpack _))).
Qed.

Lemma get_unknown node s nm : joints s = PS_LIMB_JOINTS node -> nm ∉ limb_names node -> limb_param_get s (Some nm) = None.
Proof.
  intros Hj Hn. unfold limb_param_get. rewrite Hj. destruct (param_match_joint _ 0 nm) as [[j suf]|] eqn:E; [|done].
  pose proof (limb_unknown node nm j suf Hn E) as Hs. by rewrite !(suffix_neq suf) by (done || (by apply (bool_decide_unpack _))).
Qed.

Lemma limb_known node nm : 1 <= node <= 4 -> nm ∈ limb_names node -> exists j suf cfg,
  param_match_joint (PS_LIMB_JOINTS node) 0 nm = Some (j, suf) /\ PS_LIMB_JOINTS node !! j = Some cfg /\ suf ∈ suffixes /\ (j < 2)%nat /\
  nm = name cfg +:+ "_" +:+ suf /\
  forall v, limb_admit node nm v = Some (if String.eqb suf "torque_limit_cnm" then double_of_Z (torque_clamp undef_d v (torque_limit_cnm cfg))
                                         else to_double (Limb.to_float v)).
Proof.
  intros Hn Hin. assert (node = 1 \/ node = 2 \/ node = 3 \/ node = 4) as [->|[->|[->| ->]]] by lia;
    unfold limb_names in Hin; cbn in Hin; repeat (apply elem_of_cons in Hin as [->|Hin]); try (by apply elem_of_nil in Hin);
    (eexists _, _, _; split_and!; [reflexivity|reflexivity|by apply (bool_decide_unpack _)|lia|reflexivity|reflexivity]).
Qed.
Lemma alter_read {X} (f : X -> spec_float) (w : spec_float) (g : X -> X) (l : list X) (j j' : nat) :
  (j < length l)%nat -> (forall x, f (g x) = w) -> f <$> alter g j l !! j' = if decide (j' = j) then Some w else f <$> l !! j'.
Proof.
  intros Hl Hw. destruct (decide (j' = j)) as [->|]; [|by rewrite list_lookup_alter_ne].
  rewrite list_lookup_alter_eq. destruct (lookup_lt_is_Some_2 l j Hl) as [x ->]. cbn. by rewrite Hw.
Qed.

Lemma alter_other {X} (f : X -> spec_float) (g : X -> X) (l : list X) (j j' : nat) :
  (forall x, f (g x) = f x) -> f <$> alter g j l !! j' = f <$> l !! j'.
Proof.
  intros Hg. destruct (decide (j' = j)) as [->|]; [|by rewrite list_lookup_alter_ne].
  rewrite list_lookup_alter_eq. destruct (l !! j); cbn; by rewrite ?Hg.
Qed.

Lemma insert_read (f : Z -> spec_float) (l : list Z) (j j' : nat) (x : Z) :
  (j < length l)%nat -> f <$> <[j := x]> l !! j' = if decide (j' = j) then Some (f x) else f <$> l !! j'.
Proof. intros Hl. destruct (decide (j' = j)) as [->|]; [by rewrite list_lookup_insert_eq | by rewrite list_lookup_insert_ne]. Qed.

(** Parameters are told apart by joint and suffix. *)
Lemma get_lift node (s s' : limb) nm j suf w : 1 <= node <= 4 -> joints s = PS_LIMB_JOINTS node -> joints s' = joints s ->
  nm ∈ limb_names node -> param_match_joint (PS_LIMB_JOINTS node) 0 nm = Some (j, suf) ->
  (forall j' suf' nm', suf' ∈ suffixes -> param_match_joint (joints s) 0 nm' = Some (j', suf') ->
    limb_param_get s' (Some nm') = if decide (j' = j /\ suf' = suf) then Some w else limb_param_get s (Some nm')) ->
  forall nm', limb_param_get s' (Some nm') = if decide (nm' = nm) then Some w else limb_param_get s (Some nm').
Proof.
  intros Hn Hj Hj' Hin E Hk nm'. destruct (decide (nm' ∈ limb_names node)) as [Hin'|Hout].
  - destruct (limb_known node nm' Hn Hin') as (j' & suf' & cfg' & E' & Ec' & Hs' & _ & En' & _).
    rewrite (Hk j' suf' nm' Hs') by (by rewrite Hj).
    destruct (decide (nm' = nm)) as [->|Hne]; [rewrite E in E'; injection E' as -> ->; by rewrite decide_True|].
    rewrite decide_False; [done|]. intros [-> ->]. destruct (limb_known node nm Hn Hin) as (j1 & suf1 & cfg & E1 & Ec & _ & _ & En & _).
    rewrite E in E1. injection E1 as -> ->. rewrite Ec in Ec'. injection Ec' as ->. by rewrite En, En' in Hne.
  - rewrite decide_False by (by intros ->). by rewrite !(get_unknown node) by congruence.
Qed.

(** Reading a parameter after one field of one joint was written. *)
Ltac read_back Hs' E' rule :=
  unfold limb_param_get; cbn [joints s_pos_pid s_vel_pid s_torque_limit_cnm]; rewrite E'; unfold suffixes in Hs';
  repeat (apply elem_of_cons in Hs' as [->|Hs']); [..|by apply elem_of_nil in Hs']; cbn [String.eqb Ascii.eqb Bool.eqb];
  (rewrite rule by (done || lia); repeat case_decide; done || tauto) ||
  (rewrite ?alter_other by done; rewrite decide_False; [done|by intros [_ ?]]).

(** A change of a known name is accepted, stores what the board admits, and changes no other
    parameter. *)
Lemma set_known node a nm v : 1 <= node <= 4 -> limb_valid node a -> nm ∈ limb_names node ->
  let '(s', ok) := limb_param_set undef_d (la_limb a) (Some nm) v in
  ok = true /\ limb_valid node {| a with la_limb := s' |} /\
  exists w, limb_admit node nm v = Some w /\
  forall nm', limb_param_get s' (Some nm') = if decide (nm' = nm) then Some w else limb_param_get (la_limb a) (Some nm').
Proof.
  intros Hn [Hj Hp Hv Ht] Hin. destruct (limb_known node nm Hn Hin) as (j & suf & cfg & E & Ec & Hs & Hj2 & En & Ha).
  set (s := la_limb a) in *. clearbody s. specialize (Ha v). unfold PS_LIMB_JOINT_COUNT in *.
  assert (Hgo : forall s' w, joints s' = joints s -> length (s_pos_pid s') = 2%nat -> length (s_vel_pid s') = 2%nat ->
    length (s_torque_limit_cnm s') = 2%nat -> limb_admit node nm v = Some w ->
    (forall j' suf' nm', suf' ∈ suffixes -> param_match_joint (joints s) 0 nm' = Some (j', suf') ->
       limb_param_get s' (Some nm') = if decide (j' = j /\ suf' = suf) then Some w else limb_param_get s (Some nm')) ->
    true = true /\ limb_valid node {| a with la_limb := s' |} /\ exists w, limb_admit node nm v = Some w /\
    forall nm', limb_param_get s' (Some nm') = if decide (nm' = nm) then Some w else limb_param_get s (Some nm')).
  { intros s' w Hj' L1 L2 L3 Hw Hk. split_and!; [done|split; [exact (eq_trans Hj' Hj)|exact L1|exact L2|exact L3]|].
    exists w. split; [done|]. by apply (get_lift node s s' nm j suf w). }
  unfold limb_param_set. replace (param_match_joint (joints s) 0 nm) with (Some (j, suf)) by (by rewrite Hj).
  replace (joints s !! j) with (Some cfg) by (by rewrite Hj). unfold suffixes in Hs.
  repeat (apply elem_of_cons in Hs as [->|Hs]); [..|by apply elem_of_nil in Hs]; cbn [String.eqb Ascii.eqb Bool.eqb] in Ha |- *;
    (eapply Hgo; [reflexivity|cbn; rewrite ?length_alter; exact Hp|cbn; rewrite ?length_alter; exact Hv
                 |cbn; rewrite ?length_insert; exact Ht|exact Ha|]); intros j' suf' nm' Hs' E'.
  - read_back Hs' E' (alter_read (fun p => to_double (kp p)) (to_double (Limb.to_float v))).
  - read_back Hs' E' (alter_read (fun p => to_double (ki p)) (to_double (Limb.to_float v))).
  - read_back Hs' E' (alter_read (fun p => to_double (kp p)) (to_double (Limb.to_float v))).
  - read_back Hs' E' (alter_read (fun p => to_double (ki p)) (to_double (Limb.to_float v))).
  - read_back Hs' E' (insert_read double_of_Z).
Qed.
(** *** The node *)

Lemma declare_params_spec ps : forall a n, Forall (fun p => snprintf 40 (p.1 +:+ "_" +:+ p.2) = p.1 +:+ "_" +:+ p.2) ps ->
  let '(a', l) := declare_params a n ps in la_limb a' = la_limb a /\
  observed l = (fun nm => ODeclare nm (default (S754_zero false) (limb_view a nm))) <$> ((fun p => p.1 +:+ "_" +:+ p.2) <$> ps).
Proof.
  induction ps as [|[joint suffix] ps IH]; intros a n Hps; [done|]. apply Forall_cons in Hps as [Hp Hps]. cbn [fst snd] in Hp.
  cbn [declare_params]. unfold declare_param. rewrite Hp. set (nm := joint +:+ "_" +:+ suffix). set (a1 := {| a with s_param_names := _ |}).
  specialize (IH a1 (S n) Hps). destruct (declare_params a1 (S n) ps) as [a' l]. destruct IH as [E1 E2]. split; [exact E1|].
  rewrite observed_app, E2. done.
Qed.

Lemma names_fit node : 1 <= node <= 4 ->
  Forall (fun p => snprintf 40 (p.1 +:+ "_" +:+ p.2) = p.1 +:+ "_" +:+ p.2) (param_pairs (PS_LIMB_JOINTS node)).
Proof. intros Hn. assert (node = 1 \/ node = 2 \/ node = 3 \/ node = 4) as [->|[->|[->| ->]]] by lia; repeat constructor. Qed.

Lemma limb_create_spec node arg a : 1 <= node <= 4 -> limb_valid node a ->
  let '(a', l) := limb_uros_create_entities arg a in la_limb a' = la_limb a /\
  observed l = (fun nm => ODeclare nm (default (S754_zero false) (limb_view a nm))) <$> limb_names node.
Proof.
  intros Hn Hv. unfold limb_uros_create_entities. rewrite (lv_joints _ _ Hv). unfold limb_names.
  pose proof (declare_params_spec _ a 0 (names_fit node Hn)) as Hd. destruct (declare_params a 0 _) as [a' l]. destruct Hd as [E1 E2].
  split; [exact E1|]. rewrite !observed_app, E2. cbn [observed omap list_omap observe]. by rewrite app_nil_r.
Qed.

Lemma limb_valid_ext node a a' : gains (la_limb a') = gains (la_limb a) -> limb_valid node a -> limb_valid node a'.
Proof.
  intros E [H1 H2 H3 H4]. injection E as Ej Ep Ev Et. apply (f_equal length) in Ep, Ev. rewrite !length_fmap in Ep, Ev. split; congruence.
Qed.

Lemma limb_param_node node : 1 <= node <= 4 ->
  @ParamNode (limb_uros undef undef_d sinf cosf node) (limb_board node) limb_cb_param limb_view (limb_valid node) limb_quiet.
Proof.
  intros Hn. split.
  - intros a e Hv Hq. pose proof (gains_step (la_limb a) e Hq) as E. split; [by apply (limb_valid_ext node a)|].
    intros nm. exact (gains_get _ _ _ E).
  - intros a [p|] Hv E; [done|]. cbn. split; [by apply (limb_valid_ext node a)|done].
  - intros a [p|] p' Hv E; [|done]. injection E as <-. cbn [run_callback limb_uros]. unfold uros_on_param_changed, change.
    destruct p as [[nm [v|]]|]; [|by destruct nm|done]. destruct nm as [nm|]; [|cbn; split; [by destruct a|done]].
    destruct (decide (nm ∈ limb_names node)) as [Hin|Hout].
    + pose proof (set_known node a nm v Hn Hv Hin) as Hs. destruct (limb_param_set _ _ _ _) as [s' ok].
      destruct Hs as (-> & Hv' & w & Ew & Hg). split; [exact Hv'|]. intros m Hm. cbn [limb_board admit_value]. rewrite Ew. cbn [fst snd].
      split; [done|]. intros nm'. unfold limb_view in *. cbn [la_limb]. rewrite Hg, Hm.
      case_decide as Hd; [by rewrite Hd, lookup_insert_eq|by rewrite lookup_insert_ne].
    + rewrite (set_unknown node _ _ _ (lv_joints _ _ Hv) Hout). split; [by destruct a|]. intros m Hm. cbn [limb_board admit_value].
      unfold limb_admit. destruct (List.find _ _) as [cfg|] eqn:Ef.
      * exfalso. apply List.find_some in Ef as [Hc He]. apply String.eqb_eq in He as ->. apply Hout, names_in; [by apply list_elem_of_In|].
        by apply (bool_decide_unpack _).
      * by rewrite bool_decide_false.
  - intros a Hv. cbn [create_entities limb_uros]. pose proof (limb_create_spec node (alive_topic node) a Hn Hv) as Hc.
    destruct (limb_uros_create_entities _ a) as [a' l]. destruct Hc as [E1 E2]. split; [|split; [|exact E2]].
    + apply (limb_valid_ext node a); [by rewrite E1|done].
    + intros nm. unfold limb_view. by rewrite E1.
  - done.
Qed.
End LimbParams.

(** ** The flight node *)

Section FlightParams.
Context `{RtosQueue} `{TwaiDlc} (undef : f32 -> Z).

(** A value below or above its range is refused; it is stored in single precision. *)
Definition flight_admit (nm : string) (v : spec_float) : option spec_float :=
  let within lo hi := if SFltb v lo || SFltb hi v then None else Some (to_double (Flight.to_float v)) in
  if String.eqb nm "rho" then within (dlit 1 2) (dlit 5 2)
  else if String.eqb nm "rate_scale" then within (dlit 5 100) (dlit 1 1) else None.

Definition flight_board : board := {| names := ["rho"; "rate_scale"]%string; admit_value := flight_admit |}.

Definition flight_cb_param (cb : flight_cb) : option (option RosParameter) := match cb with FlightParam p => Some p | FlightAlive => None end.

Definition flight_view (a : flight_app) (nm : string) : option spec_float :=
  if String.eqb nm "rho" then Some (to_double (flight_param_rho (prm (fa_flight a))))
  else if String.eqb nm "rate_scale" then Some (to_double (flight_param_rate_scale (prm (fa_flight a)))) else None.

Definition flight_quiet (e : fev) : Prop := match e with FParam _ _ => False | _ => True end.

Lemma with_safety_prm s r : prm (with_safety s r) = prm s.
Proof. unfold with_safety. by destruct (transition_srv {| s with safety := r.1 |} r.2) as (_ & _ & -> & _). Qed.

Lemma prm_step s e : flight_quiet e -> prm (fstep undef s e) = prm s.
Proof.
  destruct e as [t f|t e|nm v| |ir raw mv|prev]; cbn [fstep flight_quiet]; intros Hq; try done.
  - unfold control_rx. cbv zeta. destruct (_ =? _); [|destruct (_ =? _); [by rewrite with_safety_prm|done]].
    destruct (_ <? _); [done|]. destruct (_ <=? _) eqn:E; [done|]. unfold flight_targets_set. by rewrite E.
  - apply with_safety_prm.
  - pose proof (aero_plant undef s ir raw mv) as E. unfold FlightSpec.plant in E. by injection E.
  - pose proof (comms_plant s prev) as E. unfold FlightSpec.plant in E. by injection E.
Qed.

Lemma flight_param_node : @ParamNode (flight_uros undef) flight_board flight_cb_param flight_view (fun _ => True) flight_quiet.
Proof.
  split.
  - intros a e _ Hq. split; [done|]. intros nm. unfold flight_view. cbn [run_task flight_uros fa_flight]. by rewrite (prm_step _ _ Hq).
  - by intros a [p|] _ E.
  - intros a [p|] p' _ E; [|done]. injection E as <-. cbn [run_callback flight_uros]. unfold on_param_changed, change.
    destruct p as [[nm [v|]]|]; [|by destruct nm|done]. destruct nm as [nm|]; [|done]. cbn [fmap option_fmap option_map flight_board admit_value].
    unfold flight_view, flight_admit, flight_param_set, param_of.
    destruct (String.eqb_spec nm "rho") as [->|Hr]; [|destruct (String.eqb_spec nm "rate_scale") as [->|Hs]].
    + destruct (SFltb v _ || SFltb _ v); (split; [done|]); intros m Hm; (split; [done|]); [exact Hm|]. intros nm'. cbn [fst].
      destruct (String.eqb_spec nm' "rho") as [->|Hne]; [by rewrite lookup_insert_eq|]. rewrite lookup_insert_ne by done. rewrite <- Hm.
      by rewrite (proj2 (String.eqb_neq _ _) Hne).
    + destruct (SFltb v _ || SFltb _ v); (split; [done|]); intros m Hm; (split; [done|]); [exact Hm|]. intros nm'. cbn [fst].
      destruct (decide (nm' = "rate_scale")) as [->|Hne]; [by rewrite lookup_insert_eq|]. rewrite lookup_insert_ne by done. rewrite <- Hm.
      destruct (String.eqb nm' "rho"); [done|]. by rewrite (proj2 (String.eqb_neq _ _) Hne).
    + split; [done|]. intros m Hm. by split.
  - done.
  - intros a f [= <-]. done.
Qed.
End FlightParams.

(** The store a node starts with. *)
Definition store_of (ns : list string) (view : string -> option spec_float) : store := list_to_map (omap (fun nm => pair nm <$> view nm) ns).

Lemma store_of_lookup view ns nm : store_of ns view !! nm = if decide (nm ∈ ns) then view nm else None.
Proof.
  unfold store_of. induction ns as [|n ns IH]; [done|]. cbn [omap list_omap]. destruct (view n) as [v|] eqn:E; cbn [fmap option_fmap option_map].
  - rewrite list_to_map_cons. destruct (decide (nm = n)) as [->|Hne]; [rewrite lookup_insert_eq; by rewrite decide_True by left|].
    rewrite lookup_insert_ne, IH by done. apply decide_ext. rewrite elem_of_cons. tauto.
  - rewrite IH. destruct (decide (nm = n)) as [->|Hne]; [rewrite E; by repeat case_decide|].
    apply decide_ext. rewrite elem_of_cons. tauto.
Qed.

Section Params.
Context `{RtosQueue} `{TwaiDlc} (undef : f32 -> Z) (undef_d : spec_float -> Z) (sinf cosf : f32 -> f32).

Lemma limb_holds node a : limb_valid node a ->
  @holds (limb_uros undef undef_d sinf cosf node) limb_view (limb_valid node) a (store_of (limb_names node) (limb_view a)).
Proof.
  intros Hv. split; [done|]. intros nm. rewrite store_of_lookup. case_decide as Hd; [done|].
  exact (get_unknown node (la_limb a) nm (lv_joints _ _ Hv) Hd).
Qed.

Lemma flight_holds a : @holds (flight_uros undef) flight_view (fun _ => True) a (store_of (names flight_board) (flight_view a)).
Proof.
  split; [done|]. intros nm. rewrite store_of_lookup. case_decide as Hd; [done|]. unfold flight_view.
  destruct (String.eqb_spec nm "rho") as [->|]; [exfalso; apply Hd; by left|].
  destruct (String.eqb_spec nm "rate_scale") as [->|]; [exfalso; apply Hd; by right; left|done].
Qed.

(** C37: The parameters of a limb and of the flight node are one store that outlives the sessions
    with the agent.  Through any run of the session task - sessions found and lost, changes
    and beacons while there is one, any steps of the other tasks at any time - every change
    is answered, and every session's parameters are declared, as by a map from names to
    values: a change of a name the board has stores what the board admits for it (a gain in
    single precision, a torque limit cut to the limit of the board, a flight parameter
    unless it is out of its range) and nothing else changes it; every other change is
    refused.  A limb declares ten different names, as many as its server has room for, none
    cut by its buffer of 40 bytes. *)
Theorem params_survive_reconnect :
  (forall node a ts, 1 <= node <= 4 -> limb_valid node a -> Forall (@quiet_turn (limb_uros undef undef_d sinf cosf node) limb_quiet) ts ->
    observed (@app_run (limb_uros undef undef_d sinf cosf node) session_start a ts).2 =
    @store_run (limb_uros undef undef_d sinf cosf node) (limb_board undef_d node) limb_cb_param session_start (store_of (limb_names node) (limb_view a)) ts) /\
  (forall node, 1 <= node <= 4 -> NoDup (limb_names node) /\ length (limb_names node) = UROS_MAX_PARAMS /\
    Forall (fun nm => (String.length nm < 40)%nat) (limb_names node)) /\
  (forall a ts, Forall (@quiet_turn (flight_uros undef) flight_quiet) ts ->
    observed (@app_run (flight_uros undef) session_start a ts).2 =
    @store_run (flight_uros undef) flight_board flight_cb_param session_start (store_of (names flight_board) (flight_view a)) ts).
Proof.
  split_and!.
  - intros node a ts Hn Hv Hq. pose proof (limb_param_node undef undef_d sinf cosf node Hn) as HP.
    by apply (@run_refine _ _ _ _ _ _ HP); [apply limb_holds|].
  - intros node Hn. assert (node = 1 \/ node = 2 \/ node = 3 \/ node = 4) as [->|[->|[->| ->]]] by lia;
      (split_and!; [by apply (bool_decide_unpack _)|done|by apply (bool_decide_unpack _)]).
  - intros a ts Hq. pose proof (flight_param_node undef) as HP. by apply (@run_refine _ _ _ _ _ _ HP); [apply flight_holds|].
Qed.
End Params.

(** ** Entities and sessions *)

#[export] Instance robj_eq : EqDecision robj.
Proof. solve_decision. Defined.

(** The entities initialised and not finalised after a sequence of calls; [None] if one is
    initialised twice, or finalised without being initialised or without its node, or the
    node is finalised while one is left. *)
Definition track (live : list robj) (r : rcall) : option (list robj) :=
  match r with
  | RInit o _ => if bool_decide (o ∈ live) then None else Some (o :: live)
  | RFini o nd => if bool_decide (o ∈ live) && nd then Some (filter (.≠ o) live) else None
  | RFiniNode => match live with [] => Some [] | _ => None end
  | _ => Some live
  end.

Fixpoint tracked (live : list robj) (l : list rcall) : option (list robj) :=
  match l with [] => Some live | r :: l => live ← track live r; tracked live l end.

Lemma tracked_app l : forall l' live, tracked live (l ++ l') = live ← tracked live l; tracked live l'.
Proof. induction l as [|r l IH]; intros l' live; [done|]. cbn [app tracked]. destruct (track live r); [apply IH|done]. Qed.

Definition is_fini_node (r : rcall) : bool := match r with RFiniNode => true | _ => false end.
Definition is_fini (r : rcall) : bool := match r with RFini _ _ => true | _ => false end.

(** Whether a session was lost. *)
Definition lost (l : list rcall) : bool := existsb is_fini_node l.

(** Calls that neither make nor end an entity. *)
Definition plain (r : rcall) : bool := match r with RInit _ _ | RFini _ _ | RFiniNode => false | _ => true end.

Lemma plain_spec l live : forallb plain l = true -> tracked live l = Some live /\ lost l = false /\ existsb is_fini l = false.
Proof. induction l as [|r l IH]; [done|]. cbn [forallb]. intros [Hr Hl]%andb_true_iff. destruct (IH Hl) as (H1 & H2 & H3). by destruct r. Qed.

(** What a turn asks of the application, where it does not want to hear of the agent. *)
Lemma session_turn_calls cfg ss p i : has_agent_state cfg = false ->
  let '(ss', us) := session_turn cfg ss p i in
  match linked ss, linked ss' with
  | false, true => us = [CreateEntities]
  | true, false => us = (if has_destroy cfg then [DestroyEntities] else []) ++ [FiniExecutor; FiniNode; FiniSupport]
  | false, false => us = [] \/ us = [FiniSupport]
  | true, true => us = []
  end.
Proof.
  intros Ha. unfold session_turn, linked, set_connected. rewrite Ha. destruct ss as [[] n c]; cbn.
  - destruct p; [|by left]. destruct i; [|by right]. by destruct (bool_decide _).
  - destruct (_ <=? _); [|done]. destruct p; [done|]. by destruct (bool_decide _).
Qed.

Section Lifecycle.
Context {A : UrosApp} (objs : list robj) (ready : app_t -> Prop).
Context (agent_quiet : has_agent_state config = false)
  (task_ready : forall a t, ready a -> ready (run_task a t))
  (cb_ready : forall a cb, ready a -> ready (run_callback a cb).1)
  (cb_plain : forall a cb, forallb plain (run_callback a cb).2 = true)
  (create_ready : forall a, ready (create_entities a).1)
  (create_new : forall a, tracked [] (create_entities a).2 = Some objs)
  (create_kept : forall a, lost (create_entities a).2 = false).

Definition live_of (ss : session) : list robj := if linked ss then objs else [].

Lemma lost_app l l' : lost (l ++ l') = lost l || lost l'.
Proof. apply existsb_app. Qed.

Lemma steps_lifecycle up ss : forall a live, (up = true -> ready a) ->
  let '(a', l) := run_steps up a ss in (up = true -> ready a') /\ tracked live l = Some live /\ lost l = false.
Proof.
  induction ss as [|s ss IH]; intros a live Hr; [done|]. cbn [run_steps].
  assert (let '(a1, l1) := run_step up a s in (up = true -> ready a1) /\ tracked live l1 = Some live /\ lost l1 = false) as Hs.
  { destruct s as [t|cb]; cbn [run_step]; [by auto|]. destruct up; [|done].
    pose proof (cb_ready a cb (Hr eq_refl)) as H1. destruct (plain_spec _ live (cb_plain a cb)) as (H2 & H3 & _).
    by destruct (run_callback a cb). }
  destruct (run_step up a s) as [a1 l1]. destruct Hs as (H1 & H2 & H3). specialize (IH a1 live H1). destruct (run_steps up a1 ss) as [a2 l2].
  destruct IH as (I1 & I2 & I3). split; [done|]. by rewrite tracked_app, lost_app, H2, H3.
Qed.

Context (destroys : has_destroy config = bool_decide (is_Some destroy_entities))
  (destroy_all : forall f a, destroy_entities = Some f -> ready a -> tracked objs (f a) = Some [] /\ lost (f a) = false)
  (objs_some : objs <> []).

(** The calls of the link. *)
Lemma ucalls_lifecycle ss a p i : (linked ss = true -> ready a) ->
  let '(ss', us) := session_turn config ss p i in let '(a', l) := on_ucalls a us in
  (linked ss' = true -> ready a') /\ tracked (live_of ss) l = if has_destroy config || negb (lost l) then Some (live_of ss') else None.
Proof.
  intros Hr. pose proof (session_turn_calls config ss p i agent_quiet) as Hc. destruct (session_turn config ss p i) as [ss' us].
  unfold live_of. destruct (linked ss) eqn:El, (linked ss') eqn:El'.
  - subst us. cbn. by rewrite orb_true_r.
  - specialize (Hr eq_refl). rewrite destroys in *. destruct destroy_entities as [f|] eqn:Ed; subst us; cbn [on_ucalls on_ucall app bool_decide].
    + destruct (destroy_all f a eq_refl Hr) as [H1 H2]. cbn. rewrite Ed. split; [done|]. by rewrite tracked_app, H1.
    + cbn. split; [done|]. by destruct objs.
  - subst us. cbn [on_ucalls on_ucall]. pose proof (create_ready a) as H1. pose proof (create_new a) as H2. pose proof (create_kept a) as H3.
    destruct (create_entities a) as [a1 l1]. cbn [fst snd] in *. split; [done|]. by rewrite app_nil_r, H2, H3, orb_true_r.
  - destruct Hc as [-> | ->]; cbn; by rewrite orb_true_r.
Qed.

(** A run keeps the entities of its session and no other, if a lost session's are destroyed;
    where nothing destroys them, exactly until a session is lost. *)
Lemma lifecycle_run ts : forall ss a, (linked ss = true -> ready a) ->
  let '(ss', a', l) := app_run ss a ts in
  tracked (live_of ss) l = if has_destroy config || negb (lost l) then Some (live_of ss') else None.
Proof.
  induction ts as [|t ts IH]; intros ss a Hr; cbn [app_run]; [cbn; by rewrite orb_true_r|]. unfold app_turn.
  pose proof (steps_lifecycle (linked ss) (steps t) a (live_of ss) Hr) as Hs. destruct (run_steps _ a _) as [a1 l1]. destruct Hs as (R1 & T1 & L1).
  pose proof (ucalls_lifecycle ss a1 (t_ping t) (t_init t) R1) as Hu. destruct (session_turn _ ss _ _) as [ss1 us].
  destruct (on_ucalls a1 us) as [a2 l2]. destruct Hu as [R2 T2]. specialize (IH ss1 a2 R2). destruct (app_run ss1 a2 ts) as [[ss2 a3] l3].
  rewrite !tracked_app, !lost_app, T1, L1. cbn [mbind option_bind orb]. rewrite T2.
  destruct (has_destroy config); cbn [orb mbind option_bind]; [exact IH|]. destruct (lost l2); [done|exact IH].
Qed.
End Lifecycle.

(** Entities that nothing destroys are never finalised. *)
Lemma no_fini_run {A : UrosApp} ts : destroy_entities = None ->
  (forall a cb, forallb plain (run_callback a cb).2 = true) -> (forall a, existsb is_fini (create_entities a).2 = false) ->
  forall ss a, existsb is_fini (app_run ss a ts).2 = false.
Proof.
  intros Hd Hcb Hc. assert (forall up ss a, existsb is_fini (run_steps up a ss).2 = false) as Hs.
  { intros up ss. induction ss as [|s ss IH]; intros a; [done|]. cbn [run_steps]. assert (existsb is_fini (run_step up a s).2 = false) as H1.
    { destruct s as [t|cb]; [done|]. destruct up; [|done]. by destruct (plain_spec _ [] (Hcb a cb)) as (_ & _ & ?). }
    destruct (run_step up a s) as [a1 l1]. specialize (IH a1). destruct (run_steps up a1 ss). cbn [snd] in *. by rewrite existsb_app, H1, IH. }
  assert (forall us a, existsb is_fini (on_ucalls a us).2 = false) as Hu.
  { intros us. induction us as [|u us IH]; intros a; [done|]. cbn [on_ucalls]. assert (existsb is_fini (on_ucall a u).2 = false) as H1.
    { destruct u; try done; [apply Hc|]. cbn. by rewrite Hd. }
    destruct (on_ucall a u) as [a1 l1]. specialize (IH a1). destruct (on_ucalls a1 us). cbn [snd] in *. by rewrite existsb_app, H1, IH. }
  induction ts as [|t ts IH]; intros ss a; [done|]. cbn [app_run]. unfold app_turn.
  pose proof (Hs (linked ss) (steps t) a) as H1. destruct (run_steps _ a _) as [a1 l1]. destruct (session_turn _ ss _ _) as [ss1 us].
  pose proof (Hu us a1) as H2. destruct (on_ucalls a1 us) as [a2 l2]. specialize (IH ss1 a2). destruct (app_run ss1 a2 ts) as [[ss2 a3] l3].
  cbn [snd] in *. by rewrite !existsb_app, H1, H2, IH.
Qed.

Section Entities.
Context `{RtosQueue} `{TwaiDlc} (undef : f32 -> Z) (undef_d : spec_float -> Z) (sinf cosf : f32 -> f32).

Lemma declare_plain ps : forall a n, forallb plain (declare_params a n ps).2 = true.
Proof.
  induction ps as [|[joint suffix] ps IH]; intros a n; [done|]. cbn [declare_params]. unfold declare_param.
  set (a1 := {| a with s_param_names := _ |}). specialize (IH a1 (S n)). by destruct (declare_params a1 (S n) ps).
Qed.

Lemma limb_create_plain arg a : let l := (limb_uros_create_entities arg a).2 in
  tracked [] l = Some [AliveTimer; AlivePub; ParamServer] /\ lost l = false /\ existsb is_fini l = false.
Proof.
  cbv zeta. unfold limb_uros_create_entities. pose proof (plain_spec _ [ParamServer] (declare_plain (param_pairs (joints (la_limb a))) a 0)) as Hd.
  destruct (declare_params a 0 _) as [a' l]. cbn [snd] in *. destruct Hd as (H1 & H2 & H3).
  rewrite tracked_app. cbn [tracked track mbind option_bind]. rewrite bool_decide_false by (by apply not_elem_of_nil). cbn [mbind option_bind].
  rewrite tracked_app, H1. unfold lost in *. rewrite !existsb_app, H2, H3. done.
Qed.

Lemma limb_cb_plain node a cb : forallb plain (run_callback (UrosApp := limb_uros undef undef_d sinf cosf node) a cb).2 = true.
Proof. destruct cb as [p|]; cbn; [|done]. by destruct (uros_on_param_changed undef_d a p). Qed.

Lemma flight_cb_plain a cb : forallb plain (run_callback (UrosApp := flight_uros undef) a cb).2 = true.
Proof. destruct cb as [p|]; cbn; [|done]. by destruct (on_param_changed a p). Qed.

Lemma helmet_cb_plain a cb : forallb plain (run_callback (UrosApp := helmet_uros undef) a cb).2 = true.
Proof. destruct cb as [ns x text|tsens]; cbn; [done|]. by destruct (s_wake_pending a), tsens. Qed.

Lemma flight_cb_node a cb : s_uros_node a = true -> s_uros_node (run_callback (UrosApp := flight_uros undef) a cb).1 = true.
Proof.
  intros Hr. destruct cb as [p|]; cbn; [|done]. unfold on_param_changed. destruct p as [[nm [v|]]|]; [|done..].
  by destruct (flight_param_set _ _ _).
Qed.

(** C38: The entities of the flight node are those of its session, through any run of the session
    task: none is initialised while it exists, each is finalised exactly once when its
    session is lost, with the node it belongs to and before that node, and while there is
    no session there is none.  On the limb and helmet nodes, which hand no
    [destroy_entities] to the session task, this holds exactly until the first session is
    lost: the node is then finalised under its entities, which are never finalised and are
    initialised over when the agent returns. *)
Theorem entities_finalised :
  (forall a ts, let '(ss, _, l) := @app_run (flight_uros undef) session_start a ts in
    tracked [] l = Some (if linked ss then [AliveTimer; AlivePub; ParamServer] else [])) /\
  (forall node a ts, let '(ss, _, l) := @app_run (limb_uros undef undef_d sinf cosf node) session_start a ts in
    tracked [] l = (if lost l then None else Some (if linked ss then [AliveTimer; AlivePub; ParamServer] else [])) /\ existsb is_fini l = false) /\
  (forall a ts, let '(ss, _, l) := @app_run (helmet_uros undef) session_start a ts in
    tracked [] l = (if lost l then None else Some (if linked ss then [PubTimer; HudSub; AmbientPub; VoicePub] else [])) /\ existsb is_fini l = false).
Proof.
  split_and!.
  - intros a ts.
    apply (@lifecycle_run (flight_uros undef) [AliveTimer; AlivePub; ParamServer] (fun a => s_uros_node a = true) eq_refl); try done.
    + intros ? ?. apply flight_cb_node.
    + apply flight_cb_plain.
    + intros f a' [= <-] Hr. cbn in Hr |- *. by rewrite Hr.
  - intros node a ts. set (A := limb_uros undef undef_d sinf cosf node).
    pose proof (@no_fini_run A ts eq_refl (limb_cb_plain node) (fun a => proj2 (proj2 (limb_create_plain (alive_topic node) a))) session_start a) as Hf.
    pose proof (@lifecycle_run A [AliveTimer; AlivePub; ParamServer] (fun _ => True) eq_refl (fun _ _ _ => I) (fun _ _ _ => I)
      (limb_cb_plain node) (fun _ => I) (fun a => proj1 (limb_create_plain (alive_topic node) a))
      (fun a => proj1 (proj2 (limb_create_plain (alive_topic node) a))) eq_refl ltac:(done) ltac:(done) ts session_start a (fun _ => I)) as Hl.
    destruct (@app_run A session_start a ts) as [[ss a'] l]. split; [|exact Hf]. cbn in Hl. by destruct (lost l).
  - intros a ts. set (A := helmet_uros undef).
    pose proof (@no_fini_run A ts eq_refl helmet_cb_plain (fun _ => eq_refl) session_start a) as Hf.
    pose proof (@lifecycle_run A [PubTimer; HudSub; AmbientPub; VoicePub] (fun _ => True) eq_refl (fun _ _ _ => I) (fun _ _ _ => I)
      helmet_cb_plain (fun _ => I) (fun _ => eq_refl) (fun _ => eq_refl) eq_refl ltac:(done) ltac:(done) ts session_start a (fun _ => I)) as Hl.
    destruct (@app_run A session_start a ts) as [[ss a'] l]. split; [|exact Hf]. cbn in Hl. by destruct (lost l).
Qed.
End Entities.

(** ** Witness *)

Definition demo_app : limb_app := {| la_limb := demo_limb; s_param_names := replicate UROS_MAX_PARAMS EmptyString; s_alive_data := 0 |}.

(** A session is found, a torque limit above the board's is asked for, the agent falls silent for
    two seconds, and a session is found again; the control loop runs meanwhile. *)
Definition demo_turns : list (@turn (limb_uros undef0 (fun _ => 0) sin0 cos1 1)) :=
  let A := limb_uros undef0 (fun _ => 0) sin0 cos1 1 in
  let torque := LimbParam (Some {| p_name := Some "wrist_torque_limit_cnm"%string; p_double := Some (double_of_Z 2000) |}) in
  [@Build_turn A [] true true; @Build_turn A [@Callback A torque; @Other A (LTick quiet_tick)] false false] ++
  replicate 199 (@Build_turn A [] false false) ++ [@Build_turn A [] true true].

Lemma params_survive_reconnect_witness :
  observed (@app_run (limb_uros undef0 (fun _ => 0) sin0 cos1 1) session_start demo_app demo_turns).2 !! 20%nat =
  Some (ODeclare "wrist_torque_limit_cnm" (double_of_Z 1500)).
Proof.
  destruct (params_survive_reconnect undef0 (fun _ => 0) sin0 cos1) as [Hl _].
  rewrite (Hl 1 demo_app demo_turns); [vm_compute; reflexivity|lia|split; reflexivity|].
  apply list.Forall_app. split; [repeat (constructor; [repeat constructor|]); constructor|].
  apply list.Forall_app. split; [apply Forall_replicate; constructor|constructor; [constructor|constructor]].
Defined.
