(* ===== verification/Loopback.v ===== *)
(** The loopback self-test of the CAN driver (src/firmware/apps/node_bench/main/can_selftest.c).

    The controller hears what it sends and needs no acknowledgement, so the order in which
    frames come back is the order in which [ps_can] put them on the wire.  The tasks and
    interrupts of the driver run while the test does: what they do between two of its
    actions is a list of [drv] steps, chosen by the scheduler and left open here.  The
    measurements of latency are about the hardware and not modelled. *)
From stdpp Require Import strings.
From S2P Require Import Prelude CanId Rtos Txq Can.

Definition LOG_MAX : Z := 64.
Definition N_BASIC : nat := Z.to_nat 200.
Definition N_QUEUED : nat := 12.

(** The callback [on_rx], as a token. *)
Definition on_rx_cb : Z := 71.

Section Loopback.
Context `{RtosQueue} `{TwaiDlc}.

(** ** The driver on a looped-back controller *)

Inductive drv :=
  | DHand            (* a turn of the transmit task *)
  | DWire            (* the frame with the controller completes, and is received *)
  | DRx (now : Z).   (* a turn of the receive task *)

(** The bytes of a slot as the controller stores them on reception. *)
Definition wire_bytes (sl : ps_can_tx_slot_t) : list Z :=
  take (Z.to_nat (sl_len sl)) (sl_data sl) ++ replicate (8 - Z.to_nat (sl_len sl)) 0.

Definition drv_step (c : ps_can_ctx) (d : drv) : ps_can_ctx * option (Z * ps_can_frame_t) :=
  match d with
  | DHand => (default c (tx_task_turn (S PS_CAN_TX_SLOTS) (fun _ => true) c), None)
  | DWire =>
    if tx_busy c then
      let sl := slots c !!! Z.to_nat (tx_slot c) in
      let c := on_rx_done c (Some (sl_id sl, sl_dlc sl, wire_bytes sl)) in
      ((on_tx_done c (Some (tx_slot c)) true).1, None)
    else (c, None)
  | DRx now => let '(c, call, _) := rx_task_turn c now false in (c, call)
  end.

(** ** The test *)

(** Class and low byte of a frame received; the time stamps are left out. *)
Definition rx_rec_t : Type := (Z * Z)%type.

Record st := { t_can : ps_can_ctx; s_log : list rx_rec_t; s_n : Z; reports : list (string * bool) }.

Definition on_rx (s : st) (f : ps_can_frame_t) : st :=
  let i := s_n s in
  {| s with s_log := if i <? LOG_MAX then <[Z.to_nat i := (ps_can_id_cls (f_id f), ps_can_id_low (f_id f))]> (s_log s) else s_log s;
            s_n := u32 (i + 1) |}.

Definition drv1 (s : st) (d : drv) : st :=
  let '(c, call) := drv_step (t_can s) d in
  let s := {| s with t_can := c |} in
  match call with Some (cb, f) => if cb =? on_rx_cb then on_rx s f else s | None => s end.
Definition drv_run (s : st) (ds : list drv) : st := foldl drv1 s ds.

(** [ds] is what happens until the timeout. *)
Fixpoint wait_rx (s : st) (n : Z) (ds : list drv) : st * bool :=
  if n <=? s_n s then (s, true) else
  match ds with [] => (s, false) | d :: ds => wait_rx (drv1 s d) n ds end.

Definition test_frame (cls type low : Z) : ps_can_frame_t :=
  {| f_id := ps_can_id_pack cls 1 PS_NODE_BROADCAST type low; f_dlc := 8; f_data := replicate 8 low |}.

Definition send (s : st) (cls type low : Z) : st * esp_err_t :=
  let '(h, err) := ps_can_send (Some (t_can s)) (Some (test_frame cls type low)) in
  ({| s with t_can := default (t_can s) h |}, err).

Definition report (s : st) (ok : bool) (name : string) : st := {| s with reports := reports s ++ [(name, ok)] |}.

(** The index of the first SAFETY frame among the first [n] received, or -1. *)
Fixpoint find_safety (l : list rx_rec_t) (i : Z) : Z :=
  match l with [] => -1 | r :: l => if r.1 =? PS_CLS_SAFETY then i else find_safety l (i + 1) end.
Definition safety_pos (s : st) (n : nat) : Z := find_safety (take n (take (Z.to_nat LOG_MAX) (s_log s))) 0.

(** [n] TELEM frames, numbered from [i]; [sc i] is what happens before frame [i].  The state, and
    how many were refused. *)
Fixpoint send_telem (n : nat) (i : Z) (sc : Z -> list drv) (s : st) : st * Z :=
  match n with
  | O => (s, 0)
  | S n =>
    let '(s, err) := send (drv_run s (sc i)) PS_CLS_TELEM PS_T_JOINT_STATE (u8 i) in
    let '(s, refused) := send_telem n (i + 1) sc s in
    (s, if is_ok err then refused else refused + 1)
  end.

Definition since (before after : Z) : Z := u32 (after - before).

(** [wait] happens until the frames are back, [tail] in the 20 ms after. *)
Definition check_basic (s : st) (sc : Z -> list drv) (wait tail : list drv) : st :=
  let before := stats (t_can s) in
  let s := {| s with s_n := 0 |} in
  let '(s, refused) := send_telem N_BASIC 0 sc s in
  let '(s, all) := wait_rx s (Z.of_nat N_BASIC) wait in
  let s := drv_run s tail in
  let after := stats (t_can s) in
  report s (all && (refused =? 0) && (since (tx_frames before) (tx_frames after) =? Z.of_nat N_BASIC) &&
            (since (bus_errors before) (bus_errors after) =? 0) && (since (tx_timeouts before) (tx_timeouts after) =? 0)) "basic".

(** The first loop of [queue_and_find_safety]: it ends with the first frame refused. *)
Fixpoint queue_telem (n : nat) (i : Z) (sc : Z -> list drv) (s : st) : st * bool :=
  match n with
  | O => (s, true)
  | S n =>
    let '(s, err) := send (drv_run s (sc i)) PS_CLS_TELEM PS_T_JOINT_STATE (u8 i) in
    if is_ok err then queue_telem n (i + 1) sc s else (s, false)
  end.

(** What happens before the test, before each frame, between the count and the SAFETY frame,
    and while it waits. *)
Record schedule := { w_before : list drv; w_each : Z -> list drv; w_gap : list drv; w_wait : list drv }.

(** The position of the SAFETY frame and the number back before it was queued; [None] for a
    refusal or a timeout. *)
Definition queue_and_find_safety (s : st) (w : schedule) : st * option (Z * Z) :=
  let s := {| (drv_run s (w_before w)) with s_n := 0 |} in
  let '(s, queued) := queue_telem N_QUEUED 0 (w_each w) s in
  if negb queued then (s, None) else
  let back := s_n s in
  let '(s, err) := send (drv_run s (w_gap w)) PS_CLS_SAFETY PS_T_HEARTBEAT 0xAA in
  if negb (is_ok err) then (s, None) else
  let '(s, all) := wait_rx s (Z.of_nat (N_QUEUED + 1)) (w_wait w) in
  (s, if all then Some (safety_pos s (N_QUEUED + 1), back) else None).

(** The TELEM frames among those logged, up to the first out of order: how many, and whether there
    was none. *)
Fixpoint in_order (l : list rx_rec_t) (expect : Z) : Z * bool :=
  match l with
  | [] => (expect, true)
  | r :: l => if negb (r.1 =? PS_CLS_TELEM) then in_order l expect
              else if r.2 =? expect then in_order l (expect + 1) else (expect, false)
  end.

(** [core] is the core the test runs on. *)
Definition check_order (s : st) (core : Z) (w w' : schedule) : st :=
  let '(s, found) := queue_and_find_safety s w in
  let '(pos, back) := default (-1, 0) found in
  let s := report s ((pos =? 0) && (back =? 0) && (core =? 0)) "order" in
  let '(expect, kept) := in_order (take (N_QUEUED + 1) (take (Z.to_nat LOG_MAX) (s_log s))) 0 in
  let s := report s ((0 <=? pos) && kept && (expect =? Z.of_nat N_QUEUED)) "fifo" in
  let '(s, found) := queue_and_find_safety s w' in
  report s (match found with Some (pos, back) => (0 <=? pos) && (pos <=? back + 2) | None => false end) "order_concurrent".

(** Up to the measurements of latency. *)
Definition bench_can_selftest (e : open_env) (core : Z) (sc : Z -> list drv) (wait tail : list drv) (w w' : schedule) : list (string * bool) :=
  let '(c, err, _) := ps_can_open (Some (0, 0, 0)) true e in
  match c with
  | Some _ =>
    let '(c, _) := ps_can_register_class_cb c PS_CLS_SAFETY (Some on_rx_cb) in
    let '(c, _) := ps_can_register_class_cb c PS_CLS_TELEM (Some on_rx_cb) in
    match c with
    | Some c =>
      let s := {| t_can := c; s_log := replicate (Z.to_nat LOG_MAX) (0, 0); s_n := 0; reports := [] |} in
      reports (check_order (check_basic s sc wait tail) core w w')
    | None => []
    end
  | None => [("open"%string, false)]
  end.
End Loopback.

(** ** The test run under a fair schedule *)

(** A frame goes round. *)
Definition round : list drv := [DHand; DWire; DRx 0].
Definition rounds (n : nat) : list drv := mjoin (replicate n round).
Definition demo_open : open_env := Build_open_env true true true true true true true true.
Definition quiet : schedule := {| w_before := rounds 3; w_each := fun _ => []; w_gap := []; w_wait := rounds 13 |}.
Definition busy : schedule := {| w_before := rounds 3; w_each := fun i => if i mod 2 =? 0 then [DHand; DWire] else [DRx 0]; w_gap := [DRx 0; DHand]; w_wait := rounds 14 |}.

Example selftest_run : bench_can_selftest demo_open 0 (fun _ => round) (rounds 2) [] quiet busy =
  [("basic", true); ("order", true); ("fifo", true); ("order_concurrent", true)]%string.
Proof. vm_compute. reflexivity. Qed.
