(* ===== verification/LoopbackSpec.v ===== *)
(** The CAN driver on a looped-back controller is a queue ordered by class ([loopback_refines]),
    and so the self-test finds the order it looks for under every schedule
    ([selftest_order]). *)
From stdpp Require Import strings.
From S2P Require Import Prelude CanId Rtos Txq Can CanSpec CanOps Loopback.
From stdpp Require Import list.
#[local] Open Scope Z_scope.
#[local] Open Scope cint_scope.

(** ** Class order *)

Definition fcls (f : ps_can_frame_t) : nat := Z.to_nat (ps_can_id_cls (f_id f)).
Definition of_class (j : nat) (l : list ps_can_frame_t) : list ps_can_frame_t := filter (fun f => fcls f = j) l.

(** The frame of the lowest class that came first, and the others. *)
Fixpoint take_best (l : list ps_can_frame_t) : option (ps_can_frame_t * list ps_can_frame_t) :=
  match l with
  | [] => None
  | f :: l =>
    match take_best l with
    | Some (g, r) => if (fcls g <? fcls f)%nat then Some (g, f :: r) else Some (f, l)
    | None => Some (f, l)
    end
  end.

Lemma fcls_range f : (fcls f < 8)%nat.
Proof. pose proof (cls_range (f_id f)). unfold fcls. lia. Qed.

Lemma of_class_cons j f l : of_class j (f :: l) = if decide (fcls f = j) then f :: of_class j l else of_class j l.
Proof. unfold of_class. by rewrite filter_cons. Qed.
Lemma of_class_app j l l' : of_class j (l ++ l') = of_class j l ++ of_class j l'.
Proof. apply filter_app. Qed.

Lemma take_best_spec l : match take_best l with
  | None => l = []
  | Some (g, r) => (forall j, (j < fcls g)%nat -> of_class j l = []) /\ of_class (fcls g) l = g :: of_class (fcls g) r /\
                   forall j, j <> fcls g -> of_class j l = of_class j r
  end.
Proof.
  induction l as [|f l IH]; [done|]. cbn [take_best]. destruct (take_best l) as [[g r]|].
  - destruct IH as (Hlow & Hg & Ho). destruct (Nat.ltb_spec (fcls g) (fcls f)).
    + split_and!.
      * intros j Hj. rewrite of_class_cons, decide_False by lia. by apply Hlow.
      * rewrite !of_class_cons, !decide_False by lia. done.
      * intros j Hj. rewrite !of_class_cons. by case_decide; rewrite (Ho j).
    + split_and!.
      * intros j Hj. rewrite of_class_cons, decide_False by lia. apply Hlow. lia.
      * by rewrite of_class_cons, decide_True.
      * intros j Hj. by rewrite of_class_cons, decide_False.
  - subst l. split_and!; intros; rewrite of_class_cons; [by rewrite decide_False by lia|by rewrite decide_True|by rewrite decide_False].
Qed.

(** A list in class order, each class in its own order. *)
Definition class_order (l : list ps_can_frame_t) : list ps_can_frame_t := seq 0 8 ≫= (fun j => of_class j l).

Lemma class_order_perm l : class_order l ≡ₚ l.
Proof.
  induction l as [|f l IH]; [done|]. rewrite <- IH at 2. apply (bind_move _ _ _ (fcls f)).
  - apply NoDup_seq.
  - apply elem_of_seq8, fcls_range.
  - by rewrite of_class_cons, decide_True.
  - intros j _ Hj. by rewrite of_class_cons, decide_False.
Qed.

Lemma bind_first {A} (ks : list nat) (f g : nat -> list A) k x : NoDup ks -> k ∈ ks -> f k = x :: g k ->
  (forall j, j ∈ ks -> (j <> k -> f j = g j) /\ (j < k -> f j = [])%nat) -> (forall i j, ks !! i = Some j -> forall i' j', ks !! i' = Some j' -> (i < i' -> j < j')%nat) ->
  ks ≫= f = x :: (ks ≫= g).
Proof.
  intros Hd Hk Hf Hj Hs. induction ks as [|a ks IH]; [by apply not_elem_of_nil in Hk|]. cbn [mbind list_bind].
  apply list.NoDup_cons in Hd as [Ha Hd]. destruct (decide (a = k)) as [->|Hne].
  - rewrite Hf. cbn [app]. f_equal. f_equal. clear -Hj Ha.
    assert (forall j, j ∈ ks -> f j = g j) as He by (intros j H; apply Hj; [by right|by intros ->]).
    clear Hj Ha. induction ks as [|b ks IH]; [done|]. cbn. rewrite (He b) by left. f_equal. apply IH. intros j Hin. apply He. by right.
  - assert (k ∈ ks) as Hk' by (apply elem_of_cons in Hk as [->|]; done).
    apply list_elem_of_lookup in Hk' as [i Hi]. assert (a < k)%nat as Hlt by (eapply (Hs 0%nat a eq_refl (S i) k Hi); lia).
    rewrite (proj2 (Hj a ltac:(left)) Hlt). assert (g a = []) as ->.
    { rewrite <- (proj1 (Hj a ltac:(left)) Hne). by apply (Hj a); [left|]. }
    cbn [app]. apply IH; [done|by eapply list_elem_of_lookup_2| |].
    + intros j Hin. apply Hj. by right.
    + intros i1 j1 H1 i2 j2 H2 Hlt'. apply (Hs (S i1) j1 H1 (S i2) j2 H2). lia.
Qed.

Lemma class_order_best l : class_order l = match take_best l with Some (g, r) => g :: class_order r | None => [] end.
Proof.
  pose proof (take_best_spec l) as Hb. destruct (take_best l) as [[g r]|]; [|by subst].
  destruct Hb as (Hlow & Hg & Ho). apply (bind_first _ _ _ (fcls g)); [apply NoDup_seq|apply elem_of_seq8, fcls_range|done| |].
  - intros j _. split; [apply Ho|apply Hlow].
  - intros i j Hi i' j' Hi' Hlt. apply lookup_seq in Hi as [-> _], Hi' as [-> _]. lia.
Qed.

(** ** The specification: a queue ordered by class, a wire, a receive queue *)

(** [a_fl]: the frame with the controller; [a_rx]: received, not yet handed on. *)
Record abs := { a_q : list ps_can_frame_t; a_fl : option ps_can_frame_t; a_rx : list ps_can_frame_t; a_stats : ps_can_stats_t }.

Definition RX_LEN : nat := Z.to_nat 64.

(** The frame as a receiver sees it, zero-padded. *)
Definition pad (f : ps_can_frame_t) : ps_can_frame_t :=
  {| f_id := f_id f; f_dlc := f_dlc f; f_data := take (Z.to_nat (f_dlc f)) (f_data f) ++ replicate (8 - Z.to_nat (f_dlc f)) 0 |}.

Definition a_send (a : abs) (f : ps_can_frame_t) : abs * esp_err_t :=
  if (length (a_q a) + length (option_list (a_fl a)) <? PS_CAN_TX_SLOTS)%nat then ({| a with a_q := a_q a ++ [pad f] |}, ESP_OK)
  else ({| a with a_stats := {| (a_stats a) with tx_timeouts := inc (tx_timeouts (a_stats a)) |} |}, ESP_ERR_TIMEOUT).

(** [cbs]: the handlers registered per class. *)
Definition a_drv (cbs : list (option Z)) (a : abs) (d : drv) : abs * option (Z * ps_can_frame_t) :=
  match d with
  | DHand => (match a_fl a, take_best (a_q a) with None, Some (g, r) => {| a with a_fl := Some g; a_q := r |} | _, _ => a end, None)
  | DWire => (match a_fl a with
      | None => a
      | Some f =>
        let n := a_stats a in
        let n := {| n with rx_frames := inc (rx_frames n) |} in
        let room := (length (a_rx a) <? RX_LEN)%nat in
        let n := if room then n else {| n with rx_dropped := inc (rx_dropped n) |} in
        {| a with a_fl := None; a_rx := if room then a_rx a ++ [f] else a_rx a;
                  a_stats := {| n with tx_frames := inc (tx_frames n) |} |}
      end, None)
  | DRx _ => match a_rx a with
      | [] => (a, None)
      | f :: rx =>
        match cbs !!! fcls f with
        | Some cb => ({| a with a_rx := rx |}, Some (cb, f))
        | None => ({| a with a_rx := rx; a_stats := {| (a_stats a) with rx_dropped := inc (rx_dropped (a_stats a)) |} |}, None)
        end
      end
  end.

Section LoopbackSpec.
Context `{RtosQueue} `{TwaiDlc}.

(** No task of the driver is under way. *)
Definition idle (c : ps_can_ctx) : sys := {| ctx := c; pc := TxWait; senders := []; isr := [] |}.

(** What comes back of slot [k]. *)
Definition slot_frame (c : ps_can_ctx) (k : Z) : ps_can_frame_t :=
  let sl := slots c !!! Z.to_nat k in rx_frame (sl_id sl) (sl_dlc sl) (wire_bytes sl).

Record sim (cbs : list (option Z)) (c : ps_can_ctx) (a : abs) : Prop := {
  sim_inv : can_inv (idle c);
  sim_q : forall j, (j < 8)%nat -> slot_frame c <$> fifo (txq c) j = of_class j (a_q a);
  sim_fl : a_fl a = if tx_busy c then Some (slot_frame c (tx_slot c)) else None;
  sim_rx : waiting (rx_q c) = a_rx a;
  sim_cap : capacity (rx_q c) = RX_LEN;
  sim_data : forall k, (k < 16)%nat -> length (sl_data (slots c !!! k)) = 8%nat;
  sim_stats : stats c = a_stats a;
  sim_cbs : cls_cb c = cbs;
  sim_up : node_id c = 0 /\ running c = true /\ link_state c = PS_CAN_STATE_RUNNING /\ pending_state c = -1;
}.

(** A frame the driver accepts. *)
Definition frame_ok (f : ps_can_frame_t) : Prop := 0 <= f_dlc f <= 8 /\ length (f_data f) = 8%nat /\ 0 <= f_id f < 2 ^ 29.

Lemma frame_guard cbs c a f : sim cbs c a -> frame_ok f -> send_guard c f = ESP_OK.
Proof.
  intros Hs (Hd & _ & Hi). destruct (sim_up _ _ _ Hs) as (_ & _ & Hl & _). unfold send_guard. rewrite id_mask_has by (unfold is_u32; lia).
  rewrite Hl. destruct (Z.ltb_spec 8 (f_dlc f)); [lia|]. by destruct (Z.leb_spec 0x20000000 (f_id f)); [lia|].
Qed.

(** What waits in the rings are the frames waiting, in class order. *)
Lemma sim_pending cbs c a : sim cbs c a -> slot_frame c <$> pending (txq c) = class_order (a_q a).
Proof.
  intros Hs. pose proof (sim_q _ _ _ Hs) as Hq. unfold pending, class_order. cbn [seq mbind list_bind]. rewrite !fmap_app.
  by rewrite !Hq by lia.
Qed.

(** The slots in use are those of the frames. *)
Lemma sim_used cbs c a : sim cbs c a ->
  (length (waiting (free_slots c)) + (length (a_q a) + length (option_list (a_fl a))) = 16)%nat.
Proof.
  intros Hs. pose proof (owned_length _ (inv_owned _ (sim_inv _ _ _ Hs))) as Hl. unfold owned, with_driver in Hl. cbn [ctx pc senders isr idle] in Hl.
  rewrite !length_app in Hl. cbn [pc_slots fmap list_fmap length] in Hl.
  assert (length (pending (txq c)) = length (a_q a)) as Hq.
  { rewrite <- (class_order_perm (a_q a)), <- (sim_pending _ _ _ Hs). by rewrite length_fmap. }
  rewrite Hq in Hl. rewrite (sim_fl _ _ _ Hs). destruct (tx_busy c); unfold option_list in *; simpl length in *; lia.
Qed.

(** Frames depend on the slots alone, and a slot written for a new frame carries it. *)
Lemma slot_frame_ext c c' k : slots c' !!! Z.to_nat k = slots c !!! Z.to_nat k -> slot_frame c' k = slot_frame c k.
Proof. unfold slot_frame. by intros ->. Qed.

Lemma frames_ext c c' (ks : list Z) : (forall k, k ∈ ks -> slots c' !!! Z.to_nat k = slots c !!! Z.to_nat k) -> slot_frame c' <$> ks = slot_frame c <$> ks.
Proof. intros Hk. apply list_fmap_ext. intros i k Hi. apply slot_frame_ext, Hk. by eapply list_elem_of_lookup_2. Qed.

Lemma fill_frame f sl : frame_ok f -> length (sl_data sl) = 8%nat ->
  rx_frame (sl_id (fill_slot f sl)) (sl_dlc (fill_slot f sl)) (wire_bytes (fill_slot f sl)) = pad f.
Proof. intros (Hd & Hl & _) Hs. apply fill_receive; [done|lia|done]. Qed.

Lemma fill_length f sl : frame_ok f -> length (sl_data sl) = 8%nat -> length (sl_data (fill_slot f sl)) = 8%nat.
Proof. intros (Hd & Hl & _) Hs. cbn [fill_slot sl_data]. rewrite length_bput; rewrite ?length_take; lia. Qed.

Lemma fcls_pad f : fcls (pad f) = fcls f.
Proof. done. Qed.

(** A send with a slot to spare. *)
Lemma sim_send_ok cbs c a f k l : sim cbs c a -> frame_ok f -> waiting (free_slots c) = k :: l ->
  exists c', ps_can_send (Some c) (Some f) = (Some c', ESP_OK) /\ sim cbs c' {| a with a_q := a_q a ++ [pad f] |}.
Proof.
  intros Hs Hf Hw. pose proof (frame_guard _ _ _ _ Hs Hf) as Hg. pose proof (sim_inv _ _ _ Hs) as Hinv.
  set (s1 := match step (idle c) (SendTake f) with Some s1 => s1 | None => idle c end).
  assert (step (idle c) (SendTake f) = Some s1) as H1 by (subst s1; cbn [step idle ctx]; rewrite Hg; by destruct (send_take c f)).
  pose proof (inv_step _ (SendTake f) _ Hinv eq_refl H1) as Hinv1. clearbody s1. cbn [step idle ctx] in H1. rewrite Hg in H1.
  unfold ps_can_send. rewrite Hg. unfold send_take in *. pose proof (receive_some (free_slots c)) as Hr.
  destruct (xQueueReceive (free_slots c)) as [q got]. cbn [snd] in Hr. subst got. rewrite Hw in H1 |- *. cbn [list.head] in *.
  injection H1 as <-. set (c1 := {| c with free_slots := q; slots := _ |}) in *.
  pose proof (push_queued _ 0%nat k f Hinv1 eq_refl) as Hq. cbn [ctx] in Hq.
  pose proof (txq_push_spec (txq c) (ps_can_id_cls (f_id f)) k (inv_txq _ Hinv) ltac:(apply cls_range)) as Hpush.
  pose proof (inv_send_push _ 0%nat {| ctx := (send_push c1 f k).1; pc := TxWait; senders := []; isr := [] |} Hinv1) as Hinv2.
  cbn [step senders ctx lookup list_lookup] in Hinv2. unfold send_push in *. change (txq c1) with (txq c) in *.
  destruct (ps_can_txq_push (txq c) (ps_can_id_cls (f_id f)) k) as [q' ok]. cbn [fst snd] in *. subst ok.
  specialize (Hinv2 eq_refl). destruct Hpush as (_ & _ & _ & Hfifo). specialize (Hfifo eq_refl).
  assert (0 <= k < 16) as Hk by (apply (owned_range _ k (inv_owned _ Hinv)); unfold owned; cbn [idle ctx]; rewrite Hw; left).
  assert (forall j, j ∈ pending (txq c) ++ with_driver c -> slots c1 !!! Z.to_nat j = slots c !!! Z.to_nat j) as Hkeep.
  { intros j Hj. apply list_lookup_total_insert_ne.
    eapply (free_disjoint (idle c) k _ j l Hinv Hw); [by unfold owned|]. rewrite !elem_of_app in *. cbn [idle ctx]. tauto. }
  assert (slots c1 !!! Z.to_nat k = fill_slot f (slots c !!! Z.to_nat k)) as Hnew.
  { apply list_lookup_total_insert_eq. pose proof (inv_slots _ Hinv) as Hsl. cbn [idle ctx] in Hsl. rewrite Hsl. unfold PS_CAN_TX_SLOTS. lia. }
  eexists. split; [reflexivity|]. destruct Hs as [_ Sq Sf Srx Scap Sd Sst Scb Sup].
  constructor; cbn [a_q a_fl a_rx a_stats tx_busy tx_slot rx_q stats cls_cb node_id running link_state pending_state slots txq]; try done.
  - intros j Hj. rewrite Hfifo by done. rewrite of_class_app, of_class_cons, fcls_pad. fold (fcls f).
    assert (forall k', k' ∈ fifo (txq c) j -> slots c1 !!! Z.to_nat k' = slots c !!! Z.to_nat k') as Hj'.
    { intros k' Hk'. apply Hkeep, elem_of_app. left. apply elem_of_pending. eauto. }
    destruct (decide (j = fcls f)) as [->|Hne].
    + rewrite decide_True, fmap_app, (frames_ext c), Sq by done. f_equal. cbn [fmap list_fmap]. f_equal. unfold slot_frame. cbn [slots].
      rewrite Hnew. apply fill_frame; [done|]. apply Sd. lia.
    + rewrite decide_False by congruence. rewrite app_nil_r, (frames_ext c) by done. by apply Sq.
  - rewrite Sf. destruct (tx_busy c) eqn:Eb; [|done]. f_equal. symmetry. apply slot_frame_ext, Hkeep, elem_of_app. right.
    unfold with_driver. rewrite Eb. left.
  - intros j Hj. destruct (decide (j = Z.to_nat k)) as [->|Hne].
    + rewrite Hnew. by apply fill_length, Sd.
    + cbn [c1 slots]. rewrite list_lookup_total_insert_ne by done. by apply Sd.
Qed.

(** A send does what the specification says. *)
Lemma sim_send cbs c a f : sim cbs c a -> frame_ok f ->
  exists c', ps_can_send (Some c) (Some f) = (Some c', (a_send a f).2) /\ sim cbs c' (a_send a f).1.
Proof.
  intros Hs Hf. pose proof (sim_used _ _ _ Hs) as Hu. unfold a_send, PS_CAN_TX_SLOTS.
  destruct (waiting (free_slots c)) as [|k l] eqn:Hw; cbn [length] in Hu.
  - destruct (Nat.ltb_spec (length (a_q a) + length (option_list (a_fl a))) 16); [lia|]. cbn [fst snd].
    unfold ps_can_send. rewrite (frame_guard _ _ _ _ Hs Hf). unfold send_take. pose proof (receive_some (free_slots c)) as Hr.
    rewrite Hw in Hr. destruct (xQueueReceive (free_slots c)) as [q got]. cbn in Hr. subst got.
    eexists. split; [reflexivity|]. destruct Hs as [Si Sq Sf Srx Scap Sd Sst Scb Sup].
    constructor; try done; [by apply (inv_same_tx (idle c))|]. cbn. by rewrite Sst.
  - destruct (Nat.ltb_spec (length (a_q a) + length (option_list (a_fl a))) 16); [|lia].
    destruct (sim_send_ok _ _ _ _ _ _ Hs Hf Hw) as (c' & He & Hs'). by exists c'.
Qed.

(** ** The driver's steps *)

Lemma hand_pop cbs c a : sim cbs c a -> tx_task_turn (S PS_CAN_TX_SLOTS) (fun _ => true) c = Some (tx_pop c).1.
Proof.
  intros Hs. destruct (sim_up _ _ _ Hs) as (_ & Hr & Hl & _). unfold tx_task_turn. rewrite Hr, Hl. cbn [negb].
  change (PS_CAN_STATE_RUNNING =? PS_CAN_STATE_BUS_OFF) with false. cbv iota. cbn [tx_serve]. destruct (tx_pop c) as [c' k]. by destruct (k <? 0).
Qed.

Lemma hand_inv c : can_inv (idle c) -> link_state c = PS_CAN_STATE_RUNNING -> can_inv (idle (tx_pop c).1).
Proof.
  intros Hi Hl. assert (step (idle c) TxWake = Some {| (idle c) with pc := TxLoop |}) as H1 by (cbn; by rewrite Hl).
  apply (inv_step _ TxWake _ Hi eq_refl) in H1.
  assert (step {| (idle c) with pc := TxLoop |} TxPop =
    Some {| (idle (tx_pop c).1) with pc := if (tx_pop c).2 <? 0 then TxWait else TxHave (tx_pop c).2 |}) as H2 by (cbn; by destruct (tx_pop c)).
  apply (inv_step _ TxPop _ H1 eq_refl) in H2. destruct ((tx_pop c).2 <? 0); [done|].
  by apply (inv_step _ (TxTransmit true) _ H2 eq_refl).
Qed.

(** The lowest class that is not empty is that of the best frame. *)
Lemma best_of_class l j g r : (forall i, (i < j)%nat -> of_class i l = []) -> of_class j l = g :: r ->
  exists l', take_best l = Some (g, l') /\ fcls g = j /\ of_class j l' = r /\ forall i, i <> j -> of_class i l' = of_class i l.
Proof.
  intros Hlow Hj. pose proof (take_best_spec l) as Hb. destruct (take_best l) as [[g' l']|]; [|by subst].
  destruct Hb as (Hlow' & Hg & Ho). assert (fcls g' = j) as <-.
  { destruct (Nat.lt_trichotomy (fcls g') j) as [Hlt|[Heq|Hlt]]; [|done|]; exfalso.
    - by rewrite Hlow in Hg.
    - by rewrite Hlow' in Hj. }
  rewrite Hg in Hj. injection Hj as <- <-. exists l'. split_and!; try done. intros i Hi. by rewrite Ho.
Qed.

Lemma sim_hand cbs c a : sim cbs c a -> sim cbs (tx_pop c).1 (a_drv cbs a DHand).1.
Proof.
  intros Hs. pose proof (sim_up _ _ _ Hs) as (_ & _ & Hl & _). pose proof (hand_inv c (sim_inv _ _ _ Hs) Hl) as Hinv'.
  pose proof (pop_loop_spec (txq c) 0 8 (inv_txq _ (sim_inv _ _ _ Hs)) eq_refl ltac:(lia)) as Hp.
  change (pop_loop (txq c) 0 8) with (ps_can_txq_pop (txq c)) in Hp.
  pose proof Hs as [Si Sq Sf Srx Scap Sd Sst Scb Sup]. unfold tx_pop in *. cbn [a_drv fst]. rewrite Sf.
  destruct (tx_busy c) eqn:Eb; cbn [negb] in *; [exact Hs|].
  destruct (ps_can_txq_pop (txq c)) as [q' k]. destruct Hp as [Hwf [(-> & -> & He)|(j & ks & Hj & Hlow & Hjk & Hq')]].
  - cbn [Z.leb Z.compare fst] in *. assert (take_best (a_q a) = None) as ->.
    { destruct (a_q a) as [|f l] eqn:Eq; [done|]. exfalso. pose proof (fcls_range f) as Hf. specialize (Sq (fcls f) Hf).
      by rewrite He, of_class_cons, decide_True in Sq. }
    constructor; try done.
  - assert (0 <= k < 16) as Hk.
    { apply (owned_range _ k (inv_owned _ Si)). unfold owned. rewrite !elem_of_app. right. left. apply elem_of_pending. exists j. cbn [idle ctx].
      rewrite Hjk. split; [done|left]. }
    destruct (Z.leb_spec 0 k); [|lia]. cbn [fst] in *.
    pose proof (Sq j Hj) as Hjq. rewrite Hjk in Hjq. cbn [fmap list_fmap] in Hjq.
    destruct (best_of_class (a_q a) j (slot_frame c k) (slot_frame c <$> ks)) as (l' & -> & Hcl & Hl' & Ho).
    { intros i Hi. rewrite <- Sq by lia. by rewrite Hlow. }
    { done. }
    constructor; try done; cbn [txq tx_busy tx_slot a_q a_fl].
    + intros i Hi. rewrite Hq' by done. destruct (decide (i = j)) as [->|Hne]; [by rewrite Hl'|]. rewrite Ho by done. by apply Sq.
    + unfold slot_frame. cbn [slots tx_slot]. by replace (u8 k) with k by clia.
Qed.

Lemma wire_inv c : can_inv (idle c) -> tx_busy c = true -> forall r,
  can_inv (idle (on_tx_done (on_rx_done c r) (Some (tx_slot c)) true).1).
Proof.
  intros Hi Hb r. assert (step (idle c) (RxDone r) = Some (idle (on_rx_done c r))) as H1 by done.
  apply (inv_step _ (RxDone r) _ Hi eq_refl) in H1. pose proof (rx_done_same c r) as (_ & _ & _ & Eb & Es).
  set (c1 := on_rx_done c r) in *. unfold on_tx_done, done_claim. rewrite Eb, Hb, <- Es, Z.eqb_refl. cbn [andb negb].
  assert (step (idle c1) (DoneClaim (tx_slot c1) true) = Some {| (idle {| c1 with tx_busy := false |}) with isr := [(tx_slot c1, true)] |}) as H2.
  { cbn. unfold done_claim. by rewrite Eb, Hb, Z.eqb_refl. }
  apply (inv_step _ (DoneClaim (tx_slot c1) true) _ H1 eq_refl) in H2. by apply (inv_step _ (DoneRelease 0) _ H2 eq_refl).
Qed.

Lemma sim_wire cbs c a : sim cbs c a -> sim cbs (drv_step c DWire).1 (a_drv cbs a DWire).1.
Proof.
  intros Hs. pose proof (wire_inv c (sim_inv _ _ _ Hs)) as Hw. pose proof Hs as [Si Sq Sf Srx Scap Sd Sst Scb Sup].
  cbn [drv_step a_drv]. rewrite Sf. destruct (tx_busy c) eqn:Eb; [|exact Hs].
  set (sl := slots c !!! Z.to_nat (tx_slot c)). specialize (Hw eq_refl (Some (sl_id sl, sl_dlc sl, wire_bytes sl))).
  pose proof (rx_done_same c (Some (sl_id sl, sl_dlc sl, wire_bytes sl))) as (_ & _ & _ & _ & Es). rewrite Es. cbn [fst].
  revert Hw. unfold on_tx_done, done_claim, on_rx_done. cbn [rx_q].
  pose proof (send_waiting (rx_q c) (rx_frame (sl_id sl) (sl_dlc sl) (wire_bytes sl))) as Hsw.
  pose proof (send_ok (rx_q c) (rx_frame (sl_id sl) (sl_dlc sl) (wire_bytes sl))) as Hso.
  pose proof (capacity_send (rx_q c) (rx_frame (sl_id sl) (sl_dlc sl) (wire_bytes sl))) as Hsc.
  destruct (xQueueSend _ _) as [q ok]. cbn [fst snd] in *. rewrite Srx, Scap in *. subst ok.
  destruct (length (a_rx a) <? RX_LEN)%nat; cbn [tx_busy tx_slot]; rewrite Eb, Z.eqb_refl; cbn [andb negb fst]; intros Hw;
    constructor; try done; cbn; by rewrite Sst.
Qed.

Lemma sim_rx_turn cbs c a now : sim cbs c a ->
  sim cbs (drv_step c (DRx now)).1 (a_drv cbs a (DRx now)).1 /\ (drv_step c (DRx now)).2 = (a_drv cbs a (DRx now)).2.
Proof.
  intros Hs. pose proof Hs as [Si Sq Sf Srx Scap Sd Sst Scb (Un & Ur & Ul & Up)]. cbn [drv_step a_drv]. unfold rx_task_turn. rewrite Ur. cbn [negb].
  pose proof (rx_receive_same c) as Hsame. unfold rx_receive in *. pose proof (receive_some (rx_q c)) as Hr. pose proof (receive_waiting (rx_q c)) as Hw.
  pose proof (capacity_receive (rx_q c)) as Hc. destruct (xQueueReceive (rx_q c)) as [q msg]. cbn [fst snd] in *. rewrite Srx in Hr, Hw. subst msg.
  assert (forall c', pending_state c' = -1 -> link_state c' = PS_CAN_STATE_RUNNING -> service_link c' now false = (c', None)) as Hserv.
  { intros c' Ep El. unfold service_link, report_pending, recover_bus_off. rewrite Ep. change (0 <=? -1) with false. cbv iota. by rewrite El. }
  destruct (a_rx a) as [|f rx] eqn:Ea; cbn [list.head tail] in *.
  - rewrite Hserv by done. split; [|done]. constructor; try done; [by apply (inv_same_tx (idle c))|..]; cbn [fst rx_q]; by rewrite ?Hw, ?Hc, ?Ea.
  - unfold rx_dispatch in *. cbn [node_id cls_cb] in *. rewrite Un, Scb in *. cbn [Z.eqb orb] in *. fold (fcls f) in *.
    destruct (cbs !!! fcls f) as [cb|]; rewrite Hserv by done; (split; [|done]); cbn [fst];
      (constructor; try done; [by apply (inv_same_tx (idle c))|..]; cbn; by rewrite ?Hc, ?Sst).
Qed.

(** The driver does what the specification says. *)
Lemma sim_drv cbs c a d : sim cbs c a -> sim cbs (drv_step c d).1 (a_drv cbs a d).1 /\ (drv_step c d).2 = (a_drv cbs a d).2.
Proof.
  intros Hs. destruct d as [| |now].
  - split; [|by cbn]. cbn [drv_step fst]. rewrite (hand_pop _ _ _ Hs). by apply sim_hand.
  - split; [by apply sim_wire|]. cbn [drv_step a_drv snd]. by destruct (tx_busy c).
  - by apply sim_rx_turn.
Qed.

(** ** Refinement *)

(** What a client of the driver can do and see. *)
Inductive lop := LSend (f : ps_can_frame_t) | LDrv (d : drv).
Inductive lobs := OErr (err : esp_err_t) | OCall (call : option (Z * ps_can_frame_t)) | OStats (n : ps_can_stats_t).

Fixpoint lrun (c : ps_can_ctx) (ops : list lop) : list lobs :=
  match ops with
  | [] => [OStats (stats c)]
  | LSend f :: ops => let '(h, err) := ps_can_send (Some c) (Some f) in OErr err :: lrun (default c h) ops
  | LDrv d :: ops => let '(c, call) := drv_step c d in OCall call :: lrun c ops
  end.
Fixpoint arun (cbs : list (option Z)) (a : abs) (ops : list lop) : list lobs :=
  match ops with
  | [] => [OStats (a_stats a)]
  | LSend f :: ops => let '(a, err) := a_send a f in OErr err :: arun cbs a ops
  | LDrv d :: ops => let '(a, call) := a_drv cbs a d in OCall call :: arun cbs a ops
  end.

Definition lop_ok (o : lop) : Prop := match o with LSend f => frame_ok f | LDrv _ => True end.

Definition a_init (n : ps_can_stats_t) : abs := {| a_q := []; a_fl := None; a_rx := []; a_stats := n |}.

(** A context just opened, with any handlers. *)
Lemma sim_opened ctl cbs : let c := ps_can_open_ctx 0 ctl 0 in sim cbs {| c with cls_cb := cbs |} (a_init (stats c)).
Proof.
  cbv zeta. pose proof (inv_opened 0 ctl 0) as Hi. constructor; try done.
  - by apply (inv_same_tx _ _ Hi).
  - intros j Hj. do 8 (destruct j; [reflexivity|]). lia.
  - apply waiting_create.
  - apply capacity_create.
  - intros k Hk. cbn [slots ps_can_open_ctx]. by rewrite lookup_total_replicate_2.
Qed.

Lemma loop_sim_run cbs ops c a : sim cbs c a -> Forall lop_ok ops -> lrun c ops = arun cbs a ops.
Proof.
  intros Hs Ho. revert c a Hs. induction Ho as [|o ops Ho Hops IH]; intros c a Hs; [cbn; by rewrite (sim_stats _ _ _ Hs)|].
  destruct o as [f|d]; cbn [lrun arun].
  - destruct (sim_send _ _ _ _ Hs Ho) as (c' & -> & Hs'). destruct (a_send a f) as [a' err]. cbn [default fst snd] in *. f_equal. by apply IH.
  - pose proof (sim_drv _ _ _ d Hs) as [Hs' He]. destruct (drv_step c d), (a_drv cbs a d). cbn [fst snd] in *. subst. f_equal. by apply IH.
Qed.

(** C12: The CAN driver on a looped-back controller refines a queue ordered by class: through any
    sequence of sends and of turns of its tasks and controller, from a context just opened
    with any handlers, every send is answered, every frame handed to its handler and every
    counter kept as by one list of frames from which the oldest of the lowest class goes to
    the wire, one frame on the wire and 64 received ones; sixteen frames may be waiting or on
    the wire, and a frame comes back with the bytes it was sent with. *)
Theorem loopback_refines ctl cbs ops : Forall lop_ok ops ->
  let c := ps_can_open_ctx 0 ctl 0 in lrun {| c with cls_cb := cbs |} ops = arun cbs (a_init (stats c)) ops.
Proof. intros Ho. by apply loop_sim_run; [apply sim_opened|]. Qed.

(** ** The self-test *)

Definition test_cbs : list (option Z) := <[Z.to_nat PS_CLS_TELEM := Some on_rx_cb]> (<[Z.to_nat PS_CLS_SAFETY := Some on_rx_cb]> (replicate 8 None)).

Definition rec (f : ps_can_frame_t) : rx_rec_t := (ps_can_id_cls (f_id f), ps_can_id_low (f_id f)).

(** The test's state: the driver as specified, [log] what came back since the count was reset. *)
Record tsim (s : st) (a : abs) (log : list ps_can_frame_t) : Prop := {
  ts_sim : sim test_cbs (t_can s) a;
  ts_len : length (s_log s) = Z.to_nat LOG_MAX;
  ts_n : s_n s = Z.of_nat (length log);
  ts_log : take (length log) (s_log s) = rec <$> log }.

(** All that came back and will, in the order of the wire, if nothing more is sent. *)
Definition future (a : abs) (log : list ps_can_frame_t) : list ps_can_frame_t :=
  log ++ a_rx a ++ option_list (a_fl a) ++ class_order (a_q a).

Definition handled (f : ps_can_frame_t) : Prop := test_cbs !!! fcls f = Some on_rx_cb.

Lemma on_rx_log s a log f : tsim s a log -> (length log < 64)%nat -> tsim (on_rx s f) a (log ++ [f]).
Proof.
  intros [T1 T2 T3 T4] Hl. unfold on_rx. rewrite T3. unfold LOG_MAX. destruct (Z.ltb_spec (Z.of_nat (length log)) 64); [|lia].
  constructor; cbn [t_can s_log s_n]; rewrite ?length_insert, ?length_app; cbn [length]; [done|done|clia|].
  rewrite Nat2Z.id, fmap_app, Nat.add_1_r. rewrite (take_S_r _ _ (rec f)).
  - rewrite take_insert_ge by done. by rewrite T4.
  - apply list_lookup_insert_eq. rewrite T2. unfold LOG_MAX. lia.
Qed.

(** Turns of the transmit task. *)
Definition hands (ds : list drv) : nat := foldr (fun d n => match d with DHand => S n | _ => n end) 0%nat ds.

Lemma take_best_length l g r : take_best l = Some (g, r) -> length l = S (length r).
Proof. intros Hb. rewrite <- (class_order_perm l), class_order_best, Hb. cbn [length]. by rewrite class_order_perm. Qed.

Lemma drv1_future s a log d : tsim s a log -> (length (future a log) <= 64)%nat -> Forall handled (future a log) ->
  exists a' log', tsim (drv1 s d) a' log' /\ future a' log' = future a log /\ (length (a_q a) <= length (a_q a') + hands [d])%nat.
Proof.
  intros Ht Hl Hh. destruct (sim_drv _ _ _ d (ts_sim _ _ _ Ht)) as [Hs' Hc]. unfold drv1.
  destruct (drv_step (t_can s) d) as [c' call]. cbn [fst snd] in *. subst call.
  assert (forall a', sim test_cbs c' a' -> tsim {| s with t_can := c' |} a' log) as Hmove by (intros a' Ha; by destruct Ht).
  destruct d as [| |now]; cbn [a_drv] in *.
  - cbn [fst snd] in *. eexists _, log. split; [by apply Hmove|]. unfold future. destruct (a_fl a) eqn:Ef; [rewrite Ef; split; [done|cbn; lia]|].
    rewrite (class_order_best (a_q a)). destruct (take_best (a_q a)) as [[g r]|] eqn:Eb.
    + split; [done|]. rewrite (take_best_length _ _ _ Eb). cbn. lia.
    + rewrite class_order_best, Eb, Ef. split; [done|cbn; lia].
  - cbn [fst snd] in *. eexists _, log. split; [by apply Hmove|]. unfold future in *. destruct (a_fl a) as [f|] eqn:Ef; [|rewrite Ef; split; [done|cbn; lia]].
    destruct (Nat.ltb_spec (length (a_rx a)) RX_LEN); cbn; [rewrite <- !app_assoc; split; [done|lia]|]. rewrite !length_app in Hl. cbn in Hl. unfold RX_LEN in *. lia.
  - unfold future in *. destruct (a_rx a) as [|f rx] eqn:Er; cbn [fst snd] in *; [exists a, log; rewrite Er; split_and!; auto with lia|].
    assert (handled f) as Hf. { rewrite list.Forall_forall in Hh. apply Hh. rewrite elem_of_app. right. left. }
    rewrite Hf in *. cbn [fst snd] in *. change (on_rx_cb =? on_rx_cb) with true. cbv iota. eexists _, (log ++ [f]).
    split; [apply on_rx_log; [by apply Hmove|]|cbn; rewrite <- !app_assoc; split; [done|lia]]. rewrite !length_app in Hl. cbn in Hl. lia.
Qed.

(** A log short enough to be kept, of frames the test hears. *)
Definition kept (l : list ps_can_frame_t) : Prop := (length l <= 64)%nat /\ Forall handled l.

Lemma drv_run_future ds s a log : tsim s a log -> kept (future a log) ->
  exists a' log', tsim (drv_run s ds) a' log' /\ future a' log' = future a log /\ (length (a_q a) <= length (a_q a') + hands ds)%nat.
Proof.
  revert s a log. induction ds as [|d ds IH]; intros s a log Ht Hk; [exists a, log; cbn; auto with lia|]. cbn [drv_run foldl].
  destruct (drv1_future s a log d Ht (proj1 Hk) (proj2 Hk)) as (a1 & log1 & Ht1 & Hf1 & Hq1). rewrite <- Hf1 in Hk |- *.
  destruct (IH _ _ _ Ht1 Hk) as (a2 & log2 & Ht2 & Hf2 & Hq2). exists a2, log2. split; [done|]. split; [done|]. unfold hands in *. destruct d; cbn [foldr] in *; lia.
Qed.

Lemma wait_future n ds s a log : tsim s a log -> kept (future a log) ->
  let '(s', all) := wait_rx s n ds in all = (n <=? s_n s') /\ exists a' log', tsim s' a' log' /\ future a' log' = future a log.
Proof.
  revert s a log. induction ds as [|d ds IH]; intros s a log Ht Hk; cbn [wait_rx]; destruct (n <=? s_n s) eqn:En.
  1, 2, 3: split; [done|]; by exists a, log.
  destruct (drv1_future s a log d Ht (proj1 Hk) (proj2 Hk)) as (a1 & log1 & Ht1 & Hf1 & _). rewrite <- Hf1 in Hk |- *. by apply IH.
Qed.

Definition telem (i : Z) : ps_can_frame_t := test_frame PS_CLS_TELEM PS_T_JOINT_STATE (u8 i).
Definition safety : ps_can_frame_t := test_frame PS_CLS_SAFETY PS_T_HEARTBEAT 0xAA.

Lemma test_frame_ok cls type low : 0 <= cls < 8 -> is_u8 type -> is_u8 low -> frame_ok (test_frame cls type low).
Proof.
  intros Hc Ht Hl. split; [done|]. split; [done|]. cbn [f_id test_frame]. pose proof (pack_range cls 1 PS_NODE_BROADCAST type low). lia.
Qed.

Lemma send_future s a log cls type low : tsim s a log -> (length (future a log) < 16)%nat -> 0 <= cls < 8 -> is_u8 type -> is_u8 low ->
  exists s', send s cls type low = (s', ESP_OK) /\ tsim s' {| a with a_q := a_q a ++ [test_frame cls type low] |} log.
Proof.
  intros Ht Hl Hc Hy Hw. destruct (sim_send _ _ _ _ (ts_sim _ _ _ Ht) (test_frame_ok cls type low Hc Hy Hw)) as (c' & He & Hs).
  assert ((a_send a (test_frame cls type low)) = ({| a with a_q := a_q a ++ [test_frame cls type low] |}, ESP_OK)) as Ha.
  { unfold a_send. unfold future in Hl. rewrite !length_app, (class_order_perm (a_q a)) in Hl. 
    destruct (Nat.ltb_spec (length (a_q a) + length (option_list (a_fl a))) PS_CAN_TX_SLOTS); [done|]. unfold PS_CAN_TX_SLOTS in *. lia. }
  rewrite Ha in *. cbn [fst snd] in *. unfold send. rewrite He. eexists. split; [reflexivity|]. by destruct Ht.
Qed.

(** Of one class. *)
Lemma of_class_same k l j : Forall (fun f => fcls f = k) l -> of_class j l = if decide (j = k) then l else [].
Proof.
  induction 1 as [|f l Hf Hl IH]; [by case_decide|]. rewrite of_class_cons, IH, Hf. destruct (decide (k = j)), (decide (j = k)); congruence.
Qed.

Definition is_telem (f : ps_can_frame_t) : Prop := fcls f = 2%nat.
Lemma telem_class i : is_telem (telem i).
Proof. unfold is_telem, fcls, telem, test_frame. cbn [f_id]. by rewrite cls_pack by (done || apply u8_range). Qed.

Lemma class_order_telem q : Forall is_telem q -> class_order q = q.
Proof. intros Hq. unfold class_order. cbn [seq mbind list_bind]. rewrite !(of_class_same 2) by done. cbn. by rewrite app_nil_r. Qed.

Lemma class_order_safety q : Forall is_telem q -> class_order (q ++ [safety]) = safety :: q.
Proof.
  intros Hq. unfold class_order. cbn [seq mbind list_bind]. rewrite !of_class_app, !(of_class_same 2 q) by done.
  assert (Forall (fun f => fcls f = 0%nat) [safety]) as Hs by (apply Forall_singleton; reflexivity). rewrite !(of_class_same 0 [safety]) by done.
  simpl. by rewrite !app_nil_r.
Qed.

Lemma future_telem a log : Forall is_telem (future a log) -> Forall is_telem (a_q a) /\ Forall is_telem (log ++ a_rx a ++ option_list (a_fl a)).
Proof. unfold future. rewrite !Forall_app, (class_order_perm (a_q a)). tauto. Qed.

Lemma telem_kept l : (length l <= 64)%nat -> Forall is_telem l -> kept l.
Proof. intros Hl Ht. split; [done|]. eapply Forall_impl; [exact Ht|]. intros f Hf. unfold handled. by rewrite Hf. Qed.

Lemma queue_telem_future n i sc s a log : tsim s a log -> future a log = telem <$> seqZ 0 i -> 0 <= i -> i + Z.of_nat n <= 12 ->
  let '(s', queued) := queue_telem n i sc s in
  queued = true /\ exists a' log', tsim s' a' log' /\ future a' log' = telem <$> seqZ 0 (i + Z.of_nat n).
Proof.
  revert i s a log. induction n as [|n IH]; intros i s a log Ht Hf Hi Hn; cbn [queue_telem].
  { split; [done|]. exists a, log. by rewrite Z.add_0_r. }
  assert (forall l, l = telem <$> seqZ 0 i -> (length l < 16)%nat /\ Forall is_telem l) as Hl.
  { intros l ->. rewrite length_fmap, length_seqZ. split; [lia|]. apply Forall_fmap, Forall_true. intros. apply telem_class. }
  destruct (Hl _ Hf) as [Hl1 Hl2]. destruct (drv_run_future (sc i) s a log Ht) as (a1 & log1 & Ht1 & Hf1 & _); [apply telem_kept; [lia|done]|].
  rewrite Hf in Hf1. destruct (Hl _ Hf1) as [Hl3 Hl4].
  destruct (send_future (drv_run s (sc i)) a1 log1 PS_CLS_TELEM PS_T_JOINT_STATE (u8 i) Ht1 Hl3) as (s2 & -> & Ht2); [done|done|apply u8_range|].
  cbn [is_ok]. fold (telem i) in Ht2. destruct (future_telem _ _ Hl4) as [Hq _].
  replace (i + Z.of_nat (S n)) with ((i + 1) + Z.of_nat n) by lia. eapply IH; [exact Ht2| |lia|lia].
  unfold future in *. cbn [a_rx a_fl a_q]. rewrite class_order_telem in Hf1 by done.
  rewrite class_order_telem by (apply Forall_app; split; [done|apply Forall_singleton, telem_class]).
  rewrite !app_assoc in *. rewrite Hf1. rewrite (seqZ_app 0 i 1), fmap_app by lia. by rewrite Z.add_0_l.
Qed.

(** Where the SAFETY frame is found, and that the others are in order. *)
Lemma find_safety_at l l' i : Forall is_telem l -> find_safety (rec <$> (l ++ safety :: l')) i = i + Z.of_nat (length l).
Proof.
  intros Hl. revert i. induction Hl as [|f l Hf Hl IH]; intros i; [change (i = i + 0); lia|].
  cbn [app fmap list_fmap find_safety].
  unfold is_telem, fcls in Hf. cbn [rec fst]. pose proof (cls_range (f_id f)). unfold PS_CLS_SAFETY.
  destruct (Z.eqb_spec (ps_can_id_cls (f_id f)) 0); [lia|]. rewrite IH. cbn [length]. lia.
Qed.

Lemma rec_telem i : 0 <= i < 256 -> rec (telem i) = (PS_CLS_TELEM, i).
Proof.
  intros Hi. unfold rec, telem, test_frame. cbn [f_id]. rewrite cls_pack, low_pack by (done || apply u8_range). f_equal. apply u8_id. unfold is_u8. lia.
Qed.

Lemma in_order_cons i n (f : ps_can_frame_t) l rest : f :: l = telem <$> seqZ i (Z.of_nat n) -> 0 <= i -> i + Z.of_nat n <= 256 ->
  exists m, n = S m /\ l = telem <$> seqZ (i + 1) (Z.of_nat m) /\ in_order (rec f :: rest) i = in_order rest (i + 1).
Proof.
  intros He Hi Hn. destruct n as [|m]; [done|]. rewrite seqZ_cons in He by lia. injection He as -> ->. exists m. split; [done|].
  split; [f_equal; f_equal; lia|]. rewrite rec_telem by lia. cbn [in_order fst snd]. by rewrite !Z.eqb_refl.
Qed.

Lemma in_order_at (l l' : list ps_can_frame_t) i n : l ++ l' = telem <$> seqZ i (Z.of_nat n) -> 0 <= i -> i + Z.of_nat n <= 256 ->
  in_order (rec <$> (l ++ safety :: l')) i = (i + Z.of_nat n, true).
Proof.
  revert i n. induction l as [|f l IH]; intros i n He Hi Hn.
  - change (in_order (rec <$> l') i = (i + Z.of_nat n, true)). revert i n He Hi Hn. cbn [app]. induction l' as [|f l' IH]; intros i n He Hi Hn.
    + destruct n; [by rewrite Z.add_0_r|]. by rewrite seqZ_cons in He by lia.
    + destruct (in_order_cons i n f l' (rec <$> l') He Hi Hn) as (m & -> & Hl & Ho).
      cbn [fmap list_fmap]. rewrite Ho, IH with (n := m); [f_equal; lia|done|lia|lia].
  - destruct (in_order_cons i n f (l ++ l') (rec <$> (l ++ safety :: l')) He Hi Hn) as (m & -> & Hl & Ho).
    cbn [app fmap list_fmap]. rewrite Ho, IH with (n := m); [f_equal; lia|done|lia|lia].
Qed.

(** The driver runs with the handlers of the test, and the log is whole. *)
Definition live (s : st) : Prop := (exists a, sim test_cbs (t_can s) a) /\ length (s_log s) = Z.to_nat LOG_MAX.

(** All slots free, nothing received waits. *)
Definition at_rest (c : ps_can_ctx) : Prop := length (waiting (free_slots c)) = 16%nat /\ waiting (rx_q c) = [].

Lemma rest_start s : live s -> at_rest (t_can s) -> s_n s = 0 -> exists a, tsim s a [] /\ future a [] = [].
Proof.
  intros [[a Ha] Hl] [Hf Hr] Hn. exists a. split; [by constructor|]. pose proof (sim_used _ _ _ Ha) as Hu.
  unfold future. rewrite <- (sim_rx _ _ _ Ha), Hr. destruct (a_q a), (a_fl a); unfold option_list in *; simpl length in *; try lia. done.
Qed.

Lemma live_run ds s : live s -> live (drv_run s ds).
Proof.
  intros Hs. induction ds as [|d ds IH] using rev_ind; [done|]. unfold drv_run in *. rewrite foldl_app. cbn [foldl].
  destruct IH as [[a Ha] Hl]. set (s1 := foldl drv1 s ds) in *. destruct (sim_drv _ _ _ d Ha) as [Ha' _]. unfold live, drv1.
  destruct (drv_step (t_can s1) d) as [c' call]. cbn [fst] in Ha'. destruct call as [[cb f]|]; [destruct (cb =? on_rx_cb)|]; cbn; try (split; [by eexists|done]).
  split; [by eexists|]. case_match; [by rewrite length_insert|done].
Qed.

(** Frames that have left the queue of the driver, back or on their way. *)
Definition gone (s : st) : Z := s_n s + Z.of_nat (length (waiting (rx_q (t_can s)))) + Z.b2z (tx_busy (t_can s)).

Lemma gone_spec s a log : tsim s a log -> gone s = Z.of_nat (length (log ++ a_rx a ++ option_list (a_fl a))).
Proof.
  intros [Ha Hl Hn _]. unfold gone. rewrite Hn, (sim_rx _ _ _ Ha), (sim_fl _ _ _ Ha), !length_app.
  destruct (tx_busy (t_can s)); unfold option_list; simpl; lia.
Qed.

(** Frames queued with the driver's tasks held off stay queued. *)
Lemma queue_quiet n i s a log : tsim s a log -> (length (future a log) + n <= 16)%nat ->
  exists a', tsim (queue_telem n i (fun _ => []) s).1 a' log /\ a_rx a' = a_rx a /\ a_fl a' = a_fl a.
Proof.
  revert i s a. induction n as [|n IH]; intros i s a Ht Hl; [by exists a|]. cbn [queue_telem drv_run foldl].
  destruct (send_future s a log PS_CLS_TELEM PS_T_JOINT_STATE (u8 i) Ht ltac:(lia)) as (s2 & -> & Ht2); [done|done|apply u8_range|]. cbn [is_ok].
  destruct (IH (i + 1) s2 _ Ht2) as (a' & Ha & Er & Ef); [|by exists a'].
  unfold future in *. cbn [a_rx a_fl a_q]. rewrite !length_app, !(class_order_perm _), !length_app in *. cbn [length]. lia.
Qed.

Lemma quiet_gone s a : tsim s a [] -> future a [] = [] ->
  let s1 := (queue_telem N_QUEUED 0 (fun _ => []) s).1 in gone s1 = 0 /\ s_n s1 = 0.
Proof.
  intros Ht Hf. destruct (queue_quiet N_QUEUED 0 s a [] Ht) as (a' & Ha' & Er & Ef); [rewrite Hf; unfold N_QUEUED; cbn [length]; lia|].
  cbv zeta. split; [|exact (ts_n _ _ _ Ha')]. rewrite (gone_spec _ _ _ Ha'), Er, Ef. unfold future in Hf.
  apply (f_equal length) in Hf. rewrite !length_app in *. cbn [length] in *. lia.
Qed.

Lemma gone_future s a log : tsim s a log -> gone s = Z.of_nat (length (future a log)) - Z.of_nat (length (a_q a)).
Proof. intros Ht. rewrite (gone_spec _ _ _ Ht). unfold future. rewrite !length_app, class_order_perm. lia. Qed.

(** What the test makes of a complete log. *)
Lemma found_at s a log pre q : tsim s a log -> future a log = pre ++ safety :: q -> pre ++ q = telem <$> seqZ 0 12 -> Forall is_telem pre -> 13 <= s_n s ->
  safety_pos s (N_QUEUED + 1) = Z.of_nat (length pre) /\ in_order (take (N_QUEUED + 1) (take (Z.to_nat LOG_MAX) (s_log s))) 0 = (12, true).
Proof.
  intros Ht Hf Hpq Hp Hn. assert (length (pre ++ safety :: q) = 13%nat) as H13.
  { apply (f_equal length) in Hpq. rewrite length_app, length_fmap, length_seqZ in Hpq. rewrite length_app. cbn [length]. lia. }
  assert (log = pre ++ safety :: q) as Hlog.
  { rewrite (ts_n _ _ _ Ht) in Hn. rewrite <- Hf in H13 |- *. unfold future in *. rewrite length_app in H13.
    destruct (a_rx a ++ option_list (a_fl a) ++ class_order (a_q a)); [by rewrite app_nil_r|]. cbn [length] in H13. lia. }
  pose proof (ts_log _ _ _ Ht) as Hrec. rewrite Hlog, H13 in Hrec. unfold safety_pos. rewrite take_take.
  change (Nat.min (N_QUEUED + 1) (Z.to_nat LOG_MAX)) with 13%nat. rewrite Hrec. split; [by rewrite find_safety_at|].
  by apply (in_order_at pre q 0 12).
Qed.

(** Queueing the SAFETY frame. *)
Lemma safety_future s a log : tsim s a log -> future a log = telem <$> seqZ 0 12 ->
  exists s' a' pre, send s PS_CLS_SAFETY PS_T_HEARTBEAT 0xAA = (s', ESP_OK) /\ tsim s' a' log /\
    future a' log = pre ++ safety :: a_q a /\ kept (future a' log) /\ pre ++ a_q a = telem <$> seqZ 0 12 /\ Forall is_telem pre /\
    gone s = Z.of_nat (length pre).
Proof.
  intros Ht Hf. assert (length (future a log) = 12%nat /\ Forall is_telem (future a log)) as [Hl Hc].
  { rewrite Hf. split; [done|]. apply Forall_fmap, Forall_true. intros. apply telem_class. }
  destruct (send_future s a log PS_CLS_SAFETY PS_T_HEARTBEAT 0xAA Ht ltac:(lia)) as (s' & -> & Ht'); [done|done|done|]. fold safety in Ht'.
  destruct (future_telem _ _ Hc) as [Hq Hg]. set (pre := log ++ a_rx a ++ option_list (a_fl a)) in *.
  assert (pre ++ a_q a = telem <$> seqZ 0 12) as Hpq by (rewrite <- Hf; unfold future, pre; by rewrite class_order_telem, <- !app_assoc by done).
  eexists _, _, pre. split; [reflexivity|]. split; [exact Ht'|].
  assert (future {| a with a_q := a_q a ++ [safety] |} log = pre ++ safety :: a_q a) as Hf'.
  { unfold future, pre. cbn [a_rx a_fl a_q]. rewrite class_order_safety by done. by rewrite <- !app_assoc. }
  rewrite Hf'. split; [done|]. split; [|split; [done|split; [done|exact (gone_spec _ _ _ Ht)]]].
  apply (f_equal length) in Hpq. rewrite length_app, length_fmap, length_seqZ in Hpq. split; [rewrite length_app; cbn [length]; lia|].
  apply Forall_app; split; [|constructor; [reflexivity|]]; apply telem_kept; done || lia.
Qed.

(** C13: The self-test finds the order of the wire right under every schedule of the driver's tasks
    and interrupts, if the driver is at rest when it starts: no frame is refused, and when
    all thirteen frames are back the SAFETY frame is found behind exactly those frames that
    had left the queue when it was queued, however many wait, and the TELEM frames are in
    the order in which they were sent.  So it comes first if the driver's tasks are held off
    while the frames are queued; and if the receive task keeps up and one turn of the
    transmit task at most falls between the count and the SAFETY frame, it is at most two
    behind those counted, which is what the test allows. *)
Theorem selftest_order s w : live s ->
  let s0 := {| (drv_run s (w_before w)) with s_n := 0 |} in at_rest (t_can s0) ->
  let s1 := (queue_telem N_QUEUED 0 (w_each w) s0).1 in
  let s2 := drv_run s1 (w_gap w) in
  (queue_telem N_QUEUED 0 (w_each w) s0).2 = true /\
  match queue_and_find_safety s w with
  | (s', None) => s_n s' < 13
  | (s', Some (pos, back)) =>
    pos = gone s2 /\ back = s_n s1 /\ in_order (take (N_QUEUED + 1) (take (Z.to_nat LOG_MAX) (s_log s'))) 0 = (12, true) /\
    (w_each w = (fun _ => []) -> w_gap w = [] -> pos = 0 /\ back = 0) /\
    (waiting (rx_q (t_can s1)) = [] -> (hands (w_gap w) <= 1)%nat -> pos <= back + 2)
  end.
Proof.
  intros Hv s0 Hrest. destruct (live_run (w_before w) s Hv) as [Ha0 Hl0]. destruct (rest_start s0) as (a0 & Ht0 & Hf0); [done|done|done|].
  pose proof (queue_telem_future N_QUEUED 0 (w_each w) s0 a0 [] Ht0 Hf0 ltac:(lia) ltac:(done)) as Hq. unfold queue_and_find_safety. fold s0.
  pose proof (quiet_gone s0 a0 Ht0 Hf0) as Hquiet.
  destruct (queue_telem N_QUEUED 0 (w_each w) s0) as [s1 queued] eqn:Eq. destruct Hq as (-> & a1 & log1 & Ht1 & Hf1). cbn [fst snd negb].
  cbv zeta in *. split; [done|]. change (0 + Z.of_nat N_QUEUED) with 12 in Hf1.
  destruct (drv_run_future (w_gap w) s1 a1 log1 Ht1) as (a2 & log2 & Ht2 & Hf2 & Hh2).
  { rewrite Hf1. apply telem_kept; [rewrite length_fmap, length_seqZ; lia|]. apply Forall_fmap, Forall_true. intros. apply telem_class. }
  set (s2 := drv_run s1 (w_gap w)) in *. destruct (safety_future s2 a2 log2 Ht2) as (s3 & a3 & pre & -> & Ht3 & Hf3 & Hk & Hpq & Hp & Hg); [by rewrite Hf2|].
  cbn [is_ok negb]. pose proof (wait_future (Z.of_nat (N_QUEUED + 1)) (w_wait w) s3 _ log2 Ht3 Hk) as Hw.
  destruct (wait_rx s3 _ (w_wait w)) as [s4 all]. destruct Hw as (-> & a4 & log4 & Ht4 & Hf4). rewrite Hf3 in Hf4.
  destruct (Z.leb_spec (Z.of_nat (N_QUEUED + 1)) (s_n s4)) as [Hn|Hn]; [|exact Hn].
  destruct (found_at s4 a4 log4 pre (a_q a2) Ht4 Hf4 Hpq Hp Hn) as [-> Ho]. rewrite <- Hg. split_and!; try done.
  - intros Ew Eg. rewrite Ew in Eq. rewrite Eq in Hquiet. unfold s2. by rewrite Eg.
  - intros Hrx Hh. rewrite (gone_future _ _ _ Ht2), Hf2. pose proof (gone_future _ _ _ Ht1) as Hg1. unfold gone in Hg1. rewrite Hrx in Hg1.
    cbn [length] in Hg1. destruct (tx_busy (t_can s1)); cbn [Z.b2z] in Hg1; lia.
Qed.
End LoopbackSpec.

(** ** Examples *)

Definition demo_st : st :=
  let c := ps_can_open_ctx 0 0 0 in
  {| t_can := {| c with cls_cb := test_cbs |}; s_log := replicate (Z.to_nat LOG_MAX) (0, 0); s_n := 0; reports := [] |}.

Lemma live_opened : live demo_st.
Proof. split; [|reflexivity]. eexists. exact (sim_opened 0 test_cbs). Qed.

Definition demo_ops : list lop := [LSend (telem 1); LSend safety; LDrv DHand; LDrv DWire; LDrv (DRx 0); LDrv DHand; LDrv DWire; LDrv (DRx 0)].

Lemma loopback_refines_witness : Forall lop_ok demo_ops /\
  exists n, lrun (t_can demo_st) demo_ops = [OErr ESP_OK; OErr ESP_OK; OCall None; OCall None; OCall (Some (on_rx_cb, safety)); OCall None; OCall None;
    OCall (Some (on_rx_cb, telem 1)); OStats n].
Proof.
  assert (Forall lop_ok demo_ops) as Ho.
  { repeat (apply Forall_cons; split; [try exact I|]); [| |apply Forall_nil; exact I]; apply test_frame_ok; vm_compute; by split. }
  split; [exact Ho|]. eexists. pose proof (loopback_refines 0 test_cbs demo_ops Ho) as Hr. cbv zeta in Hr.
  change (t_can demo_st) with (let c := ps_can_open_ctx 0 0 0 in {| c with cls_cb := test_cbs |}). cbv zeta. rewrite Hr. vm_compute. reflexivity.
Defined.

Lemma selftest_order_witness :
  match queue_and_find_safety demo_st busy with (_, Some (pos, back)) => 1 <= back /\ pos <= back + 2 | _ => False end.
Proof.
  assert (match queue_and_find_safety demo_st busy with (_, Some (_, back)) => 1 <= back | _ => False end) as Hb by (vm_compute; discriminate).
  destruct (selftest_order demo_st busy live_opened) as [_ Hr]; [split; vm_compute; reflexivity|].
  destruct (queue_and_find_safety demo_st busy) as [s' [[pos back]|]]; [|exact Hb]. split; [exact Hb|].
  destruct Hr as (_ & _ & _ & _ & Hc). apply Hc; [vm_compute; reflexivity|vm_compute; constructor].
Defined.
