(* ===== verification/Vectors.v ===== *)
(** The vectors the Python twins generated (src/firmware/tests/host/vectors/proto_vectors.h),
    which lock the C code to them. *)
From S2P Require Import Prelude.

Definition PS_VEC_ADPCM_PCM : list Z := [
  -191; 4097; 6845; 8319; 7103; 4716; 4046; 4859; 7133; 9844; 12822; 12513; 9111; 6058; 1304; -519; -1077; 124; 1280; 1345; -679; -5596; -9285;
  -12056; -12288; -10220; -7519; -5511; -4068; -5126; -7045; -8880; -7563; -4596; -1144; 4026; 6314; 7725; 6582; 4149; 4458; 4333; 7785; 9929; 12741;
  11677; 9991; 5688; 1711; 513; -860; 972; 1817; 1055; -980; -4249; -8869; -11253; -12127; -9764; -7481; -5079; -4832; -5287; -7420; -9334; -8129;
  -5286; -1439; 2860; 6572; 6552; 5592; 3968; 3542; 4424; 7332; 9825; 12946; 11919; 9913; 5920; 3123; -49; 377; 1819; 2603; 1988; -615; -3810; -8259;
  -10563; -11561; -10289; -7590; -5633; -4522; -6253; -7789; -8651; -8841; -6225; -1314; 3008; 5978; 6006; 4963; 3629; 3553; 4142; 6814; 10911; 13001;
  12245; 9975; 6457; 3329; 828; 906; 1283; 3291; 2647; 763; -3585; -7321; -10205; -11639; -9726; -7091; -5734; -5499; -6005; -8525; -9037; -9381;
  -6898; -2608; 2143; 4543; 5838; 5560; 3078; 2505; 3954; 6404; 9984; 12076; 13108; 11067; 6394; 3829; 1838; 1472; 2053; 3319; 3661; 1313; -2783;
  -7323; -9903; -11178; -9792; -7958; -5788; -5328; -6345; -8888; -9916; -10189; -7399; -2280; 1801; 4499; 5048; 4229; 2935; 2062; 4059; 6341; 9962;
  12868; 12696; 11300; 7283; 3872; 1275; 2223; 2548; 3965; 3295; 1261; -2204; -7227; -10380; -10833; -10231; -7186; -5646; -5340; -6979; -8188; -9945;
  -9907; -7773; -3903; 510; 4264; 5447; 3646; 2439; 2079; 3639; 6397; 10099; 12044; 13341; 11330; 7929; 4239; 2757; 1684; 3845; 4707; 4786; 1970;
  -1793; -6945; -9759; -10620; -9328; -6894; -5859; -5503; -7033; -9040; -10933; -10479; -8349; -3532; 680; 3460; 3767; 3399; 1720; 1397; 3184; 6194;
  10148; 12726; 13197; 10822; 8198; 4984; 3087; 2899; 3839; 4648; 4912; 3035; -2140; -5531; -9346; -10246; -8954; -6911; -4728; -5071; -7221; -9100;
  -10349; -10648; -8490; -4518; 433; 3450; 4018; 3250; 1767; 1525; 2806; 6223; 9827; 12585; 13256; 10664; 8044; 4514; 2708; 2542; 3931; 5607; 5393;
  2452; -526; -5472; -9072; -9595; -8614; -7416; -5611; -4863; -6169; -8713; -10570; -11301; -8461; -5115; -640; 1784; 3091; 2951; 1625; 366; 1801;
  5405; 9704; 12163; 12323; 10704; 8168; 4651; 3810; 3123; 4626; 6496; 6379; 3871; -19; -4664; -8318; -9094; -7983; -7135; -4816; -5551; -6441; -8772;
  -11614; -11335; -9268; -4995; -834; 1604; 3156; 1690; 538; 8; 2164; 5695; 9433; 12314; 13290; 11786; 8334; 5021; 3979; 3349; 5775; 6459; 5822; 4196;
  388; -4256; -7960; -8482; -8616; -6452; -4734; -4619; -6690; -9965; -12022; -12260; -9104; -5512; -2249; 1266; 2655; 1660; 253; 121; 1324; 5300;
  8237; 11775; 12614; 10853; 8483; 5102; 4282; 4068; 6137; 6662; 7171; 4678; 1029; -4333; -7005; -8944; -7649; -5799; -4510; -4849; -7184; -9087;
  -11408; -11823; -9608; -6789; -2538; 212; 1712; 1026; -109; -197; 757; 4189; 7757; 11917; 11960; 11557; 7885; 5426; 3854; 4415; 6060; 6895; 7814;
  5435; 1352; -3473; -6531; -7840; -7143; -5855; -4400; -4430; -6942; -9144; -11244; -12590; -9846; -6386; -2598; -337; 1043; 270; -571; -1163; 114;
  4130; 8297; 11623; 11911; 11106; 8106; 6093; 4952; 4695; 6568; 7838; 7499; 6002; 1987; -2447; -6466; -7245; -7039; -5948; -4635; -4337; -6088;
  -9487; -11572; -12285; -10679; -6755; -3714; -738; 1142; 323; -765; -2050; -544; 3536; 7058; 10347; 12115; 11681; 9027; 6155; 4349; 5017; 6739;
  8891; 9000; 6901; 2916; -1697; -5687; -7695; -6892; -5437; -3414; -3773; -6461; -8898; -12217; -12934; -11326; -7533; -3946].

Definition PS_VEC_ADPCM_ENC : list Z := [
  127; 119; 119; 103; 51; 133; 188; 157; 24; 129; 250; 154; 24; 34; 129; 171; 82; 84; 17; 153; 8; 36; 130; 250; 154; 41; 128; 218; 156; 41; 50; 136;
  187; 98; 68; 2; 153; 24; 36; 148; 202; 187; 16; 129; 205; 172; 24; 35; 177; 154; 104; 54; 130; 152; 8; 68; 146; 202; 187; 0; 147; 251; 172; 41; 18;
  128; 140; 72; 69; 17; 168; 24; 67; 18; 250; 154; 0; 0; 234; 171; 25; 50; 144; 156; 72; 39; 2; 137; 41; 67; 3; 234; 186; 1; 129; 235; 172; 8; 19;
  160; 185; 88; 69; 18; 153; 24; 68; 17; 186; 157; 41; 129; 204; 173; 24; 2; 144; 171; 64; 55; 1; 152; 40; 68; 2; 186; 172; 24; 1; 251; 173; 24; 33;
  184; 169; 72; 69; 2; 152; 24; 53; 3; 203; 171; 40; 130; 190; 174; 8; 33; 144; 156; 73; 99; 17; 152; 41; 68; 2; 170; 141; 24; 130; 235; 172; 24; 32;
  137; 203; 32; 39; 18; 153; 40; 53; 19; 218; 154; 40; 145; 250; 172; 136; 34; 168; 172; 72; 52; 19; 153; 24; 55; 18; 170; 141; 40; 16; 204; 158; 25;
  1; 160; 186; 56; 100; 18; 137; 24; 68; 132; 184; 154; 32; 17; 236; 172; 8; 17; 184; 171; 90; 52; 19; 137; 41; 71; 2; 184; 154; 56; 129; 250; 189; 8;
  16; 160; 172; 24; 38; 19; 152; 41; 54; 35; 200; 155; 32; 3; 236; 188; 9; 33; 184; 204; 24; 53].

Definition PS_VEC_ADPCM_DEC : list Z := [
  -11; 19; 82; 218; 511; 1142; 2499; 5021; 7425; 9610; 12734; 12319; 8917; 5715; 1142; -683; -1236; 273; 1645; 1230; -660; -5813; -9496; -11504;
  -12112; -10452; -7936; -5649; -4403; -4781; -7185; -8746; -7326; -4486; -1084; 3948; 5956; 7781; 6121; 4612; 4155; 4570; 7972; 10259; 12337; 11959;
  10242; 5558; 2210; 385; -1275; 1241; 1698; 1283; -607; -4386; -8915; -10740; -12400; -9884; -7597; -4688; -5066; -5409; -7594; -9582; -8291; -5240;
  -1498; 3031; 6074; 6627; 5118; 3746; 3331; 4465; 7557; 9635; 13037; 11665; 9587; 6185; 2983; 74; 452; 1482; 2418; 2134; -706; -4108; -8225; -10992;
  -11495; -10123; -7214; -5324; -4294; -6479; -7899; -8673; -8907; -6134; -1220; 3467; 6510; 5957; 5454; 4082; 3667; 4045; 7137; 10879; 13395; 12023;
  9945; 6543; 3341; 432; 810; 1153; 3338; 2486; 679; -2841; -7370; -10413; -12073; -9557; -7270; -6024; -5646; -5989; -8800; -9178; -9521; -6710;
  -2552; 2429; 4437; 6262; 5709; 3193; 2736; 3982; 6628; 9720; 11798; 12932; 11215; 6531; 3183; 1358; 1911; 2414; 2871; 3286; 1396; -3070; -7330;
  -10097; -11606; -10234; -8156; -5510; -5167; -6103; -8659; -9689; -10001; -7445; -2292; 1391; 4739; 5347; 3687; 3184; 1812; 3890; 6536; 9628; 12537;
  12915; 11198; 7138; 4371; 849; 2221; 2636; 3770; 3427; 1242; -2450; -6979; -10022; -10575; -10072; -6870; -5624; -5246; -6963; -7899; -9887; -10145;
  -7564; -3785; 744; 3787; 5447; 3938; 2566; 2151; 3285; 6377; 10119; 11628; 13000; 10922; 8276; 4497; 2988; 1616; 3694; 4828; 4485; 1674; -1728;
  -6760; -10108; -10716; -9056; -6540; -6083; -5668; -6802; -9206; -10767; -10483; -8159; -3475; 1212; 3037; 3590; 3087; 1715; 1300; 3190; 6282;
  10024; 12540; 12997; 10919; 8273; 5181; 3103; 2725; 3755; 4691; 4975; 3168; -352; -5887; -9570; -10239; -8414; -6754; -4238; -4695; -7604; -8738;
  -10455; -10767; -8211; -4432; 97; 3140; 3693; 3190; 1818; 1403; 2537; 6316; 9838; 13040; 13455; 10809; 7717; 4808; 2918; 2575; 4136; 5556; 5298;
  2247; -662; -5576; -8924; -9532; -8979; -7470; -5183; -4768; -5902; -8994; -10240; -11374; -8282; -5373; -459; 1549; 3374; 2821; 1312; -60; 2018;
  5420; 9537; 12304; 12807; 10520; 8442; 4284; 3731; 3228; 4600; 6678; 6300; 3896; -164; -5145; -8493; -9101; -7441; -6938; -4651; -5897; -6275;
  -8679; -11490; -11112; -9395; -4711; -1363; 1680; 3340; 1831; 459; 44; 1934; 5713; 9235; 12437; 13683; 11793; 8014; 5498; 4126; 3711; 5601; 6631;
  5695; 4275; 402; -4579; -7927; -8535; -9088; -6572; -4285; -4700; -6590; -9682; -11760; -12138; -9046; -5304; -1782; 1420; 2666; 1532; 502; 190;
  1042; 4915; 8789; 11305; 12677; 10599; 8709; 4930; 4427; 3970; 6048; 6426; 7456; 4645; 1243; -4704; -7135; -9344; -7336; -5511; -4958; -4455; -6742;
  -8820; -11466; -11809; -9624; -7068; -2602; 441; 2101; 592; 135; -280; 854; 3946; 7688; 12217; 11609; 11056; 7534; 5247; 4001; 4379; 6096; 7032;
  7884; 5560; 1500; -3481; -6829; -7437; -6884; -5375; -4003; -4418; -7064; -9468; -11029; -12449; -9609; -6207; -3005; -96; 1038; 8; -304; -1156;
  135; 3655; 8184; 11227; 11780; 11277; 8075; 5997; 4863; 4520; 6705; 7557; 7299; 6126; 2927; -2105; -6792; -7400; -6847; -6344; -4972; -4557; -6447;
  -9539; -11617; -11995; -10965; -6905; -4138; -616; 756; 341; -793; -1823; -262; 3430; 6952; 10154; 12232; 11854; 8762; 5853; 4719; 5062; 6623; 8611;
  8869; 6757; 3065; -1464; -5724; -7384; -6881; -5509; -3431; -3809; -6213; -9024; -12426; -12883; -11637; -7479; -3605].

Definition PS_VEC_SPI_FRAME : list Z := [
  90; 165; 1; 4; 7; 42; 125; 227; 0; 32; 40; 8; 8; 0; 232; 3; 0; 1; 2; 3; 4; 5; 6; 7; 1; 32; 72; 8; 24; 0; 233; 3; 16; 17; 18; 19; 20; 21; 22; 23; 2;
  32; 104; 8; 8; 0; 234; 3; 32; 33; 34; 35; 36; 37; 38; 39; 3; 32; 136; 8; 24; 0; 235; 3; 48; 49; 50; 51; 52; 53; 54; 55; 4; 32; 168; 8; 8; 0; 236; 3;
  64; 65; 66; 67; 68; 69; 70; 71; 5; 32; 200; 8; 24; 0; 237; 3; 80; 81; 82; 83; 84; 85; 86; 87; 6; 32; 40; 8; 8; 0; 238; 3; 96; 97; 98; 99; 100; 101;
  102; 103; 0; 0; 0; 0; 0; 0; 0; 0; 0; 0; 0; 0; 0; 0; 0; 0; 0; 0; 0; 0; 0; 0; 0; 0; 0; 0; 0; 0; 0; 0; 0; 0; 0; 0; 0; 0; 0; 0; 0; 0; 0; 0; 0; 0; 0; 0;
  0; 0; 0; 0; 0; 0; 0; 0; 0; 0; 0; 0; 0; 0; 0; 0; 0; 0; 0; 0; 0; 0; 0; 0; 0; 0; 0; 0; 0; 0; 0; 0; 0; 0; 0; 0; 0; 0; 0; 0; 0; 0; 0; 0; 0; 0; 0; 0; 0;
  0; 0; 0; 0; 0; 0; 0; 0; 0; 0; 0; 0; 0; 0; 0; 0; 0; 0; 0; 0; 0; 0; 0; 0; 0; 0; 0; 0; 0; 0; 0; 0; 0; 0; 0; 0; 0; 0; 0; 0; 0; 0; 0; 0; 0; 0; 0; 0; 0;
  0; 0; 0; 0; 0; 0; 0; 0; 0; 0; 0; 0; 0; 0; 0; 0; 0; 0; 0; 0; 0; 0; 0; 0; 0; 0; 0; 0; 0; 0; 0; 0; 0; 0; 0; 0; 0; 0; 0; 0; 0; 0; 0; 0; 0; 0; 0; 0; 0;
  0; 0; 0; 0; 0; 0; 0; 0; 0; 0; 0; 0; 0; 0; 0; 0; 0; 0; 0; 0; 0; 0; 0; 0; 0; 0; 0; 0; 0; 0; 0; 0; 0; 0; 0; 0; 0; 0; 0; 0; 0; 0; 0; 0; 0; 0; 0; 0; 0;
  0; 0; 0; 0; 0; 0; 0; 0; 0; 0; 0; 0; 0; 0; 0; 0; 0; 0; 0; 0; 0; 0; 0; 0; 0; 0; 0; 0; 0; 0; 0; 0; 0; 0; 0; 0; 0; 0; 0; 0; 0; 0; 0; 0; 0; 0; 0; 0; 0;
  0; 0; 0; 0; 0; 0; 0; 0; 0; 0; 0; 0; 0; 0; 0; 0; 0; 0; 0; 0; 0; 0; 0; 0; 0; 0; 0; 0; 0; 0; 0; 0; 0; 0; 0; 0; 0; 0; 0; 0; 0; 0; 0; 0; 0; 0; 0; 0; 0;
  0; 0; 0; 0; 0; 0; 0; 0; 0; 0; 0; 0; 0; 0; 0; 0; 0; 0; 0; 0; 0; 0; 0; 0; 0; 0; 0; 0; 0; 0; 0; 0; 0; 0; 0; 0; 0; 0; 0; 0; 0; 0; 0; 0; 0; 0; 0; 0; 0;
  0; 0; 0].

Definition PS_VEC_ADPCM_FINAL_PREDICTOR : Z := -3605.
Definition PS_VEC_ADPCM_FINAL_STEP_INDEX : Z := 66.
Definition PS_VEC_SPI_FLAGS : Z := 0x04.
Definition PS_VEC_SPI_SEQ : Z := 42.
Definition PS_VEC_SPI_COUNT : Z := 7.
