(* ===== verification/Selftest.v ===== *)
(** The on-target self-test (src/firmware/apps/node_qemu_test/main/qemu_selftest.c), run on the
    model: its checks of layout, codecs, routing and control mathematics are evaluated on the
    definitions of this development, the codecs against vectors generated by the Python
    implementation of the protocol.  The checks of the round trip through [sinf] and [cosf], of
    the timer and of the scheduler are about the target, and left out. *)
From stdpp Require Import strings.
From Stdlib Require Import SpecFloat.
From S2P Require Import Prelude CanId Wire Crc16 SpiFrame Router Adpcm Float32 FloatVal Ctl Vectors.

(** What [check] counts: the name of each check and whether it passed. *)
Definition checks : Type := list (string * bool).
Definition failed (cs : checks) : list string := omap (fun c : string * bool => if c.2 then None else Some c.1) cs.

Definition test_wire_layout : checks :=
  let js := {| js_joint := 1; js_flags := 0x03; js_pos_crad := -12345; js_vel_crad_s := 32000; js_eff_cNm := -1 |} in
  let backing := 0 :: wire_write js ++ replicate 7 0 in
  let back : ps_joint_state_t := wire_read (drop 1 backing) in
  let raw := wire_write {| ce_magic := PS_CLEAR_ESTOP_MAGIC; ce_counter := 7 |} in
  [("wire/heartbeat_is_8_bytes", (wire_size ps_heartbeat_t =? 8)%nat);
   ("wire/joint_state_is_8_bytes", (wire_size ps_joint_state_t =? 8)%nat);
   ("wire/bms_summary_is_8_bytes", (wire_size ps_bms_summary_t =? 8)%nat);
   ("wire/estop_is_8_bytes", (wire_size ps_estop_t =? 8)%nat);
   ("wire/unaligned_roundtrip", (js_pos_crad back =? -12345) && (js_vel_crad_s back =? 32000) && (js_eff_cNm back =? -1) &&
      (js_joint back =? 1) && (js_flags back =? 0x03));
   ("wire/clear_estop_is_little_endian", (raw !!! 0%nat =? 0x3A) && (raw !!! 1%nat =? 0xC1) && (raw !!! 2%nat =? 0xA4) && (raw !!! 3%nat =? 0x52))].

Definition test_protocol : checks :=
  let f := ps_can_id_unpack (ps_can_id_pack PS_CLS_TELEM PS_NODE_ARM_R PS_NODE_ORCH PS_T_JOINT_STATE 5) in
  let mask := ps_router_route PS_PORT_CAN1 (ps_can_id_pack PS_CLS_SAFETY PS_NODE_ARM_R PS_NODE_BROADCAST PS_T_ESTOP 0) in
  [("crc16/known_answer", ps_crc16 [49; 50; 51; 52; 53; 54; 55; 56; 57] 9 =? 0x29B1);
   ("can_id/roundtrip", (cls f =? PS_CLS_TELEM) && (src f =? PS_NODE_ARM_R) && (dst f =? PS_NODE_ORCH) && (type f =? PS_T_JOINT_STATE) && (low f =? 5));
   ("spi_frame/parses_python_vector", match ps_spi_frame_parse PS_VEC_SPI_FRAME (length PS_VEC_SPI_FRAME) with
      | inr view => (v_count view =? PS_VEC_SPI_COUNT) && (v_seq view =? PS_VEC_SPI_SEQ) | inl _ => false end);
   ("can_id/safety_wins_arbitration", ps_can_id_pack PS_CLS_SAFETY 31 31 0xFF 0xFF <? ps_can_id_pack PS_CLS_CONTROL 0 0 0 0);
   ("router/estop_cuts_through", negb (mask .& PS_PORT_BIT PS_PORT_CAN2 =? 0) && negb (mask .& PS_PORT_BIT PS_PORT_SPI =? 0))].

Definition test_adpcm : checks :=
  let '(st, enc) := ps_adpcm_encode ps_adpcm_init PS_VEC_ADPCM_PCM in
  let '(_, dec) := ps_adpcm_decode ps_adpcm_init enc in
  [("adpcm/encode_matches_vector", bool_decide (enc = PS_VEC_ADPCM_ENC));
   ("adpcm/final_state_matches_vector", (predictor st =? PS_VEC_ADPCM_FINAL_PREDICTOR) && (step_index st =? PS_VEC_ADPCM_FINAL_STEP_INDEX));
   ("adpcm/decode_matches_vector", bool_decide (dec = PS_VEC_ADPCM_DEC))].

(** The filter after [n] updates of a board at rest, tilted by 30 degrees. *)
Definition tilted (n : nat) : ps_mahony_t :=
  Nat.iter n (fun m => ps_mahony_update m (of_Z 0) (of_Z 0) (of_Z 0) (flit 1 2) (of_Z 0) (rlit 8660254 10000000) (flit 1 250))
    (ps_mahony_init (of_Z 2) (of_Z 0)).

(** The estimated direction of gravity against the true one. *)
Definition alignment (m : ps_mahony_t) : f32 :=
  let vx := (of_Z 2 * (q1 m * q3 m - q0 m * q2 m))%f32 in
  let vz := (q0 m * q0 m - q1 m * q1 m - q2 m * q2 m + q3 m * q3 m)%f32 in
  (vx * flit 1 2 + vz * rlit 8660254 10000000)%f32.

Definition two_degrees : f32 := (of_Z 2 * rlit 3141592653589793 1000000000000000 / of_Z 180)%f32.

Definition test_control_math (cosf : f32 -> f32) : checks :=
  let duty := ps_foc_svpwm {| alpha := of_Z 0; beta := of_Z 0 |} (of_Z 24) in
  let near (x : f32) := (fabsf (x - flit 1 2) <? rlit 1 100000)%f32 in
  let m := tilted (Z.to_nat 1250) in
  let q := ps_mahony_get_quat m in
  let n := sqrtf (q !!! 0%nat * q !!! 0%nat + q !!! 1%nat * q !!! 1%nat + q !!! 2%nat * q !!! 2%nat + q !!! 3%nat * q !!! 3%nat)%f32 in
  [("foc/zero_vector_is_midpoint", near (duty !!! 0%nat) && near (duty !!! 1%nat) && near (duty !!! 2%nat));
   ("mahony/converges_on_target_fpu", (cosf two_degrees <? alignment m)%f32);
   ("mahony/quaternion_normalised", (fabsf (n - of_Z 1) <? rlit 1 1000)%f32)].

Definition selftest (cosf : f32 -> f32) : checks := test_wire_layout ++ test_protocol ++ test_adpcm ++ test_control_math cosf.

Lemma failed_app cs cs' : failed (cs ++ cs') = failed cs ++ failed cs'.
Proof. apply omap_app. Qed.

Lemma below_trans x y z : num x -> num y -> num z -> (x <=? y)%f32 = true -> (y <? z)%f32 = true -> (x <? z)%f32 = true.
Proof. intros Hx Hy Hz. rewrite fleb_val, !fltb_val by done. lia. Qed.

Lemma bound_num : num (rlit 9995 10000).
Proof. split; vm_compute; congruence. Qed.

(** Where the filter settles. *)
Definition settled : ps_mahony_t :=
  {| q0 := S754_finite false 16205598 (-24); q1 := S754_zero false; q2 := S754_finite true 8684147 (-25); q3 := S754_zero false;
     two_kp := of_Z 4; two_ki := S754_zero false; integ_x := S754_zero false; integ_y := S754_zero false; integ_z := S754_zero false |}.
Lemma filter_settles : tilted (Z.to_nat 1250) = settled.
Proof. vm_compute. reflexivity. Qed.

Lemma filter_converged : num (alignment settled) /\ (rlit 9995 10000 <? alignment settled)%f32 = true.
Proof. split; [split; vm_compute; congruence|vm_compute; reflexivity]. Qed.

(** The self-test passes on the model, for every [cosf] whose answer for two degrees is a
    number of at most 0.9995 (the cosine is 0.99939): layouts and byte order; the checksum,
    identifiers and the cut-through of an e-stop; a frame and 512 samples of audio coded
    by the Python implementation of the protocol, to the bit; the zero vector of the modulator;
    and 1250 steps of the attitude filter in single precision. *)
Theorem selftest_passes cosf : num (cosf two_degrees) -> (cosf two_degrees <=? rlit 9995 10000)%f32 = true -> failed (selftest cosf) = [].
Proof.
  intros Hn Hc. unfold selftest. rewrite !failed_app.
  assert (failed test_wire_layout = [] /\ failed test_protocol = [] /\ failed test_adpcm = []) as (-> & -> & ->) by by vm_compute.
  assert ((cosf two_degrees <? alignment settled)%f32 = true) as Ha.
  { exact (below_trans _ _ _ Hn bound_num (proj1 filter_converged) Hc (proj2 filter_converged)). }
  cbn [app]. unfold test_control_math. cbv zeta. rewrite filter_settles, Ha. clear. vm_compute. reflexivity.
Qed.

(** Two degrees, correctly rounded. *)
Lemma selftest_passes_witness : failed (selftest (fun _ => rlit 99939083 100000000)) = [].
Proof. apply (selftest_passes (fun _ => rlit 99939083 100000000)); [split; [vm_compute; reflexivity|vm_compute; discriminate]|vm_compute; reflexivity]. Defined.
