(* ===== verification/Realtime.v ===== *)
(** The check of the safety state machine on a real timer, [test_safety_realtime] of
    src/firmware/apps/node_qemu_test/main/qemu_selftest.c, and that it passes whenever the
    target is timely.  The test and the callback of the timer run side by side; what the
    clock, in microseconds, reads at each of their actions is the argument of the test. *)
From stdpp Require Import strings.
From S2P Require Import Prelude Wire Safety SafetySpec Selftest.
From stdpp Require Import list.
From Stdlib Require Import Sorted.
#[local] Open Scope Z_scope.
#[local] Open Scope cint_scope.

Definition now_ms (us : Z) : Z := u32 (us / 1000).

Record rt := { s_core : ps_safety_core_t; s_tick_count : Z }.

Definition safety_tick_cb (r : rt) (us : Z) : rt :=
  {| s_core := (ps_safety_core_tick (s_core r) (now_ms us)).1; s_tick_count := u32 (s_tick_count r + 1) |}.

Definition ticks (r : rt) (ts : list Z) : rt := foldl safety_tick_cb r ts.

Definition beat (r : rt) (us seq : Z) : rt :=
  let hb := {| hb_seq := seq; hb_flags := 0; hb_src_state := 0; hb_uptime_ms := 0 |} in
  {| r with s_core := (ps_safety_core_on_heartbeat (s_core r) (now_ms us) hb).1 |}.

(** A round of the arming loop, of which there are thirty: the clock at the beat and at the command, and at the ticks of
    the delay that follows. *)
Record round := { d_beat : Z; d_cmd : Z; d_ticks : list Z }.

Fixpoint arm (r : rt) (seq : Z) (ds : list round) : rt * Z :=
  match ds with
  | [] => (r, seq)
  | d :: ds =>
    let seq := u16 (seq + 1) in
    let r := beat r (d_beat d) seq in
    let r := {| r with s_core := ps_safety_core_on_cmd (s_core r) (now_ms (d_cmd d)) |} in
    arm (ticks r (d_ticks d)) seq ds
  end.

(** The loop that waits for the watchdog: the clock at its test, and at the ticks of the delay
    after it.  Also the clock when it ends; [t] is the clock so far. *)
Fixpoint wait_trip (r : rt) (t0 t : Z) (ws : list (Z * list Z)) : rt * Z :=
  match ws with
  | [] => (r, t)
  | (t, ts) :: ws =>
    if (state (s_core r) =? PS_STATE_OPERATIONAL) && (t - t0 <? 500000) then wait_trip (ticks r ts) t0 t ws else (r, t)
  end.

Record rt_env := {
  e_timer : bool;                (* the timer could be created and started *)
  e_init : Z; e_settle : list Z; (* the initialisation, and the ticks of the first delay *)
  e_mode : Z; e_rounds : list round;
  e_last : Z; e_t0 : Z;          (* the last beat, and the clock read after it *)
  e_wait : list (Z * list Z);
  e_late : Z }.                  (* from the end of the loop to the last reading *)

Definition test_safety_realtime (e : rt_env) : checks :=
  if negb (e_timer e) then [("safety/timer_started", false)] else
  let r := {| s_core := ps_safety_core_init (now_ms (e_init e)) None 0; s_tick_count := 0 |} in
  let r := ticks r (e_settle e) in
  let runs := 5 <=? s_tick_count r in
  let r := {| r with s_core := (ps_safety_core_on_mode_set (s_core r) (now_ms (e_mode e)) PS_STATE_OPERATIONAL).1 |} in
  let '(r, seq) := arm r 0 (e_rounds e) in
  let armed := state (s_core r) =? PS_STATE_OPERATIONAL in
  let r := beat r (e_last e) (u16 (seq + 1)) in
  let '(r, t) := wait_trip r (e_t0 e) (e_t0 e) (e_wait e) in
  let elapsed_us := t + e_late e - e_t0 e in
  [("safety/timer_runs_at_5ms", runs); ("safety/arms_under_real_time", armed);
   ("safety/trips_on_real_silence", state (s_core r) =? PS_STATE_PASSIVE);
   ("safety/trip_latency_is_sane", (40000 <? elapsed_us) && (elapsed_us <? 150000))].

(** ** Timely targets *)

(** In a round of the arming loop the timer runs, and is done 40 ms after the beat. *)
Definition round_ok (d : round) : Prop := d_ticks d <> [] /\ Forall (fun t => d_beat d <= t <= d_beat d + 40000) (d_ticks d).

(** In a round of the waiting loop the timer runs, in order and before the next round, which
    begins within 20 ms; the loop could go on for 75 ms after the beat [b]. *)
Fixpoint waits_ok (b : Z) (ws : list (Z * list Z)) : Prop :=
  match ws with
  | [] => False
  | [(t, _)] => b + 75000 <= t
  | (t, ts) :: (((t', _) :: _) as ws) => ts <> [] /\ Sorted Z.le ts /\ Forall (fun x => t <= x <= t') ts /\ t' <= t + 20000 /\ waits_ok b ws
  end.

Record timely (e : rt_env) : Prop := {
  tm_timer : e_timer e = true;
  tm_settle : 5 <= Z.of_nat (length (e_settle e)) <= 1000;
  tm_rounds : e_rounds e <> [] /\ Forall round_ok (e_rounds e);
  tm_t0 : e_last e <= e_t0 e <= e_last e + 5000;
  tm_first : exists t ts ws, e_wait e = (t, ts) :: ws /\ e_t0 e <= t <= e_t0 e + 20000;
  tm_wait : waits_ok (e_last e) (e_wait e);
  tm_late : 0 <= e_late e <= 5000 }.

(** ** The core during the test *)

(** Operating, or about to be, with a heartbeat at [b]. *)
Definition beating (c : ps_safety_core_t) (b : Z) : Prop :=
  have_hb c = true /\ last_hb_ms c = now_ms b /\ want_operational c = true.

Lemma hb_ok_at c b t : beating c b -> b <= t < b + 1000000000 -> heartbeat_ok c (now_ms t) = (t / 1000 - b / 1000 <=? 50).
Proof.
  intros (H1 & H2 & _) Ht. unfold heartbeat_ok. rewrite H1, H2. unfold now_ms. rewrite elapsed_exact by lia. done.
Qed.

(** A tick keeps the heartbeat, and moves between the three states of a healthy node. *)
Lemma tick_state c b t : beating c b -> b <= t < b + 1000000000 -> let c' := (ps_safety_core_tick c (now_ms t)).1 in
  beating c' b /\ last_hb_seq c' = last_hb_seq c /\
  (state c = PS_STATE_STANDBY \/ state c = PS_STATE_OPERATIONAL -> t / 1000 - b / 1000 <= 50 -> state c' = PS_STATE_OPERATIONAL) /\
  (state c = PS_STATE_OPERATIONAL \/ state c = PS_STATE_PASSIVE -> 50 < t / 1000 - b / 1000 -> state c' = PS_STATE_PASSIVE).
Proof.
  intros Hb Ht. pose proof (hb_ok_at c b t Hb Ht) as Ho. cbv zeta. unfold ps_safety_core_tick. rewrite Ho.
  assert (forall s k, beating (go c s k).1 b /\ last_hb_seq (go c s k).1 = last_hb_seq c) as Hgo by (intros; by rewrite fst_go).
  split_and!.
  - repeat case_match; first [apply Hgo|done].
  - repeat case_match; first [apply Hgo|done].
  - intros [Es|Es] Hle; rewrite Es; destruct Hb as (_ & _ & Hw); rewrite ?Hw, (proj2 (Z.leb_le _ _)) by lia; cbn; [by rewrite fst_go|done].
  - intros [Es|Es] Hgt; rewrite Es; destruct Hb as (_ & _ & Hw); rewrite ?Hw, (proj2 (Z.leb_gt _ _)) by lia; cbn; [by rewrite fst_go|done].
Qed.

Lemma ticks_cons r t ts : ticks r (t :: ts) = ticks (safety_tick_cb r t) ts.
Proof. done. Qed.

(** Up to the first beat. *)
Lemma settle_ticks ts : forall r, state (s_core r) = PS_STATE_STANDBY -> want_operational (s_core r) = false -> have_hb (s_core r) = false ->
  let r' := ticks r ts in
  state (s_core r') = PS_STATE_STANDBY /\ have_hb (s_core r') = false /\
  (0 <= s_tick_count r -> s_tick_count r + Z.of_nat (length ts) < 4294967296 -> s_tick_count r' = s_tick_count r + Z.of_nat (length ts)).
Proof.
  cbv zeta. induction ts as [|t ts IH]; intros r Hs Hw Hh; [split_and!; done || (cbn; lia)|]. rewrite ticks_cons.
  assert ((ps_safety_core_tick (s_core r) (now_ms t)).1 = s_core r) as E.
  { unfold ps_safety_core_tick. rewrite Hs, Hw. done. }
  destruct (IH (safety_tick_cb r t)) as (I1 & I2 & I3); [cbn; by rewrite E..|]. split_and!; [done..|]. intros Hc Hl. cbn [length] in *.
  cbn [safety_tick_cb s_tick_count] in I3. rewrite u32_id in I3 by (unfold is_u32; lia). rewrite I3; lia.
Qed.

(** A beat of the test. *)
Lemma beat_spec r b seq : want_operational (s_core r) = true -> (have_hb (s_core r) = true -> last_hb_seq (s_core r) = seq) -> 0 <= seq <= 65535 ->
  let r' := beat r b (u16 (seq + 1)) in
  beating (s_core r') b /\ state (s_core r') = state (s_core r) /\ last_hb_seq (s_core r') = u16 (seq + 1).
Proof.
  intros Hw Hl Hs. cbv zeta. unfold beat, ps_safety_core_on_heartbeat. cbn [s_core hb_seq hb_flags].
  assert (have_hb (s_core r) && (u16 (seq + 1) =? last_hb_seq (s_core r)) = false) as ->.
  { destruct (have_hb (s_core r)); [|done]. rewrite (Hl eq_refl). cbn [andb]. apply Z.eqb_neq. clia. }
  change (has 0 PS_HB_ESTOP_LATCHED) with false. cbv iota. unfold beating. destruct (_ || _); cbn; by rewrite Hw.
Qed.

(** The ticks of an arming round. *)
Lemma fresh_ticks ts : forall r b, beating (s_core r) b -> Forall (fun t => b <= t <= b + 40000) ts ->
  state (s_core r) = PS_STATE_STANDBY \/ state (s_core r) = PS_STATE_OPERATIONAL -> let r' := ticks r ts in
  beating (s_core r') b /\ last_hb_seq (s_core r') = last_hb_seq (s_core r) /\
  (ts <> [] \/ state (s_core r) = PS_STATE_OPERATIONAL -> state (s_core r') = PS_STATE_OPERATIONAL).
Proof.
  cbv zeta. induction ts as [|t ts IH]; intros r b Hb Ht Hs; [split_and!; try done; by intros []|].
  apply Forall_cons in Ht as [H1 Ht]. rewrite ticks_cons. destruct (tick_state (s_core r) b t Hb ltac:(lia)) as (T1 & T2 & T3 & _).
  assert (state (s_core (safety_tick_cb r t)) = PS_STATE_OPERATIONAL) as Eo by (apply T3; [done|lia]).
  destruct (IH (safety_tick_cb r t) b T1 Ht ltac:(by right)) as (I1 & I2 & I3). split_and!; [done| |by auto].
  rewrite I2. exact T2.
Qed.

Lemma arm_spec ds : forall r seq, want_operational (s_core r) = true -> (have_hb (s_core r) = true -> last_hb_seq (s_core r) = seq) -> 0 <= seq <= 65535 ->
  state (s_core r) = PS_STATE_STANDBY \/ state (s_core r) = PS_STATE_OPERATIONAL -> Forall round_ok ds ->
  let '(r', seq') := arm r seq ds in want_operational (s_core r') = true /\ (have_hb (s_core r') = true -> last_hb_seq (s_core r') = seq') /\
  0 <= seq' <= 65535 /\ (ds <> [] \/ state (s_core r) = PS_STATE_OPERATIONAL -> state (s_core r') = PS_STATE_OPERATIONAL).
Proof.
  induction ds as [|d ds IH]; intros r seq Hw Hl Hseq Hs Hd; [cbn; split_and!; try done; try lia; by intros []|].
  apply Forall_cons in Hd as [[Hne Ht] Hd]. cbn [arm]. destruct (beat_spec r (d_beat d) seq Hw Hl Hseq) as (B1 & B2 & B3). cbv zeta in *.
  set (r1 := {| s_core := ps_safety_core_on_cmd _ _; s_tick_count := _ |}).
  assert (beating (s_core r1) (d_beat d) /\ state (s_core r1) = state (s_core r) /\ last_hb_seq (s_core r1) = u16 (seq + 1)) as (R1 & R2 & R3) by done.
  clearbody r1. destruct (fresh_ticks (d_ticks d) r1 (d_beat d) R1 Ht ltac:(by rewrite R2)) as (T1 & T2 & T3). cbv zeta in *.
  assert (state (s_core (ticks r1 (d_ticks d))) = PS_STATE_OPERATIONAL) as Eo by (apply T3; by left).
  specialize (IH (ticks r1 (d_ticks d)) (u16 (seq + 1))). destruct (arm _ _ ds) as [r' seq']. destruct IH as (I1 & I2 & I3 & I4).
  - by destruct T1 as (_ & _ & ?).
  - intros _. by rewrite T2, R3.
  - clia.
  - by right.
  - done.
  - split_and!; [done|done|lia..|intros _; apply I4; by right].
Qed.

(** The ticks of a waiting round: the watchdog trips at the first one more than 50 ms after the
    beat, and stays tripped. *)
Lemma passive_ticks ts : forall r b, beating (s_core r) b -> state (s_core r) = PS_STATE_PASSIVE ->
  Forall (fun t => b <= t < b + 1000000000 /\ 50 < t / 1000 - b / 1000) ts ->
  state (s_core (ticks r ts)) = PS_STATE_PASSIVE /\ beating (s_core (ticks r ts)) b.
Proof.
  induction ts as [|t ts IH]; intros r b Hb Hs Ht; [done|]. apply Forall_cons in Ht as [[H1 H2] Ht]. rewrite ticks_cons.
  destruct (tick_state (s_core r) b t Hb H1) as (T1 & _ & _ & T4). apply (IH _ b); [done|apply T4; auto|done].
Qed.

Lemma wait_ticks ts : forall r b lo hi, beating (s_core r) b -> state (s_core r) = PS_STATE_OPERATIONAL -> Sorted Z.le ts ->
  Forall (fun t => lo <= t <= hi) ts -> b <= lo -> hi < b + 1000000000 -> ts <> [] -> let r' := ticks r ts in
  beating (s_core r') b /\ (state (s_core r') = PS_STATE_OPERATIONAL /\ lo < b + 52000 \/
                            state (s_core r') = PS_STATE_PASSIVE /\ b + 50000 < hi).
Proof.
  cbv zeta. induction ts as [|t ts IH]; intros r b lo hi Hb Hs Hsort Ht Hlo Hhi Hne; [done|]. apply Forall_cons in Ht as [H1 Ht]. rewrite ticks_cons.
  destruct (tick_state (s_core r) b t Hb ltac:(lia)) as (T1 & _ & T3 & T4). apply Sorted_StronglySorted in Hsort; [|intros x y z; lia].
  apply StronglySorted_inv in Hsort as [Hsort Hmin]. destruct (Z.le_gt_cases (t / 1000 - b / 1000) 50) as [Hle|Hgt].
  - assert (state (s_core (safety_tick_cb r t)) = PS_STATE_OPERATIONAL) as Eo by (apply T3; auto).
    destruct ts as [|t' ts]; [split; [done|left; split; [done|lia]]|].
    apply (IH _ b lo hi); try done. by apply StronglySorted_Sorted.
  - assert (state (s_core (safety_tick_cb r t)) = PS_STATE_PASSIVE) as Ep by (apply T4; [by left|lia]).
    assert (Forall (fun x => b <= x < b + 1000000000 /\ 50 < x / 1000 - b / 1000) ts) as Hlate.
    { rewrite list.Forall_forall in *. intros x Hx. specialize (Ht x Hx). specialize (Hmin x Hx). cbn in *. split; [lia|]. lia. }
    destruct (passive_ticks ts (safety_tick_cb r t) b T1 Ep Hlate) as [P1 P2]. split; [done|]. right. split; [done|lia].
Qed.

(** The loop ends tripped, between 50 and 92 ms after the beat.  [t] is where the round before
    began, or the reading of the clock before the loop. *)
Lemma wait_trip_spec ws : forall r b t0 t u, beating (s_core r) b -> state (s_core r) = PS_STATE_OPERATIONAL -> waits_ok b ws ->
  b <= t0 <= b + 5000 -> (exists t1 ts ws', ws = (t1, ts) :: ws' /\ t0 <= t1 <= t + 20000) -> t < b + 52000 ->
  let '(r', t') := wait_trip r t0 u ws in state (s_core r') = PS_STATE_PASSIVE /\ b + 50000 < t' <= b + 92000.
Proof.
  induction ws as [|[t1 ts] ws IH]; intros r b t0 t u Hb Hs Hw H0 (t1' & ts' & ws' & [= <- <- <-] & H1) Ht.
  destruct ws as [|[t2 ts2] ws]; [cbn [waits_ok] in Hw; lia|]. cbn [waits_ok] in Hw. destruct Hw as (Hne & Hsort & Hf & Ht2 & Hw).
  assert (t1 <= t2) as Hle by (destruct ts as [|x ts]; [done|]; apply Forall_cons in Hf as [? _]; lia).
  destruct (wait_ticks ts r b t1 t2 Hb Hs Hsort Hf ltac:(lia) ltac:(lia) Hne) as [W1 W2]. cbv zeta in *.
  change (wait_trip r t0 u ((t1, ts) :: (t2, ts2) :: ws)) with
    (if (state (s_core r) =? PS_STATE_OPERATIONAL) && (t1 - t0 <? 500000) then wait_trip (ticks r ts) t0 t1 ((t2, ts2) :: ws) else (r, t1)).
  rewrite Hs, Z.eqb_refl, (proj2 (Z.ltb_lt _ _)) by lia. cbn [andb]. destruct W2 as [[W2 W3]|[W2 W3]].
  - apply (IH _ b t0 t1); try done. exists t2, ts2, ws. split; [done|lia].
  - cbn [wait_trip]. rewrite W2. cbn [andb]. change (PS_STATE_PASSIVE =? PS_STATE_OPERATIONAL) with false. cbn [andb]. split; [done|lia].
Qed.

(** On every timely target the check of the watchdog passes: if the timer ticks at least five
    times before the test begins, within 40 ms of every beat, and at least every 20 ms while
    the test waits, the node arms, the silence trips it, and the latency measured is more
    than 40 and less than 150 ms. *)
Theorem realtime_passes e : timely e -> failed (test_safety_realtime e) = [].
Proof.
  intros [H1 H2 [H3 H3'] H4 (t & ts & ws & Ew & Hf) H5 H6]. unfold test_safety_realtime. rewrite H1. cbn [negb].
  set (r0 := {| s_core := _; s_tick_count := 0 |}). destruct (e_settle e) as [|x xs] eqn:Ex; [cbn in H2; lia|]. rewrite ticks_cons.
  destruct (settle_ticks xs (safety_tick_cb r0 x)) as (S1 & S2 & S3); [done..|]. cbn [length] in H2.
  specialize (S3 ltac:(cbn; clia) ltac:(cbn; clia)). cbv zeta in *. set (r1 := ticks (safety_tick_cb r0 x) xs) in *. clearbody r1.
  set (r2 := {| s_core := (ps_safety_core_on_mode_set _ _ _).1; s_tick_count := _ |}).
  assert (state (s_core r2) = PS_STATE_STANDBY /\ have_hb (s_core r2) = false /\ want_operational (s_core r2) = true) as (R1 & R2 & R3) by done.
  clearbody r2. pose proof (arm_spec (e_rounds e) r2 0 R3 ltac:(by rewrite R2) ltac:(lia) ltac:(by left) H3') as Ha.
  destruct (arm r2 0 (e_rounds e)) as [r3 seq]. destruct Ha as (A1 & A2 & A3 & A4). specialize (A4 ltac:(by left)).
  destruct (beat_spec r3 (e_last e) seq A1 A2 A3) as (B1 & B2 & _). cbv zeta in *.
  pose proof (wait_trip_spec (e_wait e) (beat r3 (e_last e) (u16 (seq + 1))) (e_last e) (e_t0 e) (e_t0 e) (e_t0 e) B1 ltac:(congruence) H5 H4
    ltac:(exists t, ts, ws; split; [done|lia]) ltac:(lia)) as Hw.
  destruct (wait_trip _ _ _ _) as [r4 t']. destruct Hw as [W1 W2].
  assert (s_tick_count r1 = 1 + Z.of_nat (length xs)) as Ec by (rewrite S3; cbn; clia).
  rewrite Ec, A4, W1, (proj2 (Z.leb_le _ _)), !(proj2 (Z.ltb_lt _ _)) by lia. done.
Qed.

Definition demo_rt : rt_env :=
  {| e_timer := true; e_init := 0; e_settle := [5000; 10000; 15000; 20000; 25000]; e_mode := 50000;
     e_rounds := (fun i => let b := 50000 + 10000 * Z.of_nat i in {| d_beat := b; d_cmd := b; d_ticks := [b + 5000; b + 10000] |}) <$> seq 0 30;
     e_last := 350000; e_t0 := 350000;
     e_wait := (fun i => let t := 350000 + 10000 * Z.of_nat i in (t, [t + 5000; t + 9000])) <$> seq 0 9; e_late := 10 |}.

Lemma realtime_passes_witness : failed (test_safety_realtime demo_rt) = [].
Proof.
  apply realtime_passes. split; [done|cbn; lia|split; [done|]|cbn; lia|do 3 eexists; split; [reflexivity|cbn; lia]| |cbn; lia].
  - apply list.Forall_fmap, list.Forall_forall. intros i _. split; [done|]. cbn. repeat constructor; lia.
  - cbn. split_and!; try done; try lia; repeat constructor; lia.
Defined.
