(* ===== verification/Bench.v ===== *)
(** The two-board bench (src/firmware/apps/node_bench/main/bench_main.c): one board beats in
    the role of the orchestrator, the other runs the safety state machine and shows its
    state on a light.  [bench_dead_man] is the experiment the program is for: pull the plug
    on the first board, and the light of the second leaves its operational colour. *)
From stdpp Require Import strings.
From S2P Require Import Prelude CanId Wire Rtos Txq Can Safety SafetySpec SafetyEsp Uros Boot BootSpec.
From stdpp Require Import list.
#[local] Open Scope Z_scope.
#[local] Open Scope cint_scope.

Definition rgb : Type := (Z * Z * Z)%type.

(** Up to two lights, [None] where the driver could not be opened. *)
Definition led_set (r g b : Z) (leds : list (option rgb)) : list (option rgb) := (fun l : option rgb => (fun _ => (r, g, b)) <$> l) <$> leds.

(** The colour of a state, white-blue pulse to strobe. *)
Definition colour (state t_ms : Z) : rgb :=
  if state =? PS_STATE_OPERATIONAL then let v := u8 (40 + 40 * ((t_ms / 500) mod 2)) in (v, v, 120)
  else if state =? PS_STATE_STANDBY then (90, 50, 0)
  else if state =? PS_STATE_PASSIVE then (140, 45, 0)
  else if state =? PS_STATE_ESTOP then (if (t_ms / 100) mod 2 =? 0 then 0 else 255, 0, 0)
  else if state =? PS_STATE_FAULT then (180, 0, 60)
  else (0, 0, 60).

Definition paint_state (state t_ms : Z) (leds : list (option rgb)) : list (option rgb) :=
  let '(r, g, b) := colour state t_ms in led_set r g b leds.

Section Bench.
Context `{RtosQueue} `{TwaiDlc} `{RtosStream}.

(** ** The orchestrator role *)

Record orch_board := { ob_can : option ps_can_ctx; ob_seq : Z; ob_leds : list (option rgb) }.

Definition orch_frame {A} `{WireStruct A} (cls dst type low : Z) (x : A) : ps_can_frame_t :=
  {| f_id := ps_can_id_pack cls PS_NODE_ORCH dst type low; f_dlc := Z.of_nat (wire_size A); f_data := wire_write x |}.

Definition bench_beat (seq uptime : Z) : ps_heartbeat_t :=
  {| hb_seq := seq; hb_flags := 0; hb_src_state := PS_STATE_OPERATIONAL; hb_uptime_ms := uptime |}.
Definition bench_mode : ps_mode_set_t :=
  {| ms_target_state := PS_STATE_OPERATIONAL; ms_rsvd0 := 0; ms_rsvd1 := 0; ms_rsvd2 := 0; ms_rsvd3 := 0; ms_rsvd4 := 0; ms_rsvd5 := 0; ms_rsvd6 := 0 |}.
Definition bench_hold (j : Z) : ps_joint_cmd_t :=
  {| jc_joint := j; jc_mode := PS_JMODE_POSITION; jc_pos_crad := 0; jc_vel_crad_s := 0; jc_eff_cNm := 0 |}.

(** The frames of a turn, in the order they are sent. *)
Definition turn_frames (seq uptime : Z) : list ps_can_frame_t :=
  [orch_frame PS_CLS_SAFETY PS_NODE_BROADCAST PS_T_HEARTBEAT (u8 (seq .& 0xFF)) (bench_beat seq uptime)] ++
  (if seq mod 100 =? 0 then [orch_frame PS_CLS_CONTROL PS_NODE_BROADCAST PS_T_MODE_SET 0 bench_mode] else []) ++
  (if seq mod 10 =? 0 then [orch_frame PS_CLS_CONTROL PS_NODE_ARM_R PS_T_JOINT_CMD 0 (bench_hold 0);
                            orch_frame PS_CLS_CONTROL PS_NODE_ARM_R PS_T_JOINT_CMD 0 (bench_hold 1)] else []).

(** A turn of [heartbeat_task], [us] microseconds after its start; refused sends are not
    retried. *)
Definition heartbeat_turn (s : orch_board) (us : Z) : orch_board :=
  let uptime := u32 (us / 1000) in
  {| ob_can := foldl (fun c f => (ps_can_send c (Some f)).1) (ob_can s) (turn_frames (ob_seq s) uptime);
     ob_seq := u16 (ob_seq s + 1); ob_leds := paint_state PS_STATE_OPERATIONAL uptime (ob_leds s) |}.

(** ** The limb role *)

Record limb_board := { lb_glue : glue; lb_leds : list (option rgb); lb_last_log : Z }.

(** [control_rx_cb]; the two calls read the clock within one tick of it here. *)
Definition bench_control_rx (s : limb_board) (t : Z) (f : ps_can_frame_t) : limb_board :=
  if negb (ps_can_id_type (f_id f) =? PS_T_MODE_SET) then s else
  let ms : ps_mode_set_t := wire_read (copy_short (wire_size ps_mode_set_t) f) in
  {| s with lb_glue := (ps_safety_note_mode_set (ps_safety_note_cmd (lb_glue s) t) t (ms_target_state ms)).1 |}.

Definition limb_turn (s : limb_board) (t : Z) : limb_board :=
  {| lb_leds := paint_state (ps_safety_state (lb_glue s)) t (lb_leds s); lb_glue := ps_safety_note_cmd (lb_glue s) t;
     lb_last_log := if 2000 <=? u32 (t - lb_last_log s) then t else lb_last_log s |}.

(** ** Start-up *)

(** [w_leds]: the answers for the lights of the build; [w_task]: whether the task could be
    created, which nothing checks. *)
Record bench_env := { w_edge : edge_env; w_leds : list esp_err_t; w_task : bool }.
Definition bench_control_cb : Z := 61.
Definition bench_transition_cb : Z := 62.

Definition led_init (errs : list esp_err_t) : list (option rgb) :=
  paint_state PS_STATE_BOOT 0 ((fun err => if is_ok err then Some (0, 0, 0) else None) <$> errs).

(** The part of [app_main] from the safety state machine on; [t] is the clock at the first
    command. *)
Definition bench_limb_start (e : bench_env) (ctx : option ps_can_ctx) (id t : Z) : boot node unit :=
  (err ← start_safety (w_edge e) ctx id bench_transition_cb; ESP_ERROR_CHECK err) ;;
  err ← register PS_CLS_CONTROL bench_control_cb; ESP_ERROR_CHECK err ;;
  modify (fun s => {| s with nd_glue := ps_safety_note_cmd (nd_glue s) t |}) ;;
  if w_task e then spawn BenchLimb else mret tt.

(** [app_main] without the self-test and the probe; [None] where it returned because there is
    no bus. *)
Definition bench_app_main (orch : bool) (id t : Z) (e : bench_env) (s : node) : list (option rgb) * option (node * (unit + esp_err_t)) :=
  let leds := led_init (w_leds e) in
  let id := if orch then PS_NODE_ORCH else id in
  let '(ctx, err, _) := ps_can_open (Some (id, 0, 0)) true (b_open (w_edge e)) in
  if negb (is_ok err) then (paint_state PS_STATE_FAULT 0 leds, None) else
  (leds, Some ((if orch then (if w_task e then spawn BenchBeat else mret tt) else bench_limb_start e ctx id t) s)).

(** ** The limb board as a machine *)

Inductive bev :=
  | BSafety (f : ps_can_frame_t) | BControl (f : ps_can_frame_t)  (* a frame of the class, from the receive task *)
  | BTick | BCanState (st : Z)                                    (* the timer and the link *)
  | BTurn.                                                        (* a turn of [limb_task] *)

Definition bstep (s : limb_board) (t : Z) (e : bev) : limb_board :=
  match e with
  | BSafety f => {| s with lb_glue := (safety_rx (lb_glue s) t f).1 |}
  | BControl f => bench_control_rx s t f
  | BTick => {| s with lb_glue := (tick_cb (lb_glue s) t).1 |}
  | BCanState st => {| s with lb_glue := (can_state_cb (lb_glue s) t st).1 |}
  | BTurn => limb_turn s t
  end.

Definition brun (s : limb_board) (tr : list (Z * bev)) : limb_board := foldl (fun s '(t, e) => bstep s (u32 t) e) s tr.

(** What the glue sees of a step. *)
Definition glue_events (e : bev) : list gev :=
  match e with
  | BSafety f => [GRx f]
  | BControl f => if ps_can_id_type (f_id f) =? PS_T_MODE_SET
      then [GCmd; GModeSet (ms_target_state (wire_read (copy_short (wire_size ps_mode_set_t) f)))] else []
  | BTick => [GTick] | BCanState st => [GCanState st] | BTurn => [GCmd]
  end.
Definition glue_trace (tr : list (Z * bev)) : list (Z * gev) := tr ≫= (fun '(t, e) => pair t <$> glue_events e).

(** ** The light tells the truth *)

Lemma grun_app s tr tr' : (grun s (tr ++ tr')).1 = (grun (grun s tr).1 tr').1.
Proof.
  revert s. induction tr as [|[t e] tr IH]; intros s; [done|]. cbn [grun app]. destruct (gstep s (u32 t) e) as [s1 l]. specialize (IH s1).
  destruct (grun s1 tr) as [s2 l2]. by destruct (grun s1 (tr ++ tr')).
Qed.

Lemma bstep_glue s t e : lb_glue (bstep s (u32 t) e) = (grun (lb_glue s) (pair t <$> glue_events e)).1.
Proof.
  destruct e as [f|f| |st|]; cbn [bstep glue_events fmap list_fmap grun gstep].
  1, 3, 4: match goal with |- context [let '(_, _) := ?x in _] => by destruct x end.
  - unfold bench_control_rx. destruct (_ =? PS_T_MODE_SET); [|done]. cbn [negb fmap list_fmap grun gstep lb_glue].
    by destruct (ps_safety_note_mode_set _ _ _).
  - done.
Qed.

Lemma brun_glue s tr : lb_glue (brun s tr) = (grun (lb_glue s) (glue_trace tr)).1.
Proof.
  revert s. induction tr as [|[t e] tr IH]; intros s; [done|]. unfold brun, glue_trace in *. cbn [foldl mbind list_bind].
  rewrite IH, grun_app, bstep_glue. done.
Qed.

(** The blue of the pulse is no other state's. *)
Lemma colour_operational state t r g : colour state t = (r, g, 120) -> state = PS_STATE_OPERATIONAL.
Proof. unfold colour. destruct (Z.eqb_spec state PS_STATE_OPERATIONAL); [done|]. repeat case_match; intros [=]. Qed.

Lemma paint_shows state t leds i c : paint_state state t leds !! i = Some (Some c) -> c = colour state t.
Proof.
  unfold paint_state, led_set. destruct (colour state t) as [[r g] b]. rewrite list_lookup_fmap.
  destruct (leds !! i) as [[l|]|]; cbn; congruence.
Qed.

(** The light of the limb board, as last painted by a turn at [now] after any sequence of
    frames, ticks and link changes: it shows the operational colour only if a heartbeat
    frame came in at most 50 ms and the age of the last tick before. *)
Theorem bench_dead_man s0 cfg lock ce se s t0 tr p now i r g :
  ps_safety_start s0 cfg (u32 t0) lock ce se = (lb_glue s, ESP_OK) ->
  timed t0 SPAN t0 (core_trace (glue_trace tr)) ->
  (forall tk, last_tick (core_trace (glue_trace tr)) = Some tk -> now - tk <= p) ->
  lb_leds (brun s (tr ++ [(now, BTurn)])) !! i = Some (Some (r, g, 120)) ->
  exists b, heard (glue_trace tr) b /\ now - b <= 50 + p.
Proof.
  intros Hstart Ht Hp Hl. destruct (start_ok _ _ _ _ _ _ _ Hstart) as [Hst Hc].
  destruct (glue_tracks (lb_glue s) (glue_trace tr) Hst) as [(Hcore & _ & _ & Hst') _].
  unfold brun in Hl. rewrite foldl_app in Hl. cbn [foldl bstep limb_turn lb_leds] in Hl. fold (brun s tr) in Hl.
  apply paint_shows in Hl. symmetry in Hl. apply colour_operational in Hl.
  rewrite brun_glue in Hl. unfold ps_safety_state in Hl. rewrite Hst', Hcore, Hc in Hl.
  destruct (deadman t0 p now _ _ _ Ht Hl Hp) as (b & Hb & Hle). exists b. split; [by apply beat_heard|done].
Qed.

(** What the limb board makes of a turn of the other: the heartbeat is taken with its number, the
    mode request asks for OPERATIONAL, and a joint command changes nothing. *)
Theorem bench_frames_understood (g : limb_board) seq uptime t f : 0 <= seq < 2 ^ 16 -> 0 <= uptime < 2 ^ 32 -> f ∈ turn_frames seq uptime ->
  (ps_can_id_cls (f_id f) = PS_CLS_SAFETY /\
     lb_glue (bstep g t (BSafety f)) = (let s := lb_glue g in {| s with core := (ps_safety_core_on_heartbeat (core s) t (bench_beat seq uptime)).1 |})) \/
  (ps_can_id_cls (f_id f) = PS_CLS_CONTROL /\ ps_can_id_type (f_id f) = PS_T_MODE_SET /\
     lb_glue (bstep g t (BControl f)) = (ps_safety_note_mode_set (ps_safety_note_cmd (lb_glue g) t) t PS_STATE_OPERATIONAL).1) \/
  (ps_can_id_dst (f_id f) = PS_NODE_ARM_R /\ bstep g t (BControl f) = g).
Proof.
  intros Hs Hu Hf. unfold turn_frames in Hf. rewrite !elem_of_app in Hf. destruct Hf as [Hf|[Hf|Hf]].
  - apply list_elem_of_singleton in Hf as ->. left. unfold orch_frame. cbn [f_id]. rewrite cls_pack by (solve [apply u8_range | done]).
    split; [done|]. cbn [bstep lb_glue]. unfold safety_rx. cbn [f_id f_data]. rewrite type_pack by (solve [apply u8_range | done]).
    change (PS_T_HEARTBEAT =? PS_T_HEARTBEAT) with true. cbv iota.
    rewrite <- (app_nil_r (wire_write _)), wire_read_write_app. { by destruct (ps_safety_core_on_heartbeat _ _ _). }
    unfold wire_ok. cbn. unfold is_u8, is_u16, is_u32, PS_STATE_OPERATIONAL. lia.
  - right. left. destruct (_ =? 0); [|by apply elem_of_nil in Hf]. apply list_elem_of_singleton in Hf as ->.
    split; [reflexivity|]. split; [reflexivity|]. reflexivity.
  - right. right. destruct (_ =? 0); [|by apply elem_of_nil in Hf]. apply elem_of_cons in Hf as [->|Hf]; [by split|].
    apply list_elem_of_singleton in Hf as ->. by split.
Qed.

(** ** Start-up *)

Lemma safety_started e id tr ts : open_up (b_open e) = true ->
  triple (dark ts) (err ← start_safety e (Some (ps_can_open_ctx id 0 0)) id tr; ESP_ERROR_CHECK err)
    (fun _ s => edge_up e = true /\ wired id tr base_cbs (ts ++ [SafetyTick]) s) (fun s => edge_up e = false /\ dark ts s).
Proof.
  intros Ho s Hs. pose proof (open_and_start_triple e id tr ts s Hs) as Ht. unfold open_and_start in Ht.
  destruct (open_spec id 0 0 (b_open e)) as (err & held & Eo & Ek). rewrite Eo, Ho in *. unfold ESP_ERROR_CHECK, mbind, boot_bind in *.
  by rewrite Ek in Ht.
Qed.

Lemma note_cmd_wired id tr cbs ts t s : wired id tr cbs ts s -> wired id tr cbs ts {| s with nd_glue := ps_safety_note_cmd (nd_glue s) t |}.
Proof. intros (W1 & W2 & W3 & W4 & W5 & W6). unfold wired, ps_safety_note_cmd. rewrite W1. by split_and!. Qed.

Definition bench_handler (c : Z) : option Z := if c =? PS_CLS_SAFETY then Some safety_rx_cb else if c =? PS_CLS_CONTROL then Some bench_control_cb else None.

(** A limb board without a bus says so on every light it has and stops; with one it comes up,
    its handlers wired, exactly if the safety state machine starts, whether or not its task
    could be created. *)
Theorem bench_boot id t e s : started (nd_glue s) = false -> nd_tasks s = [] ->
  match bench_app_main false id t e s with
  | (leds, None) => open_up (b_open (w_edge e)) = false /\ forall i c, leds !! i = Some (Some c) -> c = (180, 0, 60)
  | (leds, Some r) => open_up (b_open (w_edge e)) = true /\ (forall i c, leds !! i = Some (Some c) -> c = (0, 0, 60)) /\
      outcome r (edge_up (w_edge e)) (ready id bench_handler ([SafetyTick] ++ if w_task e then [BenchLimb] else [])) calm
  end.
Proof.
  intros Hg Ht. unfold bench_app_main. destruct (open_spec id 0 0 (b_open (w_edge e))) as (err & held & -> & Ek). rewrite Ek.
  destruct (open_up (b_open (w_edge e))) eqn:Eo; cbn [negb]; [|split; [done|]; intros i c Hc; by apply paint_shows in Hc].
  split; [done|]. split; [intros i c Hc; by apply paint_shows in Hc|].
  enough (triple (dark []) (bench_limb_start e (Some (ps_can_open_ctx id 0 0)) id t)
    (fun _ s => edge_up (w_edge e) = true /\ ready id bench_handler ([SafetyTick] ++ if w_task e then [BenchLimb] else []) s)
    (fun s => edge_up (w_edge e) = false /\ calm s)) as Hr by by apply (Hr s).
  unfold bench_limb_start. eapply triple_bind.
  { eapply triple_weaken; [by apply safety_started|intros a s1 Hs; exact Hs|]. intros s1 [-> Hs]. split; [done|]. by eapply dark_calm; [|exact Hs]. }
  intros u. cbv beta. apply triple_pure. intros ->. eapply triple_bind; [by apply register_triple|]. intros err1. cbv beta.
  apply triple_pure. intros -> s1 Hs. unfold ESP_ERROR_CHECK, mbind, boot_bind, modify. cbn [is_ok].
  pose proof (spawn_if_triple _ _ _ _ (w_task e) BenchLimb (fun _ => False) _ (note_cmd_wired _ _ _ _ t s1 Hs)) as Hw.
  destruct ((if w_task e then spawn BenchLimb else mret tt) _) as [s2 [u2|err2]]; [|done]. split; [done|].
  eapply uros_ready with (cbs := <[Z.to_nat PS_CLS_CONTROL := Some bench_control_cb]> base_cbs).
  2: { eexists _, []. split; [by left|]. split; [by left|]. rewrite app_nil_r. exact Hw. }
  by_class.
Qed.
End Bench.

(** ** The experiment *)

(** [n] turns of the other board from time [t] on, every 10 ms, with the ticks and turns of this
    one. *)
Fixpoint beats_from (n : nat) (seq t : Z) : list (Z * bev) :=
  match n with
  | O => []
  | S n => ((fun f => (t, if ps_can_id_cls (f_id f) =? PS_CLS_SAFETY then BSafety f else BControl f)) <$> turn_frames seq t) ++
      [(t + 4, BTick); (t + 9, BTick)] ++ (if seq mod 2 =? 0 then [(t + 9, BTurn)] else []) ++ beats_from n (seq + 1) (t + 10)
  end.

Definition bench_demo : limb_board := {| lb_glue := demo_glue; lb_leds := [Some (0, 0, 0); None]; lb_last_log := 0 |}.

(** Beating arms the board: two pulses of the light. *)
Example bench_arms : lb_leds (brun bench_demo (beats_from 59 0 10)) = [Some (80, 80, 120); None].
Proof. vm_compute. reflexivity. Qed.

(** Silence after the beat at 590: with a tick and a turn just before the watchdog expires, the
    light keeps the operational colour for another turn. *)
Definition bench_silence : list (Z * bev) := [(637, BTick); (640, BTurn); (642, BTick); (660, BTurn)].

Example bench_goes_amber :
  lb_leds (brun bench_demo (beats_from 59 0 10 ++ take 3 bench_silence)) = [Some (80, 80, 120); None] /\
  lb_leds (brun bench_demo (beats_from 59 0 10 ++ bench_silence)) = [Some (140, 45, 0); None].
Proof. vm_compute. by split. Qed.
