(* ===== verification/Float64.v ===== *)
(** IEEE 754 double precision as the orchestrator's C++ uses it: the operations of
    [SpecFloat] at precision 53 and maximal exponent 1024, and the conversions between
    the two precisions.  Comparisons and conversions to integers are those of [Float32]:
    they do not depend on the precision. *)
From S2P Require Import Prelude Float32.
From Stdlib Require Import SpecFloat.

Notation f64 := spec_float.

Definition dadd : f64 -> f64 -> f64 := SFadd 53 1024.
Definition dmul : f64 -> f64 -> f64 := SFmul 53 1024.
Definition ddiv : f64 -> f64 -> f64 := SFdiv 53 1024.
Definition dof_Z (z : Z) : f64 := binary_normalize 53 1024 z 0 false.

(** The double nearest to [n / d], for [n] and [d] below 2^53. *)
Definition dlit (n d : Z) : f64 := ddiv (dof_Z n) (dof_Z d).

(** [static_cast<float>] of a double and the promotion of a float to a double. *)
Definition recast (prec emax : Z) (x : spec_float) : spec_float :=
  match x with S754_finite s m e => binary_normalize prec emax (if s then Zneg m else Zpos m) e s | _ => x end.
Definition to_f32 : f64 -> f32 := recast 24 128.
Definition to_f64 : f32 -> f64 := recast 53 1024.

Example dlit_001 : dlit 1 100 = S754_finite false 5764607523034235 (-59) /\ to_f32 (dlit 1 100) = flit 1 100.
Proof. split; reflexivity. Qed.

Example promote_exact : to_f64 (flit 1 100) = S754_finite false 5764607394185216 (-59).
Proof. reflexivity. Qed.
