(* ===== verification/Bridge.v ===== *)
(** The orchestrator's end of the SPI link
    (src/orchestrator/ros2_ws/src/suit_canspi_bridge): the frame parser, the heartbeat
    emitter, the e-stop service with its persisted counter, the outbound queue and the
    command subscriptions of main.cpp.

    Instants of [std::chrono::steady_clock] and of the node's clock are nanoseconds as
    unbounded integers.  [uint64_t] statistics keep their width.  Files are a map from
    paths to their bytes; whether a file can be opened for writing and whether the
    buffered bytes reach it are arguments. *)
From stdpp Require Import strings gmap.
From S2P Require Import Prelude CanId Wire Crc16 SpiFrame Float32 Float64.
From Stdlib Require Import SpecFloat.

Definition u64 (z : Z) : Z := z mod 18446744073709551616.

(** [duration_cast<milliseconds>] of a difference of two instants, and the milliseconds
    of [nanoseconds() / 1000000]. *)
Definition NS_PER_MS : Z := 1000000.
Definition to_ms (ns : Z) : Z := Z.quot ns NS_PER_MS.

(** ** frame_parser.cpp *)

Record FrameStats := { frames_ok : Z; idle_frames : Z; crc_errors : Z; seq_gaps : Z; resyncs : Z }.

Inductive ParseResult := kOk | kIdle | kError.
#[export] Instance ParseResult_eq_dec : EqDecision ParseResult.
Proof. solve_decision. Defined.

Record FrameParser := { tx_seq_ : Z; have_rx_seq_ : bool; last_rx_seq_ : Z; stats_ : FrameStats }.

Definition FrameParser_new : FrameParser :=
  {| tx_seq_ := 0; have_rx_seq_ := false; last_rx_seq_ := 0;
     stats_ := {| frames_ok := 0; idle_frames := 0; crc_errors := 0; seq_gaps := 0; resyncs := 0 |} |}.

Definition is_all_zero (buf : list Z) (len : nat) : bool := forallb (fun b => b =? 0) (take len buf).

(** The buffer and the bytes used. *)
Definition FrameParser_build (p : FrameParser) (buf : list Z) (flags : Z) (recs : list ps_can_record_t) :
    FrameParser * (list Z * nat) :=
  let '(buf, used) := ps_spi_frame_build buf flags (tx_seq_ p) recs (length recs) in
  (if (0 <? used)%nat then {| p with tx_seq_ := u8 (tx_seq_ p + 1) |} else p, (buf, used)).

(** The records of a view whose length field is valid, from record [i] on. *)
Definition view_records (view : ps_spi_view_t) : list ps_can_record_t :=
  flat_map (fun i => match ps_spi_view_record view i with
                     | (rc, Some rec) => if rc =? 0 then [rec] else []
                     | _ => []
                     end) (seq 0 (Z.to_nat (v_count view))).

Definition bump_idle (s : FrameStats) := {| s with idle_frames := u64 (idle_frames s + 1) |}.
Definition bump_resyncs (s : FrameStats) := {| s with resyncs := u64 (resyncs s + 1) |}.
Definition bump_crc (s : FrameStats) := {| s with crc_errors := u64 (crc_errors s + 1) |}.
Definition bump_gaps (s : FrameStats) := {| s with seq_gaps := u64 (seq_gaps s + 1) |}.
Definition bump_ok (s : FrameStats) := {| s with frames_ok := u64 (frames_ok s + 1) |}.

(** The result, the records and, where they are set, the flags and sequence number.  The
    call of [ps_spi_frame_scan] has no effect: its result is not used. *)
Definition FrameParser_parse (p : FrameParser) (buf : list Z) (len : nat) :
    FrameParser * ParseResult * list ps_can_record_t * option (Z * Z) :=
  if is_all_zero buf len then ({| p with stats_ := bump_idle (stats_ p) |}, kIdle, [], None) else
  match ps_spi_frame_parse buf len with
  | inl rc =>
    ({| p with stats_ := if rc =? PS_SPI_EBADMAGIC then bump_resyncs (stats_ p) else bump_crc (stats_ p) |},
     kError, [], None)
  | inr view =>
    let st := if have_rx_seq_ p && negb (v_seq view =? u8 (last_rx_seq_ p + 1)) then bump_gaps (stats_ p) else stats_ p in
    ({| p with have_rx_seq_ := true; last_rx_seq_ := v_seq view; stats_ := bump_ok st |},
     kOk, view_records view, Some (v_flags view, v_seq view))
  end.

(** ** heartbeat.cpp *)

Record HeartbeatGateInputs := { transport_healthy : bool; estop_latched : bool; rclcpp_ok : bool }.

Definition heartbeat_gate_open (g : HeartbeatGateInputs) : bool :=
  transport_healthy g && negb (estop_latched g) && rclcpp_ok g.

Record HeartbeatEmitter := { hb_seq_ : Z; have_last_emit_ : bool; last_emit_ : Z }.
Definition HeartbeatEmitter_new : HeartbeatEmitter := {| hb_seq_ := 0; have_last_emit_ := false; last_emit_ := 0 |}.

(** A record of a struct: the data area is zeroed, the struct copied to its start. *)
Definition struct_record {A} `{WireStruct A} (id bus : Z) (x : A) : ps_can_record_t :=
  {| r_id := id; r_bus := bus; r_dlc := Z.of_nat (wire_size A); r_ts_ms := 0;
     r_data := bput 0 (wire_write x) (replicate 8 0) |}.

Definition heartbeat_payload (e : HeartbeatEmitter) (g : HeartbeatGateInputs) (cloud_up degraded : bool)
    (src_state uptime_ms : Z) : ps_heartbeat_t :=
  {| hb_seq := hb_seq_ e;
     hb_flags := u8 ((if estop_latched g then PS_HB_ESTOP_LATCHED else 0) .|
       (if degraded then PS_HB_DEGRADED else 0) .| (if cloud_up then PS_HB_CLOUD_UP else 0));
     hb_src_state := src_state; hb_uptime_ms := uptime_ms |}.

Definition HeartbeatEmitter_tick (e : HeartbeatEmitter) (now : Z) (g : HeartbeatGateInputs) (cloud_up degraded : bool)
    (src_state uptime_ms : Z) : HeartbeatEmitter * option ps_can_record_t :=
  if negb (heartbeat_gate_open g) then (e, None) else
  if have_last_emit_ e && (to_ms (now - last_emit_ e) <? PS_HEARTBEAT_PERIOD_MS) then (e, None) else
  let hb := heartbeat_payload e g cloud_up degraded src_state uptime_ms in
  ({| hb_seq_ := u16 (hb_seq_ e + 1); have_last_emit_ := true; last_emit_ := now |},
   Some (struct_record (ps_can_id_pack PS_CLS_SAFETY PS_NODE_ORCH PS_NODE_BROADCAST PS_T_HEARTBEAT (u8 (hb_seq hb .& 0xFF)))
     PS_SPI_BUS_CAN1 hb)).

(** ** estop_service.cpp *)

(** *** Text of a number: [out << next] and [in >> last] *)

Definition digit (d : Z) : Z := 48 + d.
Definition is_digit (c : Z) : bool := (48 <=? c) && (c <=? 57).
Definition is_space (c : Z) : bool := (c =? 32) || ((9 <=? c) && (c <=? 13)).

(** The digits of [n], most significant first, before [acc]; ten turns are enough for a
    32-bit value. *)
Fixpoint print_dec (fuel : nat) (n : Z) (acc : list Z) : list Z :=
  match fuel with
  | O => acc
  | S fuel => let acc := digit (n mod 10) :: acc in if n <? 10 then acc else print_dec fuel (n / 10) acc
  end.
Definition print_u32 (n : Z) : list Z := print_dec 10 n [].

Fixpoint skip_spaces (l : list Z) : list Z :=
  match l with c :: l' => if is_space c then skip_spaces l' else l | [] => [] end.

(** The value of the leading digits, if there are any. *)
Fixpoint scan_dec (l : list Z) (acc : option Z) : option Z :=
  match l with
  | c :: l => if is_digit c then scan_dec l (Some (10 * default 0 acc + (c - 48))) else acc
  | [] => acc
  end.

(** Extraction of an unsigned 32-bit number: blanks are skipped, a sign is allowed (a
    negated value wraps around), a text without digits gives 0 and a value that does not
    fit gives the largest one. *)
Definition scan_u32 (l : list Z) : Z :=
  let l := skip_spaces l in
  let neg := match l with c :: _ => c =? 45 | [] => false end in
  let l := match l with c :: l' => if (c =? 45) || (c =? 43) then l' else l | [] => [] end in
  match scan_dec l None with
  | None => 0
  | Some v => if 4294967295 <? v then 4294967295 else if neg then u32 (- v) else v
  end.

(** *** Files *)

Notation files := (gmap string (list Z)).

(** The environment of one clear: which paths can be opened for writing, and whether what
    was buffered reaches the file when it is closed. *)
Record fs_env := { can_open : string -> bool; flushed : bool }.

(** [std::ofstream out(path, trunc); out << text]. *)
Definition write_file (e : fs_env) (fs : files) (path : string) (text : list Z) : files :=
  <[path := if flushed e then text else []]> fs.

(** What follows the last slash. *)
Fixpoint filename (s : string) : string :=
  match s with
  | EmptyString => EmptyString
  | String c s' => match String.index 0 "/" s with Some _ => filename s' | None => s end
  end.

Record EstopService := {
  counter_path_ : string; origin_node_ : Z; start_time_ : Z; es_seq_ : Z; latched_ : bool; latched_cause_ : Z }.

Definition EstopService_new (counter_path : string) (origin_node start_time : Z) : EstopService :=
  {| counter_path_ := counter_path; origin_node_ := origin_node; start_time_ := start_time; es_seq_ := 0;
     latched_ := false; latched_cause_ := 0 |}.

Definition EstopService_uptime_ms (s : EstopService) (now : Z) : Z := u32 (to_ms (now - start_time_ s)).

Definition load_and_bump_counter (s : EstopService) (e : fs_env) (fs : files) : EstopService * files * Z :=
  let last := match fs !! counter_path_ s with Some text => scan_u32 text | None => 0 end in
  let next := u32 (last + 1) in
  if can_open e (counter_path_ s) then (s, write_file e fs (counter_path_ s) (print_u32 next), next)
  else
    let fallback := ("/tmp/" +:+ filename (counter_path_ s))%string in
    let s := {| s with counter_path_ := fallback |} in
    (s, if can_open e fallback then write_file e fs fallback (print_u32 next) else fs, next).

(** *** The service *)

Definition estop_record (s : EstopService) (now : Z) : ps_can_record_t :=
  struct_record (ps_can_id_pack PS_CLS_SAFETY (origin_node_ s) PS_NODE_BROADCAST PS_T_ESTOP (u8 (es_seq_ s .& 0xFF)))
    PS_SPI_BUS_CAN1
    {| es_cause := PS_ESTOP_OPERATOR; es_origin_node := origin_node_ s; es_seq := es_seq_ s;
       es_uptime_ms := EstopService_uptime_ms s now |}.

(** The loop over the repeats; [now i] is the clock in turn [i]. *)
Fixpoint estop_records (n i : nat) (s : EstopService) (now : nat -> Z) : EstopService * list ps_can_record_t :=
  match n with
  | O => (s, [])
  | S n =>
    let rec := estop_record s (now i) in
    let '(s, recs) := estop_records n (S i) {| s with es_seq_ := u16 (es_seq_ s + 1) |} now in (s, rec :: recs)
  end.

Definition clear_record (s : EstopService) (counter : Z) : ps_can_record_t :=
  struct_record (ps_can_id_pack PS_CLS_SAFETY (origin_node_ s) PS_NODE_BROADCAST PS_T_CLEAR_ESTOP 0) PS_SPI_BUS_CAN1
    {| ce_magic := PS_CLEAR_ESTOP_MAGIC; ce_counter := counter |}.

(** What a call of the service does to the state other threads read, in order: the two
    atomic stores and the emission of records. *)
Inductive effect := SetLatched (b : bool) | SetCause (c : Z) | Emit (recs : list ps_can_record_t).

(** The detail text of the answer, whose flag is always true. *)
Inductive detail := Engaged (reason : string) | Cleared (counter : Z).

(** [EstopService::handle] runs under its own lock; [latched_] and [latched_cause_] of the
    result are those after all its effects. *)
Definition EstopService_handle (s : EstopService) (e : fs_env) (fs : files) (engage : bool) (reason : string)
    (now : nat -> Z) : EstopService * files * list effect * detail :=
  if engage then
    let '(s, recs) := estop_records PS_ESTOP_REPEAT 0 s now in
    ({| s with latched_ := true; latched_cause_ := PS_ESTOP_OPERATOR |}, fs,
     [SetLatched true; SetCause PS_ESTOP_OPERATOR; Emit recs], Engaged reason)
  else
    let '(s, fs, counter) := load_and_bump_counter s e fs in
    ({| s with latched_ := false; latched_cause_ := 0 |}, fs,
     [Emit [clear_record s counter]; SetLatched false; SetCause 0], Cleared counter).

(** ** The queue and the command subscriptions of main.cpp *)

Definition outbound := list ps_can_record_t.
Definition outbound_push (q : outbound) (recs : list ps_can_record_t) : outbound := q ++ recs.
Fixpoint drain_loop (fuel : nat) (q : outbound) (max_n : nat) (out : list ps_can_record_t) : outbound * list ps_can_record_t :=
  match fuel, q with
  | S fuel, r :: q' => if (length out <? max_n)%nat then drain_loop fuel q' max_n (out ++ [r]) else (q, out)
  | _, _ => (q, out)
  end.
Definition outbound_drain (q : outbound) (max_n : nat) : outbound * list ps_can_record_t := drain_loop (length q) q max_n [].
Definition outbound_empty (q : outbound) : bool := match q with [] => true | _ => false end.

Definition kLimbCmdTargets : list (string * Z) :=
  [("arm_right"%string, PS_NODE_ARM_R); ("arm_left"%string, PS_NODE_ARM_L);
   ("leg_right"%string, PS_NODE_LEG_R); ("leg_left"%string, PS_NODE_LEG_L)].

Record JointTrajectoryPoint := { positions : list f64; velocities : list f64; effort : list f64 }.

(** [static_cast<int16_t>(x * 100.0)]: undefined where the product does not fit. *)
Definition centi (x : f64) : option Z := to_i16 (dmul x (dof_Z 100)).

Definition limb_bus (node_id : Z) : Z :=
  if (node_id =? PS_NODE_LEG_R) || (node_id =? PS_NODE_LEG_L) then PS_SPI_BUS_CAN2 else PS_SPI_BUS_CAN1.

Definition joint_cmd (m : JointTrajectoryPoint) (j : nat) : option ps_joint_cmd_t :=
  p ← centi (positions m !!! j);
  v ← centi (default (S754_zero false) (velocities m !! j));
  f ← centi (default (S754_zero false) (effort m !! j));
  Some {| jc_joint := u8 (Z.of_nat j); jc_mode := PS_JMODE_POSITION; jc_pos_crad := p; jc_vel_crad_s := v; jc_eff_cNm := f |}.

Definition joint_record (node_id : Z) (m : JointTrajectoryPoint) (j : nat) : option ps_can_record_t :=
  struct_record (ps_can_id_pack PS_CLS_CONTROL PS_NODE_ORCH node_id PS_T_JOINT_CMD 0) (limb_bus node_id) <$> joint_cmd m j.

(** The records pushed for a message on /suit/command/...; [None] where a conversion is
    undefined. *)
Definition on_joint_command (node_id : Z) (m : JointTrajectoryPoint) : option (list ps_can_record_t) :=
  mapM (joint_record node_id m) (seq 0 (Nat.min 2 (length (positions m)))).

Definition flap_record (data : list f32) (i : nat) : option ps_can_record_t :=
  p ← to_i16 (data !!! i);
  Some (struct_record (ps_can_id_pack PS_CLS_CONTROL PS_NODE_ORCH PS_NODE_FLIGHT PS_T_FLAP_CMD 0) PS_SPI_BUS_CAN2
    {| fc_flap := u8 (Z.of_nat i); fc_rate_lim := 0; fc_pos_pm := p; fc_flags := 0; fc_rsvd := 0 |}).

Definition on_flap_command (data : list f32) : option (list ps_can_record_t) :=
  mapM (flap_record data) (seq 0 (Nat.min 12 (length data))).
