(* ===== verification/BridgeSpec.v ===== *)
(** What the parts of the bridge promise on their own ([Bridge]): frames are parsed back to
    their records and every buffer is counted once, commands are well formed, numbers of
    the persisted counter are read back, and clears are numbered so that a node accepts
    each of them. *)
From stdpp Require Import strings gmap.
From S2P Require Import Prelude CanId Wire Crc16 SpiFrame Safety Float32 Float64 Bridge.

(** ** frame_parser.cpp *)

Lemma flat_map_view recs view :
  (forall i r, recs !! i = Some r -> ps_spi_view_record view i = (PS_SPI_OK, Some r)) -> v_count view = Z.of_nat (length recs) ->
  view_records view = recs.
Proof.
  intros Hv Hn. unfold view_records. rewrite Hn, Nat2Z.id. clear Hn.
  enough (forall k l, (forall i r, l !! i = Some r -> ps_spi_view_record view (k + i) = (PS_SPI_OK, Some r)) ->
    flat_map (fun i => match ps_spi_view_record view i with (rc, Some rec) => if rc =? 0 then [rec] else [] | _ => [] end) (seq k (length l)) = l) as E.
  { by apply (E 0%nat). }
  intros k l. revert k. induction l as [|r l IH]; intros k Hl; [done|]. cbn [length seq flat_map].
  rewrite <- (Nat.add_0_r k) at 1. rewrite (Hl 0%nat r eq_refl). cbn [Z.eqb PS_SPI_OK app]. f_equal. apply IH.
  intros i x Hx. rewrite Nat.add_succ_comm. by apply Hl.
Qed.

Lemma frame_not_zero flags seq recs : is_all_zero (frame_bytes flags seq recs) 512 = false.
Proof. reflexivity. Qed.

(** What a parser of the other side makes of a frame. *)
Lemma parse_built q flags seq recs : is_u8 flags -> is_u8 seq -> Forall record_ok recs -> (length recs <= PS_SPI_MAX_RECORDS)%nat ->
  FrameParser_parse q (frame_bytes flags seq recs) PS_SPI_XFER_SIZE =
    ({| q with have_rx_seq_ := true; last_rx_seq_ := seq;
         stats_ := bump_ok (if have_rx_seq_ q && negb (seq =? u8 (last_rx_seq_ q + 1)) then bump_gaps (stats_ q) else stats_ q) |},
     kOk, recs, Some (flags, seq)).
Proof.
  intros Hf Hs HF Hn. unfold FrameParser_parse. rewrite frame_not_zero.
  destruct (parse_frame_bytes flags seq recs PS_SPI_XFER_SIZE Hf Hs HF Hn) as [tl Hp].
  { unfold PS_SPI_MAX_RECORDS, PS_SPI_XFER_SIZE in *. lia. }
  rewrite Hp. cbn [v_seq v_flags]. set (view := {| v_flags := flags |}). repeat f_equal.
  apply (flat_map_view recs view); [|done]. intros i r Hr.
  unfold ps_spi_view_record, view. cbn [v_count v_records]. pose proof (lookup_lt_Some _ _ _ Hr).
  destruct (Z.leb_spec (Z.of_nat (length recs)) (Z.of_nat i)); [lia|].
  destruct (drop_body recs i r tl HF Hr) as [tl' Htl].
  unfold PS_SPI_REC_SIZE. rewrite Htl, record_read_bytes; [done|]. by eapply Forall_lookup_1.
Qed.

Definition parser_ok (p : FrameParser) : Prop := is_u8 (tx_seq_ p).

Lemma build_frame p flags recs : Forall record_ok recs -> (length recs <= PS_SPI_MAX_RECORDS)%nat ->
  FrameParser_build p (replicate PS_SPI_XFER_SIZE 0) flags recs =
    ({| p with tx_seq_ := u8 (tx_seq_ p + 1) |}, (frame_bytes flags (tx_seq_ p) recs, (8 + 16 * length recs)%nat)).
Proof. intros HF Hn. unfold FrameParser_build. rewrite build_eq by (done || by rewrite length_replicate). done. Qed.

(** A stream of batches, each framed by one parser and parsed by the other: the records and
    flags that come out. *)
Fixpoint stream (p q : FrameParser) (batches : list (Z * list ps_can_record_t)) :
    FrameParser * FrameParser * list (ParseResult * list ps_can_record_t * option (Z * Z)) :=
  match batches with
  | [] => (p, q, [])
  | (flags, recs) :: batches =>
    let '(p, (tx, _)) := FrameParser_build p (replicate PS_SPI_XFER_SIZE 0) flags recs in
    let '(q, res, out, meta) := FrameParser_parse q tx PS_SPI_XFER_SIZE in
    let '(p, q, outs) := stream p q batches in (p, q, (res, out, meta) :: outs)
  end.

Definition batch_ok (b : Z * list ps_can_record_t) : Prop :=
  is_u8 b.1 /\ Forall record_ok b.2 /\ (length b.2 <= PS_SPI_MAX_RECORDS)%nat.

(** The receiver expects the number the sender uses next. *)
Definition in_sequence (p q : FrameParser) : Prop := have_rx_seq_ q = true -> tx_seq_ p = u8 (last_rx_seq_ q + 1).

Lemma stream_exact batches : forall p q, parser_ok p -> in_sequence p q -> Forall batch_ok batches ->
  let '(p', q', outs) := stream p q batches in
  fst <$> outs = (fun b => (kOk, b.2)) <$> batches /\ (fun o => fst <$> o.2) <$> outs = (fun b => Some b.1) <$> batches /\
  tx_seq_ p' = u8 (tx_seq_ p + Z.of_nat (length batches)) /\ parser_ok p' /\ in_sequence p' q' /\
  frames_ok (stats_ q') = (match batches with [] => frames_ok (stats_ q) | _ => u64 (frames_ok (stats_ q) + Z.of_nat (length batches)) end) /\
  seq_gaps (stats_ q') = seq_gaps (stats_ q) /\ crc_errors (stats_ q') = crc_errors (stats_ q) /\
  idle_frames (stats_ q') = idle_frames (stats_ q) /\ resyncs (stats_ q') = resyncs (stats_ q).
Proof.
  induction batches as [|[flags recs] batches IH]; intros p q Hp Hs HF; cbn [stream].
  { unfold parser_ok in *. cbn. rewrite Z.add_0_r, u8_id by done. by split_and!. }
  inversion_clear HF as [|? ? (B1 & B2 & B3) HF']. cbn in B1, B2, B3. rewrite build_frame by done. rewrite parse_built by done.
  set (gap := have_rx_seq_ q && _). assert (gap = false) as ->.
  { subst gap. destruct (have_rx_seq_ q) eqn:E; [|done]. by rewrite <- Hs, Z.eqb_refl. }
  set (p1 := {| p with tx_seq_ := _ |}). set (q1 := {| q with have_rx_seq_ := true; last_rx_seq_ := _; stats_ := _ |}).
  specialize (IH p1 q1). destruct (stream p1 q1 batches) as [[p' q'] outs].
  destruct IH as (I1 & I2 & I3 & I4 & I5 & I6 & I7 & I8 & I9 & I10); [apply u8_range|by intros _|done|].
  rewrite !fmap_cons, I1, I2, I3, I6, I7, I8, I9, I10. cbn [fst snd p1 q1 tx_seq_ stats_ bump_ok frames_ok seq_gaps crc_errors idle_frames resyncs].
  split_and!; try done; [cbn [length]; clia|]. destruct batches; cbn [length]; unfold u64; lia.
Qed.

(** The counters after a buffer, by the verdict on it. *)
Definition counted (res : ParseResult) (s s' : FrameStats) : Prop :=
  match res with
  | kOk => frames_ok s' = u64 (frames_ok s + 1) /\ idle_frames s' = idle_frames s /\ crc_errors s' = crc_errors s /\ resyncs s' = resyncs s /\
           (seq_gaps s' = seq_gaps s \/ seq_gaps s' = u64 (seq_gaps s + 1))
  | kIdle => s' = {| s with idle_frames := u64 (idle_frames s + 1) |}
  | kError => s' = {| s with crc_errors := u64 (crc_errors s + 1) |} \/ s' = {| s with resyncs := u64 (resyncs s + 1) |}
  end.

(** The frames of one side, parsed by the other in order, give back every batch of
    records with its flags, without a sequence gap through the wrap-around of the number;
    and whatever a buffer holds, it is counted under exactly one verdict, only a good frame
    delivers records, and a buffer of zeros is idle and never an error. *)
Theorem frame_parser_exact p q batches : parser_ok p -> in_sequence p q -> Forall batch_ok batches ->
  (let '(p', q', outs) := stream p q batches in
   fst <$> outs = (fun b => (kOk, b.2)) <$> batches /\ (fun o => fst <$> o.2) <$> outs = (fun b => Some b.1) <$> batches /\
   in_sequence p' q' /\ seq_gaps (stats_ q') = seq_gaps (stats_ q)) /\
  (forall buf len, let '(q', res, recs, meta) := FrameParser_parse q buf len in
   counted res (stats_ q) (stats_ q') /\ tx_seq_ q' = tx_seq_ q /\ (res = kIdle <-> is_all_zero buf len = true) /\
   (res <> kOk -> recs = [] /\ meta = None /\ last_rx_seq_ q' = last_rx_seq_ q)).
Proof.
  intros Hp Hs HF. split.
  - pose proof (stream_exact batches p q Hp Hs HF) as E. destruct (stream p q batches) as [[p' q'] outs].
    destruct E as (E1 & E2 & _ & _ & E5 & _ & E7 & _). by split_and!.
  - intros buf len. unfold FrameParser_parse. destruct (is_all_zero buf len); [by split_and!|].
    destruct (ps_spi_frame_parse buf len) as [rc|view].
    + split_and!; try done. destruct (rc =? PS_SPI_EBADMAGIC); [by right|by left].
    + split_and!; try done. cbn [counted stats_ bump_ok]. destruct (have_rx_seq_ q && _); cbn; split_and!; try done; by (left + right).
Qed.

Definition resumed (n : Z) : FrameParser := {| FrameParser_new with tx_seq_ := n |}.
Lemma frame_parser_exact_witness :
  let batches := [(1, [demo_record]); (0, []); (4, [demo_record; demo_record])] in
  let '(_, q', outs) := stream (resumed 255) FrameParser_new batches in
  fst <$> outs = [(kOk, [demo_record]); (kOk, []); (kOk, [demo_record; demo_record])] /\ seq_gaps (stats_ q') = 0.
Proof.
  intros batches. destruct (frame_parser_exact (resumed 255) FrameParser_new batches) as [H _].
  - unfold parser_ok. cbn. clia.
  - intros E. discriminate E.
  - repeat constructor; cbn; try clia; try exact demo_record_ok; unfold PS_SPI_MAX_RECORDS; lia.
  - destruct (stream (resumed 255) FrameParser_new batches) as [[p' q'] outs]. destruct H as (H1 & _ & _ & H4). split; [exact H1|exact H4].
Defined.

(** ** estop_service.cpp: the persisted counter *)

Lemma print_dec_app fuel : forall n acc, print_dec fuel n acc = print_dec fuel n [] ++ acc.
Proof.
  induction fuel as [|fuel IH]; intros n acc; [done|]. cbn [print_dec]. destruct (n <? 10); [done|].
  rewrite IH, (IH _ [digit (n mod 10)]), <- app_assoc. done.
Qed.

Definition digits (l : list Z) : Prop := Forall (fun c => is_digit c = true) l.

Lemma scan_dec_app a b acc : digits a -> scan_dec (a ++ b) acc = scan_dec b (scan_dec a acc).
Proof. intros HF. revert acc. induction HF as [|c a Hc _ IH]; intros acc; [done|]. cbn [app scan_dec]. rewrite Hc. apply IH. Qed.

Lemma digit_ok d : 0 <= d < 10 -> is_digit (digit d) = true.
Proof. intros. unfold is_digit, digit. apply andb_true_iff. lia. Qed.

Lemma print_dec_spec fuel : forall n, (0 < fuel)%nat -> 0 <= n < 10 ^ Z.of_nat fuel ->
  digits (print_dec fuel n []) /\ print_dec fuel n [] <> [] /\ scan_dec (print_dec fuel n []) None = Some n.
Proof.
  induction fuel as [|fuel IH]; intros n Hf Hn; [lia|]. cbn [print_dec]. rewrite Nat2Z.inj_succ, Z.pow_succ_r in Hn by lia.
  assert (is_digit (digit (n mod 10)) = true) as Hd by (apply digit_ok; lia).
  assert (forall acc, scan_dec [digit (n mod 10)] acc = Some (10 * default 0 acc + n mod 10)) as Hs.
  { intros acc. cbn [scan_dec]. rewrite Hd. f_equal. unfold digit. lia. }
  destruct (Z.ltb_spec n 10).
  - split_and!; [by repeat constructor|done|]. rewrite Hs. cbn. f_equal. lia.
  - destruct fuel as [|fuel]; [cbn in Hn; lia|]. destruct (IH (n / 10)) as (I1 & I2 & I3); [lia|lia|].
    rewrite print_dec_app. split_and!; [by apply Forall_app; repeat constructor|by intros E; apply app_eq_nil in E as [? _]|].
    rewrite scan_dec_app, I3, Hs by done. cbn. f_equal. lia.
Qed.

(** A number written to the file is read back. *)
Lemma scan_print n : is_u32 n -> scan_u32 (print_u32 n) = n.
Proof.
  intros Hn. unfold print_u32. destruct (print_dec_spec 10 n) as (D1 & D2 & D3); [lia|cbn; clia|].
  destruct (print_dec 10 n []) as [|c l]; [done|]. inversion_clear D1 as [|? ? Hc _]. unfold is_digit in Hc. bools.
  unfold scan_u32. assert (is_space c = false) as Hsp. { unfold is_space. apply orb_false_iff. split; [lia|]. apply andb_false_iff. lia. }
  cbn [skip_spaces]. rewrite Hsp. assert ((c =? 45) = false /\ (c =? 43) = false) as [-> ->] by lia. cbn [orb]. rewrite D3.
  destruct (Z.ltb_spec 4294967295 n); [clia|done].
Qed.

(** The clears of an installation: each with the environment it meets and whether the
    process was restarted before it; the counters sent. *)
Fixpoint clears (path : string) (origin : Z) (s : EstopService) (fs : files) (l : list (bool * fs_env)) : files * list Z :=
  match l with
  | [] => (fs, [])
  | (restart, e) :: l =>
    let s := if restart then EstopService_new path origin 0 else s in
    let '(s, fs, _, d) := EstopService_handle s e fs false EmptyString (fun _ => 0) in
    let '(fs, cs) := clears path origin s fs l in
    (fs, match d with Cleared c => [c] | Engaged _ => [] end ++ cs)
  end.

Definition stored_counter (fs : files) (path : string) : Z := match fs !! path with Some t => scan_u32 t | None => 0 end.
Definition persists (path : string) (e : fs_env) : Prop := can_open e path = true /\ flushed e = true.

Lemma clears_consecutive path origin l : forall s fs, counter_path_ s = path -> Forall (fun x => persists path x.2) l ->
  0 <= stored_counter fs path -> stored_counter fs path + Z.of_nat (length l) < 4294967296 ->
  (clears path origin s fs l).2 = (fun i => stored_counter fs path + 1 + Z.of_nat i) <$> seq 0 (length l).
Proof.
  induction l as [|[restart e] l IH]; intros s fs Hp HF H0 Hb; [done|]. inversion_clear HF as [|? ? [Ho Hfl] HF']. cbn [snd] in *.
  cbn [clears]. set (s1 := if restart then _ else s). assert (counter_path_ s1 = path) as Hp1 by (subst s1; by destruct restart).
  unfold EstopService_handle, load_and_bump_counter. rewrite Hp1. fold (stored_counter fs path). set (v := stored_counter fs path) in *.
  rewrite Ho. cbn [length] in Hb. rewrite (u32_id (v + 1)) by clia.
  set (fs1 := write_file e fs path (print_u32 (v + 1))).
  assert (stored_counter fs1 path = v + 1) as Hv1.
  { subst fs1. unfold stored_counter, write_file. rewrite Hfl, lookup_insert_eq. apply scan_print. clia. }
  specialize (IH {| s1 with latched_ := false; latched_cause_ := 0 |} fs1 Hp1 HF').
  destruct (clears path origin _ fs1 l) as [fs2 cs]. cbn [snd] in *. rewrite IH, Hv1 by lia. cbn [app length seq fmap list_fmap].
  f_equal; [lia|]. rewrite <- (fmap_S_seq 0), <- list_fmap_compose. apply list_fmap_ext. intros i y Hy. cbn. lia.
Qed.

(** A node that is sent the clears in order, re-entering ESTOP before each: which it takes. *)
Fixpoint node_takes (c : ps_safety_core_t) (t : Z) (counters : list Z) : list bool :=
  match counters with
  | [] => []
  | n :: counters =>
    let c := (ps_safety_core_on_estop c t PS_ESTOP_OPERATOR).1 in
    let '(c, ok) := ps_safety_core_on_clear c t PS_CLEAR_ESTOP_MAGIC n in ok :: node_takes c t counters
  end.

Lemma on_estop_counter c t cause : clear_counter (ps_safety_core_on_estop c t cause).1 = clear_counter c.
Proof. unfold ps_safety_core_on_estop, go. repeat case_match; simplify_eq; done. Qed.

Lemma node_takes_consecutive n : forall c t v, clear_counter c <= v ->
  node_takes c t ((fun i => v + 1 + Z.of_nat i) <$> seq 0 n) = replicate n true.
Proof.
  induction n as [|n IH]; intros c t v Hc; [done|]. cbn [seq]. rewrite fmap_cons. cbn [node_takes]. unfold ps_safety_core_on_clear.
  change (negb (PS_CLEAR_ESTOP_MAGIC =? PS_CLEAR_ESTOP_MAGIC)) with false. cbv iota. rewrite on_estop_counter.
  destruct (Z.leb_spec (v + 1 + Z.of_nat 0) (clear_counter c)); [lia|].
  assert ((fun i => v + 1 + Z.of_nat i) <$> seq 1 n = (fun i => (v + 1) + 1 + Z.of_nat i) <$> seq 0 n) as ->.
  { rewrite <- (fmap_S_seq 0), <- list_fmap_compose. apply list_fmap_ext. intros i y Hy. cbn. lia. }
  cbv zeta. destruct (state _ =? PS_STATE_ESTOP); cbn [replicate]; f_equal; apply IH; cbn [clear_counter]; lia.
Qed.

(** C39: Clears an operator issues are numbered one after the other, through any restarts of
    the bridge, as long as the counter file can be written and the numbers fit in 32 bits;
    so a node that has accepted none beyond the stored number accepts every one of them,
    however often it is stopped in between.  But where the configured file cannot be
    written, a restart forgets the fallback file: the next clear has number 1 whatever was
    sent before, and a node that accepted a clear refuses it. *)
Theorem clear_counters_accepted path origin s fs l c t : counter_path_ s = path ->
  Forall (fun x => persists path x.2) l -> 0 <= stored_counter fs path -> stored_counter fs path + Z.of_nat (length l) < 4294967296 ->
  clear_counter c <= stored_counter fs path ->
  (clears path origin s fs l).2 = (fun i => stored_counter fs path + 1 + Z.of_nat i) <$> seq 0 (length l) /\
  node_takes c t (clears path origin s fs l).2 = replicate (length l) true /\
  (forall fs' e c', fs' !! path = None -> can_open e path = false -> 1 <= clear_counter c' ->
     (clears path origin s fs' [(true, e)]).2 = [1] /\ node_takes c' t [1] = [false]).
Proof.
  intros Hp HF H0 Hb Hc. rewrite clears_consecutive by done. split_and!; [done|by apply node_takes_consecutive|].
  intros fs' e c' Hn Ho Hc'. split.
  - cbn [clears]. unfold EstopService_handle, load_and_bump_counter. cbn [EstopService_new counter_path_]. rewrite Hn, Ho. done.
  - cbn [node_takes]. unfold ps_safety_core_on_clear. rewrite on_estop_counter.
    change (negb (PS_CLEAR_ESTOP_MAGIC =? PS_CLEAR_ESTOP_MAGIC)) with false. cbv iota. by destruct (Z.leb_spec 1 (clear_counter c')); [|lia].
Qed.

Definition good_fs : fs_env := {| can_open := fun _ => true; flushed := true |}.
Lemma clear_counters_accepted_witness :
  let s := EstopService_new "/var/lib/powersuit/estop_counter" PS_NODE_ORCH 0 in
  let fs : files := {["/var/lib/powersuit/estop_counter" := [52; 49; 10]]} in
  (clears "/var/lib/powersuit/estop_counter" PS_NODE_ORCH s fs [(false, good_fs); (true, good_fs)]).2 = [42; 43].
Proof.
  intros s fs.
  destruct (clear_counters_accepted "/var/lib/powersuit/estop_counter" PS_NODE_ORCH s fs [(false, good_fs); (true, good_fs)]
    (ps_safety_core_init 0 None 0) 0) as [E _].
  - reflexivity.
  - repeat constructor.
  - vm_compute. discriminate.
  - vm_compute. reflexivity.
  - vm_compute. discriminate.
  - etransitivity; [exact E|]. vm_compute. reflexivity.
Defined.
