(* ===== verification/Demux.v ===== *)
(** The byte streams of the orchestrator's bridge
    (src/orchestrator/ros2_ws/src/suit_canspi_bridge): the two transports that carry the
    512-byte transactions (spi_transport.hpp, mock_transport.cpp, spidev_transport.cpp)
    and the pseudo-terminals of the micro-ROS agent (xrce_demux.cpp).

    The answers of system calls and of libgpiod are arguments, one per call. *)
From stdpp Require Import strings.
From S2P Require Import Prelude CanId Wire SpiFrame Rtos Txq Can Uros.

(** ** Loops over system calls *)

(** What a call of [send] or [write] answers: it took so many of the bytes offered, it was
    interrupted, it failed. *)
Inductive wret := Wrote (n : nat) | WIntr | WErr.

(** [send_all] and the loop of [write_inbound]: the result and the bytes taken, in order.
    [None]: the answers end before the loop does. *)
Fixpoint send_all (rets : list wret) (buf : list Z) : option (bool * list Z) :=
  match buf with
  | [] => Some (true, [])
  | _ =>
    match rets with
    | [] => None
    | WIntr :: rets => send_all rets buf
    | WErr :: _ => Some (false, [])
    | Wrote n :: rets =>
      '(ok, sent) ← send_all rets (drop n buf); Some (ok, take n buf ++ sent)
    end
  end.

(** What a call of [recv] answers: it takes up to so many bytes of what the peer sent (none:
    the peer closed), it was interrupted, it failed. *)
Inductive rret := Got (n : nat) | RIntr | RErr.

(** [recv_all] for the [need] bytes from offset [off] of the buffer on; [peer] is what the
    peer has sent and is not yet received. *)
Fixpoint recv_all (rets : list rret) (peer buf : list Z) (off need : nat) : option (bool * list Z) :=
  match need with
  | O => Some (true, buf)
  | S _ =>
    match rets with
    | [] => None
    | RIntr :: rets => recv_all rets peer buf off need
    | RErr :: _ => Some (false, buf)
    | Got n :: rets =>
      let bytes := take (Nat.min n need) peer in
      if (length bytes =? 0)%nat then Some (false, buf)
      else recv_all rets (drop (length bytes) peer) (bput off bytes buf) (off + length bytes) (need - length bytes)
    end
  end.

(** ** The interface of spi_transport.hpp *)

(** One transaction: the bytes that leave, and the result with the receive buffer after it
    ([None]: it does not return).  A transport keeps the length of the buffer; on success
    all of [tx] has left. *)
Class SpiTransport := {
  link : Type;
  answers : Type;
  xfer : link -> answers -> list Z -> list Z -> list Z * option (bool * list Z);
  xfer_length : forall l a tx rx ok rx', length tx = length rx -> (xfer l a tx rx).2 = Some (ok, rx') -> length rx' = length rx;
  xfer_sent : forall l a tx rx rx', length tx = length rx -> (xfer l a tx rx).2 = Some (true, rx') -> (xfer l a tx rx).1 = tx;
}.

(** ** mock_transport.cpp *)

(** The socket, or -1. *)
Record MockTransport := { sock_ : Z }.

(** One address of the resolved list: what [socket] returns and whether [connect] works. *)
Fixpoint connect_loop (addrs : list (Z * bool)) : Z :=
  match addrs with
  | [] => -1
  | (sock, ok) :: addrs => if sock <? 0 then connect_loop addrs else if ok then sock else connect_loop addrs
  end.

(** [resolved]: the answer of [getaddrinfo], [None] where it fails. *)
Definition MockTransport_open (t : MockTransport) (resolved : option (list (Z * bool))) : MockTransport * bool :=
  match resolved with
  | None | Some [] => (t, false)
  | Some addrs => let sock := connect_loop addrs in if sock <? 0 then (t, false) else ({| sock_ := sock |}, true)
  end.

Definition MockTransport_xfer (t : MockTransport) (a : list wret * list rret * list Z) (tx rx : list Z) :
    list Z * option (bool * list Z) :=
  if sock_ t <? 0 then ([], Some (false, rx)) else
  match send_all a.1.1 tx with
  | None => ([], None)
  | Some (false, sent) => (sent, Some (false, rx))
  | Some (true, sent) => (sent, recv_all a.1.2 a.2 rx 0 (length tx))
  end.

(** The milliseconds slept; the answer is always true. *)
Definition MockTransport_wait_data_ready (timeout : Z) : Z * bool := (Z.min timeout 1, true).

(** ** spidev_transport.cpp *)

(** The calls that acquire and release libgpiod objects. *)
Inductive gobj := Chip | Settings | LineCfg | ReqCfg | Request | Line.
Inductive gcall := Acquire (o : gobj) | Release (o : gobj).
#[export] Instance gobj_eq_dec : EqDecision gobj.
Proof. solve_decision. Defined.
#[export] Instance gcall_eq_dec : EqDecision gcall.
Proof. solve_decision. Defined.

Record Impl := { i_fd : Z; gpio_ready : bool; chip : bool; request : bool; line : bool }.

(** Which objects libgpiod hands out, and whether the settings could be added. *)
Record gpio_answers := {
  a_chip : bool; a_settings : bool; a_line_cfg : bool; a_added : bool; a_req_cfg : bool; a_request : bool; a_line : bool }.

(** [open_gpio] with libgpiod 2.x. *)
Definition open_gpio_v2 (i : Impl) (chip_name : string) (a : gpio_answers) : Impl * bool * list gcall :=
  if bool_decide (chip_name = EmptyString) then (i, false, []) else
  if negb (a_chip a) then ({| i with chip := false |}, false, []) else
  let i := {| i with chip := true |} in
  if negb (a_settings a) then (i, false, [Acquire Chip]) else
  if negb (a_line_cfg a) then (i, false, [Acquire Chip; Acquire Settings; Release Settings]) else
  let req := if a_added a then a_request a else request i in
  ({| i with request := req; gpio_ready := req |}, req,
   [Acquire Chip; Acquire Settings; Acquire LineCfg] ++ (if a_req_cfg a then [Acquire ReqCfg] else []) ++
   (if a_added a && a_request a then [Acquire Request] else []) ++
   (if a_req_cfg a then [Release ReqCfg] else []) ++ [Release LineCfg; Release Settings]).

(** [open_gpio] with libgpiod 1.x; a line is acquired by its request. *)
Definition open_gpio_v1 (i : Impl) (chip_name : string) (a : gpio_answers) : Impl * bool * list gcall :=
  if bool_decide (chip_name = EmptyString) then (i, false, []) else
  if negb (a_chip a) then ({| i with chip := false |}, false, []) else
  let i := {| i with chip := true |} in
  if negb (a_line a) then ({| i with line := false |}, false, [Acquire Chip]) else
  if negb (a_request a) then ({| i with line := false |}, false, [Acquire Chip]) else
  ({| i with line := true; gpio_ready := true |}, true, [Acquire Chip; Acquire Line]).

(** The destructor's calls, for either generation. *)
Definition Impl_destroy (v2 : bool) (i : Impl) : list gcall :=
  (if v2 then if request i then [Release Request] else [] else if line i then [Release Line] else []) ++
  (if chip i then [Release Chip] else []).

Definition Impl_new : Impl := {| i_fd := -1; gpio_ready := false; chip := false; request := false; line := false |}.

(** [fd]: what [open] returns; [ioctls]: whether the three set-up calls work. *)
Definition SpidevTransport_open (v2 : bool) (i : Impl) (chip_name : string) (fd : Z) (ioctls : bool) (a : gpio_answers) :
    Impl * bool * list gcall :=
  let i := {| i with i_fd := fd |} in
  if fd <? 0 then (i, false, []) else
  if negb ioctls then (i, false, []) else
  let '(i, _, calls) := (if v2 then open_gpio_v2 else open_gpio_v1) i chip_name a in (i, true, calls).

(** [a]: what the transfer call returns and the bytes the slave clocked out.  The kernel
    copies them for a transfer that did not fail. *)
Definition SpidevTransport_xfer (i : Impl) (a : Z * list Z) (tx rx : list Z) : list Z * option (bool * list Z) :=
  if i_fd i <? 0 then ([], Some (false, rx)) else
  (if a.1 <? 0 then [] else tx,
   Some (Z.of_nat (length tx) <=? a.1, if a.1 <? 0 then rx else bput 0 (take (length rx) a.2) rx)).

(** [rc]: the answer of the wait for an edge.  The milliseconds waited at most, and the result. *)
Definition SpidevTransport_wait_data_ready (v2 : bool) (i : Impl) (timeout rc : Z) : Z * bool :=
  if gpio_ready i && (if v2 then request i else line i) then (timeout, 0 <? rc) else (Z.min timeout 1, true).

Definition using_gpio_data_ready (i : Impl) : bool := gpio_ready i.

(** ** xrce_demux.cpp *)

Record EdgeNode := { n_id : Z; n_name : string; n_bus : Z }.
#[export] Instance EdgeNode_inhabited : Inhabited EdgeNode := populate {| n_id := 0; n_name := EmptyString; n_bus := 0 |}.

Definition kEdgeNodes : list EdgeNode :=
  [{| n_id := 1; n_name := "node_arm_right"; n_bus := PS_SPI_BUS_CAN1 |};
   {| n_id := 2; n_name := "node_arm_left"; n_bus := PS_SPI_BUS_CAN1 |};
   {| n_id := 3; n_name := "node_leg_right"; n_bus := PS_SPI_BUS_CAN2 |};
   {| n_id := 4; n_name := "node_leg_left"; n_bus := PS_SPI_BUS_CAN2 |};
   {| n_id := 5; n_name := "node_flight_actuation"; n_bus := PS_SPI_BUS_CAN2 |};
   {| n_id := 6; n_name := "node_helmet_interface"; n_bus := PS_SPI_BUS_CAN1 |}].

Record XrceDemux := { symlink_dir_ : string; master_fd_ : list Z; slave_fd_ : list Z }.
Definition XrceDemux_new (dir : string) : XrceDemux :=
  {| symlink_dir_ := dir; master_fd_ := replicate 6 (-1); slave_fd_ := replicate 6 (-1) |}.

Fixpoint index_loop (l : list EdgeNode) (i node_id : Z) : Z :=
  match l with [] => -1 | n :: l => if n_id n =? node_id then i else index_loop l (i + 1) node_id end.
Definition index_of (node_id : Z) : Z := index_loop kEdgeNodes 0 node_id.

(** What opening the terminal of a node answers: the two descriptors ([None]: openpty
    failed) and whether the link could be made. *)
Definition pty_answer : Type := option (Z * Z) * bool.

Definition open_one (acc : XrceDemux * bool) (i : nat) (a : pty_answer) : XrceDemux * bool :=
  let '(d, ok) := acc in
  match a.1 with
  | None => (d, false)
  | Some (master, slave) =>
    ({| d with master_fd_ := <[i := master]> (master_fd_ d); slave_fd_ := <[i := slave]> (slave_fd_ d) |}, ok && a.2)
  end.

(** [dir_ok]: the directory exists afterwards; [ptys i]: the answer for node [i]. *)
Definition open_all (d : XrceDemux) (dir_ok : bool) (ptys : nat -> pty_answer) : XrceDemux * bool :=
  if negb dir_ok then (d, false) else
  fold_left (fun acc i => open_one acc i (ptys i)) (seq 0 (length kEdgeNodes)) (d, true).

Definition close_fd (fd : Z) : Z := if 0 <=? fd then -1 else fd.
(** The descriptors closed, in order, and all of them -1. *)
Definition close_all (d : XrceDemux) : XrceDemux * list Z :=
  ({| d with master_fd_ := close_fd <$> master_fd_ d; slave_fd_ := close_fd <$> slave_fd_ d |},
   flat_map (fun i => filter (fun fd => 0 <= fd) [master_fd_ d !!! i; slave_fd_ d !!! i]) (seq 0 (length kEdgeNodes))).

(** The result and the bytes written to the terminal of the node. *)
Definition write_inbound (d : XrceDemux) (node_id : Z) (data : list Z) (len : nat) (rets : list wret) : option (bool * list Z) :=
  let idx := index_of node_id in
  if (idx <? 0) || (master_fd_ d !!! Z.to_nat idx <? 0) then Some (false, []) else send_all rets (take len data).

(** The record for the bytes of [buf] from [off] on. *)
Definition xrce_record (node : EdgeNode) (buf : list Z) (off : nat) : ps_can_record_t :=
  let chunk := Nat.min 8 (length buf - off) in
  {| r_id := ps_can_id_pack PS_CLS_XRCE PS_NODE_ORCH (n_id node) PS_T_XRCE_STREAM 0; r_bus := n_bus node;
     r_dlc := Z.of_nat chunk; r_ts_ms := 0; r_data := bput 0 (take chunk (drop off buf)) (replicate 8 0) |}.

(** Every turn moves on by a byte at least: [length buf] turns are enough. *)
Fixpoint slice_loop (fuel : nat) (node : EdgeNode) (buf : list Z) (off : nat) : list ps_can_record_t :=
  match fuel with
  | O => []
  | S fuel =>
    if (length buf <=? off)%nat then [] else
    xrce_record node buf off :: slice_loop fuel node buf (off + Nat.min 8 (length buf - off))
  end.

(** [rc]: the answer of [poll]; [reads i]: for node [i], [None] when its terminal is not
    readable, else the bytes read (none at end of file or on an error). *)
Definition poll_outbound (d : XrceDemux) (rc : Z) (reads : nat -> option (list Z)) : list ps_can_record_t :=
  let fds := filter (fun i => 0 <= master_fd_ d !!! i) (seq 0 (length kEdgeNodes)) in
  if (length fds =? 0)%nat then [] else
  if rc <=? 0 then [] else
  flat_map (fun i => match reads i with
                     | None => []
                     | Some bytes => let buf := take 256 bytes in slice_loop (length buf) (kEdgeNodes !!! i) buf 0
                     end) fds.

Definition XrceDemux_master_fd (d : XrceDemux) (node_id : Z) : Z :=
  let idx := index_of node_id in if idx <? 0 then -1 else master_fd_ d !!! Z.to_nat idx.
Definition XrceDemux_slave_path (d : XrceDemux) (node_id : Z) : string :=
  let idx := index_of node_id in
  if idx <? 0 then EmptyString else symlink_dir_ d +:+ "/" +:+ n_name (kEdgeNodes !!! Z.to_nat idx).
Definition bind_fd_for_test (d : XrceDemux) (node_id fd : Z) : XrceDemux :=
  let idx := index_of node_id in
  if 0 <=? idx then {| d with master_fd_ := <[Z.to_nat idx := fd]> (master_fd_ d) |} else d.
