(* ===== verification/DemuxSpec.v ===== *)
(** What the byte streams of the orchestrator's bridge promise ([Demux]): a transport moves
    a transaction whole or reports failure, and a poll of the terminals cuts what the agent
    wrote for each node into records for that node.  The whole way of these bytes is in
    XrcePath.v. *)
From stdpp Require Import strings.
From S2P Require Import Prelude CanId Wire SpiFrame Rtos Txq Can Safety SpiBridge Router Gateway Uros Demux.

(** ** The loops *)

Lemma send_all_sent rets : forall buf ok sent, send_all rets buf = Some (ok, sent) ->
  sent `prefix_of` buf /\ (ok = true -> sent = buf).
Proof.
  induction rets as [|[n| |] rets IH]; intros [|b buf] ok sent; cbn [send_all];
    try (intros [= <- <-]; split; [apply prefix_nil|done]); try done; [|apply IH].
  destruct (send_all rets (drop n (b :: buf))) as [[ok' s]|] eqn:E; [|done]. cbn. intros [= <- <-].
  apply IH in E as [[r Hr] Ht]. split.
  - exists r. by rewrite <- app_assoc, <- Hr, take_drop.
  - intros ->. rewrite Ht by done. apply take_drop.
Qed.

Definition progress (r : wret) : Prop := match r with Wrote n => (0 < n)%nat | WIntr => False | WErr => False end.
#[export] Instance progress_dec r : Decision (progress r).
Proof. destruct r; cbn; apply _. Defined.

(** Interruptions only delay: with one call that takes bytes for each byte, and no error,
    the loop ends with everything sent. *)
Lemma send_all_ends rets : forall buf, Forall (fun r => r <> WErr) rets -> (length buf <= length (filter progress rets))%nat ->
  send_all rets buf = Some (true, buf).
Proof.
  induction rets as [|r rets IH]; intros [|b buf] HF Hl; cbn [send_all]; try done; [cbn in Hl; lia|]; inversion_clear HF.
  destruct r as [n| |]; [| |done].
  - destruct n as [|n].
    + rewrite filter_cons_False in Hl by (cbn; lia). cbn [drop take app]. by rewrite IH by done.
    + rewrite filter_cons_True in Hl by (cbn; lia). cbn [length drop take] in *.
      rewrite IH by (rewrite ?length_drop; try done; lia). cbn. by rewrite take_drop.
  - rewrite filter_cons_False in Hl by (cbn; tauto). by apply IH.
Qed.

Lemma bput_mid off l (buf : list Z) : (off + length l <= length buf)%nat ->
  take (off + length l) (bput off l buf) = take off buf ++ l /\
  drop (off + length l) (bput off l buf) = drop (off + length l) buf.
Proof.
  intros Hl. unfold bput. rewrite app_assoc.
  assert (length (take off buf ++ l) = (off + length l)%nat) as E by (rewrite length_app, length_take; lia).
  by rewrite <- E, take_app_length, drop_app_length.
Qed.

Lemma bput_nil off (buf : list Z) : bput off [] buf = buf.
Proof. unfold bput. cbn [app length]. by rewrite Nat.add_0_r, take_drop. Qed.

Lemma recv_all_got rets : forall peer buf off need ok buf', (off + need <= length buf)%nat ->
  recv_all rets peer buf off need = Some (ok, buf') ->
  length buf' = length buf /\
  (ok = true -> (need <= length peer)%nat /\ buf' = bput off (take need peer) buf).
Proof.
  induction rets as [|r rets IH]; intros peer buf off need ok buf' Hl; destruct need as [|need]; cbn [recv_all];
    try (intros [= <- <-]; split; [done|]; intros _; split; [lia|]; by rewrite take_0, bput_nil); [done|].
  destruct r as [n| |]; [|by apply IH|by intros [= <- <-]].
  set (m := S need) in *. set (k := take (Nat.min n m) peer). destruct (Nat.eqb_spec (length k) 0); [by intros [= <- <-]|].
  assert (length k <= m /\ length k <= length peer)%nat as [Hkm Hkp] by (subst k; rewrite length_take; lia).
  assert (k = take (length k) peer) as Hk.
  { subst k. rewrite length_take. destruct (Nat.min_spec (Nat.min n m) (length peer)) as [[_ ->]|[? ->]]; [done|].
    by rewrite !take_ge by lia. }
  destruct (bput_mid off k buf) as [Ht Hd]; [lia|].
  intros E. apply IH in E as (H1 & H2); [|rewrite length_bput; lia]. rewrite length_bput in H1 by lia.
  split; [done|]. intros Hok. specialize (H2 Hok) as [Hlen ->]. rewrite length_drop in Hlen. split; [lia|].
  unfold bput at 1. rewrite Ht, length_take, length_drop, Nat.min_l by lia.
  replace (off + length k + (m - length k))%nat with (off + length k + (m - length k))%nat by lia.
  rewrite <- drop_drop, Hd, drop_drop. unfold bput. rewrite <- app_assoc, length_take, Nat.min_l by lia. f_equal.
  rewrite app_assoc. f_equal; [|f_equal; lia].
  rewrite Hk at 1. rewrite take_take_drop. f_equal. lia.
Qed.

(** ** The transports keep the interface *)

#[export] Program Instance mock_transport : SpiTransport := {|
  link := MockTransport; answers := (list wret * list rret * list Z)%type; xfer := MockTransport_xfer |}.
Next Obligation.
  intros t a tx rx ok rx' Hl. unfold MockTransport_xfer. ifs; [by intros [= <- <-]|].
  destruct (send_all _ _) as [[[] s]|]; cbn [snd]; [|by intros [= <- <-]|done].
  intros E. by apply recv_all_got in E as [? _]; [|lia].
Qed.
Next Obligation.
  intros t a tx rx rx' Hl. unfold MockTransport_xfer. ifs; [done|].
  destruct (send_all _ _) as [[[] s]|] eqn:E; cbn [snd fst]; try done. intros _.
  apply send_all_sent in E as [_ E]. by apply E.
Qed.

#[export] Program Instance spidev_transport : SpiTransport := {|
  link := Impl; answers := (Z * list Z)%type; xfer := SpidevTransport_xfer |}.
Next Obligation.
  intros i a tx rx ok rx' Hl. unfold SpidevTransport_xfer. ifs; cbn [snd]; intros [= <- <-]; try done.
  apply length_bput. rewrite length_take. lia.
Qed.
Next Obligation.
  intros i a tx rx rx' Hl. unfold SpidevTransport_xfer. destruct (i_fd i <? 0); [done|]. cbn [snd fst].
  intros [= E _]. destruct (Z.ltb_spec a.1 0); [lia|done].
Qed.

(** A transaction over the socket that succeeds put the whole frame on the wire and filled
    the buffer with the peer's next bytes; without errors and with an answer that moves a
    byte for every byte, it succeeds. *)
Lemma mock_xfer_exact t a tx rx rx' : length tx = length rx -> (MockTransport_xfer t a tx rx).2 = Some (true, rx') ->
  (MockTransport_xfer t a tx rx).1 = tx /\ rx' = take (length rx) a.2 /\ (length rx <= length a.2)%nat.
Proof.
  intros Hl H. split; [by apply (xfer_sent (SpiTransport := mock_transport) t a tx rx rx')|]. unfold MockTransport_xfer in H. ifs_in H; [done|].
  destruct (send_all _ _) as [[[] s]|]; cbn [snd] in H; try done.
  apply recv_all_got in H as [_ H]; [|lia]. destruct H as [H1 ->]; [done|]. rewrite Hl in *. split; [|done].
  unfold bput. rewrite take_0, drop_ge by (rewrite length_take; lia). by rewrite app_nil_r.
Qed.

(** *** The GPIO line *)

(** How many more times an object was acquired than released. *)
Definition held (o : gobj) (calls : list gcall) : Z :=
  Z.of_nat (length (filter (fun c => c = Acquire o) calls)) - Z.of_nat (length (filter (fun c => c = Release o) calls)).

(** Whatever libgpiod answers, everything acquired at the opening of the device is released
    by the end of the destructor, and the ready line is only waited for when it is held. *)
Theorem gpio_no_leak v2 name fd ioctls a o timeout rc :
  let '(i, ok, calls) := SpidevTransport_open v2 Impl_new name fd ioctls a in
  held o (calls ++ Impl_destroy v2 i) = 0 /\
  (using_gpio_data_ready i = (if v2 then request i else line i)) /\
  (using_gpio_data_ready i = false -> SpidevTransport_wait_data_ready v2 i timeout rc = (Z.min timeout 1, true)) /\
  (ok = true <-> 0 <= fd /\ ioctls = true).
Proof.
  unfold SpidevTransport_open, open_gpio_v1, open_gpio_v2, SpidevTransport_wait_data_ready, using_gpio_data_ready.
  destruct (Z.ltb_spec fd 0); [destruct v2|destruct ioctls, v2; cbn [negb];
    try (destruct (bool_decide (name = EmptyString)), (a_chip a); cbn [negb]);
    try (destruct (a_settings a), (a_line_cfg a), (a_line a); cbn [negb]);
    try (destruct (a_added a), (a_request a); cbn [andb negb]); try destruct (a_req_cfg a)].
  all: cbn; split_and!; try (destruct o; reflexivity); try done; split; (done || lia || tauto).
Qed.

(** ** XRCE *)

Definition rec_payload (r : ps_can_record_t) : list Z := take (Z.to_nat (r_dlc r)) (r_data r).

(** What a record cut from the stream of a node looks like. *)
Definition xrce_rec_ok (node : EdgeNode) (r : ps_can_record_t) : Prop :=
  r_id r = ps_can_id_pack PS_CLS_XRCE PS_NODE_ORCH (n_id node) PS_T_XRCE_STREAM 0 /\ r_bus r = n_bus node /\
  1 <= r_dlc r <= 8 /\ r_ts_ms r = 0 /\ length (r_data r) = 8%nat /\ (Forall is_u8 (rec_payload r) -> Forall is_u8 (r_data r)).

Lemma pad_payload l : (length l <= 8)%nat -> bput 0 l (replicate 8 0) = l ++ replicate (8 - length l) 0.
Proof. intros H. unfold bput. cbn [take app]. by rewrite Nat.add_0_l, drop_replicate. Qed.

Lemma xrce_record_spec node buf off : (off < length buf)%nat -> let r := xrce_record node buf off in
  let k := Nat.min 8 (length buf - off) in
  xrce_rec_ok node r /\ rec_payload r = take k (drop off buf).
Proof.
  intros Ho. cbv zeta. unfold xrce_record, xrce_rec_ok, rec_payload. cbn [r_id r_bus r_dlc r_ts_ms r_data].
  set (k := Nat.min 8 (length buf - off)). rewrite Nat2Z.id.
  assert (length (take k (drop off buf)) = k) as Hk by (rewrite length_take, length_drop; lia).
  rewrite pad_payload, Hk by lia. rewrite take_app_length' by done.
  split_and!; try (done || lia); [rewrite length_app, length_replicate; lia|].
  intros HF. apply Forall_app; split; [done|]. apply Forall_replicate. clia.
Qed.

Lemma slice_loop_spec fuel node buf : forall off, (length buf - off <= fuel)%nat ->
  Forall (xrce_rec_ok node) (slice_loop fuel node buf off) /\
  mjoin (rec_payload <$> slice_loop fuel node buf off) = drop off buf /\
  (8 * length (slice_loop fuel node buf off) < length buf - off + 8)%nat.
Proof.
  induction fuel as [|fuel IH]; intros off Hf; cbn [slice_loop].
  { rewrite drop_ge by lia. split_and!; done || (cbn; lia). }
  destruct (Nat.leb_spec (length buf) off). { rewrite drop_ge by lia. split_and!; done || (cbn; lia). }
  destruct (xrce_record_spec node buf off) as [Hr Hp]; [done|]. cbv zeta in *.
  set (k := Nat.min 8 (length buf - off)) in *. set (r := xrce_record node buf off) in *. clearbody r.
  destruct (IH (off + k)%nat ltac:(lia)) as (I1 & I2 & I3). split_and!; [by constructor| |cbn [length]; lia].
  change (mjoin (rec_payload <$> r :: ?l)) with (rec_payload r ++ mjoin (rec_payload <$> l)).
  by rewrite I2, Hp, <- drop_drop, take_drop.
Qed.

Lemma filter_all {A} (P : A -> Prop) `{forall x, Decision (P x)} l : Forall P l -> filter P l = l.
Proof. induction 1; [done|]. by rewrite filter_cons_True, IHForall. Qed.
Lemma filter_none {A} (P : A -> Prop) `{forall x, Decision (P x)} l : Forall (fun x => ~ P x) l -> filter P l = [].
Proof. induction 1; [done|]. by rewrite filter_cons_False. Qed.

(** Of lists joined in order, the filter that singles out one of them. *)
Lemma filter_flat_map {A} (P : A -> Prop) `{forall x, Decision (P x)} (f : nat -> list A) i l :
  NoDup l -> Forall P (f i) -> (forall j, j ∈ l -> j <> i -> Forall (fun x => ~ P x) (f j)) ->
  filter P (flat_map f l) = if bool_decide (i ∈ l) then f i else [].
Proof.
  induction 1 as [|j l Hj Hnd IH]; intros Hi Ho; [done|]. cbn [flat_map]. rewrite list.filter_app, IH.
  - destruct (decide (i = j)) as [->|Hne].
    + rewrite filter_all by done. rewrite bool_decide_false, bool_decide_true by (done || by constructor). apply app_nil_r.
    + rewrite filter_none by (apply Ho; [constructor|done]). cbn [app].
      rewrite (bool_decide_ext (i ∈ j :: l) (i ∈ l)); [done|]. rewrite elem_of_cons. tauto.
  - done.
  - intros k Hk. apply Ho. by constructor.
Qed.

Lemma edge_id i : (i < 6)%nat -> n_id (kEdgeNodes !!! i) = Z.of_nat i + 1 /\ 
  ps_router_bus_of_node (n_id (kEdgeNodes !!! i)) = n_bus (kEdgeNodes !!! i).
Proof. intros. do 6 (destruct i as [|i]; [by vm_compute|]). lia. Qed.

Lemma index_of_edge i : (i < 6)%nat -> index_of (n_id (kEdgeNodes !!! i)) = Z.of_nat i.
Proof. intros. do 6 (destruct i as [|i]; [by vm_compute|]). lia. Qed.

Lemma xrce_rec_dst i r : (i < 6)%nat -> xrce_rec_ok (kEdgeNodes !!! i) r ->
  ps_can_id_dst (r_id r) = Z.of_nat i + 1 /\ ps_can_id_cls (r_id r) = PS_CLS_XRCE /\ 0 <= r_id r < 536870912.
Proof.
  intros Hi (-> & _). destruct (edge_id i Hi) as [-> _].
  split_and!; [apply dst_pack | apply cls_pack | apply pack_range..];
    unfold PS_CLS_XRCE, PS_NODE_ORCH, PS_T_XRCE_STREAM; clia.
Qed.

Section EndToEnd.
Context `{RtosQueue} `{TwaiDlc} `{RtosStream}.

(** Records of a stream, as the hub puts them on the bus. *)
Lemma downlink_xrce i r : (i < 6)%nat -> xrce_rec_ok (kEdgeNodes !!! i) r ->
  xrce_shape (downlink_frame r) /\ payload (downlink_frame r) = rec_payload r /\
  ps_router_route PS_PORT_SPI (f_id (downlink_frame r)) = PS_PORT_BIT (n_bus (kEdgeNodes !!! i)) /\
  ps_can_id_dst (f_id (downlink_frame r)) = n_id (kEdgeNodes !!! i) /\ ps_can_id_cls (f_id (downlink_frame r)) = PS_CLS_XRCE.
Proof.
  intros Hi Hr. pose proof (xrce_rec_dst i r Hi Hr) as (Hd & Hc & Hid). destruct Hr as (_ & _ & Hl & _ & H8 & _).
  unfold downlink_frame, xrce_shape, payload, rec_payload. cbn [f_id f_dlc f_data].
  destruct (Z.ltb_spec 8 (r_dlc r)); [lia|]. rewrite (firstn_all2 (r_data r)) by lia.
  change PS_CAN_ID_MASK with 536870911. rewrite (land_mask _ 29) by done. change (2 ^ 29) with 536870912. rewrite Z.mod_small by done.
  split_and!; try (done || lia).
  - rewrite route_fields, Hc, Hd. do 6 (destruct i as [|i]; [by vm_compute|]). lia.
  - destruct (edge_id i Hi) as [-> _]. lia.
Qed.

(** A node's own terminal, and enough answers of [write] for a record. *)
Definition terminal_open (d : XrceDemux) (i : nat) : Prop := 0 <= master_fd_ d !!! i.
Definition writes_well (rets : list wret) : Prop :=
  Forall (fun r => r <> WErr) rets /\ (8 <= length (filter progress rets))%nat.

(** The bytes a poll takes for a node. *)
Definition polled (d : XrceDemux) (rc : Z) (reads : nat -> option (list Z)) (i : nat) : list Z :=
  if bool_decide (0 <= master_fd_ d !!! i) && (0 <? rc) then take 256 (default [] (reads i)) else [].

(** The records of the streams of all nodes that are ready, and those of one of them. *)
Lemma poll_of_node d rc reads i : (i < 6)%nat ->
  let out := poll_outbound d rc reads in
  let mine := filter (fun r => ps_can_id_dst (f_id (downlink_frame r)) = n_id (kEdgeNodes !!! i)) out in
  Forall (xrce_rec_ok (kEdgeNodes !!! i)) mine /\ mjoin (rec_payload <$> mine) = polled d rc reads i /\
  Forall (fun r => exists j, (j < 6)%nat /\ xrce_rec_ok (kEdgeNodes !!! j) r) out.
Proof.
  intros Hi. cbv zeta. unfold poll_outbound, polled.
  set (fds := filter _ (seq 0 _)). assert (forall j, j ∈ fds -> (j < 6)%nat) as Hj.
  { intros j Hj. subst fds. apply list_elem_of_filter in Hj as [_ Hj]. apply elem_of_seq in Hj. cbn in Hj. lia. }
  assert (i ∈ fds <-> 0 <= master_fd_ d !!! i) as Hin.
  { subst fds. rewrite list_elem_of_filter. split; [tauto|]. intros. split; [done|]. apply elem_of_seq. cbn. lia. }
  assert (NoDup fds) as Hnd by (apply list.NoDup_filter, NoDup_seq). rewrite <- (bool_decide_ext _ _ Hin). clearbody fds.
  destruct (Nat.eqb_spec (length fds) 0) as [Hz|_].
  { apply nil_length_inv in Hz as ->. by rewrite bool_decide_false by apply not_elem_of_nil. }
  destruct (Z.leb_spec rc 0). { rewrite (proj2 (Z.ltb_ge _ _)), andb_false_r by lia. done. }
  rewrite (proj2 (Z.ltb_lt _ _)), andb_true_r by lia.
  assert (forall j, Forall (xrce_rec_ok (kEdgeNodes !!! j)) (match reads j with None => [] | Some b =>
     slice_loop (length (take 256 b)) (kEdgeNodes !!! j) (take 256 b) 0 end)) as Hok.
  { intros j. destruct (reads j) as [b|]; [|constructor]. apply slice_loop_spec. lia. }
  apply and_assoc. split.
  - rewrite (filter_flat_map _ _ i); [|done| |].
    + case_bool_decide; [|done]. split; [apply Hok|]. destruct (reads i) as [b|]; [|done]. cbn [default from_option].
      destruct (slice_loop_spec (length (take 256 b)) (kEdgeNodes !!! i) (take 256 b) 0) as (_ & -> & _); [lia|]. apply drop_0.
    + eapply Forall_impl; [|apply Hok]. intros r Hx. apply (downlink_xrce i r Hi Hx).
    + intros j Hjf Hne. eapply Forall_impl; [|apply Hok]. intros r Hx. destruct (downlink_xrce j r (Hj _ Hjf) Hx) as (_ & _ & _ & -> & _).
      destruct (edge_id i Hi) as [-> _], (edge_id j (Hj _ Hjf)) as [-> _]. lia.
  - apply Forall_flat_map, Forall_forall. intros j Hjf. eapply Forall_impl; [|apply Hok]. intros r Hx. exists j. split; [by apply Hj, list_elem_of_In|done].
Qed.
End EndToEnd.

(** Node 3 with its terminal open. *)
Definition demo_demux : XrceDemux := (open_all (XrceDemux_new "/tmp/x") true (fun i => (if (i =? 2)%nat then Some (7, 8) else None, true))).1.
Definition demo_leg : transport :=
  (ps_uros_transport_init {| t_can := None; t_node_id := 3; t_rx := xStreamBufferCreate 64; t_rx_overruns := 0 |}
     (Some (ps_can_open_ctx 3 0 0)) 3 64 true).1.
