(* ===== verification/Relay.v ===== *)
(** The voice relay of the orchestrator's bridge
    (src/orchestrator/ros2_ws/src/suit_canspi_bridge/src/audio_relay.cpp): ADPCM frames of
    the helmet become PCM chunks on a ROS topic, and chunks become frames for the helmet.

    A decoder state taken from the wire can have a step index past the end of the codec's
    step table; decoding from it reads outside the table, which C++ leaves undefined, and
    [None] stands for that. *)
From S2P Require Import Prelude CanId Wire SpiFrame Float32 Float64 Bridge Adpcm Audio.

Definition kAudioSyncEveryFrames : Z := 50.
Definition CODEC_ADPCM8K : Z := 1.
Definition CODEC_PCM16 : Z := 2.

Record AudioChunk := { ch_node_id : Z; ch_codec : Z; ch_sample_rate : Z; ch_seq : Z; ch_data : list Z }.

Record AudioRelay := {
  decode_state_ : ps_adpcm_state_t; encode_state_ : ps_adpcm_state_t; uplink_seq_ : Z; down_frame_seq_ : Z;
  frames_since_sync_ : Z; relay_outbound_ : list ps_can_record_t }.

Definition AudioRelay_new : AudioRelay :=
  {| decode_state_ := ps_adpcm_init; encode_state_ := ps_adpcm_init; uplink_seq_ := 0; down_frame_seq_ := 0;
     frames_since_sync_ := 0; relay_outbound_ := [] |}.

(** Samples as the little-endian bytes of a message, and back. *)
Definition pcm_bytes (pcm : list Z) : list Z := flat_map (fenc I16) pcm.
Fixpoint bytes_pcm (n : nat) (l : list Z) : list Z :=
  match n with O => [] | S n => fdec I16 (take 2 l) :: bytes_pcm n (drop 2 l) end.

(** The relay after a record and the chunk published, if any. *)
Definition handle_uplink_record (a : AudioRelay) (rec : ps_can_record_t) : option (AudioRelay * option AudioChunk) :=
  let parts := ps_can_id_unpack (r_id rec) in
  if negb (cls parts =? PS_CLS_AUDIO) then Some (a, None) else
  if type parts =? PS_T_AUDIO_SYNC then
    let sync : ps_audio_sync_t := wire_read (r_data rec) in
    Some (if as_dir sync =? 1
          then {| a with decode_state_ := {| predictor := as_predictor sync; step_index := as_step_index sync |} |}
          else a, None)
  else if negb (type parts =? PS_T_AUDIO_UP) then Some (a, None) else
  let nbytes := Z.to_nat (r_dlc rec) in
  if (nbytes =? 0)%nat then Some (a, None) else
  if 88 <? step_index (decode_state_ a) then None else
  let '(st, pcm) := ps_adpcm_decode (decode_state_ a) (take nbytes (r_data rec)) in
  Some ({| a with decode_state_ := st; uplink_seq_ := u32 (uplink_seq_ a + 1) |},
        Some {| ch_node_id := src parts; ch_codec := CODEC_PCM16; ch_sample_rate := 8000; ch_seq := uplink_seq_ a;
                ch_data := pcm_bytes pcm |}).

Definition down_record (a : AudioRelay) (adpcm : list Z) : ps_can_record_t :=
  {| r_id := ps_can_id_pack PS_CLS_AUDIO PS_NODE_ORCH PS_NODE_HELMET PS_T_AUDIO_DOWN (u8 (down_frame_seq_ a .& 0xFF));
     r_bus := PS_SPI_BUS_CAN1; r_dlc := u8 (Z.of_nat (length adpcm)); r_ts_ms := 0; r_data := bput 0 adpcm (replicate 8 0) |}.
Definition enqueue_frame_down (a : AudioRelay) (adpcm : list Z) : AudioRelay :=
  {| a with relay_outbound_ := relay_outbound_ a ++ [down_record a adpcm] |}.

Definition down_sync (a : AudioRelay) : ps_audio_sync_t :=
  {| as_dir := 0; as_step_index := u8 (step_index (encode_state_ a)); as_predictor := i16 (predictor (encode_state_ a));
     as_frame_seq := down_frame_seq_ a; as_rsvd := 0 |}.

Definition sync_record (a : AudioRelay) : ps_can_record_t :=
  struct_record (ps_can_id_pack PS_CLS_AUDIO PS_NODE_ORCH PS_NODE_HELMET PS_T_AUDIO_SYNC 0) PS_SPI_BUS_CAN1 (down_sync a).
Definition maybe_enqueue_sync (a : AudioRelay) : AudioRelay :=
  {| a with relay_outbound_ := relay_outbound_ a ++ [sync_record a] |}.

(** One turn of the loop of [process_adpcm_down] on the next [1..8] bytes. *)
Definition down_turn (a : AudioRelay) (chunk : list Z) : AudioRelay :=
  let a := if frames_since_sync_ a =? 0 then maybe_enqueue_sync a else a in
  let a := enqueue_frame_down a chunk in
  {| a with down_frame_seq_ := u16 (down_frame_seq_ a + 1);
            frames_since_sync_ := (frames_since_sync_ a + 1) mod kAudioSyncEveryFrames |}.

(** Every turn takes at least one byte. *)
Fixpoint down_loop (fuel : nat) (a : AudioRelay) (bytes : list Z) : AudioRelay :=
  match fuel, bytes with
  | S fuel, _ :: _ => down_loop fuel (down_turn a (take 8 bytes)) (drop 8 bytes)
  | _, _ => a
  end.
Definition process_adpcm_down (a : AudioRelay) (bytes : list Z) : AudioRelay := down_loop (length bytes) a bytes.

(** An unknown codec is logged and dropped. *)
Definition on_downlink (a : AudioRelay) (msg : AudioChunk) : AudioRelay :=
  if ch_codec msg =? CODEC_ADPCM8K then process_adpcm_down a (ch_data msg)
  else if ch_codec msg =? CODEC_PCM16 then
    let n_samples := (length (ch_data msg) / 2)%nat in
    let n_even := (n_samples - n_samples mod 2)%nat in
    if (n_even =? 0)%nat then a else
    let '(st, adpcm) := ps_adpcm_encode (encode_state_ a) (bytes_pcm n_even (ch_data msg)) in
    process_adpcm_down {| a with encode_state_ := st |} adpcm
  else a.

Definition drain_outbound (a : AudioRelay) : AudioRelay * list ps_can_record_t :=
  ({| a with relay_outbound_ := [] |}, relay_outbound_ a).

(** ** Samples and bytes *)

Lemma pcm_bytes_roundtrip pcm : Forall is_i16 pcm ->
  length (pcm_bytes pcm) = (2 * length pcm)%nat /\ bytes_pcm (length pcm) (pcm_bytes pcm) = pcm.
Proof.
  induction 1 as [|x pcm Hx _ [IH1 IH2]]; [done|]. cbn [pcm_bytes flat_map length]. fold (pcm_bytes pcm).
  rewrite length_app, IH1. split; [unfold fenc; rewrite length_le_bytes; cbn; lia|].
  cbn [bytes_pcm]. rewrite take_app_length', drop_app_length' by (unfold fenc; by rewrite length_le_bytes).
  by rewrite fdec_fenc, IH2.
Qed.

Lemma bytes_pcm_app n m a b : length a = (2 * n)%nat -> bytes_pcm (n + m) (a ++ b) = bytes_pcm n a ++ bytes_pcm m b.
Proof.
  revert a. induction n as [|n IH]; intros a Ha; [by destruct a|]. destruct a as [|x [|y a]]; [done|cbn [length] in Ha; lia|].
  cbn [Nat.add bytes_pcm app take drop]. rewrite !drop_0. f_equal. apply IH. cbn [length] in Ha. lia.
Qed.

(** ** Downlink: the frames of a message *)

(** What the relay sends for [bytes] from sequence number [seq] on, [k] frames after the
    last SYNC, with encoder state [st]: the reference the loop is compared with. *)
Fixpoint down_ref (fuel : nat) (st : ps_adpcm_state_t) (seq k : Z) (bytes : list Z) : list ps_can_record_t :=
  match fuel, bytes with
  | S fuel, _ :: _ =>
    let a := {| AudioRelay_new with encode_state_ := st; down_frame_seq_ := seq |} in
    (if k =? 0 then [sync_record a] else []) ++ down_record a (take 8 bytes) :: down_ref fuel st (u16 (seq + 1)) ((k + 1) mod 50) (drop 8 bytes)
  | _, _ => []
  end.

Lemma down_loop_ref fuel : forall a bytes,
  let a' := down_loop fuel a bytes in
  relay_outbound_ a' = relay_outbound_ a ++ down_ref fuel (encode_state_ a) (down_frame_seq_ a) (frames_since_sync_ a) bytes /\
  encode_state_ a' = encode_state_ a /\ decode_state_ a' = decode_state_ a /\ uplink_seq_ a' = uplink_seq_ a.
Proof.
  induction fuel as [|fuel IH]; intros a [|b bytes]; cbn [down_loop down_ref]; try (rewrite app_nil_r; by split_and!).
  destruct (IH (down_turn a (take 8 (b :: bytes))) (drop 8 (b :: bytes))) as (I1 & I2 & I3 & I4). cbv zeta in *.
  rewrite I1, I2, I3, I4. unfold down_turn.
  destruct (frames_since_sync_ a =? 0); cbn; rewrite <- ?app_assoc; by split_and!.
Qed.

(** ** The helmet listening *)

(** A record as the frame the helmet's receiver gets. *)
Definition as_frame (r : ps_can_record_t) : emission := {| e_id := r_id r; e_data := r_data r; e_dlc := r_dlc r |}.

Definition hears (rx : ps_audio_rx_t) (seq : Z) (bytes : list Z) (rx' : ps_audio_rx_t) (n : Z) : Prop :=
  locked rx' = true /\ dec rx' = (ps_adpcm_decode (dec rx) bytes).1 /\ expect_seq rx' = u16 (seq + n) mod 256 /\
  ring_ok rx' /\ buffered rx' = bapp (buffered rx) (ps_adpcm_decode (dec rx) bytes).2 /\ gaps rx' = gaps rx.

Lemma down_id seq type : is_u8 type ->
  let id := ps_can_id_pack PS_CLS_AUDIO PS_NODE_ORCH PS_NODE_HELMET type (u8 (seq .& 0xFF)) in
  ps_can_id_cls id = PS_CLS_AUDIO /\ ps_can_id_type id = type /\ ps_can_id_low id = seq mod 256.
Proof.
  intros Ht. cbv zeta. rewrite low_byte. assert (is_u8 (seq mod 256)) by clia.
  unfold PS_CLS_AUDIO, PS_NODE_ORCH, PS_NODE_HELMET. split_and!; [apply cls_pack | apply type_pack | apply low_pack]; done || lia.
Qed.

(** A frame of eight bytes, heard by a receiver that expects it. *)
Lemma down_frame_heard a rx bytes : length bytes = 8%nat -> locked rx = true -> ring_ok rx ->
  expect_seq rx = down_frame_seq_ a mod 256 ->
  hears rx (down_frame_seq_ a) bytes (ps_audio_rx_on_frame rx (as_frame (down_record a bytes))) 1.
Proof.
  intros H8 Hlk Hring Hex.
  destruct (down_id (down_frame_seq_ a) PS_T_AUDIO_DOWN ltac:(done)) as (Hc & Ht & Hlow). cbv zeta in *.
  unfold ps_audio_rx_on_frame, as_frame, down_record. cbn [e_id e_data e_dlc r_id r_data r_dlc]. rewrite Hc, Ht, Hlow, H8.
  change (PS_CLS_AUDIO =? PS_CLS_AUDIO) with true. change (PS_T_AUDIO_DOWN =? PS_T_AUDIO_SYNC) with false.
  change ((PS_T_AUDIO_DOWN =? PS_T_AUDIO_UP) || (PS_T_AUDIO_DOWN =? PS_T_AUDIO_DOWN)) with true.
  change (u8 (Z.of_nat 8) =? Z.of_nat PS_AUDIO_FRAME_BYTES) with true. rewrite Hlk, Hex. cbn [negb].
  assert ((down_frame_seq_ a mod 256 =? u8 (down_frame_seq_ a mod 256)) = true) as -> by (apply Z.eqb_eq; clia).
  assert (bput 0 bytes (replicate 8 0) = bytes) as ->.
  { rewrite <- (app_nil_r (replicate 8 0)), bput_0 by (by rewrite H8). apply app_nil_r. }
  unfold PS_AUDIO_FRAME_BYTES. rewrite take_ge by lia. unfold hears.
  destruct (ps_adpcm_decode (dec rx) bytes) as [st pcm]. cbv zeta. cbn [fst snd].
  set (rx1 := {| rx with dec := st; expect_seq := down_frame_seq_ a mod 256; locked := true |}).
  destruct (ring_push_spec rx1 pcm Hring) as [Hr1 Hb1]. destruct (ring_push_keeps rx1 pcm) as (K1 & K2 & K3 & K4).
  set (rx2 := rx_ring_push rx1 _) in *. cbn [rx1 dec expect_seq locked gaps] in K1, K2, K3, K4.
  split_and!; try done; cbn [locked dec expect_seq gaps]; try congruence.
  rewrite K2, (land_mask _ 8 0xFF) by done. change (2 ^ 8) with 256. clia.
Qed.

Lemma decode_app st a b : ps_adpcm_decode st (a ++ b) =
  let '(s1, p1) := ps_adpcm_decode st a in let '(s2, p2) := ps_adpcm_decode s1 b in (s2, p1 ++ p2).
Proof.
  revert st. induction a as [|x a IH]; intros st; cbn [app ps_adpcm_decode]; [by destruct (ps_adpcm_decode st b)|].
  destruct (decode_sample st _) as [s1 p1]. destruct (decode_sample s1 _) as [s2 p2]. rewrite IH.
  destruct (ps_adpcm_decode s2 a) as [s3 p3]. by destruct (ps_adpcm_decode s3 b).
Qed.

(** Whole frames between two SYNCs, heard in order. *)
Lemma down_heard n : forall fuel st seq k bytes rx, length bytes = (8 * n)%nat -> (8 * n <= fuel)%nat ->
  is_u16 seq -> 0 < k -> k + Z.of_nat n <= 50 -> locked rx = true -> ring_ok rx -> expect_seq rx = seq mod 256 ->
  hears rx seq bytes (rx_all rx (as_frame <$> down_ref fuel st seq k bytes)) (Z.of_nat n).
Proof.
  induction n as [|n IH]; intros fuel st seq k bytes rx Hl Hf Hseq Hk Hk50 Hlk Hring Hex.
  { destruct bytes; [|done]. replace (down_ref fuel st seq k []) with (@nil ps_can_record_t) by (by destruct fuel).
    cbn. unfold hears. cbn. split_and!; try done; [rewrite Hex; clia|]. symmetry. by apply bapp_nil, length_buffered. }
  destruct fuel as [|fuel]; [lia|]. destruct bytes as [|b0 bytes0]; [done|]. cbn [down_ref].
  set (bytes := b0 :: bytes0) in *. clearbody bytes. rewrite (proj2 (Z.eqb_neq k 0)) by lia. cbn [app].
  set (a := {| AudioRelay_new with encode_state_ := st; down_frame_seq_ := seq |}).
  set (r := down_record a (take 8 bytes)). cbn [fmap list_fmap].
  assert (hears rx seq (take 8 bytes) (ps_audio_rx_on_frame rx (as_frame r)) 1) as (F1 & F2 & F3 & F4 & F5 & F6).
  { apply (down_frame_heard a); [rewrite length_take; lia|done..]. }
  change (rx_all rx (as_frame r :: ?l)) with (rx_all (ps_audio_rx_on_frame rx (as_frame r)) l).
  set (rx1 := ps_audio_rx_on_frame rx (as_frame r)) in *. clearbody rx1 r.
  destruct n as [|n'].
  { assert (drop 8 bytes = []) as -> by (apply drop_ge; lia).
    replace (down_ref fuel st (u16 (seq + 1)) ((k + 1) mod 50) []) with (@nil ps_can_record_t) by (by destruct fuel).
    rewrite (firstn_all2 bytes) in * by lia. by split_and!. }
  specialize (IH fuel st (u16 (seq + 1)) ((k + 1) mod 50) (drop 8 bytes) rx1).
  destruct IH as (I1 & I2 & I3 & I4 & I5 & I6); try done; try (rewrite ?length_drop; lia); try clia.
  unfold hears. rewrite <- (take_drop 8 bytes), decode_app in *. rewrite F2, F5, F6, !take_drop in *.
  destruct (ps_adpcm_decode (dec rx) (take 8 bytes)) as [s1 p1]. cbn [fst snd] in *.
  destruct (ps_adpcm_decode s1 (drop 8 bytes)) as [s2 p2]. cbn [fst snd] in *.
  split_and!; try done; [rewrite I3; clia|]. rewrite I5. apply bapp_app. by apply length_buffered.
Qed.

Definition pcm_chunk (pcm : list Z) : AudioChunk :=
  {| ch_node_id := PS_NODE_HELMET; ch_codec := CODEC_PCM16; ch_sample_rate := 8000; ch_seq := 0; ch_data := pcm_bytes pcm |}.

(** The records one message adds to the queue of the relay. *)
Definition new_records (a : AudioRelay) (msg : AudioChunk) : list ps_can_record_t :=
  drop (length (relay_outbound_ a)) (relay_outbound_ (on_downlink a msg)).

Lemma on_downlink_pcm a pcm n : Forall is_i16 pcm -> length pcm = (16 * n)%nat -> (0 < n)%nat ->
  let bytes := (ps_adpcm_encode (encode_state_ a) pcm).2 in
  let st := encode_state (encode_state_ a) pcm in
  length bytes = (8 * n)%nat /\ ps_adpcm_decode (encode_state_ a) bytes = (st, reconstruction (encode_state_ a) pcm) /\
  encode_state_ (on_downlink a (pcm_chunk pcm)) = st /\
  new_records a (pcm_chunk pcm) = down_ref (length bytes) st (down_frame_seq_ a) (frames_since_sync_ a) bytes.
Proof.
  intros HF Hl Hn. cbv zeta. unfold new_records, on_downlink, pcm_chunk. cbn [ch_codec ch_data].
  change (CODEC_PCM16 =? CODEC_ADPCM8K) with false. change (CODEC_PCM16 =? CODEC_PCM16) with true.
  destruct (pcm_bytes_roundtrip pcm HF) as [Hlb Hrt]. rewrite Hlb.
  replace (2 * length pcm / 2)%nat with (length pcm) by (rewrite Nat.mul_comm, Nat.div_mul; lia).
  assert (length pcm mod 2 = 0)%nat as -> by (rewrite Hl; apply Nat.Div0.mod_divides; exists (8 * n)%nat; lia).
  rewrite Nat.sub_0_r, Hrt. destruct (Nat.eqb_spec (length pcm) 0); [lia|].
  pose proof (decode_stream (8 * n) pcm (encode_state_ a) ltac:(lia)) as Hd.
  destruct (ps_adpcm_encode (encode_state_ a) pcm) as [st bytes]. destruct Hd as (D1 & _ & D3 & D4). cbn [snd].
  unfold process_adpcm_down. destruct (down_loop_ref (length bytes) {| a with encode_state_ := st |} bytes) as (L1 & L2 & _).
  cbv zeta in *. cbn [relay_outbound_ encode_state_ down_frame_seq_ frames_since_sync_] in *.
  rewrite L1, L2, drop_app_length, D4, <- D3. by split_and!.
Qed.

(** Voice sent to the helmet.  A PCM message of whole frames that lies between two SYNCs,
    given to a helmet whose decoder stands where the encoder stood before the message, is
    heard as the encoder's own reconstruction of its samples, without a gap, and leaves the
    two in step.  The relay itself brings them out of step: a SYNC that falls on the first
    frame of a message carries the encoder's state after all of the message, not the state
    its first frame was encoded from, so the frames of that message leave the helmet with
    another state than the relay's, up to the next SYNC at least. *)
Theorem relay_downlink_heard a rx pcm n : Forall is_i16 pcm -> length pcm = (16 * n)%nat -> (0 < n)%nat ->
  is_u16 (down_frame_seq_ a) -> adpcm_ok (encode_state_ a) -> ring_ok rx -> 
  let recs := new_records a (pcm_chunk pcm) in
  let a' := on_downlink a (pcm_chunk pcm) in
  (0 < frames_since_sync_ a -> frames_since_sync_ a + Z.of_nat n <= 50 ->
   locked rx = true -> dec rx = encode_state_ a -> expect_seq rx = down_frame_seq_ a mod 256 ->
   let rx' := rx_all rx (as_frame <$> recs) in
   buffered rx' = bapp (buffered rx) (reconstruction (encode_state_ a) pcm) /\ gaps rx' = gaps rx /\
   locked rx' = true /\ dec rx' = encode_state_ a') /\
  (frames_since_sync_ a = 0 -> exists sync rest, recs = sync :: rest /\
   let rx1 := ps_audio_rx_on_frame rx (as_frame sync) in
   locked rx1 = true /\ dec rx1 = encode_state (encode_state_ a) pcm /\ expect_seq rx1 = down_frame_seq_ a mod 256).
Proof.
  intros HF Hl Hn Hseq Hok Hring. cbv zeta. destruct (on_downlink_pcm a pcm n HF Hl Hn) as (P1 & P2 & P3 & P4). cbv zeta in *.
  rewrite P3, P4. set (bytes := (ps_adpcm_encode _ _).2) in *. set (st := encode_state _ _) in *. split.
  - intros Hk Hk50 Hlk Hdec Hex.
    destruct (down_heard n (length bytes) st (down_frame_seq_ a) (frames_since_sync_ a) bytes rx P1 ltac:(lia) Hseq Hk Hk50 Hlk Hring Hex)
      as (H1 & H2 & _ & _ & H5 & H6).
    rewrite Hdec, P2 in H2, H5. by split_and!.
  - intros Hk. destruct bytes as [|b bytes0] eqn:Eb; [cbn in P1; lia|]. cbn [length down_ref]. rewrite Hk.
    change (0 =? 0) with true. cbn [app]. eexists _, _. split; [reflexivity|].
    set (s := {| AudioRelay_new with encode_state_ := st; down_frame_seq_ := down_frame_seq_ a |}).
    assert (adpcm_ok st) as Hst by (by apply encode_state_ok). destruct Hst as [S1 S2].
    assert (wire_ok (down_sync s)) as Hw by (unfold wire_ok, down_sync; cbn; unfold fok; cbn; repeat split; clia).
    unfold ps_audio_rx_on_frame, as_frame, sync_record, struct_record. cbn [e_id e_data e_dlc r_id r_data r_dlc].
    rewrite (cls_pack PS_CLS_AUDIO), (type_pack PS_CLS_AUDIO) by (unfold PS_CLS_AUDIO, PS_NODE_ORCH, PS_NODE_HELMET; done || lia).
    change (PS_CLS_AUDIO =? PS_CLS_AUDIO) with true. change (PS_T_AUDIO_SYNC =? PS_T_AUDIO_SYNC) with true. cbn [negb].
    change (Z.of_nat (wire_size ps_audio_sync_t) <? 8) with false. cbv iota zeta.
    rewrite <- (app_nil_r (replicate 8 0)), bput_0 by reflexivity. rewrite (wire_read_write_app _ [] Hw).
    cbn [down_sync as_predictor as_step_index as_frame_seq locked dec expect_seq s encode_state_ down_frame_seq_].
    rewrite (u8_id (step_index st)), (i16_id (predictor st)) by clia. destruct (Z.ltb_spec 88 (step_index st)); [lia|].
    split_and!; [done|by destruct st|]. rewrite (land_mask _ 8 0xFF) by done. change (2 ^ 8) with 256. clia.
Qed.

(** A relay one frame after a SYNC, and a helmet in step with it. *)
Definition mid_relay : AudioRelay := {| AudioRelay_new with frames_since_sync_ := 1; down_frame_seq_ := 300 |}.
Definition mid_rx : ps_audio_rx_t := {| tone_rx with locked := true; expect_seq := 44 |}.

Lemma relay_downlink_heard_witness :
  buffered (rx_all mid_rx (as_frame <$> new_records mid_relay (pcm_chunk (take 16 tone)))) =
    reconstruction ps_adpcm_init (take 16 tone) /\
  buffered (rx_all tone_rx (as_frame <$> new_records AudioRelay_new (pcm_chunk (take 16 tone)))) <>
    reconstruction ps_adpcm_init (take 16 tone).
Proof.
  split; [|vm_compute; discriminate].
  destruct (relay_downlink_heard mid_relay mid_rx (take 16 tone) 1) as [H _].
  - repeat constructor; clia.
  - reflexivity.
  - lia.
  - cbn. clia.
  - apply adpcm_ok_init.
  - split_and!; cbn; lia.
  - destruct H as [-> _]; [cbn; lia | cbn; lia | reflexivity..|]. vm_compute. reflexivity.
Defined.

(** ** Uplink: the helmet speaking *)

(** Frames of the helmet as records of the bridge, and the relay fed with them: the chunks
    published. *)
Definition from_frame (e : emission) : ps_can_record_t :=
  {| r_id := e_id e; r_bus := PS_SPI_BUS_CAN1; r_dlc := e_dlc e; r_ts_ms := 0; r_data := e_data e |}.

Fixpoint relay_run (a : AudioRelay) (recs : list ps_can_record_t) : option (AudioRelay * list AudioChunk) :=
  match recs with
  | [] => Some (a, [])
  | r :: recs =>
    '(a, c) ← handle_uplink_record a r; '(a, cs) ← relay_run a recs; Some (a, option_list c ++ cs)
  end.

Lemma relay_run_app a l1 l2 : relay_run a (l1 ++ l2) =
  ('(a, c1) ← relay_run a l1; '(a, c2) ← relay_run a l2; Some (a, c1 ++ c2)).
Proof.
  revert a. induction l1 as [|r l1 IH]; intros a; cbn [app relay_run]; [cbn; by destruct (relay_run a l2) as [[]|]|].
  destruct (handle_uplink_record a r) as [[a1 c]|]; [|done]. cbn. rewrite IH. destruct (relay_run a1 l1) as [[a2 c1]|]; [|done]. cbn.
  destruct (relay_run a2 l2) as [[a3 c2]|]; [|done]. cbn. by rewrite app_assoc.
Qed.

(** The chunk published for a block of samples encoded from state [st]. *)
Definition up_chunk (seq node : Z) (st : ps_adpcm_state_t) (pcm : list Z) : AudioChunk :=
  {| ch_node_id := node; ch_codec := CODEC_PCM16; ch_sample_rate := 8000; ch_seq := seq; ch_data := pcm_bytes (reconstruction st pcm) |}.

(** A SYNC of the helmet, whatever the relay held before. *)
Lemma relay_sync tx a : tx_ok tx -> dir tx = PS_AUDIO_DIR_UP ->
  relay_run a [from_frame (tx_emit_sync tx).2] = Some ({| a with decode_state_ := enc tx |}, []).
Proof.
  intros Hok Hd. destruct (audio_id_fields tx PS_T_AUDIO_SYNC Hok ltac:(done)) as (Hc & Ht & _). cbv zeta in *.
  destruct Hok as ([Hpr Hst] & Hseq & Hdir & _). cbn [relay_run]. unfold handle_uplink_record, from_frame, tx_emit_sync.
  cbn [snd e_id e_data e_dlc r_id r_data r_dlc]. set (id := ps_can_id_pack _ _ _ _ _) in *.
  change (cls (ps_can_id_unpack id)) with (ps_can_id_cls id). change (type (ps_can_id_unpack id)) with (ps_can_id_type id). rewrite Hc, Ht.
  change (PS_CLS_AUDIO =? PS_CLS_AUDIO) with true. change (PS_T_AUDIO_SYNC =? PS_T_AUDIO_SYNC) with true. cbn [negb].
  assert (wire_ok (sync_payload tx)) as Hw by (unfold wire_ok, sync_payload; cbn; unfold fok; cbn; repeat split; clia).
  rewrite <- (app_nil_r (wire_write (sync_payload tx))), (wire_read_write_app _ [] Hw). cbn [sync_payload as_dir as_predictor as_step_index].
  rewrite Hd. change (PS_AUDIO_DIR_UP =? 1) with true. rewrite (u8_id (step_index (enc tx))), (i16_id (predictor (enc tx))) by clia.
  cbn. by destruct (enc tx).
Qed.

(** A frame of the helmet, in step. *)
Lemma relay_data tx a : tx_ok tx -> dir tx = PS_AUDIO_DIR_UP -> decode_state_ a = enc tx ->
  let '(st, adpcm) := ps_adpcm_encode (enc tx) (take PS_AUDIO_FRAME_SAMPLES (pend tx)) in
  relay_run a [from_frame
    {| e_id := ps_can_id_pack PS_CLS_AUDIO (src_node tx) (dst_node tx) PS_T_AUDIO_UP (u8 (frame_seq tx .& 0xFF));
       e_data := adpcm; e_dlc := Z.of_nat PS_AUDIO_FRAME_BYTES |}] =
    Some ({| a with decode_state_ := encode_state (enc tx) (pend tx); uplink_seq_ := u32 (uplink_seq_ a + 1) |},
          [up_chunk (uplink_seq_ a) (src_node tx) (enc tx) (pend tx)]).
Proof.
  intros Hok Hd Hdec. destruct (audio_id_fields tx PS_T_AUDIO_UP Hok ltac:(done)) as (Hc & Ht & _). cbv zeta in *.
  destruct Hok as ([Hpr Hst] & Hseq & _ & Hsrc & Hdst & Hp & _).
  unfold PS_AUDIO_FRAME_SAMPLES. rewrite take_ge by lia. pose proof (decode_stream 8 (pend tx) (enc tx) ltac:(lia)) as D.
  destruct (ps_adpcm_encode (enc tx) (pend tx)) as [st adpcm]. destruct D as (D1 & _ & D3 & D4).
  cbn [relay_run]. unfold handle_uplink_record, from_frame. cbn [e_id e_data e_dlc r_id r_data r_dlc].
  set (id := ps_can_id_pack _ _ _ _ _) in *. assert (ps_can_id_src id = src_node tx) as Hs.
  { apply src_pack; try done; clia. }
  change (cls (ps_can_id_unpack id)) with (ps_can_id_cls id). change (type (ps_can_id_unpack id)) with (ps_can_id_type id).
  change (src (ps_can_id_unpack id)) with (ps_can_id_src id). rewrite Hc, Ht, Hs.
  change (PS_CLS_AUDIO =? PS_CLS_AUDIO) with true. change (PS_T_AUDIO_UP =? PS_T_AUDIO_SYNC) with false.
  change (PS_T_AUDIO_UP =? PS_T_AUDIO_UP) with true. change (Z.to_nat (Z.of_nat PS_AUDIO_FRAME_BYTES)) with 8%nat. cbn [negb Nat.eqb].
  rewrite Hdec. destruct (Z.ltb_spec 88 (step_index (enc tx))); [lia|]. rewrite take_ge, D4 by lia. cbn. by rewrite D3.
Qed.

(** The chunks for successive blocks. *)
Fixpoint up_chunks (seq node : Z) (st : ps_adpcm_state_t) (blocks : list (list Z)) : list AudioChunk :=
  match blocks with
  | [] => []
  | b :: blocks => up_chunk seq node st b :: up_chunks (u32 (seq + 1)) node (encode_state st b) blocks
  end.

Lemma push_block tx b : tx_ok tx -> pending_n tx = 0%nat -> length b = 16%nat ->
  ps_audio_tx_push tx b = tx_frame {| tx with pend := b; pending_n := 16%nat |}.
Proof.
  intros (_ & _ & _ & _ & _ & Hp & _) Hn Hb. unfold ps_audio_tx_push. rewrite Hb.
  enough (forall f, tx_push_loop (S f) tx b = tx_frame {| tx with pend := b; pending_n := 16%nat |}) as E by apply (E 15%nat). intros f.
  cbn [tx_push_loop]. rewrite Hb. cbn [Nat.eqb].
  rewrite Hn. change (PS_AUDIO_FRAME_SAMPLES - 0)%nat with 16%nat. change (16 <? 16)%nat with false. cbv iota zeta. cbn [Nat.add pending_n].
  rewrite (take_ge b), (drop_ge b) by lia. assert (bput 0 b (pend tx) = b) as ->.
  { rewrite <- (app_nil_r (pend tx)), bput_0 by congruence. apply app_nil_r. }
  change (16 =? PS_AUDIO_FRAME_SAMPLES)%nat with true. cbv iota. destruct (tx_frame _) as [tx' out].
  replace (tx_push_loop f tx' []) with (tx', @nil emission) by (by destruct f). by rewrite app_nil_r.
Qed.

(** One complete frame of the helmet, with its SYNC where one is due. *)
Lemma relay_frame tx a : tx_ok {| tx with pending_n := 0%nat |} -> dir tx = PS_AUDIO_DIR_UP ->
  (tx_started tx = true -> decode_state_ a = enc tx) ->
  let '(tx', fs) := tx_frame tx in
  relay_run a (from_frame <$> fs) =
    Some ({| a with decode_state_ := enc tx'; uplink_seq_ := u32 (uplink_seq_ a + 1) |},
          [up_chunk (uplink_seq_ a) (src_node tx) (enc tx) (pend tx)]) /\
  tx_ok tx' /\ pending_n tx' = 0%nat /\ dir tx' = dir tx /\ src_node tx' = src_node tx /\ tx_started tx' = true /\
  enc tx' = encode_state (enc tx) (pend tx).
Proof.
  destruct tx as [st q d sn dn fss started pd pn]. cbn [enc frame_seq dir src_node dst_node frames_since_sync tx_started pend pending_n].
  intros Hok -> Hs. pose proof Hok as (H1 & H2 & H3 & H4 & H5 & H6 & H7). cbn in H1, H2, H3, H4, H5, H6.
  pose proof (decode_stream 8 pd st H6) as D. destruct (encode_state_ok st pd H1) as [E1 E2]. unfold tx_frame.
  pose proof (relay_sync _ a Hok eq_refl) as Hy.
  pose proof (fun y z b => relay_data {| enc := st; frame_seq := q; dir := PS_AUDIO_DIR_UP; src_node := sn; dst_node := dn;
    frames_since_sync := y; tx_started := z; pend := pd; pending_n := 0 |} b Hok eq_refl) as Hr.
  unfold tx_emit_sync, sync_payload in *. unfold PS_AUDIO_FRAME_SAMPLES in *.
  cbn [enc frame_seq dir src_node dst_node frames_since_sync tx_started pend pending_n snd] in *.
  rewrite (take_ge pd) in Hr by lia. destruct (negb started || _) eqn:Eb;
    cbn [enc frame_seq dir src_node dst_node frames_since_sync tx_started pend pending_n];
    change (PS_AUDIO_DIR_UP =? PS_AUDIO_DIR_UP) with true; rewrite (take_ge pd) by lia;
    destruct (ps_adpcm_encode st pd) as [st' adpcm]; destruct D as (_ & _ & -> & _);
    cbn [enc frame_seq dir src_node dst_node frames_since_sync tx_started pend pending_n].
  - split; [|split; [unfold tx_ok, adpcm_ok; cbn; split_and!; done || clia|done]].
    rewrite fmap_app, relay_run_app. cbn [fmap list_fmap]. rewrite Hy. cbn [mbind option_bind].
    rewrite (Hr 0 true {| a with decode_state_ := st |} eq_refl). done.
  - bools. split; [|split; [unfold tx_ok, adpcm_ok; cbn; split_and!; done || clia|done]].
    cbn [app fmap list_fmap]. rewrite (Hr 0 true a (Hs ltac:(done))). done.
Qed.

Lemma relay_run_blocks blocks : forall tx a, tx_ok tx -> pending_n tx = 0%nat -> dir tx = PS_AUDIO_DIR_UP ->
  (tx_started tx = true -> decode_state_ a = enc tx) -> Forall (fun b => length b = 16%nat) blocks ->
  exists a', relay_run a (from_frame <$> (push_all tx blocks).2) =
    Some (a', up_chunks (uplink_seq_ a) (src_node tx) (enc tx) blocks).
Proof.
  induction blocks as [|b blocks IH]; intros tx a Hok Hn Hd Hs HF; cbn [push_all]; [by exists a|].
  inversion_clear HF as [|? ? Hb HF']. rewrite push_block by done.
  set (tx1 := {| tx with pend := b; pending_n := 16%nat |}).
  pose proof (relay_frame tx1 a) as Hf. destruct (tx_frame tx1) as [tx' fs].
  destruct Hf as (F1 & F2 & F3 & F4 & F5 & F6 & F7); [|done|done|].
  { destruct Hok as (H1 & H2 & H3 & H4 & H5 & H6 & H7). split_and!; cbn; done || lia. }
  set (a1 := {| a with decode_state_ := enc tx'; uplink_seq_ := u32 (uplink_seq_ a + 1) |}).
  destruct (IH tx' a1 F2 F3 (eq_trans F4 Hd) (fun _ => eq_refl) HF') as [a' Ha]. exists a'.
  destruct (push_all tx' blocks) as [tx2 fs']. cbn [snd] in *. rewrite fmap_app, relay_run_app, F1. cbn [mbind option_bind].
  fold a1. rewrite Ha. cbn. rewrite F5, F7. done.
Qed.

(** Voice from the helmet.  Whatever state the relay is in when a call begins, the
    helmet's frames, given to it in order, are decoded without leaving the codec's tables
    and published one chunk per sixteen samples: sender, rate, consecutive numbers, and as
    data the helmet encoder's own reconstruction of the samples, which the bytes of the
    message give back exactly. *)
Theorem relay_uplink_exact a junk node blocks : length junk = 16%nat -> 0 <= node < 32 ->
  Forall (fun b => length b = 16%nat) blocks ->
  let tx := ps_audio_tx_init junk PS_AUDIO_DIR_UP node PS_NODE_ORCH in
  exists a' chunks, relay_run a (from_frame <$> (push_all tx blocks).2) = Some (a', chunks) /\
    length chunks = length blocks /\
    (forall i c, chunks !! i = Some c -> ch_node_id c = node /\ ch_codec c = CODEC_PCM16 /\ ch_sample_rate c = 8000 /\
       (0 < Z.of_nat i -> ch_seq c = u32 (uplink_seq_ a + Z.of_nat i))) /\
    bytes_pcm (length (mjoin blocks)) (mjoin (ch_data <$> chunks)) = reconstruction ps_adpcm_init (mjoin blocks).
Proof.
  intros Hj Hn HF tx. assert (tx_ok tx) as Hok.
  { subst tx. unfold PS_NODE_ORCH. split_and!; cbn; try done; try clia; try lia; try apply adpcm_ok_init. }
  destruct (relay_run_blocks blocks tx a Hok eq_refl eq_refl ltac:(done) HF) as [a' Ha]. exists a', (up_chunks (uplink_seq_ a) node ps_adpcm_init blocks).
  split; [exact Ha|]. clear Ha Hok. set (st := ps_adpcm_init). generalize (uplink_seq_ a). generalize st. clear st a' tx.
  induction HF as [|b blocks Hb HF IH]; intros st q; [done|]. cbn [up_chunks].
  change (mjoin (b :: blocks)) with (b ++ mjoin blocks).
  change (mjoin (ch_data <$> ?c :: ?l)) with (ch_data c ++ mjoin (ch_data <$> l)).
  destruct (IH (encode_state st b) (u32 (q + 1))) as (I1 & I2 & I3). split_and!; [cbn; lia| |].
  - intros [|i] c; cbn [lookup list_lookup].
    + intros [= <-]. split_and!; done.
    + intros Hi. destruct (I2 i c Hi) as (J1 & J2 & J3 & J4). split_and!; try done. intros _.
      destruct i as [|i]; [|rewrite J4 by lia; clia].
      destruct blocks; [done|]. cbn in Hi. injection Hi as <-. cbn. clia.
  - assert (length (reconstruction st b) = 16%nat /\ Forall is_i16 (reconstruction st b)) as [Hl Hr].
    { rewrite <- Hb. clear. revert st. induction b as [|x b IHb]; intros st; [done|]. cbn. destruct (IHb (encode_sample st x).1).
      split; [lia|]. constructor; [|done]. destruct (encode_ok st x) as [? _]. clia. }
    rewrite reconstruction_app, length_app, Hb. change (ch_data (up_chunk q node st b)) with (pcm_bytes (reconstruction st b)).
    destruct (pcm_bytes_roundtrip _ Hr) as [L1 L2]. rewrite Hl in *. rewrite bytes_pcm_app by lia. by rewrite L2, I3.
Qed.

Lemma relay_uplink_exact_witness :
  let tx := ps_audio_tx_init (replicate 16 0) PS_AUDIO_DIR_UP PS_NODE_HELMET PS_NODE_ORCH in
  let blocks := [take 16 tone; take 16 tone] in
  exists a' chunks, relay_run mid_relay (from_frame <$> (push_all tx blocks).2) = Some (a', chunks) /\
    bytes_pcm 32 (mjoin (ch_data <$> chunks)) = reconstruction ps_adpcm_init (mjoin blocks).
Proof.
  intros tx blocks.
  destruct (relay_uplink_exact mid_relay (replicate 16 0) PS_NODE_HELMET blocks) as (a' & cs & H1 & _ & _ & H4).
  - reflexivity.
  - unfold PS_NODE_HELMET. lia.
  - repeat constructor.
  - exists a', cs. split; [exact H1|exact H4].
Defined.

(** The relay takes a step index from the wire as it is, where the helmet's receiver limits
    it: after an uplink SYNC with an index past 88, the next audio frame reads outside the
    step table. *)
Theorem relay_sync_unchecked a (sync : ps_audio_sync_t) id data dlc : wire_ok sync -> as_dir sync = 1 ->
  88 < as_step_index sync -> ps_can_id_cls id = PS_CLS_AUDIO -> ps_can_id_type id = PS_T_AUDIO_UP -> 1 <= dlc ->
  let sync_rec := struct_record (ps_can_id_pack PS_CLS_AUDIO PS_NODE_HELMET PS_NODE_ORCH PS_T_AUDIO_SYNC 0) PS_SPI_BUS_CAN1 sync in
  let data_rec := {| r_id := id; r_bus := PS_SPI_BUS_CAN1; r_dlc := dlc; r_ts_ms := 0; r_data := data |} in
  relay_run a [sync_rec; data_rec] = None.
Proof.
  intros Hw Hd Hs Hc Ht Hdlc. cbv zeta. set (r1 := struct_record _ _ _). set (r2 := {| r_id := id; r_bus := _; r_dlc := _; r_ts_ms := _; r_data := _ |}).
  assert (handle_uplink_record a r1 = Some ({| a with decode_state_ := {| predictor := as_predictor sync; step_index := as_step_index sync |} |}, None)) as E1.
  { subst r1. unfold handle_uplink_record, struct_record. cbn [r_id r_data].
    set (sid := ps_can_id_pack _ _ _ _ _). change (cls (ps_can_id_unpack sid)) with PS_CLS_AUDIO.
    change (type (ps_can_id_unpack sid)) with PS_T_AUDIO_SYNC.
    change (PS_CLS_AUDIO =? PS_CLS_AUDIO) with true. change (PS_T_AUDIO_SYNC =? PS_T_AUDIO_SYNC) with true. cbn [negb].
    rewrite <- (app_nil_r (replicate 8 0)), bput_0 by reflexivity. by rewrite (wire_read_write_app _ [] Hw), Hd. }
  cbn [relay_run]. rewrite E1. cbn [mbind option_bind]. unfold handle_uplink_record, r2. cbn [r_id r_dlc decode_state_ step_index].
  change (cls (ps_can_id_unpack id)) with (ps_can_id_cls id). change (type (ps_can_id_unpack id)) with (ps_can_id_type id). rewrite Hc, Ht.
  change (PS_CLS_AUDIO =? PS_CLS_AUDIO) with true. change (PS_T_AUDIO_UP =? PS_T_AUDIO_SYNC) with false.
  change (PS_T_AUDIO_UP =? PS_T_AUDIO_UP) with true. cbn [negb].
  destruct (Nat.eqb_spec (Z.to_nat dlc) 0); [lia|]. destruct (Z.ltb_spec 88 (as_step_index sync)); [done|lia].
Qed.
