(* ===== verification/Telem.v ===== *)
(** Telemetry of the orchestrator's bridge
    (src/orchestrator/ros2_ws/src/suit_canspi_bridge/src/telem_synth.cpp): records of the
    suit become messages on ROS topics.

    A message published is a value of the result.  A default-constructed ROS message and
    the values of the node's parameters are arguments; [now] is the node's clock. *)
From stdpp Require Import strings pretty.
From S2P Require Import Prelude CanId Wire SpiFrame Float32 Float64.
From Stdlib Require Import SpecFloat.

(** ** Constants *)

Definition M_PI : f64 := S754_finite false 7074237752028440 (-51).
Definition kDegToRad : f64 := ddiv M_PI (dof_Z 180).
Definition kGravity : f64 := dlit 980665 100000.
Definition kQ15 : f64 := ddiv (dof_Z 1) (dof_Z 32767).
Definition kMgToMs2 : f64 := ddiv kGravity (dof_Z 1000).
Definition kDdpsToRadS : f64 := dmul (dlit 1 10) kDegToRad.

(** ** Names *)

Definition node_name (id : Z) : string :=
  if id =? PS_NODE_ARM_R then "node_arm_right"
  else if id =? PS_NODE_ARM_L then "node_arm_left"
  else if id =? PS_NODE_LEG_R then "node_leg_right"
  else if id =? PS_NODE_LEG_L then "node_leg_left"
  else if id =? PS_NODE_FLIGHT then "node_flight_actuation"
  else if id =? PS_NODE_HELMET then "node_helmet_interface"
  else if id =? PS_NODE_HUB then "node_chest_power_hub"
  else if id =? PS_NODE_ORCH then "node_central_orchestrator"
  else "node_" +:+ pretty id.

Definition limb_index (node_id : Z) : Z :=
  if node_id =? PS_NODE_ARM_R then 0
  else if node_id =? PS_NODE_ARM_L then 1
  else if node_id =? PS_NODE_LEG_R then 2
  else if node_id =? PS_NODE_LEG_L then 3
  else -1.

Definition limb_name (limb_idx : Z) : string :=
  if (0 <=? limb_idx) && (limb_idx <? 4)
  then ["arm_right"; "arm_left"; "leg_right"; "leg_left"]%string !!! Z.to_nat limb_idx else "unknown".

Definition joint_name (limb_idx joint_idx : Z) : string :=
  if (joint_idx <? 0) || (1 <? joint_idx) then "unknown" else
  let is_leg := (limb_idx =? 2) || (limb_idx =? 3) in
  limb_name limb_idx +:+ "_" +:+
  (if is_leg then ["hip"; "knee"]%string else ["elbow"; "wrist"]%string) !!! Z.to_nat joint_idx.

(** ** Messages *)

Record JointState := { j_frame_id : string; j_stamp : Z; j_name : list string; j_position : list f64; j_velocity : list f64; j_effort : list f64 }.
Record vec3 := { v_x : f64; v_y : f64; v_z : f64 }.
Record quat := { q_w : f64; q_x : f64; q_y : f64; q_z : f64 }.
Record Imu := {
  i_frame_id : string; i_stamp : Z; orientation : quat; orientation_cov : list f64;
  angular_velocity : vec3; angular_cov : list f64; linear_acceleration : vec3; linear_cov : list f64 }.
Record BmsStatus := { b_stamp : Z; pack_v : f32; current_a : f32; soc_pct : Z; temp_max_c : Z; fault_bits : Z; cell_v : list f32 }.
Record SafetyState := { ss_stamp : Z; ss_state : Z; ss_estop_latched : bool; ss_heartbeat_ok : bool; ss_estop_cause : Z; ss_source : string }.
Record DiagnosticStatus := { d_stamp : Z; d_name : string; d_hardware_id : string; d_level : Z; d_message : string; d_values : list (string * string) }.

Definition DIAG_OK : Z := 0.
Definition DIAG_WARN : Z := 1.
Definition DIAG_ERROR : Z := 2.

(** The topic, by the limb where there is one per limb, and the message. *)
Inductive published :=
  | PubJoint (limb : Z) (m : JointState)
  | PubImu (limb_or_torso : Z) (m : Imu)
  | PubForce (limb : Z) (data : list f32)
  | PubAero (data : list f32)
  | PubBms (m : BmsStatus)
  | PubDiag (m : DiagnosticStatus)
  | PubSafety (m : SafetyState).

(** ** State *)

Record ImuAccum := { ia_msg : Imu; ia_any : bool }.
Record JointAccum := { ja_pos : list f64; ja_vel : list f64; ja_eff : list f64; ja_any : bool }.

Record TelemSynth := {
  joints_ : list JointAccum; limb_imu_ : list ImuAccum; torso_imu_ : ImuAccum;
  aero_state_ : list f32; aero_any_ : bool; bms_msg_ : BmsStatus; bms_any_ : bool; safety_msg_ : SafetyState }.

Definition f_zero : spec_float := S754_zero false.
Definition JointAccum_new : JointAccum :=
  {| ja_pos := [f_zero; f_zero]; ja_vel := [f_zero; f_zero]; ja_eff := [f_zero; f_zero]; ja_any := false |}.
#[export] Instance JointAccum_inhabited : Inhabited JointAccum := populate JointAccum_new.
Definition Imu_zero : Imu :=
  {| i_frame_id := EmptyString; i_stamp := 0; orientation := {| q_w := f_zero; q_x := f_zero; q_y := f_zero; q_z := f_zero |};
     orientation_cov := []; angular_velocity := {| v_x := f_zero; v_y := f_zero; v_z := f_zero |}; angular_cov := [];
     linear_acceleration := {| v_x := f_zero; v_y := f_zero; v_z := f_zero |}; linear_cov := [] |}.
#[export] Instance ImuAccum_inhabited : Inhabited ImuAccum := populate {| ia_msg := Imu_zero; ia_any := false |}.

(** [imu0], [bms0], [safety0]: the messages as ROS constructs them. *)
Definition TelemSynth_new (imu0 : Imu) (bms0 : BmsStatus) (safety0 : SafetyState) : TelemSynth :=
  {| joints_ := replicate 4 JointAccum_new; limb_imu_ := replicate 4 {| ia_msg := imu0; ia_any := false |};
     torso_imu_ := {| ia_msg := imu0; ia_any := false |}; aero_state_ := replicate 16 f_zero; aero_any_ := false;
     bms_msg_ := bms0; bms_any_ := false;
     safety_msg_ := {| safety0 with ss_state := PS_STATE_BOOT; ss_source := "bridge" |} |}.

Definition set_safety_state (t : TelemSynth) (state : Z) (estop_latched heartbeat_ok : bool) (estop_cause : Z) (source : string) : TelemSynth :=
  let m := safety_msg_ t in
  {| t with safety_msg_ := {| m with ss_state := state; ss_estop_latched := estop_latched; ss_heartbeat_ok := heartbeat_ok;
                                     ss_estop_cause := estop_cause; ss_source := source |} |}.

(** The wall timer, every 50 ms. *)
Definition safety_timer (t : TelemSynth) (now : Z) : TelemSynth * list published :=
  let m := safety_msg_ t in let m := {| m with ss_stamp := now |} in ({| t with safety_msg_ := m |}, [PubSafety m]).

(** ** Joints *)

Definition publish_joint (t : TelemSynth) (now limb_idx : Z) : list published :=
  let acc := joints_ t !!! Z.to_nat limb_idx in
  [PubJoint limb_idx {| j_frame_id := limb_name limb_idx; j_stamp := now; j_name := [joint_name limb_idx 0; joint_name limb_idx 1];
     j_position := [ja_pos acc !!! 0%nat; ja_pos acc !!! 1%nat]; j_velocity := [ja_vel acc !!! 0%nat; ja_vel acc !!! 1%nat];
     j_effort := [ja_eff acc !!! 0%nat; ja_eff acc !!! 1%nat] |}].

(** [x * 0.01] of a 16-bit field. *)
Definition hundredth (x : Z) : f64 := dmul (dof_Z x) (dlit 1 100).

Definition on_joint_state (t : TelemSynth) (now src : Z) (data : list Z) : TelemSynth * list published :=
  let limb := limb_index src in
  if limb <? 0 then (t, []) else
  let js : ps_joint_state_t := wire_read data in
  if 1 <? js_joint js then (t, []) else
  let acc := joints_ t !!! Z.to_nat limb in
  let j := Z.to_nat (js_joint js) in
  let acc := {| ja_pos := <[j := hundredth (js_pos_crad js)]> (ja_pos acc); ja_vel := <[j := hundredth (js_vel_crad_s js)]> (ja_vel acc);
                ja_eff := <[j := hundredth (js_eff_cNm js)]> (ja_eff acc); ja_any := true |} in
  let t := {| t with joints_ := <[Z.to_nat limb := acc]> (joints_ t) |} in
  (t, publish_joint t now limb).

(** ** Inertial units *)

Record imu_params := { orientation_stddev : f64; angular_velocity_stddev : f64; linear_acceleration_stddev : f64 }.

Definition diagonal (sd : f64) : list f64 :=
  let v := dmul sd sd in [v; f_zero; f_zero; f_zero; v; f_zero; f_zero; f_zero; v].

(** The message completed in place and published; -1 is the torso. *)
Definition publish_imu (p : imu_params) (now limb_idx_or_torso : Z) (m : Imu) : Imu * list published :=
  let m := {| m with orientation_cov := diagonal (orientation_stddev p); angular_cov := diagonal (angular_velocity_stddev p);
                     linear_cov := diagonal (linear_acceleration_stddev p); i_stamp := now;
                     i_frame_id := if limb_idx_or_torso =? -1 then "imu_torso" else limb_name limb_idx_or_torso +:+ "_imu" |} in
  (m, [PubImu limb_idx_or_torso m]).

(** What the three handlers share: the accumulator of the source is updated and published;
    a source without one is ignored. *)
Definition imu_update (t : TelemSynth) (p : imu_params) (now src : Z) (f : Imu -> Imu) : TelemSynth * list published :=
  let limb := limb_index src in
  if 0 <=? limb then
    let '(m, out) := publish_imu p now limb (f (ia_msg (limb_imu_ t !!! Z.to_nat limb))) in
    ({| t with limb_imu_ := <[Z.to_nat limb := {| ia_msg := m; ia_any := true |}]> (limb_imu_ t) |}, out)
  else if src =? PS_NODE_FLIGHT then
    let '(m, out) := publish_imu p now (-1) (f (ia_msg (torso_imu_ t))) in
    ({| t with torso_imu_ := {| ia_msg := m; ia_any := true |} |}, out)
  else (t, []).

Definition on_imu_quat (t : TelemSynth) (p : imu_params) (now src : Z) (data : list Z) : TelemSynth * list published :=
  let q : ps_imu_quat_t := wire_read data in
  imu_update t p now src (fun m => {| m with orientation := {| q_w := dmul (dof_Z (iq_qw q)) kQ15; q_x := dmul (dof_Z (iq_qx q)) kQ15;
    q_y := dmul (dof_Z (iq_qy q)) kQ15; q_z := dmul (dof_Z (iq_qz q)) kQ15 |} |}).

Definition on_imu_acc (t : TelemSynth) (p : imu_params) (now src : Z) (data : list Z) : TelemSynth * list published :=
  let a : ps_imu_acc_t := wire_read data in
  imu_update t p now src (fun m => {| m with linear_acceleration :=
    {| v_x := dmul (dof_Z (ia_ax a)) kMgToMs2; v_y := dmul (dof_Z (ia_ay a)) kMgToMs2; v_z := dmul (dof_Z (ia_az a)) kMgToMs2 |} |}).

Definition on_imu_gyr (t : TelemSynth) (p : imu_params) (now src : Z) (data : list Z) : TelemSynth * list published :=
  let g : ps_imu_gyr_t := wire_read data in
  imu_update t p now src (fun m => {| m with angular_velocity :=
    {| v_x := dmul (dof_Z (ig_gx g)) kDdpsToRadS; v_y := dmul (dof_Z (ig_gy g)) kDdpsToRadS; v_z := dmul (dof_Z (ig_gz g)) kDdpsToRadS |} |}).

(** ** Forces, battery, aerodynamics *)

(** [x * 0.01f] of a 16-bit field. *)
Definition hundredth_f (x : Z) : f32 := fmul (of_Z x) (flit 1 100).

Definition on_force (t : TelemSynth) (src : Z) (data : list Z) : TelemSynth * list published :=
  let limb := limb_index src in
  if limb <? 0 then (t, []) else
  let f : ps_force_t := wire_read data in
  (t, [PubForce limb [hundredth_f (fo_ch0 f); hundredth_f (fo_ch1 f); hundredth_f (fo_ch2 f); hundredth_f (fo_ch3 f)]]).

Definition publish_bms_locked (t : TelemSynth) (now : Z) : TelemSynth * list published :=
  if negb (bms_any_ t) then (t, []) else
  let m := bms_msg_ t in let m := {| m with b_stamp := now |} in ({| t with bms_msg_ := m |}, [PubBms m]).

Definition on_bms_summary (t : TelemSynth) (now : Z) (data : list Z) : TelemSynth * list published :=
  let s : ps_bms_summary_t := wire_read data in
  let m := bms_msg_ t in
  publish_bms_locked {| t with bms_msg_ := {| m with pack_v := hundredth_f (bs_pack_cV s); current_a := hundredth_f (bs_current_cA s);
      soc_pct := bs_soc_pct s; temp_max_c := bs_temp_max_C s; fault_bits := bs_fault_bits s |}; bms_any_ := true |} now.

(** [cell_v.resize(base + 3, 0.0f)] where it is shorter. *)
Definition grow (n : nat) (l : list f32) : list f32 := l ++ replicate (n - length l) f_zero.

Definition on_bms_cells (t : TelemSynth) (now : Z) (data : list Z) : TelemSynth * list published :=
  let c : ps_bms_cells_t := wire_read data in
  let base := (Z.to_nat (bc_group c) * 3)%nat in
  let volts mv := fdiv (of_Z mv) (of_Z 1000) in
  let m := bms_msg_ t in
  let v := grow (base + 3) (cell_v m) in
  let v := <[(base + 2)%nat := volts (bc_mv2 c)]> (<[(base + 1)%nat := volts (bc_mv1 c)]> (<[base := volts (bc_mv0 c)]> v)) in
  publish_bms_locked {| t with bms_msg_ := {| m with cell_v := v |}; bms_any_ := true |} now.

Definition publish_aero_locked (t : TelemSynth) : list published := if negb (aero_any_ t) then [] else [PubAero (aero_state_ t)].

Definition on_aero_state (t : TelemSynth) (data : list Z) : TelemSynth * list published :=
  let a : ps_aero_state_t := wire_read data in
  let s := <[2%nat := hundredth_f (ae_aoa_cdeg a)]> (<[1%nat := of_Z (ae_q_pa a)]> (<[0%nat := hundredth_f (ae_ias_cms a)]> (aero_state_ t))) in
  let t := {| t with aero_state_ := s; aero_any_ := true |} in (t, publish_aero_locked t).

Definition on_flap_state (t : TelemSynth) (data : list Z) : TelemSynth * list published :=
  let f : ps_flap_state_t := wire_read data in
  if 11 <? fs_flap f then (t, []) else
  let t := {| t with aero_state_ := <[(3 + Z.to_nat (fs_flap f))%nat := of_Z (fs_pos_pm f)]> (aero_state_ t); aero_any_ := true |} in
  (t, publish_aero_locked t).

(** ** Diagnostics *)

Definition publish_diag (now : Z) (name : string) (level : Z) (message : string) (kv : list (string * string)) : list published :=
  [PubDiag {| d_stamp := now; d_name := name; d_hardware_id := name; d_level := level; d_message := message; d_values := kv |}].

Definition on_node_stats (now src : Z) (data : list Z) : list published :=
  let s : ps_node_stats_t := wire_read data in
  publish_diag now (node_name src) DIAG_OK "node_stats"
    [("cpu_pct", pretty (ns_cpu_pct s)); ("state", pretty (ns_state s)); ("rx_fps", pretty (ns_rx_fps s));
     ("tx_fps", pretty (ns_tx_fps s)); ("err_cnt", pretty (ns_err_cnt s))]%string.

Definition on_node_fault (now src : Z) (data : list Z) : list published :=
  let f : ps_node_fault_t := wire_read data in
  let level := if nf_severity f =? 1 then DIAG_WARN else if 2 <=? nf_severity f then DIAG_ERROR else DIAG_OK in
  publish_diag now (node_name src) level "node_fault"
    [("fault_code", pretty (nf_fault_code f)); ("detail", pretty (nf_detail f)); ("uptime_ms", pretty (nf_uptime_ms f))]%string.

Definition on_version (now src : Z) (data : list Z) : list published :=
  let v : ps_version_t := wire_read data in
  publish_diag now (node_name src) DIAG_OK "version"
    [("version", pretty (ve_major v) +:+ "." +:+ pretty (ve_minor v) +:+ "." +:+ pretty (ve_patch v));
     ("node_state", pretty (ve_node_state v)); ("git_short", pretty (ve_git_short v))]%string.

(** ** Dispatch *)

Definition TelemSynth_handle (t : TelemSynth) (p : imu_params) (now : Z) (rec : ps_can_record_t) : TelemSynth * list published :=
  let parts := ps_can_id_unpack (r_id rec) in
  let ty := type parts in
  let from := src parts in
  let data := r_data rec in
  if cls parts =? PS_CLS_TELEM then
    if ty =? PS_T_JOINT_STATE then on_joint_state t now from data
    else if ty =? PS_T_IMU_QUAT then on_imu_quat t p now from data
    else if ty =? PS_T_IMU_ACC then on_imu_acc t p now from data
    else if ty =? PS_T_IMU_GYR then on_imu_gyr t p now from data
    else if ty =? PS_T_FORCE then on_force t from data
    else if ty =? PS_T_BMS_SUMMARY then on_bms_summary t now data
    else if ty =? PS_T_BMS_CELLS then on_bms_cells t now data
    else if ty =? PS_T_AERO_STATE then on_aero_state t data
    else if ty =? PS_T_FLAP_STATE then on_flap_state t data
    else if ty =? PS_T_NODE_STATS then (t, on_node_stats now from data)
    else (t, [])
  else if (cls parts =? PS_CLS_SAFETY) && (ty =? PS_T_NODE_FAULT) then (t, on_node_fault now from data)
  else if (cls parts =? PS_CLS_MGMT) && (ty =? PS_T_VERSION) then (t, on_version now from data)
  else (t, []).
