(* ===== verification/TelemSpec.v ===== *)
(** What the telemetry of the orchestrator's bridge promises ([Telem]): every record of the
    suit is handled within the arrays of the state, at most one well-formed message comes
    out, and a measurement changes exactly the entry it belongs to. *)
From stdpp Require Import strings pretty.
From S2P Require Import Prelude CanId Wire SpiFrame Float32 Float64 Telem.

(** ** The type of the state and of the messages *)

Definition joint_ok (a : JointAccum) : Prop := length (ja_pos a) = 2%nat /\ length (ja_vel a) = 2%nat /\ length (ja_eff a) = 2%nat.
Definition cells_ok (v : list f32) : Prop := (length v mod 3 = 0)%nat /\ (length v <= 768)%nat.

Definition telem_ok (t : TelemSynth) : Prop :=
  length (joints_ t) = 4%nat /\ Forall joint_ok (joints_ t) /\ length (limb_imu_ t) = 4%nat /\
  length (aero_state_ t) = 16%nat /\ cells_ok (cell_v (bms_msg_ t)).

Definition pub_ok (p : published) : Prop :=
  match p with
  | PubJoint l m => 0 <= l < 4 /\ length (j_name m) = 2%nat /\ length (j_position m) = 2%nat /\
      length (j_velocity m) = 2%nat /\ length (j_effort m) = 2%nat /\ j_frame_id m = limb_name l
  | PubImu l m => -1 <= l < 4 /\ length (orientation_cov m) = 9%nat /\ length (angular_cov m) = 9%nat /\ length (linear_cov m) = 9%nat
  | PubForce l d => 0 <= l < 4 /\ length d = 4%nat
  | PubAero d => length d = 16%nat
  | PubBms m => cells_ok (cell_v m)
  | PubDiag m => DIAG_OK <= d_level m <= DIAG_ERROR /\ d_hardware_id m = d_name m
  | PubSafety m => True
  end.

(** The result of a handler: a state of the type, and at most one message of the type. *)
Definition result_ok (r : TelemSynth * list published) : Prop := telem_ok r.1 /\ (length r.2 <= 1)%nat /\ Forall pub_ok r.2.

Lemma limb_index_range src : -1 <= limb_index src < 4.
Proof. unfold limb_index. ifs; lia. Qed.

Lemma result_quiet t : telem_ok t -> result_ok (t, []).
Proof. intros. split_and!; [done|cbn; lia|constructor]. Qed.

Lemma result_one t p : telem_ok t -> pub_ok p -> result_ok (t, [p]).
Proof. intros. split_and!; [done|cbn; lia|by constructor]. Qed.

Lemma wire_fields {A} `{WireStruct A} (data : list Z) : length data = 8%nat -> Forall is_u8 data -> wire_ok (wire_read (A := A) data).
Proof.
  intros Hl Hb. unfold wire_ok, wire_read. pose proof (dec_ok ws_layout data Hb) as D. pose proof (ws_fits (A := A)).
  rewrite ws_fields_make; [apply D; lia|]. symmetry. apply all_ok_length, D. lia.
Qed.

Lemma joint_state_ok t now src data : telem_ok t -> length data = 8%nat -> Forall is_u8 data -> result_ok (on_joint_state t now src data).
Proof.
  intros Hok Hl Hb. unfold on_joint_state. pose proof (limb_index_range src). destruct (Z.ltb_spec (limb_index src) 0); [by apply result_quiet|].
  destruct (Z.ltb_spec 1 (js_joint (wire_read data))); [by apply result_quiet|].
  destruct Hok as (T1 & T2 & T3 & T4 & T5). apply result_one; [|cbn; split_and!; done || lia].
  split_and!; try done; cbn [joints_]; [by rewrite length_insert|]. apply Forall_insert; [done|].
  destruct (Forall_total _ _ (Z.to_nat (limb_index src)) T2 ltac:(lia)) as (L1 & L2 & L3).
  unfold joint_ok. cbn. by rewrite !length_insert.
Qed.

Lemma imu_update_ok t p now src f : telem_ok t -> result_ok (imu_update t p now src f).
Proof.
  intros (T1 & T2 & T3 & T4 & T5). unfold imu_update, publish_imu. pose proof (limb_index_range src).
  destruct (Z.leb_spec 0 (limb_index src)); [|destruct (src =? PS_NODE_FLIGHT)].
  - apply result_one; [|cbn; split_and!; done || lia]. split_and!; try done. cbn. by rewrite length_insert.
  - apply result_one; [by split_and!|cbn; split_and!; done || lia].
  - apply result_quiet. by split_and!.
Qed.

Lemma bms_publish_ok t now : telem_ok t -> result_ok (publish_bms_locked t now).
Proof.
  intros (T1 & T2 & T3 & T4 & T5). unfold publish_bms_locked. destruct (negb (bms_any_ t)); [apply result_quiet; by split_and!|].
  apply result_one; [by split_and!|exact T5].
Qed.

Lemma cells_handler_ok t now data : telem_ok t -> length data = 8%nat -> Forall is_u8 data -> result_ok (on_bms_cells t now data).
Proof.
  intros (T1 & T2 & T3 & T4 & T5) Hl Hb. unfold on_bms_cells. apply bms_publish_ok. split_and!; try done. cbn [bms_msg_ cell_v].
  destruct T5 as [Hm Hc]. unfold cells_ok, grow. rewrite !length_insert, length_app, length_replicate.
  assert (is_u8 (bc_group (wire_read data))) as Hg by exact (proj1 (wire_fields (A := ps_bms_cells_t) data Hl Hb)).
  set (g := Z.to_nat (bc_group (wire_read data))). assert (g < 256)%nat as Hg' by (subst g; clia).
  set (n := length (cell_v (bms_msg_ t))) in *. destruct (decide (g * 3 + 3 <= n)%nat).
  - replace (n + (g * 3 + 3 - n))%nat with n by lia. done.
  - replace (n + (g * 3 + 3 - n))%nat with ((g + 1) * 3)%nat by lia. split; [|lia]. by apply Nat.Div0.mod_mul.
Qed.

Lemma aero_publish_ok t : telem_ok t -> result_ok (t, publish_aero_locked t).
Proof.
  intros Hok. unfold publish_aero_locked. destruct (negb (aero_any_ t)); [by apply result_quiet|]. apply result_one; [done|apply Hok].
Qed.

(** Every record the parser can deliver, of any class, type and source and with any
    bytes, is handled inside the arrays of the state (four limbs of two joints, sixteen
    aerodynamic values, whole groups of cells, at most 768 of them), and at most one message
    is published, for a limb that exists and with arrays of its topic's length. *)
Theorem telem_handles_any t p now rec : telem_ok t -> length (r_data rec) = 8%nat -> Forall is_u8 (r_data rec) ->
  result_ok (TelemSynth_handle t p now rec).
Proof.
  intros Hok Hl Hb. unfold TelemSynth_handle.
  repeat match goal with |- context [if ?b then _ else _] => destruct b end; try (by apply result_quiet);
    try (by apply joint_state_ok); try (by apply imu_update_ok); try (by apply cells_handler_ok).
  - unfold on_force. pose proof (limb_index_range (src (ps_can_id_unpack (r_id rec)))).
    destruct (Z.ltb_spec (limb_index (src (ps_can_id_unpack (r_id rec)))) 0); [by apply result_quiet|]. apply result_one; [done|]. cbn [pub_ok]. split; [lia|done].
  - apply bms_publish_ok. destruct Hok as (T1 & T2 & T3 & T4 & T5). by split_and!.
  - apply aero_publish_ok. destruct Hok as (T1 & T2 & T3 & T4 & T5). split_and!; try done. cbn. by rewrite !length_insert.
  - unfold on_flap_state. ifs; [by apply result_quiet|]. apply aero_publish_ok. destruct Hok as (T1 & T2 & T3 & T4 & T5).
    split_and!; try done. cbn. by rewrite !length_insert.
  - apply result_one; [done|]. cbn. unfold DIAG_OK, DIAG_ERROR. split; [lia|done].
  - apply result_one; [done|]. cbn [publish_diag pub_ok d_level d_hardware_id d_name]. unfold DIAG_OK, DIAG_WARN, DIAG_ERROR. split; [ifs; lia|done].
  - apply result_one; [done|]. cbn. unfold DIAG_OK, DIAG_ERROR. split; [lia|done].
Qed.

(** ** A measurement changes its own entry *)

(** A record with a given class, type and sender, and a struct as its data. *)
Definition struct_rec {A} `{WireStruct A} (c ty from : Z) (x : A) (rec : ps_can_record_t) : Prop :=
  ps_can_id_cls (r_id rec) = c /\ ps_can_id_type (r_id rec) = ty /\ ps_can_id_src (r_id rec) = from /\
  wire_ok x /\ r_data rec = wire_write x.

Lemma struct_rec_read {A} `{WireStruct A} c ty from (x : A) rec : struct_rec c ty from x rec -> wire_read (r_data rec) = x.
Proof.
  intros (_ & _ & _ & Hw & ->). rewrite <- (app_nil_r (wire_write x)). by apply wire_read_write_app.
Qed.

(** Opens a dispatch on a record of known class and type. *)
Ltac dispatch H := unfold TelemSynth_handle;
  match type of H with struct_rec _ _ _ _ ?rec =>
    change (cls (ps_can_id_unpack (r_id rec))) with (ps_can_id_cls (r_id rec));
    change (type (ps_can_id_unpack (r_id rec))) with (ps_can_id_type (r_id rec));
    change (src (ps_can_id_unpack (r_id rec))) with (ps_can_id_src (r_id rec));
    rewrite (proj1 H), (proj1 (proj2 H)), (proj1 (proj2 (proj2 H))); cbn [Z.eqb Pos.eqb PS_CLS_TELEM PS_T_JOINT_STATE PS_T_IMU_QUAT PS_T_IMU_ACC PS_T_IMU_GYR PS_T_FORCE
      PS_T_BMS_SUMMARY PS_T_BMS_CELLS PS_T_AERO_STATE PS_T_FLAP_STATE] end.

Definition pos_of (t : TelemSynth) (limb joint : nat) : f64 := ja_pos (joints_ t !!! limb) !!! joint.
Definition volts (mv : Z) : f32 := fdiv (of_Z mv) (of_Z 1000).

Lemma joint_exact t p now rec from (js : ps_joint_state_t) l : telem_ok t -> struct_rec PS_CLS_TELEM PS_T_JOINT_STATE from js rec ->
  limb_index from = Z.of_nat l -> 0 <= js_joint js <= 1 ->
  let '(t', out) := TelemSynth_handle t p now rec in
  (forall l' j, (l' < 4)%nat -> (j < 2)%nat ->
     pos_of t' l' j = if decide (l' = l /\ Z.of_nat j = js_joint js) then hundredth (js_pos_crad js) else pos_of t l' j) /\
  (exists m, out = [PubJoint (Z.of_nat l) m] /\ j_position m = [pos_of t' l 0; pos_of t' l 1]).
Proof.
  intros (T1 & T2 & _) Hr Hl Hj. pose proof (struct_rec_read _ _ _ _ _ Hr) as Hx. dispatch Hr.
  unfold on_joint_state. rewrite Hx, Hl. pose proof (limb_index_range from).
  destruct (Z.ltb_spec (Z.of_nat l) 0); [lia|]. destruct (Z.ltb_spec 1 (js_joint js)); [lia|]. rewrite Nat2Z.id.
  destruct (Forall_total _ _ l T2 ltac:(lia)) as (L1 & _). split; [|eexists; split; [reflexivity|by rewrite Nat2Z.id]].
  intros l' j Hl' Hj2. unfold pos_of. cbn [joints_]. rewrite lookup_total_insert_dec by lia.
  destruct (decide (l = l')) as [<-|Hne]; cbn [ja_pos].
  - rewrite lookup_total_insert_dec by lia. destruct (decide (Z.to_nat (js_joint js) = j)) as [<-|Hne].
    + rewrite decide_True; [done|]. split; [done|lia].
    + rewrite decide_False; [done|]. intros [_ Hz]. lia.
  - rewrite decide_False; [done|]. by intros [-> _].
Qed.

Lemma cells_exact t p now rec from (c : ps_bms_cells_t) : telem_ok t -> struct_rec PS_CLS_TELEM PS_T_BMS_CELLS from c rec ->
  let v := cell_v (bms_msg_ t) in
  let '(t', out) := TelemSynth_handle t p now rec in
  let v' := cell_v (bms_msg_ t') in
  let base := (3 * Z.to_nat (bc_group c))%nat in
  length v' = Nat.max (length v) (base + 3) /\
  (forall i, (i < length v')%nat -> v' !!! i =
     if decide (i = base) then volts (bc_mv0 c) else if decide (i = base + 1)%nat then volts (bc_mv1 c)
     else if decide (i = base + 2)%nat then volts (bc_mv2 c) else if decide (i < length v)%nat then v !!! i else f_zero) /\
  (exists m, out = [PubBms m] /\ cell_v m = v').
Proof.
  intros _ Hr. pose proof (struct_rec_read _ _ _ _ _ Hr) as Hx. dispatch Hr. unfold on_bms_cells. rewrite Hx. cbv zeta.
  unfold publish_bms_locked. cbn [bms_any_ negb]. cbv beta iota zeta. cbn [bms_msg_ cell_v]. rewrite (Nat.mul_comm (Z.to_nat (bc_group c)) 3).
  set (base := (3 * Z.to_nat (bc_group c))%nat). set (v := cell_v (bms_msg_ t)).
  assert (length (grow (base + 3) v) = Nat.max (length v) (base + 3)) as Hg.
  { unfold grow. rewrite length_app, length_replicate. lia. }
  rewrite !length_insert, Hg. split_and!; [done| |eexists; split; [reflexivity|done]].
  intros i Hi. rewrite !lookup_total_insert_dec by (rewrite ?length_insert, Hg; lia). unfold volts.
  repeat case_decide; subst; try lia; try done.
  - unfold grow. by rewrite lookup_total_app_l by lia.
  - unfold grow. rewrite lookup_total_app_r by lia. by rewrite lookup_total_replicate_2 by lia.
Qed.

Lemma flap_exact t p now rec from (f : ps_flap_state_t) : telem_ok t -> struct_rec PS_CLS_TELEM PS_T_FLAP_STATE from f rec ->
  0 <= fs_flap f <= 11 ->
  let '(t', out) := TelemSynth_handle t p now rec in
  (forall i, (i < 16)%nat -> aero_state_ t' !!! i = if decide (Z.of_nat i = 3 + fs_flap f) then of_Z (fs_pos_pm f) else aero_state_ t !!! i) /\
  out = [PubAero (aero_state_ t')].
Proof.
  intros (_ & _ & _ & T4 & _) Hr Hf. pose proof (struct_rec_read _ _ _ _ _ Hr) as Hx. dispatch Hr. unfold on_flap_state. rewrite Hx.
  destruct (Z.ltb_spec 11 (fs_flap f)); [lia|]. split; [|done]. intros i Hi. cbn [aero_state_].
  rewrite lookup_total_insert_dec by lia. repeat case_decide; done || lia.
Qed.

Definition run_telem (t : TelemSynth) (p : imu_params) (now : Z) (recs : list ps_can_record_t) : TelemSynth :=
  fold_left (fun t rec => (TelemSynth_handle t p now rec).1) recs t.

(** The three cells of a group hold what its record said. *)
Definition holds_group (v : list f32) (c : ps_bms_cells_t) : Prop :=
  let base := (3 * Z.to_nat (bc_group c))%nat in
  (base + 3 <= length v)%nat /\ v !!! base = volts (bc_mv0 c) /\ v !!! (base + 1)%nat = volts (bc_mv1 c) /\ v !!! (base + 2)%nat = volts (bc_mv2 c).

Lemma cells_step t p now rec c : telem_ok t -> struct_rec PS_CLS_TELEM PS_T_BMS_CELLS PS_NODE_HUB c rec ->
  let t' := (TelemSynth_handle t p now rec).1 in
  telem_ok t' /\ holds_group (cell_v (bms_msg_ t')) c /\
  (forall d, 0 <= bc_group d -> bc_group d <> bc_group c -> holds_group (cell_v (bms_msg_ t)) d -> holds_group (cell_v (bms_msg_ t')) d).
Proof.
  intros Hok Hr. cbv zeta. pose proof (cells_exact t p now rec PS_NODE_HUB c Hok Hr) as Hx. cbv zeta in Hx.
  destruct Hr as (_ & _ & _ & Hw & Hd). assert (0 <= bc_group c) as Hg by (destruct Hw as [[? ?] _]; done).
  assert (telem_ok (TelemSynth_handle t p now rec).1) as Hok'.
  { apply telem_handles_any; [done|rewrite Hd; exact (length_wire_write c Hw)|rewrite Hd; apply enc_u8]. }
  destruct (TelemSynth_handle t p now rec) as [t' out]. destruct Hx as (X1 & X2 & _). cbn [fst] in *.
  set (v := cell_v (bms_msg_ t)) in *. set (v' := cell_v (bms_msg_ t')) in *. split; [done|]. unfold holds_group. split.
  - split; [lia|]. rewrite !X2 by lia. split_and!; repeat case_decide; done || lia.
  - intros d Hd0 Hne (B1 & B2 & B3 & B4). split; [lia|]. rewrite !X2 by lia. split_and!; repeat case_decide; done || lia.
Qed.

Lemma cells_rotation p now recs : forall t cs, telem_ok t -> Forall2 (fun rec c => struct_rec PS_CLS_TELEM PS_T_BMS_CELLS PS_NODE_HUB c rec) recs cs ->
  NoDup (bc_group <$> cs) -> forall done, Forall (fun d => 0 <= bc_group d /\ (bc_group d ∉ (bc_group <$> cs)) /\ holds_group (cell_v (bms_msg_ t)) d) done ->
  Forall (holds_group (cell_v (bms_msg_ (run_telem t p now recs)))) (done ++ cs).
Proof.
  induction recs as [|rec recs IH]; intros t cs Hok Hf Hnd ds Hds; inversion Hf as [|? c ? cs' Hr Hf']; subst; cbn [run_telem fold_left].
  { rewrite app_nil_r. eapply Forall_impl; [|exact Hds]. by intros d (_ & _ & ?). }
  fold (run_telem (TelemSynth_handle t p now rec).1 p now recs). destruct (cells_step t p now rec c Hok Hr) as (S1 & S2 & S3).
  rewrite fmap_cons in Hnd. apply list.NoDup_cons in Hnd as [Hni Hnd].
  replace (ds ++ c :: cs') with ((ds ++ [c]) ++ cs') by (by rewrite <- app_assoc).
  apply IH; [done..|]. apply Forall_app. split.
  - eapply Forall_impl; [|exact Hds]. intros d (D1 & D2 & D3). rewrite fmap_cons, not_elem_of_cons in D2. destruct D2 as [D2 D2'].
    split_and!; [done..|]. by apply S3.
  - constructor; [|done]. destruct Hr as (_ & _ & _ & [[? _] _] & _). by split_and!.
Qed.

(** A measurement changes exactly the entry it belongs to.  A joint state of a limb
    replaces the value of its joint and of no other, and the message published carries
    both joints of that limb; a flap report replaces the value of its flap and of nothing
    else in the aerodynamic vector; and the groups of cell voltages the hub sends in turn,
    in any order, add up to the whole pack: after them every cell has its own reading. *)
Theorem telem_updates_exactly t p now : telem_ok t ->
  (forall rec from js l, struct_rec PS_CLS_TELEM PS_T_JOINT_STATE from js rec -> limb_index from = Z.of_nat l -> 0 <= js_joint js <= 1 ->
     let '(t', out) := TelemSynth_handle t p now rec in
     (forall l' j, (l' < 4)%nat -> (j < 2)%nat ->
        pos_of t' l' j = if decide (l' = l /\ Z.of_nat j = js_joint js) then hundredth (js_pos_crad js) else pos_of t l' j) /\
     (exists m, out = [PubJoint (Z.of_nat l) m] /\ j_position m = [pos_of t' l 0; pos_of t' l 1])) /\
  (forall rec from f, struct_rec PS_CLS_TELEM PS_T_FLAP_STATE from f rec -> 0 <= fs_flap f <= 11 ->
     let '(t', out) := TelemSynth_handle t p now rec in
     (forall i, (i < 16)%nat -> aero_state_ t' !!! i = if decide (Z.of_nat i = 3 + fs_flap f) then of_Z (fs_pos_pm f) else aero_state_ t !!! i) /\
     out = [PubAero (aero_state_ t')]) /\
  (forall recs cs, Forall2 (fun rec c => struct_rec PS_CLS_TELEM PS_T_BMS_CELLS PS_NODE_HUB c rec) recs cs -> NoDup (bc_group <$> cs) ->
     Forall (holds_group (cell_v (bms_msg_ (run_telem t p now recs)))) cs).
Proof.
  intros Hok. split_and!.
  - intros rec from js l Hr Hl Hj. by eapply joint_exact.
  - intros rec from f Hr Hf. by eapply flap_exact.
  - intros recs cs Hf Hnd. by apply (cells_rotation p now recs t cs Hok Hf Hnd []).
Qed.

(** A fresh bridge, and the first two groups of cells. *)
Definition demo_telem : TelemSynth :=
  TelemSynth_new Imu_zero {| b_stamp := 0; pack_v := f_zero; current_a := f_zero; soc_pct := 0; temp_max_c := 0; fault_bits := 0; cell_v := [] |}
    {| ss_stamp := 0; ss_state := 0; ss_estop_latched := false; ss_heartbeat_ok := false; ss_estop_cause := 0; ss_source := EmptyString |}.
Definition demo_params : imu_params :=
  {| orientation_stddev := dlit 2 100; angular_velocity_stddev := dlit 1 100; linear_acceleration_stddev := dlit 10 100 |}.
Definition demo_group (g : Z) : ps_bms_cells_t := {| bc_group := g; bc_rsvd := 0; bc_mv0 := 3700; bc_mv1 := 3701; bc_mv2 := 3702 |}.
Definition group_record (g : Z) : ps_can_record_t :=
  {| r_id := ps_can_id_pack PS_CLS_TELEM PS_NODE_HUB PS_NODE_ORCH PS_T_BMS_CELLS g; r_bus := PS_SPI_BUS_HUB_LOCAL; r_dlc := 8; r_ts_ms := 0;
     r_data := wire_write (demo_group g) |}.

Lemma demo_telem_ok : telem_ok demo_telem.
Proof. unfold telem_ok, cells_ok. cbn. split_and!; try done; try lia. repeat constructor. Qed.

Lemma telem_handles_any_witness : result_ok (TelemSynth_handle demo_telem demo_params 5 (group_record 255)).
Proof.
  apply (telem_handles_any demo_telem demo_params 5 (group_record 255)); [exact demo_telem_ok|reflexivity|].
  apply Forall_u8_check. vm_compute. reflexivity.
Defined.

Lemma telem_updates_exactly_witness :
  Forall (holds_group (cell_v (bms_msg_ (run_telem demo_telem demo_params 5 [group_record 1; group_record 0])))) [demo_group 1; demo_group 0].
Proof.
  destruct (telem_updates_exactly demo_telem demo_params 5 demo_telem_ok) as (_ & _ & H).
  apply (H [group_record 1; group_record 0]).
  - repeat constructor; cbn; unfold fok; cbn; clia.
  - vm_compute. apply list.NoDup_cons. split; [intros E; inversion E as [|? ? ? E']; inversion E'|apply NoDup_singleton].
Defined.
