(* ===== verification/Orch.v ===== *)
(** The bridge process of the orchestrator
    (src/orchestrator/ros2_ws/src/suit_canspi_bridge/src/main.cpp): the transport thread
    and the callbacks that run beside it.

    A turn of the transport thread is four steps, because it reads state the callbacks
    write: it gathers what is queued, samples the latches and ticks the heartbeat, reports
    the safety state, and exchanges a frame with the hub and dispatches what came back.
    A call of the e-stop service is its computation followed by one step per effect.  Any
    interleaving of these steps is a run.  A step that has no defined outcome (a
    conversion that overflows, a decoder outside its table, a system call that does not
    return) is not taken: [None]. *)
From stdpp Require Import strings gmap.
From S2P Require Import Prelude CanId Wire SpiFrame Float32 Float64 Bridge Rtos Txq Can Uros Demux Adpcm Audio Relay Telem.

Section Orch.
Context `{SpiTransport}.

(** Where the transport thread is: between turns, or with a batch in its hands. *)
Inductive turn :=
  | TIdle
  | TGathered (now : Z) (batch : list ps_can_record_t)
  | TSampled (now : Z) (batch : list ps_can_record_t) (latched beat : bool) (src_state : Z)
  | TReported (now : Z) (batch : list ps_can_record_t) (latched : bool).

Record sys := {
  o_link : link; o_xrce : XrceDemux; o_parser : FrameParser; o_telem : TelemSynth; o_audio : AudioRelay;
  o_heartbeat : HeartbeatEmitter; o_queue : outbound; o_cloud_up : bool; o_external_latched : bool;
  o_estop : EstopService; o_files : files; o_pending : list effect;
  o_turn : turn; o_last_good : Z; o_node_start : Z; o_rx : list Z }.

(** What a run shows: records that enter the bridge's care, heartbeats, frames offered to
    the hub and whether the exchange worked, good frames from the hub, latches seen in
    them, and what leaves on the other side. *)
Inductive event :=
  | EIn (recs : list ps_can_record_t)
  | EBeat (now : Z) (rec : ps_can_record_t)
  | EFrame (flags : Z) (recs : list ps_can_record_t) (tx : list Z) (ok : bool)
  | EGood (now : Z)
  | EExternal (latched : bool)
  | ETty (node : Z) (bytes : list Z)
  | EVoice (c : AudioChunk)
  | EPub (m : published).

(** ** Callbacks *)

Definition push (s : sys) (recs : list ps_can_record_t) : sys * list event :=
  ({| s with o_queue := outbound_push (o_queue s) recs |}, [EIn recs]).

(** A call of the service: it computes its answer; its effects on shared state follow. *)
Definition call_estop (s : sys) (e : fs_env) (engage : bool) (reason : string) (now : nat -> Z) : option (sys * list event) :=
  if bool_decide (o_pending s = []) then
    let '(svc, fs, effs, _) := EstopService_handle (o_estop s) e (o_files s) engage reason now in
    Some ({| s with o_estop := {| svc with latched_ := latched_ (o_estop s); latched_cause_ := latched_cause_ (o_estop s) |};
                    o_files := fs; o_pending := effs |}, [])
  else None.

Definition do_effect (s : sys) : option (sys * list event) :=
  match o_pending s with
  | [] => None
  | SetLatched b :: effs => let svc := o_estop s in Some ({| s with o_estop := {| svc with latched_ := b |}; o_pending := effs |}, [])
  | SetCause c :: effs => let svc := o_estop s in Some ({| s with o_estop := {| svc with latched_cause_ := c |}; o_pending := effs |}, [])
  | Emit recs :: effs => Some (push {| s with o_pending := effs |} recs)
  end.

(** ** The transport thread *)

Definition gather (s : sys) (now rc : Z) (reads : nat -> option (list Z)) : option (sys * list event) :=
  match o_turn s with
  | TIdle =>
    let polled := poll_outbound (o_xrce s) rc reads in
    let '(audio, voice) := drain_outbound (o_audio s) in
    let '(q, cmds) := outbound_drain (o_queue s) PS_SPI_MAX_RECORDS in
    Some ({| s with o_audio := audio; o_queue := q; o_turn := TGathered now (polled ++ voice ++ cmds) |}, [EIn (polled ++ voice)])
  | _ => None
  end.

Definition healthy (s : sys) (now : Z) : bool := to_ms (now - o_last_good s) <? PS_HEARTBEAT_TIMEOUT_MS * 2.
Definition state_of (latched ok : bool) : Z :=
  if latched then PS_STATE_ESTOP else if ok then PS_STATE_OPERATIONAL else PS_STATE_PASSIVE.

(** [clock]: the node's clock; [ros_ok]: [rclcpp::ok()]. *)
Definition sample (s : sys) (clock : Z) (ros_ok : bool) : option (sys * list event) :=
  match o_turn s with
  | TGathered now batch =>
    let ok := healthy s now in
    let latched := latched_ (o_estop s) || o_external_latched s in
    let src_state := state_of latched ok in
    let uptime := u32 (to_ms (clock - o_node_start s)) in
    let g := {| transport_healthy := ok; estop_latched := latched; rclcpp_ok := ros_ok |} in
    let '(hb, rec) := HeartbeatEmitter_tick (o_heartbeat s) now g (o_cloud_up s) (negb ok) src_state uptime in
    let s := {| s with o_heartbeat := hb |} in
    Some (match rec with
          | Some r => ({| s with o_turn := TSampled now (batch ++ [r]) latched true src_state |}, [EIn [r]; EBeat now r])
          | None => ({| s with o_turn := TSampled now batch latched false src_state |}, [])
          end)
  | _ => None
  end.

Definition report (s : sys) : option (sys * list event) :=
  match o_turn s with
  | TSampled now batch latched beat src_state =>
    Some ({| s with o_telem := set_safety_state (o_telem s) src_state latched beat
                      (if latched then latched_cause_ (o_estop s) else 0)
                      (if latched_ (o_estop s) then "operator" else "bridge");
                    o_turn := TReported now batch latched |}, [])
  | _ => None
  end.

(** The cap on a batch: what is sent, what goes back to the queue, the flags. *)
Definition cap (batch : list ps_can_record_t) (latched : bool) : list ps_can_record_t * list ps_can_record_t * Z :=
  let over := (PS_SPI_MAX_RECORDS <? length batch)%nat in
  (if over then take PS_SPI_MAX_RECORDS batch else batch, if over then drop PS_SPI_MAX_RECORDS batch else [],
   (if over then PS_SPIF_MORE_PENDING else 0) .| (if latched then PS_SPIF_ESTOP_LATCHED else 0)).

(** One inbound record; [rets]: the answers of [write] for it. *)
Definition dispatch_record (s : sys) (p : imu_params) (clock : Z) (rec : ps_can_record_t) (rets : list wret) : option (sys * list event) :=
  let parts := ps_can_id_unpack (r_id rec) in
  let telem := let '(t, pubs) := TelemSynth_handle (o_telem s) p clock rec in Some ({| s with o_telem := t |}, EPub <$> pubs) in
  if cls parts =? PS_CLS_TELEM then telem
  else if cls parts =? PS_CLS_XRCE then
    '(_, bytes) ← write_inbound (o_xrce s) (src parts) (r_data rec) (Z.to_nat (r_dlc rec)) rets; Some (s, [ETty (src parts) bytes])
  else if cls parts =? PS_CLS_AUDIO then
    '(a, c) ← handle_uplink_record (o_audio s) rec; Some ({| s with o_audio := a |}, EVoice <$> option_list c)
  else if cls parts =? PS_CLS_SAFETY then
    if type parts =? PS_T_ESTOP then Some ({| s with o_external_latched := true |}, [EExternal true])
    else if type parts =? PS_T_CLEAR_ESTOP then Some ({| s with o_external_latched := false |}, [EExternal false])
    else if type parts =? PS_T_NODE_FAULT then telem
    else Some (s, [])
  else if cls parts =? PS_CLS_MGMT then telem
  else Some (s, []).

(** The inbound records in order; [rets i]: the answers of [write] for record [i]. *)
Fixpoint dispatch (s : sys) (p : imu_params) (clock : Z) (recs : list ps_can_record_t) (i : nat) (rets : nat -> list wret) :
    option (sys * list event) :=
  match recs with
  | [] => Some (s, [])
  | r :: recs =>
    '(s, e) ← dispatch_record s p clock r (rets i); '(s, es) ← dispatch s p clock recs (S i) rets; Some (s, e ++ es)
  end.

(** What follows a successful exchange. *)
Definition receive (s : sys) (now : Z) (p : imu_params) (clock : Z) (rets : nat -> list wret) : option (sys * list event) :=
  let '(parser, result, recs, _) := FrameParser_parse (o_parser s) (o_rx s) (length (o_rx s)) in
  let s := {| s with o_parser := parser |} in
  let '(s, good) := if bool_decide (result = kError) then (s, []) else ({| s with o_last_good := now |}, [EGood now]) in
  if bool_decide (result = kOk) then '(s, es) ← dispatch s p clock recs 0 rets; Some (s, good ++ es) else Some (s, good).

Definition exchange (s : sys) (a : answers) (p : imu_params) (clock : Z) (rets : nat -> list wret) : option (sys * list event) :=
  match o_turn s with
  | TReported now batch latched =>
    let '(batch, overflow, flags) := cap batch latched in
    let '(parser, (tx, _)) := FrameParser_build (o_parser s) (replicate PS_SPI_XFER_SIZE 0) flags batch in
    '(ok, rx) ← (xfer (o_link s) a tx (o_rx s)).2;
    let s := {| s with o_parser := parser; o_queue := outbound_push (o_queue s) overflow; o_turn := TIdle; o_rx := rx |} in
    let frame := EFrame flags batch tx ok in
    if ok then '(s, es) ← receive s now p clock rets; Some (s, frame :: es) else Some (s, [frame])
  | _ => None
  end.

(** The end of a turn: the time of the next one and the milliseconds [wait_data_ready] is
    given, if it is called; [now], [now'] are the two readings of the steady clock. *)
Definition pace (next_tick period now now' : Z) : Z * option Z :=
  let next_tick := next_tick + period in
  let sleep_for := next_tick - now in
  if 0 <? sleep_for then (next_tick, Some (to_ms sleep_for)) else (now', None).

(** ** Runs *)

Inductive op :=
  | OpCall (e : fs_env) (engage : bool) (reason : string) (now : nat -> Z)
  | OpEffect
  | OpJoint (node_id : Z) (m : JointTrajectoryPoint)
  | OpFlap (data : list f32)
  | OpLink (connected : bool)
  | OpVoice (m : AudioChunk)
  | OpTimer (now : Z)
  | OpGather (now rc : Z) (reads : nat -> option (list Z))
  | OpSample (clock : Z) (ros_ok : bool)
  | OpReport
  | OpExchange (a : answers) (p : imu_params) (clock : Z) (rets : nat -> list wret).

Definition step (s : sys) (o : op) : option (sys * list event) :=
  match o with
  | OpCall e engage reason now => call_estop s e engage reason now
  | OpEffect => do_effect s
  | OpJoint node_id m => recs ← on_joint_command node_id m; Some (push s recs)
  | OpFlap data => recs ← on_flap_command data; Some (push s recs)
  | OpLink connected => Some ({| s with o_cloud_up := connected |}, [])
  | OpVoice m => Some ({| s with o_audio := on_downlink (o_audio s) m |}, [])
  | OpTimer now => let '(t, pubs) := safety_timer (o_telem s) now in Some ({| s with o_telem := t |}, EPub <$> pubs)
  | OpGather now rc reads => gather s now rc reads
  | OpSample clock ros_ok => sample s clock ros_ok
  | OpReport => report s
  | OpExchange a p clock rets => exchange s a p clock rets
  end.

Fixpoint run_bridge (s : sys) (ops : list op) : option (sys * list event) :=
  match ops with
  | [] => Some (s, [])
  | o :: ops => '(s, e) ← step s o; '(s, es) ← run_bridge s ops; Some (s, e ++ es)
  end.

(** The process after its set-up: [born] is the node's clock when the e-stop service was made,
    [start] when the transport thread began, and [t0] the steady clock then; the last good
    frame is set a second back. *)
Definition bridge_start (l : link) (x : XrceDemux) (telem : TelemSynth) (path : string) (fs : files) (born t0 start : Z) : sys :=
  {| o_link := l; o_xrce := x; o_parser := FrameParser_new; o_telem := telem; o_audio := AudioRelay_new;
     o_heartbeat := HeartbeatEmitter_new; o_queue := []; o_cloud_up := false; o_external_latched := false;
     o_estop := EstopService_new path PS_NODE_ORCH born; o_files := fs; o_pending := [];
     o_turn := TIdle; o_last_good := t0 - 1000 * NS_PER_MS; o_node_start := start; o_rx := replicate PS_SPI_XFER_SIZE 0 |}.

End Orch.
