(* ===== verification/OrchSpec.v ===== *)
(** What the orchestrator's bridge promises ([Orch]), over every interleaving of its
    transport thread and callbacks: what each step does to the records, the history its
    heartbeat gate looks back on, and the form of the frames it offers the hub. *)
From stdpp Require Import strings gmap.
From S2P Require Import Prelude CanId Wire Crc16 SpiFrame Float32 Float64 Bridge BridgeSpec Rtos Txq Can Safety SpiBridge Router Gateway Uros Demux DemuxSpec Adpcm Audio Relay Telem Orch.
From stdpp Require Import list.
#[local] Open Scope Z_scope.
#[local] Open Scope cint_scope.

Section OrchStep.
Context `{SpiTransport}.

(** ** What a step touches *)

(** Events that only concern the far side of the bridge. *)
Definition quiet (e : event) : Prop := match e with EIn _ | EBeat _ _ | EFrame _ _ _ _ | EGood _ => False | _ => True end.

(** The last latch or clear seen in a list of events. *)
Fixpoint external_after (x : bool) (es : list event) : bool :=
  match es with [] => x | EExternal b :: es => external_after b es | _ :: es => external_after x es end.

Lemma external_after_app x a b : external_after x (a ++ b) = external_after (external_after x a) b.
Proof. revert x. induction a as [|[] a IH]; intros x; cbn; auto. Qed.

Lemma external_after_pubs x l : external_after x (EPub <$> l) = x.
Proof. revert x. induction l; intros; cbn; auto. Qed.
Lemma external_after_voice x l : external_after x (EVoice <$> l) = x.
Proof. revert x. induction l; intros; cbn; auto. Qed.

(** The downlink half of the voice relay, which inbound frames do not touch. *)
Definition down_side (a : AudioRelay) := (relay_outbound_ a, encode_state_ a, down_frame_seq_ a).

(** Dispatching changes only telemetry, voice and the external latch. *)
Definition dispatched (s s' : sys) (es : list event) : Prop :=
  (exists t a, s' = {| s with o_telem := t; o_audio := a; o_external_latched := external_after (o_external_latched s) es |} /\
     down_side a = down_side (o_audio s)) /\ Forall quiet es.

Lemma uplink_keeps_queue a rec a' c : handle_uplink_record a rec = Some (a', c) -> down_side a' = down_side a.
Proof.
  unfold handle_uplink_record. repeat case_match; intros [= <- <-]; done.
Qed.

Lemma dispatch_record_spec s p clock rec rets s' es : dispatch_record s p clock rec rets = Some (s', es) -> dispatched s s' es.
Proof.
  unfold dispatch_record. destruct (TelemSynth_handle (o_telem s) p clock rec) as [t pubs].
  assert (Forall quiet (EPub <$> pubs)) as Hq by (apply Forall_fmap, Forall_true; by intros).
  assert (dispatched s {| s with o_telem := t |} (EPub <$> pubs)) as Ht.
  { split; [|done]. exists t, (o_audio s). by rewrite external_after_pubs. }
  destruct (_ =? PS_CLS_TELEM); [by intros [= <- <-]|].
  destruct (_ =? PS_CLS_XRCE).
  { destruct (write_inbound _ _ _ _ _) as [[ok bytes]|]; [|done]. intros [= <- <-].
    split; [|by repeat constructor]. exists (o_telem s), (o_audio s). by destruct s. }
  destruct (_ =? PS_CLS_AUDIO).
  { destruct (handle_uplink_record (o_audio s) rec) as [[a c]|] eqn:E; [|done]. intros [= <- <-].
    split; [|by apply Forall_fmap, Forall_true; intros]. exists (o_telem s), a. rewrite external_after_voice.
    split; [by destruct s|]. by eapply uplink_keeps_queue. }
  destruct (_ =? PS_CLS_SAFETY); [|destruct (_ =? PS_CLS_MGMT); [by intros [= <- <-]|]].
  2: { intros [= <- <-]. split; [|constructor]. exists (o_telem s), (o_audio s). by destruct s. }
  destruct (_ =? PS_T_ESTOP); [|destruct (_ =? PS_T_CLEAR_ESTOP); [|destruct (_ =? PS_T_NODE_FAULT); [by intros [= <- <-]|]]].
  all: intros [= <- <-]; split; [|by repeat constructor]; exists (o_telem s), (o_audio s); by destruct s.
Qed.

Lemma dispatch_spec p clock recs : forall s i rets s' es, dispatch s p clock recs i rets = Some (s', es) -> dispatched s s' es.
Proof.
  induction recs as [|r recs IH]; intros s i rets s' es; cbn [dispatch].
  { intros [= <- <-]. split; [|constructor]. exists (o_telem s), (o_audio s). by destruct s. }
  destruct (dispatch_record s p clock r (rets i)) as [[s1 e1]|] eqn:E1; [|done]. cbn [mbind option_bind].
  destruct (dispatch s1 p clock recs (S i) rets) as [[s2 e2]|] eqn:E2; [|done]. cbn [mbind option_bind]. intros [= <- <-].
  apply dispatch_record_spec in E1 as [(t1 & a1 & -> & Ha1) Q1]. apply IH in E2 as [(t2 & a2 & -> & Ha2) Q2]. cbn in Ha2.
  split; [|by apply Forall_app]. exists t2, a2. rewrite external_after_app. split; [done|congruence].
Qed.

Lemma parse_keeps_tx p buf len : tx_seq_ (FrameParser_parse p buf len).1.1.1 = tx_seq_ p.
Proof. unfold FrameParser_parse. destruct (is_all_zero buf len); [done|]. by destruct (ps_spi_frame_parse buf len). Qed.

(** The rest of a turn after a good exchange. *)
Lemma receive_spec s now p clock rets s' es : receive s now p clock rets = Some (s', es) ->
  exists parser t a es' good, es = good ++ es' /\ Forall quiet es' /\
    s' = {| s with o_parser := parser; o_telem := t; o_audio := a; o_last_good := match good with [] => o_last_good s | _ => now end;
                   o_external_latched := external_after (o_external_latched s) es |} /\
    down_side a = down_side (o_audio s) /\ tx_seq_ parser = tx_seq_ (o_parser s) /\ (good = [] \/ good = [EGood now]).
Proof.
  unfold receive. pose proof (parse_keeps_tx (o_parser s) (o_rx s) (length (o_rx s))) as Htx.
  destruct (FrameParser_parse _ _ _) as [[[parser result] recs] fl]. cbn [fst] in Htx.
  destruct (decide (result = kError)) as [->|Hne].
  { rewrite bool_decide_true, bool_decide_false by done. intros [= <- <-].
    exists parser, (o_telem s), (o_audio s), [], []. split_and!; try done. by left. }
  rewrite (bool_decide_false (result = kError)) by done. destruct (bool_decide (result = kOk)).
  2: { intros [= <- <-]. exists parser, (o_telem s), (o_audio s), [], [EGood now]. split_and!; try done. by right. }
  destruct (dispatch _ _ _ _ _ _) as [[s2 e2]|] eqn:E; [|done]. cbn [mbind option_bind]. intros [= <- <-].
  apply dispatch_spec in E as [(t & a & -> & Ha) Q]. exists parser, t, a, e2, [EGood now]. split_and!; try done. by right.
Qed.

(** An exchange: one frame, its overflow back at the end of the queue, and what came in. *)
Lemma exchange_spec s a p clock rets s' es : exchange s a p clock rets = Some (s', es) ->
  exists now batch latched tx ok es', o_turn s = TReported now batch latched /\
    let '(sent, over, flags) := cap batch latched in
    es = EFrame flags sent tx ok :: es' /\
    tx = (FrameParser_build (o_parser s) (replicate PS_SPI_XFER_SIZE 0) flags sent).2.1 /\
    o_queue s' = o_queue s ++ over /\ o_turn s' = TIdle /\ o_heartbeat s' = o_heartbeat s /\ o_estop s' = o_estop s /\
    o_pending s' = o_pending s /\ down_side (o_audio s') = down_side (o_audio s) /\
    o_external_latched s' = external_after (o_external_latched s) es' /\ o_node_start s' = o_node_start s /\ o_files s' = o_files s /\
    o_xrce s' = o_xrce s /\
    tx_seq_ (o_parser s') = tx_seq_ (FrameParser_build (o_parser s) (replicate PS_SPI_XFER_SIZE 0) flags sent).1 /\
    (length tx = length (o_rx s) -> length (o_rx s') = length (o_rx s)) /\
    ((Forall quiet es' /\ o_last_good s' = o_last_good s) \/ (exists es'', es' = EGood now :: es'' /\ Forall quiet es'' /\ o_last_good s' = now)).
Proof.
  unfold exchange. destruct (o_turn s) as [| | |now batch latched]; try done.
  destruct (cap batch latched) as [[sent over] flags] eqn:Ecap.
  destruct (FrameParser_build _ _ _ _) as [parser [tx used]] eqn:Eb.
  destruct (xfer (o_link s) a tx (o_rx s)).2 as [[ok rx]|] eqn:Ex; [|done].
  assert (length tx = length (o_rx s) -> length rx = length (o_rx s)) as Hrx by (intros Hl; by eapply xfer_length). cbn [mbind option_bind]. destruct ok.
  - destruct (receive _ _ _ _ _) as [[s2 e2]|] eqn:E; [|done]. cbn [mbind option_bind]. intros [= <- <-].
    apply receive_spec in E as (pa & t & au & e' & good & -> & Q & -> & Ha & Htx & Hg).
    exists now, batch, latched, tx, true, (good ++ e'). rewrite Ecap, Eb. split_and!; try done.
    destruct Hg as [->| ->]; [by left|]. right. by exists e'.
  - intros [= <- <-]. exists now, batch, latched, tx, false, []. rewrite Ecap, Eb. split_and!; try done. by left.
Qed.


Lemma run_cons s o ops s' es : run_bridge s (o :: ops) = Some (s', es) ->
  exists s1 e1 e2, step s o = Some (s1, e1) /\ run_bridge s1 ops = Some (s', e2) /\ es = e1 ++ e2.
Proof.
  cbn [run_bridge]. destruct (step s o) as [[s1 e1]|]; [|done]. cbn [mbind option_bind].
  destruct (run_bridge s1 ops) as [[s2 e2]|] eqn:E; [|done]. intros [= <- <-]. by exists s1, e1, e2.
Qed.
End OrchStep.

(** The steps one by one, each inverted: the goals are the call, the three effects, the
    joint and flap commands, link, voice, timer, gathering, sampling with and without a
    heartbeat, reporting, and the exchange as [exchange_spec] has it. *)
Ltac step_cases :=
  match goal with |- step ?s ?o = Some _ -> _ =>
    destruct o; cbn [step];
    [ unfold call_estop; case_bool_decide; [|done]; destruct (EstopService_handle _ _ _ _ _ _) as [[[svc fs] effs] dt] eqn:Ecall; intros [= <- <-]
    | unfold do_effect, push; destruct (o_pending s) as [|[b|c|recs] effs] eqn:Epend; [done|..]; intros [= <- <-]
    | unfold push; destruct (on_joint_command _ _) as [recs|] eqn:Ecmd; [|done]; intros [= <- <-]
    | unfold push; destruct (on_flap_command _) as [recs|] eqn:Ecmd; [|done]; intros [= <- <-]
    | intros [= <- <-] | intros [= <- <-]
    | destruct (safety_timer _ _) as [t pubs]; intros [= <- <-]
    | unfold gather; destruct (o_turn s) eqn:Et; try done; destruct (outbound_drain _ _) as [q cmds] eqn:Edrain; intros [= <- <-]
    | unfold sample; destruct (o_turn s) as [|tnow batch| |] eqn:Et; try done;
      destruct (HeartbeatEmitter_tick _ _ _ _ _ _ _) as [hb [hrec|]] eqn:Etick; intros [= <- <-]
    | unfold report; destruct (o_turn s) as [| |tnow batch tl tb st|] eqn:Et; try done; intros [= <- <-]
    | intros Hexch; apply exchange_spec in Hexch as (tnow & batch & tl & tx & ok & es' & Et & Hexch);
      destruct (cap batch tl) as [[sent over] flags] eqn:Ecap ]
  end.

Section OrchSpec.
Context `{SpiTransport}.

(** ** The heartbeat *)

Definition beats (es : list event) : list (Z * ps_can_record_t) :=
  omap (fun e => match e with EBeat now rec => Some (now, rec) | _ => None end) es.
Definition goods (es : list event) : list Z := omap (fun e => match e with EGood now => Some now | _ => None end) es.

Lemma beats_app a b : beats (a ++ b) = beats a ++ beats b.
Proof. apply omap_app. Qed.
Lemma goods_app a b : goods (a ++ b) = goods a ++ goods b.
Proof. apply omap_app. Qed.
Lemma quiet_none es : Forall quiet es -> beats es = [] /\ goods es = [].
Proof. induction 1 as [|[] es Hq _ [IH1 IH2]]; try done. Qed.

Definition emitter_at (e : HeartbeatEmitter) (bs : list (Z * ps_can_record_t)) : Prop :=
  hb_seq_ e = u16 (Z.of_nat (length bs)) /\
  match last bs with None => have_last_emit_ e = false | Some (n, _) => have_last_emit_ e = true /\ last_emit_ e = n end.

(** What the state knows of the history: the last good frame, the heartbeats so far, the
    latch the hub last reported, and that no turn began before the thread did. *)
Definition tracks_history (t0 : Z) (s : sys) (h : list event) : Prop :=
  o_last_good s = default (t0 - 1000 * NS_PER_MS) (last (goods h)) /\ emitter_at (o_heartbeat s) (beats h) /\
  o_external_latched s = external_after false h /\
  match o_turn s with TGathered now _ => t0 <= now | _ => True end.

Definition op_after (t0 : Z) (o : op) : Prop := match o with OpGather now _ _ => t0 <= now | _ => True end.

(** A step that leaves the heartbeat, the link and the turn alone. *)
Lemma tracks_same t0 s s' h es : tracks_history t0 s h -> beats es = [] -> goods es = [] ->
  o_last_good s' = o_last_good s -> o_heartbeat s' = o_heartbeat s ->
  o_external_latched s' = external_after (o_external_latched s) es ->
  match o_turn s' with TGathered now _ => t0 <= now | _ => True end -> tracks_history t0 s' (h ++ es).
Proof.
  intros (I1 & I2 & I3 & I4) Hb Hg E1 E2 E3 Ht. unfold tracks_history.
  rewrite goods_app, Hg, beats_app, Hb, !app_nil_r, external_after_app, E1, E2, E3, I3. by split_and!.
Qed.

(** A tick sends a record exactly when the gate is open and the period is over. *)
Lemma tick_spec e now g cloud deg st up bs e' sent : emitter_at e bs -> HeartbeatEmitter_tick e now g cloud deg st up = (e', sent) ->
  match sent with
  | Some rec => heartbeat_gate_open g = true /\
      (forall n r, last bs = Some (n, r) -> PS_HEARTBEAT_PERIOD_MS <= to_ms (now - n)) /\
      rec = struct_record (ps_can_id_pack PS_CLS_SAFETY PS_NODE_ORCH PS_NODE_BROADCAST PS_T_HEARTBEAT (u8 (u16 (Z.of_nat (length bs)) .& 0xFF)))
        PS_SPI_BUS_CAN1 (heartbeat_payload e g cloud deg st up) /\
      emitter_at e' (bs ++ [(now, rec)])
  | None => e' = e /\ (heartbeat_gate_open g = false \/ exists n r, last bs = Some (n, r) /\ to_ms (now - n) < PS_HEARTBEAT_PERIOD_MS)
  end.
Proof.
  intros [Hs Hl]. unfold HeartbeatEmitter_tick. destruct (heartbeat_gate_open g); cbn [negb]; [|intros [= <- <-]; split; [done|by left]].
  destruct (last bs) as [[n r]|] eqn:El.
  - destruct Hl as [-> ->]. cbn [andb]. destruct (Z.ltb_spec (to_ms (now - n)) PS_HEARTBEAT_PERIOD_MS); intros [= <- <-].
    { split; [done|]. right. by exists n, r. }
    split; [done|]. split; [by intros ? ? [= <- <-]|]. split; [by rewrite <- Hs|]. split; [|by rewrite last_snoc].
    rewrite length_app. cbn. rewrite Hs. clia.
  - rewrite Hl. cbn [andb]. intros [= <- <-]. split; [done|]. split; [done|]. split; [by rewrite <- Hs|]. split; [|by rewrite last_snoc].
    rewrite length_app. cbn. rewrite Hs. clia.
Qed.

Lemma step_tracks t0 s o s' es h : tracks_history t0 s h -> op_after t0 o -> step s o = Some (s', es) -> tracks_history t0 s' (h ++ es).
Proof.
  intros Hi Ho. pose proof Hi as (I1 & I2 & I3 & I4). step_cases.
  1-6, 7-8, 10, 13: by eapply tracks_same.
  - apply (tracks_same t0 s); try done; try (apply quiet_none, Forall_fmap, Forall_true; by intros). by rewrite external_after_pubs.
  - pose proof (tick_spec _ _ _ _ _ _ _ _ _ _ I2 Etick) as (_ & _ & _ & Ht).
    unfold tracks_history. rewrite goods_app, beats_app, external_after_app. cbn. rewrite app_nil_r. by split_and!.
  - pose proof (tick_spec _ _ _ _ _ _ _ _ _ _ I2 Etick) as [-> _]. by eapply tracks_same.
  - destruct Hexch as (-> & _ & _ & E4 & E5 & _ & _ & _ & E9 & _ & _ & _ & _ & _ & E10). rewrite cons_middle, app_assoc.
    assert (tracks_history t0 s (h ++ [EFrame flags sent tx ok])) as Hi' by (by eapply tracks_same).
    destruct E10 as [[Q Eg]|(es'' & -> & Q & Eg)]; apply quiet_none in Q as [Q1 Q2].
    + eapply tracks_same; try done. by rewrite E4.
    + destruct Hi' as (J1 & J2 & J3 & J4). unfold tracks_history.
      rewrite goods_app, beats_app, external_after_app. cbn [goods beats omap list_omap].
      fold (beats es''). fold (goods es''). rewrite Q1, Q2, app_nil_r, last_snoc, E5, Eg, E9, E4, <- J3. by split_and!.
Qed.

Lemma run_tracks t0 ops : forall s h s' es, tracks_history t0 s h -> Forall (op_after t0) ops -> run_bridge s ops = Some (s', es) ->
  tracks_history t0 s' (h ++ es).
Proof.
  induction ops as [|o ops IH]; intros s h s' es Hi HF; [intros [= <- <-]; by rewrite app_nil_r|].
  inversion_clear HF. intros (s1 & e1 & e2 & E1 & E2 & ->)%run_cons. rewrite app_assoc. eapply IH; [|done..]. by eapply step_tracks.
Qed.

Lemma start_tracks l x telem path fs born t0 start : tracks_history t0 (bridge_start l x telem path fs born t0 start) [].
Proof. by split_and!. Qed.

Lemma elem_of_beats now rec es : EBeat now rec ∈ es -> beats es <> [].
Proof. intros Hin E. apply list_elem_of_split in Hin as (a & b & ->). rewrite beats_app in E. by destruct (beats a). Qed.

(** Only the sampling step of a turn sends a heartbeat. *)
Lemma beat_from_sample s o s' es now rec : step s o = Some (s', es) -> EBeat now rec ∈ es ->
  exists clock ok batch, o = OpSample clock ok /\ o_turn s = TGathered now batch.
Proof.
  intros Hs Hin. assert (beats es <> []) as Hne by (by eapply elem_of_beats). revert Hs. step_cases.
  11: { exists clock, ros_ok, batch. split; [done|]. rewrite !elem_of_cons, elem_of_nil in Hin. by destruct Hin as [|[[= -> ->]|]]. }
  all: exfalso; try done; revert Hne.
  - assert (Forall quiet (EPub <$> pubs)) as Hq by (apply Forall_fmap, Forall_true; by intros). by apply quiet_none in Hq as [-> _].
  - destruct Hexch as (-> & _ & _ & _ & _ & _ & _ & _ & _ & _ & _ & _ & _ & _ & [[Q _]|(es'' & -> & Q & _)]); apply quiet_none in Q as [Q _]; done.
Qed.

(** A struct in a record is read back. *)
Lemma struct_record_read {A} `{WireStruct A} id bus (x : A) : wire_ok x -> wire_size A = 8%nat ->
  wire_read (r_data (struct_record id bus x)) = x /\ r_data (struct_record id bus x) = wire_write x.
Proof.
  intros Hw Hs. unfold struct_record. cbn [r_data].
  assert (bput 0 (wire_write x) (replicate 8 0) = wire_write x) as ->.
  { rewrite <- (app_nil_r (replicate 8 0)), bput_0; [apply app_nil_r|].
    rewrite length_replicate, <- Hs. symmetry. by apply length_wire_write. }
  split; [|done]. rewrite <- (app_nil_r (wire_write x)). by apply wire_read_write_app.
Qed.

Lemma struct_record_ok {A} `{WireStruct A} id bus (x : A) : 0 <= id < 536870912 -> 0 <= bus < 16 -> wire_ok x -> wire_size A = 8%nat ->
  record_ok (struct_record id bus x).
Proof.
  intros Hid Hb Hw Hs. destruct (struct_record_read id bus x Hw Hs) as [_ E]. unfold record_ok. rewrite E.
  unfold struct_record. cbn [r_id r_bus r_dlc r_ts_ms]. rewrite Hs. rewrite length_wire_write, Hs by done.
  split_and!; try lia; try clia; try done. apply enc_u8.
Qed.

Lemma heartbeat_record_ok e g cloud deg st up low : is_u16 (hb_seq_ e) -> is_u8 st -> is_u32 up -> is_u8 low ->
  let hb := heartbeat_payload e g cloud deg st up in
  let rec := struct_record (ps_can_id_pack PS_CLS_SAFETY PS_NODE_ORCH PS_NODE_BROADCAST PS_T_HEARTBEAT low) PS_SPI_BUS_CAN1 hb in
  record_ok rec /\ wire_read (r_data rec) = hb.
Proof.
  intros Hs Hst Hup Hlow. cbv zeta. assert (wire_ok (heartbeat_payload e g cloud deg st up)) as Hw.
  { unfold wire_ok, heartbeat_payload. cbn. unfold fok. split_and!; try done; clia. }
  split; [|by apply struct_record_read]. apply struct_record_ok; try done. by apply pack_range.
Qed.

(** ** Records in the bridge's care *)

Definition ins (es : list event) : list ps_can_record_t := flat_map (fun e => match e with EIn recs => recs | _ => [] end) es.
Definition framed (es : list event) : list ps_can_record_t := flat_map (fun e => match e with EFrame _ recs _ _ => recs | _ => [] end) es.
Definition in_flight (s : sys) : list ps_can_record_t :=
  match o_turn s with TIdle => [] | TGathered _ b => b | TSampled _ b _ _ _ => b | TReported _ b _ => b end.

Lemma ins_app a b : ins (a ++ b) = ins a ++ ins b.
Proof. apply flat_map_app. Qed.
Lemma framed_app a b : framed (a ++ b) = framed a ++ framed b.
Proof. apply flat_map_app. Qed.
(** Framed in an exchange that went through, and in one that failed. *)
Definition delivered (es : list event) : list ps_can_record_t := flat_map (fun e => match e with EFrame _ recs _ true => recs | _ => [] end) es.
Definition lost (es : list event) : list ps_can_record_t := flat_map (fun e => match e with EFrame _ recs _ false => recs | _ => [] end) es.
Lemma framed_split es : framed es ≡ₚ delivered es ++ lost es.
Proof.
  induction es as [|e es IH]; [done|]. destruct e; cbn [framed delivered lost flat_map app]; try exact IH.
  fold (framed es) (delivered es) (lost es). rewrite IH. destruct ok; [by rewrite app_assoc|]. solve_Permutation.
Qed.
Lemma quiet_no_records es : Forall quiet es -> ins es = [] /\ framed es = [].
Proof. induction 1 as [|[] es Hq _ [IH1 IH2]]; try done. Qed.
Lemma pubs_no_records (l : list published) : ins (EPub <$> l) = [] /\ framed (EPub <$> l) = [].
Proof. apply quiet_no_records, Forall_fmap, Forall_true. by intros. Qed.

Lemma drain_loop_spec fuel : forall q n out, (length q <= fuel)%nat -> (length out <= n)%nat ->
  drain_loop fuel q n out = (drop (n - length out) q, out ++ take (n - length out) q).
Proof.
  induction fuel as [|fuel IH]; intros q n out Hf Ho; destruct q as [|r q]; cbn [drain_loop]; try (cbn in Hf; lia);
    try (by rewrite drop_nil, take_nil, app_nil_r).
  destruct (Nat.ltb_spec (length out) n).
  - rewrite IH by (rewrite ?length_app; cbn in *; lia). rewrite length_app. cbn [length].
    replace (n - length out)%nat with (S (n - (length out + 1))) by lia. cbn [drop take]. by rewrite <- app_assoc.
  - replace (n - length out)%nat with 0%nat by lia. by rewrite app_nil_r.
Qed.

(** A drain takes the oldest records. *)
Lemma outbound_drain_spec q n : outbound_drain q n = (drop n q, take n q).
Proof. unfold outbound_drain. rewrite drain_loop_spec by (cbn; lia). cbn. by rewrite Nat.sub_0_r. Qed.

Lemma cap_split batch latched : let '(sent, over, flags) := cap batch latched in
  batch = sent ++ over /\ (length sent <= 31)%nat /\ (over <> [] -> length sent = 31%nat).
Proof.
  unfold cap, PS_SPI_MAX_RECORDS. destruct (Nat.ltb_spec 31 (length batch)).
  - rewrite take_drop, length_take. split_and!; [done|lia|]. intros _. lia.
  - rewrite app_nil_r. split_and!; done || lia.
Qed.

Lemma step_conserves s o s' es : step s o = Some (s', es) ->
  in_flight s' ++ o_queue s' ++ framed es ≡ₚ in_flight s ++ o_queue s ++ ins es.
Proof.
  unfold in_flight. step_cases; try done; try (cbn; by rewrite !app_nil_r).
  - by destruct (pubs_no_records pubs) as [-> ->].
  - rewrite outbound_drain_spec in Edrain. injection Edrain as <- <-. cbn. rewrite !app_nil_r.
    rewrite <- (take_drop PS_SPI_MAX_RECORDS (o_queue s)) at 3. solve_Permutation.
  - cbn. rewrite !app_nil_r. solve_Permutation.
  - pose proof (cap_split batch tl) as Hc. rewrite Ecap in Hc. destruct Hc as (-> & _). rewrite Et.
    destruct Hexch as (-> & _ & -> & -> & _ & _ & _ & _ & _ & _ & _ & _ & _ & _ & Q).
    assert (ins es' = [] /\ framed es' = []) as [E1 E2].
    { destruct Q as [[Q _]|(es'' & -> & Q & _)]; by apply quiet_no_records in Q. }
    cbn [ins framed flat_map app]. fold (ins es') (framed es'). rewrite E1, E2, !app_nil_r. solve_Permutation.
Qed.

Lemma run_conserves ops : forall s s' es, run_bridge s ops = Some (s', es) ->
  in_flight s' ++ o_queue s' ++ framed es ≡ₚ in_flight s ++ o_queue s ++ ins es.
Proof.
  induction ops as [|o ops IH]; intros s s' es; [by intros [= <- <-]|]. intros (s1 & e1 & e2 & E & E2 & ->)%run_cons.
  apply step_conserves in E. apply IH in E2. rewrite framed_app, ins_app.
  rewrite (Permutation_app_comm (framed e1)), !app_assoc, <- (app_assoc (in_flight s')), E2.
  rewrite <- !app_assoc, (Permutation_app_comm (ins e2)), !app_assoc, <- (app_assoc (in_flight s1)), E. by rewrite <- !app_assoc.
Qed.

(** ** Every record is well formed *)

Definition svc_ok (s : EstopService) : Prop := 0 <= origin_node_ s < 32 /\ is_u16 (es_seq_ s).
Definition relay_ok (a : AudioRelay) : Prop :=
  Forall record_ok (relay_outbound_ a) /\ adpcm_ok (encode_state_ a) /\ is_u16 (down_frame_seq_ a).
Definition effect_ok (e : effect) : Prop := match e with Emit recs => Forall record_ok recs | _ => True end.

(** The type of the bridge's state: what it holds are records, its sequence numbers fit
    their fields, its buffer is a transaction long. *)
Definition sys_ok (s : sys) : Prop :=
  Forall record_ok (o_queue s) /\ Forall record_ok (in_flight s) /\ relay_ok (o_audio s) /\ is_u16 (hb_seq_ (o_heartbeat s)) /\
  svc_ok (o_estop s) /\ Forall effect_ok (o_pending s) /\ parser_ok (o_parser s) /\ length (o_rx s) = PS_SPI_XFER_SIZE.

(** Inputs are bytes, and commands are for the limbs subscribed. *)
Definition op_ok (o : op) : Prop :=
  match o with
  | OpJoint node_id _ => In node_id (snd <$> kLimbCmdTargets)
  | OpVoice m => Forall is_u8 (ch_data m)
  | OpGather _ _ reads => forall i bytes, reads i = Some bytes -> Forall is_u8 bytes
  | _ => True
  end.

Lemma mapM_forall {A B} (f : A -> option B) (P : B -> Prop) l : forall l', (forall x y, f x = Some y -> P y) -> mapM f l = Some l' -> Forall P l'.
Proof. intros l' Hf Hm. apply mapM_Some in Hm. clear -Hf Hm. induction Hm; constructor; eauto. Qed.

Lemma joint_commands_ok node m recs : In node (snd <$> kLimbCmdTargets) -> on_joint_command node m = Some recs -> Forall record_ok recs.
Proof.
  intros Hn. apply mapM_forall. intros j r Hr. unfold joint_record, joint_cmd, centi in Hr. apply fmap_Some in Hr as (x & Hx & ->).
  apply bind_Some in Hx as (a & E1 & Hx). apply bind_Some in Hx as (b & E2 & Hx). apply bind_Some in Hx as (c & E3 & [= <-]).
  apply to_int_range in E1, E2, E3. apply struct_record_ok; [|unfold limb_bus, PS_SPI_BUS_CAN1, PS_SPI_BUS_CAN2; ifs; lia| |done].
  - by apply pack_range.
  - unfold wire_ok. cbn. unfold fok. split_and!; try done; try clia.
Qed.

Lemma flap_commands_ok data recs : on_flap_command data = Some recs -> Forall record_ok recs.
Proof.
  apply mapM_forall. intros i r. unfold flap_record. destruct (to_i16 _) as [a|] eqn:E1; [|discriminate]. intros [= <-]. apply to_int_range in E1.
  apply struct_record_ok; [by apply pack_range|done| |done]. unfold wire_ok. cbn. unfold fok. split_and!; try done; clia.
Qed.

Lemma estop_records_ok now n : forall i s, svc_ok s -> let '(s', recs) := estop_records n i s now in
  svc_ok s' /\ Forall record_ok recs /\ origin_node_ s' = origin_node_ s /\ counter_path_ s' = counter_path_ s /\ length recs = n.
Proof.
  induction n as [|n IH]; intros i s Hs; cbn [estop_records]; [by split_and!|].
  specialize (IH (S i) {| s with es_seq_ := u16 (es_seq_ s + 1) |}). destruct (estop_records n _ _ _) as [s' recs].
  destruct Hs as [Ho Hq]. destruct IH as (I1 & I2 & I3 & I4 & I5); [split; [done|apply u16_range]|].
  split_and!; try done; [|cbn; lia]. constructor; [|done]. apply struct_record_ok; [apply pack_range; [done|apply u8_range]|done| |done].
  unfold wire_ok, EstopService_uptime_ms. cbn. unfold fok. split_and!; try done; clia.
Qed.

Lemma handle_ok s e fs engage reason now : svc_ok s -> let '(s', _, effs, _) := EstopService_handle s e fs engage reason now in
  svc_ok s' /\ Forall effect_ok effs.
Proof.
  intros Hs. unfold EstopService_handle. destruct engage.
  - pose proof (estop_records_ok now PS_ESTOP_REPEAT 0 s Hs) as E. destruct (estop_records _ _ _ _) as [s' recs]. destruct E as (E1 & E2 & _).
    split; [done|]. do 2 (constructor; [done|]). by constructor.
  - unfold load_and_bump_counter. set (next := u32 _). assert (is_u32 next) as Hn by apply u32_range. clearbody next.
    assert (forall o, 0 <= o < 32 -> record_ok (struct_record (ps_can_id_pack PS_CLS_SAFETY o PS_NODE_BROADCAST PS_T_CLEAR_ESTOP 0) PS_SPI_BUS_CAN1
      {| ce_magic := PS_CLEAR_ESTOP_MAGIC; ce_counter := next |})) as Hr.
    { intros o Ho. apply struct_record_ok; [by apply pack_range|done| |done]. unfold wire_ok. cbn. unfold fok, PS_CLEAR_ESTOP_MAGIC. split_and!; try done; clia. }
    destruct Hs as [Ho Hq]. destruct (can_open e (counter_path_ s)); (split; [by split|]);
      (constructor; [exact (Forall_cons_2 _ _ _ (Hr (origin_node_ s) Ho) (Forall_nil_2 _))|by repeat constructor]).
Qed.

(** Padded to the eight bytes of a record. *)
Lemma padded_bytes l : (length l <= 8)%nat -> Forall is_u8 l ->
  length (bput 0 l (replicate 8 0)) = 8%nat /\ Forall is_u8 (bput 0 l (replicate 8 0)).
Proof.
  intros Hl HF. rewrite length_bput by (rewrite length_replicate; lia). split; [done|]. rewrite pad_payload by done.
  apply Forall_app. split; [done|]. apply Forall_replicate. clia.
Qed.

Lemma down_turn_ok a chunk : relay_ok a -> (length chunk <= 8)%nat -> Forall is_u8 chunk -> relay_ok (down_turn a chunk).
Proof.
  intros (R1 & R2 & R3) Hl HF. destruct (padded_bytes chunk Hl HF) as [P1 P2].
  assert (forall a, record_ok (down_record a chunk)) as Hd.
  { intros b. unfold record_ok, down_record. cbn [r_id r_bus r_dlc r_ts_ms r_data].
    pose proof (pack_range PS_CLS_AUDIO PS_NODE_ORCH PS_NODE_HELMET PS_T_AUDIO_DOWN (u8 (down_frame_seq_ b .& 0xFF)) ltac:(done) (u8_range _)).
    split_and!; try done; try lia; clia. }
  assert (record_ok (sync_record a)) as Hs.
  { destruct R2 as [A1 A2]. apply struct_record_ok; [by apply pack_range|done| |done]. unfold wire_ok, down_sync. cbn. unfold fok. split_and!; try done; clia. }
  unfold down_turn, maybe_enqueue_sync, enqueue_frame_down, relay_ok.
  destruct (frames_since_sync_ a =? 0); cbn [relay_outbound_ encode_state_ down_frame_seq_];
    (split; [|split; [done|apply u16_range]]); repeat (apply Forall_app; split); try done; by constructor.
Qed.

Lemma down_loop_ok fuel : forall a bytes, relay_ok a -> Forall is_u8 bytes -> relay_ok (down_loop fuel a bytes).
Proof.
  induction fuel as [|fuel IH]; intros a [|b bytes] Ha HF; try done. cbn [down_loop]. apply IH; [|by apply Forall_drop].
  apply down_turn_ok; [done|rewrite length_take; lia|by apply Forall_take].
Qed.

Lemma encode_bytes st pcm : adpcm_ok st -> (length pcm mod 2 = 0)%nat ->
  adpcm_ok (ps_adpcm_encode st pcm).1 /\ Forall is_u8 (ps_adpcm_encode st pcm).2.
Proof.
  intros Hst Hm. pose proof (decode_stream (length pcm / 2) pcm st) as D. destruct (ps_adpcm_encode st pcm) as [st' bytes].
  destruct D as (_ & D2 & -> & _). { pose proof (Nat.div_mod (length pcm) 2). lia. } split; [by apply encode_state_ok|done].
Qed.

Lemma length_bytes_pcm n l : length (bytes_pcm n l) = n.
Proof. revert l. induction n; intros l; cbn; auto. Qed.

Lemma on_downlink_ok a m : relay_ok a -> Forall is_u8 (ch_data m) -> relay_ok (on_downlink a m).
Proof.
  intros Ha HF. unfold on_downlink, process_adpcm_down. destruct (ch_codec m =? CODEC_ADPCM8K); [by apply down_loop_ok|].
  destruct (ch_codec m =? CODEC_PCM16); [|done]. set (n := (length (ch_data m) / 2)%nat).
  destruct (n - n mod 2 =? 0)%nat; [done|]. destruct Ha as (R1 & R2 & R3).
  destruct (encode_bytes (encode_state_ a) (bytes_pcm (n - n mod 2) (ch_data m)) R2) as [E1 E2].
  { rewrite length_bytes_pcm. pose proof (Nat.div_mod n 2 ltac:(lia)). replace (n - n mod 2)%nat with (n / 2 * 2)%nat by lia. by apply Nat.Div0.mod_mul. }
  destruct (ps_adpcm_encode _ _) as [st adpcm]. by apply down_loop_ok.
Qed.

Lemma poll_ok d rc reads : (forall i bytes, reads i = Some bytes -> Forall is_u8 bytes) -> Forall record_ok (poll_outbound d rc reads).
Proof.
  intros Hb. unfold poll_outbound. set (fds := filter _ _).
  assert (forall j, j ∈ fds -> (j < 6)%nat) as Hj.
  { intros j Hj. subst fds. apply list_elem_of_filter in Hj as [_ Hj]. apply elem_of_seq in Hj. cbn in Hj. lia. }
  clearbody fds. ifs; try constructor. apply Forall_flat_map, Forall_forall. intros j Hin. pose proof (Hj j Hin) as Hjf.
  destruct (reads j) as [bytes|] eqn:E; [|constructor]. assert (Forall is_u8 (take 256 bytes)) as Hu by (by eapply Forall_take, Hb).
  cbv zeta. set (buf := take 256 bytes) in *. clearbody buf. destruct (slice_loop_spec (length buf) (kEdgeNodes !!! j) buf 0) as (S1 & S2 & _); [lia|].
  rewrite drop_0 in S2. set (l := slice_loop _ _ _ _) in *. clearbody l. rewrite <- S2 in Hu. clear S2.
  induction S1 as [|r l Hr S1 IH]; [constructor|].
  change (mjoin (rec_payload <$> r :: l)) with (rec_payload r ++ mjoin (rec_payload <$> l)) in Hu. apply Forall_app in Hu as [Hu1 Hu2].
  constructor; [|by apply IH]. destruct (xrce_rec_dst j r Hjf Hr) as (_ & _ & Hid). destruct Hr as (_ & Hbus & Hd & Hts & Hl & Hbytes).
  unfold record_ok. rewrite Hbus, Hts. split_and!; try done; try lia; try clia; [..|by apply Hbytes].
  all: do 6 (destruct j as [|j]; [by vm_compute|]); lia.
Qed.

Definition is_xrce (r : ps_can_record_t) : Prop := ps_can_id_cls (r_id r) = PS_CLS_XRCE.

Lemma poll_is_xrce d rc reads : Forall is_xrce (poll_outbound d rc reads).
Proof.
  unfold poll_outbound. set (fds := filter _ _).
  assert (forall j, j ∈ fds -> (j < 6)%nat) as Hj.
  { intros j Hj. subst fds. apply list_elem_of_filter in Hj as [_ Hj]. apply elem_of_seq in Hj. cbn in Hj. lia. }
  clearbody fds. ifs; try constructor. apply Forall_flat_map, Forall_forall. intros j Hin. destruct (reads j) as [bytes|]; [|constructor].
  eapply Forall_impl; [apply slice_loop_spec; lia|]. intros r Hr. by apply (xrce_rec_dst j r (Hj j Hin)).
Qed.

Lemma frame_bytes_length flags seq recs : Forall record_ok recs -> (length recs <= 31)%nat -> length (frame_bytes flags seq recs) = PS_SPI_XFER_SIZE.
Proof. intros. by apply length_frame_bytes. Qed.

(** A frame offered to the hub carries at most 31 records and its bytes are parsed back to
    exactly them, and to the flags. *)
Definition frame_ok (e : event) : Prop :=
  match e with
  | EFrame flags recs tx _ => (length recs <= 31)%nat /\ Forall record_ok recs /\ length tx = PS_SPI_XFER_SIZE /\
      forall q, exists q' seq, FrameParser_parse q tx PS_SPI_XFER_SIZE = (q', kOk, recs, Some (flags, seq))
  | _ => True
  end.

Lemma quiet_frame_ok es : Forall quiet es -> Forall frame_ok es.
Proof. induction 1 as [|[] es]; constructor; done. Qed.
Lemma state_of_u8 latched ok : is_u8 (state_of latched ok).
Proof. by destruct latched, ok. Qed.

Lemma tick_ok e now g cloud deg st up e' sent : is_u16 (hb_seq_ e) -> is_u8 st -> is_u32 up ->
  HeartbeatEmitter_tick e now g cloud deg st up = (e', sent) ->
  match sent with Some rec => record_ok rec /\ is_u16 (hb_seq_ e') | None => e' = e end.
Proof.
  intros He Hst Hup. unfold HeartbeatEmitter_tick. destruct (negb _); [by intros [= <- <-]|]. destruct (_ && _); intros [= <- <-]; [done|].
  split; [|apply u16_range]. by apply heartbeat_record_ok; [..|apply u8_range].
Qed.

(** The flags of a frame: bit 0 says that records are left, bit 1 that a latch is on. *)
Lemma cap_flags batch latched : let '(_, over, flags) := cap batch latched in
  is_u8 flags /\ has flags PS_SPIF_ESTOP_LATCHED = latched.
Proof. unfold cap. by destruct (_ <? _)%nat, latched. Qed.

Lemma exchange_ok s a p clock rets s' es : sys_ok s -> exchange s a p clock rets = Some (s', es) -> sys_ok s' /\ Forall frame_ok es.
Proof.
  intros (S1 & S2 & S3 & S4 & S5 & S6 & S7 & S8) E. apply exchange_spec in E as (now & batch & latched & tx & ok & es' & Et & E).
  pose proof (cap_split batch latched) as Hc. pose proof (cap_flags batch latched) as Hfl. destruct (cap batch latched) as [[sent over] flags].
  destruct Hc as (-> & Hn & _), Hfl as [Hfl _]. unfold in_flight in S2. rewrite Et in S2. apply Forall_app in S2 as [Hsent Hover].
  rewrite (build_frame _ _ _ Hsent Hn) in E. cbn [fst snd tx_seq_] in E.
  pose proof (frame_bytes_length flags (tx_seq_ (o_parser s)) sent Hsent Hn) as Hlen.
  destruct E as (-> & -> & Eq & E4 & E5 & E6 & E7 & E8 & _ & _ & _ & _ & E13 & E14 & E15). split.
  - unfold sys_ok, relay_ok, in_flight, parser_ok. rewrite Eq, E4, E5, E6, E7, E13. unfold down_side in E8. injection E8 as -> -> ->.
    destruct S3 as (R1 & R2 & R3). split_and!; try done; [by apply Forall_app|apply u8_range|]. rewrite E14 by congruence. done.
  - constructor.
    + split_and!; try done. intros q. rewrite parse_built by done. by do 2 eexists.
    + destruct E15 as [[Q _]|(es'' & -> & Q & _)]; [by apply quiet_frame_ok|]. constructor; [done|by apply quiet_frame_ok].
Qed.

Lemma step_ok s o s' es : sys_ok s -> op_ok o -> step s o = Some (s', es) -> sys_ok s' /\ Forall frame_ok es.
Proof.
  intros Hs Ho. pose proof Hs as (S1 & S2 & S3 & S4 & S5 & S6 & S7 & S8).
  assert (forall recs, Forall record_ok recs -> sys_ok (push s recs).1) as Hpush.
  { intros recs Hr. split_and!; try done. by apply Forall_app. }
  intros Hstep. assert (forall a p clock rets, o = OpExchange a p clock rets -> sys_ok s' /\ Forall frame_ok es) as Hx.
  { intros a p clock rets ->. by eapply exchange_ok. }
  revert Hstep. step_cases. all: try (split; [|by repeat constructor]).
  - pose proof (handle_ok (o_estop s) e (o_files s) engage reason now S5) as Hh. rewrite Ecall in Hh. by destruct Hh.
  - inversion S6; subst. by split_and!.
  - inversion S6; subst. by split_and!.
  - inversion S6; subst. split_and!; try done. by apply Forall_app.
  - by eapply Hpush, joint_commands_ok.
  - by eapply Hpush, flap_commands_ok.
  - by split_and!.
  - split_and!; try done; by apply on_downlink_ok.
  - split; [by split_and!|]. apply Forall_fmap, Forall_true. by intros.
  - rewrite outbound_drain_spec in Edrain. injection Edrain as <- <-. destruct S3 as (R1 & R2 & R3). split_and!; try done; [by apply Forall_drop|].
    cbn [in_flight o_turn drain_outbound snd]. repeat (apply Forall_app; split); [by apply poll_ok|done|by apply Forall_take].
  - unfold in_flight in S2. rewrite Et in S2. eapply tick_ok in Etick as [Hr Hq]; [|done|apply state_of_u8|apply u32_range].
    split_and!; try done. apply Forall_app. split; [done|]. by constructor.
  - unfold in_flight in S2. rewrite Et in S2. eapply tick_ok in Etick as ->; [|done|apply state_of_u8|apply u32_range]. by split_and!.
  - unfold in_flight in S2. rewrite Et in S2. by split_and!.
  - by eapply Hx.
Qed.

Lemma run_ok ops : forall s s' es, sys_ok s -> Forall op_ok ops -> run_bridge s ops = Some (s', es) -> sys_ok s' /\ Forall frame_ok es.
Proof.
  induction ops as [|o ops IH]; intros s s' es Hs HF; [by intros [= <- <-]|]. inversion_clear HF.
  intros (s1 & e1 & e2 & E & E2 & ->)%run_cons.
  apply step_ok in E as [Hs1 F1]; [|done..]. apply IH in E2 as [Hs2 F2]; [|done..]. split; [done|]. by apply Forall_app.
Qed.

Lemma bridge_start_ok l x telem path fs born t0 start : sys_ok (bridge_start l x telem path fs born t0 start).
Proof. split_and!; try done; constructor. Qed.
End OrchSpec.
