(* ===== verification/OrchBeats.v ===== *)
(** The heartbeats of the orchestrator's bridge ([Orch]), from the moment one is made to the
    frame that carries it: no other record is a heartbeat, each one made is framed once,
    waits, or is held by the turn under way, and one that does not fit its own turn's frame
    leaves in a later one, when the gate is no longer asked. *)
From stdpp Require Import strings gmap.
From S2P Require Import Prelude CanId Wire Crc16 SpiFrame Float32 Float64 Bridge BridgeSpec Rtos Txq Can Safety SpiBridge Router Gateway Uros Demux DemuxSpec Adpcm Audio Relay Telem Orch OrchSpec.
From stdpp Require Import list.
#[local] Open Scope Z_scope.
#[local] Open Scope cint_scope.

Section OrchBeats.
Context `{SpiTransport}.

(** ** Which records are heartbeats *)

Definition is_heartbeat (r : ps_can_record_t) : Prop :=
  ps_can_id_cls (r_id r) = PS_CLS_SAFETY /\ ps_can_id_type (r_id r) = PS_T_HEARTBEAT.
#[export] Instance is_heartbeat_dec r : Decision (is_heartbeat r).
Proof. unfold is_heartbeat. apply _. Defined.

Definition heartbeats (l : list ps_can_record_t) : list ps_can_record_t := filter is_heartbeat l.
Abbreviation no_heartbeat := (Forall (fun r => ~ is_heartbeat r)).

Lemma no_heartbeats l : no_heartbeat l -> heartbeats l = [].
Proof.
  induction 1 as [|r l Hr _ IH]; [done|]. unfold heartbeats. by rewrite filter_cons_False.
Qed.

(** A record under an identifier of another class or type is none. *)
Lemma packed_no_heartbeat r c s d t l : r_id r = ps_can_id_pack c s d t l -> 0 <= c < 8 -> 0 <= s < 32 -> 0 <= d < 32 ->
  is_u8 t -> is_u8 l -> c <> PS_CLS_SAFETY \/ t <> PS_T_HEARTBEAT -> ~ is_heartbeat r.
Proof. intros Hid Hc Hs Hd Ht Hl Hne [H1 H2]. rewrite Hid in *. rewrite cls_pack in H1 by done. rewrite type_pack in H2 by done. tauto. Qed.

Lemma joint_no_heartbeat node m recs : In node (snd <$> kLimbCmdTargets) -> on_joint_command node m = Some recs -> no_heartbeat recs.
Proof.
  intros Hn. apply mapM_forall. intros j r Hr. unfold joint_record in Hr. apply fmap_Some in Hr as (x & _ & ->).
  assert (0 <= node < 32) as Hr by (cbn in Hn; decompose [or] Hn; subst; done).
  eapply packed_no_heartbeat; [reflexivity|done..|by left].
Qed.

Lemma flap_no_heartbeat data recs : on_flap_command data = Some recs -> no_heartbeat recs.
Proof.
  apply mapM_forall. intros i r. unfold flap_record. destruct (to_i16 _); [|discriminate]. intros [= <-].
  eapply packed_no_heartbeat; [reflexivity|done..|by left].
Qed.

Lemma xrce_no_heartbeat d rc reads : no_heartbeat (poll_outbound d rc reads).
Proof. eapply Forall_impl; [apply poll_is_xrce|]. intros r Hr [Hc _]. unfold is_xrce in Hr. rewrite Hr in Hc. discriminate Hc. Qed.

Definition quiet_effect (e : effect) : Prop := match e with Emit recs => no_heartbeat recs | _ => True end.

Lemma estop_no_heartbeat now n : forall i s, svc_ok s -> no_heartbeat (estop_records n i s now).2.
Proof.
  induction n as [|n IH]; intros i s Hs; cbn [estop_records]; [constructor|].
  specialize (IH (S i) {| s with es_seq_ := u16 (es_seq_ s + 1) |}). destruct (estop_records n _ _ _) as [s' recs].
  constructor; [|apply IH; split; [apply Hs|apply u16_range]]. destruct Hs as [Ho _].
  eapply packed_no_heartbeat; [reflexivity|done..|apply u8_range|by right].
Qed.

Lemma handle_quiet s e fs engage reason now : svc_ok s -> Forall quiet_effect (EstopService_handle s e fs engage reason now).1.2.
Proof.
  intros Hs. unfold EstopService_handle. destruct engage.
  - pose proof (estop_no_heartbeat now PS_ESTOP_REPEAT 0 s Hs) as Hn. destruct (estop_records _ _ _ _) as [s' recs]. by repeat constructor.
  - unfold load_and_bump_counter. destruct Hs as [Ho _].
    destruct (can_open e (counter_path_ s)); repeat constructor; cbn [clear_record origin_node_];
      (eapply packed_no_heartbeat; [reflexivity|done..|by right]).
Qed.

Lemma down_loop_quiet fuel : forall a bytes, no_heartbeat (relay_outbound_ a) -> no_heartbeat (relay_outbound_ (down_loop fuel a bytes)).
Proof.
  induction fuel as [|fuel IH]; intros a [|b bytes] Ha; try done. cbn [down_loop]. apply IH.
  assert (forall b c, ~ is_heartbeat (down_record b c)) as Hd
    by (intros; eapply packed_no_heartbeat; [reflexivity|done..|apply u8_range|by left]).
  assert (~ is_heartbeat (sync_record a)) as Hs by (eapply packed_no_heartbeat; [reflexivity|done..|by left]).
  unfold down_turn, maybe_enqueue_sync, enqueue_frame_down.
  destruct (frames_since_sync_ a =? 0); cbn [relay_outbound_]; repeat (apply Forall_app; split); try done; by constructor.
Qed.

Lemma voice_no_heartbeat a m : no_heartbeat (relay_outbound_ a) -> no_heartbeat (relay_outbound_ (on_downlink a m)).
Proof.
  intros Ha. unfold on_downlink, process_adpcm_down. destruct (_ =? _); [by apply down_loop_quiet|]. destruct (_ =? _); [|done].
  destruct (_ =? _)%nat; [done|]. destruct (ps_adpcm_encode _ _). by apply down_loop_quiet.
Qed.

(** ** Every heartbeat was made by the emitter *)

(** The voice queue and the effects under way hold no heartbeat. *)
Definition no_stray (s : sys) : Prop := no_heartbeat (relay_outbound_ (o_audio s)) /\ Forall quiet_effect (o_pending s).

Lemma tick_makes_heartbeat e now g cloud deg st up e' rec :
  HeartbeatEmitter_tick e now g cloud deg st up = (e', Some rec) -> is_heartbeat rec.
Proof.
  unfold HeartbeatEmitter_tick. destruct (negb _); [done|]. destruct (_ && _); [done|]. intros [= <- <-].
  unfold is_heartbeat. cbn [struct_record r_id]. split; [apply cls_pack|apply type_pack]; done || apply u8_range.
Qed.

Lemma step_heartbeats s o s' es : sys_ok s -> op_ok o -> no_stray s -> step s o = Some (s', es) ->
  no_stray s' /\ heartbeats (ins es) = (beats es).*2.
Proof.
  intros (_ & _ & _ & _ & Hsvc & _) Ho [Hv Hp]. unfold no_stray.
  step_cases; cbn [o_audio o_pending ins flat_map beats omap list_omap fmap list_fmap]; rewrite ?app_nil_r.
  - pose proof (handle_quiet (o_estop s) e (o_files s) engage reason now Hsvc) as Hq. by rewrite Ecall in Hq.
  - by inversion_clear Hp.
  - by inversion_clear Hp.
  - inversion_clear Hp. split; [done|]. by apply no_heartbeats.
  - split; [done|]. by eapply no_heartbeats, joint_no_heartbeat.
  - split; [done|]. by eapply no_heartbeats, flap_no_heartbeat.
  - done.
  - split; [|done]. split; [by apply voice_no_heartbeat|done].
  - split; [done|]. fold (ins (EPub <$> pubs)) (beats (EPub <$> pubs)).
    assert (Forall quiet (EPub <$> pubs)) as Hq by (apply Forall_fmap, Forall_true; by intros).
    apply quiet_no_records in Hq as Hi. apply quiet_none in Hq as Hb. by rewrite (proj1 Hi), (proj1 Hb).
  - split; [by split; [constructor|]|]. apply no_heartbeats, Forall_app. split; [apply xrce_no_heartbeat|done].
  - split; [done|]. unfold heartbeats. rewrite filter_cons_True by (by eapply tick_makes_heartbeat). done.
  - done.
  - done.
  - destruct Hexch as (-> & _ & _ & _ & _ & _ & E7 & E8 & _ & _ & _ & _ & _ & _ & Q). rewrite E7.
    unfold down_side in E8. injection E8 as -> _ _. split; [done|]. cbn [ins flat_map beats omap list_omap]. fold (ins es') (beats es').
    assert (ins es' = [] /\ beats es' = []) as [-> ->]; [|done].
    destruct Q as [[Q _]|(es'' & -> & Q & _)]; split; apply quiet_no_records in Q as Hi; apply quiet_none in Q as Hb; try apply Hi; apply Hb.
Qed.

Lemma run_heartbeats ops : forall s s' es, sys_ok s -> Forall op_ok ops -> no_stray s -> run_bridge s ops = Some (s', es) ->
  no_stray s' /\ heartbeats (ins es) = (beats es).*2.
Proof.
  induction ops as [|o ops IH]; intros s s' es Hs HF Hn; [by intros [= <- <-]|]. inversion_clear HF.
  intros (s1 & e1 & e2 & E & E2 & ->)%run_cons. pose proof (step_ok _ _ _ _ Hs ltac:(done) E) as [Hs1 _].
  apply step_heartbeats in E as [Hn1 B1]; [|done..]. apply IH in E2 as [Hn2 B2]; [|done..]. split; [done|].
  rewrite ins_app, beats_app, fmap_app. unfold heartbeats in *. by rewrite filter_app, B1, B2.
Qed.

(** What a run makes, and what waited before it, is what it frames and what waits after it. *)
Lemma heartbeats_conserved ops s s' es : sys_ok s -> Forall op_ok ops -> no_stray s -> run_bridge s ops = Some (s', es) ->
  heartbeats (in_flight s' ++ o_queue s' ++ framed es) ≡ₚ heartbeats (in_flight s ++ o_queue s) ++ (beats es).*2.
Proof.
  intros Hs HF Hn Hrun. destruct (run_heartbeats ops s s' es Hs HF Hn Hrun) as [_ <-]. apply run_conserves in Hrun.
  unfold heartbeats in *. rewrite Hrun. by rewrite app_assoc, filter_app.
Qed.

Lemma start_no_stray l x telem path fs born t0 start : no_stray (bridge_start l x telem path fs born t0 start).
Proof. split; constructor. Qed.

(** A frame takes the first 31 records of its turn; the others go behind the queue. *)
Lemma exchange_takes s a p clock rets s' es now batch latched : step s (OpExchange a p clock rets) = Some (s', es) ->
  o_turn s = TReported now batch latched ->
  exists flags tx ok es', es = EFrame flags (take 31 batch) tx ok :: es' /\ o_queue s' = o_queue s ++ drop 31 batch.
Proof.
  cbn [step]. intros E Et. apply exchange_spec in E as (n & b & lt & tx & ok & es' & Et' & E). rewrite Et in Et'. injection Et' as <- <- <-.
  unfold cap, PS_SPI_MAX_RECORDS in E. destruct (Nat.ltb_spec 31 (length batch)); destruct E as (-> & _ & -> & _).
  - by do 4 eexists.
  - rewrite take_ge, drop_ge by lia. by do 4 eexists.
Qed.

End OrchBeats.
