(* ===== verification/OrchSafety.v ===== *)
(** The orchestrator's bridge and the hub together: every record in the bridge's care
    reaches a frame the hub parses back, if the exchange works; under a latch no heartbeat
    is made and only those already waiting leave; an operator's e-stop puts the hub and
    both buses into ESTOP; a latch reported by the hub is never lifted; and a busy XRCE leg
    holds the safety plane back. *)
From stdpp Require Import strings gmap.
From S2P Require Import Prelude CanId Wire Crc16 SpiFrame Float32 Float64 Bridge BridgeSpec Rtos Txq Can Safety SafetySpec SafetyEsp SpiBridge Router Gateway HubLink Uros Demux DemuxSpec Adpcm Audio Relay Telem TelemSpec Orch OrchSpec OrchBeats.
From stdpp Require Import list.
#[local] Open Scope Z_scope.
#[local] Open Scope cint_scope.

Section OrchSafety.
Context `{SpiTransport}.

(** C10: The bridge frames what it is given.  Over every interleaving of its threads since its
    start, the state keeps its type: every queued or held record is well formed, sequence
    numbers fit their fields.  Every frame offered to the hub is one transaction long, holds
    at most 31 well formed records, and the parser of the other side reads exactly those
    records and flags out of it.  The records taken in are exactly those delivered, held,
    queued, and those of the frames whose exchange failed: none is invented or doubled, and
    none is lost but by a failed exchange, which loses all (up to 31) records of its frame,
    ESTOPs included, since the bridge does not offer them again. *)
Theorem bridge_frames l x telem path fs born t0 start ops s h :
  Forall op_ok ops -> run_bridge (bridge_start l x telem path fs born t0 start) ops = Some (s, h) ->
  sys_ok s /\ Forall frame_ok h /\ in_flight s ++ o_queue s ++ delivered h ++ lost h ≡ₚ ins h.
Proof.
  intros HF Hrun. destruct (run_ok ops _ s h (bridge_start_ok l x telem path fs born t0 start) HF Hrun) as [Hs Hf].
  split_and!; try done. rewrite <- framed_split. by apply run_conserves in Hrun.
Qed.

(** ** Latches *)

(** A heartbeat leaves only with both latches off. *)
Lemma beat_gate s o s' es now rec : step s o = Some (s', es) -> EBeat now rec ∈ es ->
  latched_ (o_estop s) = false /\ o_external_latched s = false.
Proof.
  intros Hs Hin. destruct (beat_from_sample s o s' es now rec Hs Hin) as (clock & ok & batch & -> & Et).
  cbn [step] in Hs. unfold sample in Hs. rewrite Et in Hs. unfold HeartbeatEmitter_tick, heartbeat_gate_open in Hs. cbn [transport_healthy estop_latched rclcpp_ok] in Hs.
  destruct (latched_ (o_estop s)), (o_external_latched s); [..|done]; cbn [orb negb andb] in Hs; rewrite ?andb_false_r in Hs; cbn [andb negb] in Hs;
    injection Hs as <- <-; by apply elem_of_nil in Hin.
Qed.

(** The latch of the hub follows what the hub reports. *)
Lemma step_external s o s' es : step s o = Some (s', es) -> o_external_latched s' = external_after (o_external_latched s) es.
Proof. step_cases; try done; [by rewrite external_after_pubs|]. by destruct Hexch as (-> & _ & _ & _ & _ & _ & _ & _ & -> & _). Qed.

Lemma external_after_stays es : EExternal false ∉ es -> external_after true es = true.
Proof.
  induction es as [|e es IH]; intros Hn; [done|]. apply not_elem_of_cons in Hn as [Hne Hn].
  destruct e; cbn; auto. by destruct latched; auto.
Qed.

(** The operator has latched, and no clear of theirs is under way. *)
Definition held (s : sys) : Prop := latched_ (o_estop s) = true /\ SetLatched false ∉ o_pending s.
Definition no_clear (o : op) : Prop := match o with OpCall _ engage _ _ => engage = true | _ => True end.

Lemma held_step s o s' es : held s -> no_clear o -> step s o = Some (s', es) -> held s'.
Proof.
  intros [HL HP] Hn. step_cases; try done.
  - cbn in Hn. subst engage. unfold EstopService_handle in Ecall. destruct (estop_records _ _ _ _) as [sv recs].
    injection Ecall as <- <- <- <-. split; [done|]. cbn [o_pending]. rewrite !not_elem_of_cons. split_and!; try done. apply not_elem_of_nil.
  - apply not_elem_of_cons in HP as [HP1 HP]. split; [|done]. cbn. by destruct b.
  - by apply not_elem_of_cons in HP as [_ HP].
  - by apply not_elem_of_cons in HP as [_ HP].
  - destruct Hexch as (_ & _ & _ & _ & _ & E6 & E7 & _). unfold held. by rewrite E6, E7.
Qed.

(** A turn under way has seen the latch, or has yet to look. *)
Definition turn_latched (t : turn) : Prop := match t with TSampled _ _ l _ _ | TReported _ _ l => l = true | _ => True end.
Definition frame_latched (e : event) : Prop := match e with EFrame flags _ _ _ => has flags PS_SPIF_ESTOP_LATCHED = true | _ => True end.

Lemma quiet_frame_latched es : Forall quiet es -> Forall frame_latched es.
Proof. intros Hq. eapply Forall_impl; [exact Hq|]. by intros []. Qed.

(** With a latch on, a step makes no heartbeat, and a turn that has seen it says so. *)
Lemma bridge_latched_step s o s' es : latched_ (o_estop s) || o_external_latched s = true -> step s o = Some (s', es) ->
  beats es = [] /\ (turn_latched (o_turn s) -> Forall frame_latched es /\ turn_latched (o_turn s')).
Proof.
  intros HL. step_cases; try (split; [done|intros Ht; split; solve [done | by repeat constructor]]).
  - split; [|intros Ht; split; [apply Forall_fmap, Forall_true; by intros|done]]. apply quiet_none, Forall_fmap, Forall_true. by intros.
  - unfold HeartbeatEmitter_tick, heartbeat_gate_open in Etick. cbn [transport_healthy estop_latched rclcpp_ok] in Etick.
    rewrite HL in Etick. cbn [negb] in Etick. by rewrite ?andb_false_r in Etick.
  - destruct Hexch as (-> & _ & _ & -> & _ & _ & _ & _ & _ & _ & _ & _ & _ & _ & Q). pose proof (cap_flags batch tl) as Hf. rewrite Ecap in Hf. split.
    + destruct Q as [[Q _]|(es'' & -> & Q & _)]; by apply quiet_none in Q as [Q _].
    + intros Ht. rewrite Et in Ht. cbn in Ht. subst tl. destruct Hf as [_ Hf]. split; [|done].
      destruct Q as [[Q _]|(es'' & -> & Q & _)]; repeat (constructor; [done|]); by apply quiet_frame_latched.
Qed.

Lemma latched_run ops : forall s s' es, run_bridge s ops = Some (s', es) ->
  (held s /\ Forall no_clear ops) \/ (o_external_latched s = true /\ EExternal false ∉ es) ->
  beats es = [] /\ (turn_latched (o_turn s) -> Forall frame_latched es) /\
  (held s /\ Forall no_clear ops -> held s') /\ (o_external_latched s = true /\ EExternal false ∉ es -> o_external_latched s' = true).
Proof.
  induction ops as [|o ops IH]; intros s s' es.
  { intros [= <- <-] _. split_and!; try done; by intros []. }
  intros (s1 & e1 & e2 & E & E2 & ->)%run_cons Hc.
  pose proof (step_external _ _ _ _ E) as Hx.
  assert (held s /\ Forall no_clear (o :: ops) -> held s1 /\ Forall no_clear ops) as H1.
  { intros [Hh HF]. inversion_clear HF. split; [by eapply held_step|done]. }
  assert (o_external_latched s = true /\ EExternal false ∉ e1 ++ e2 -> o_external_latched s1 = true /\ EExternal false ∉ e2) as H2.
  { intros [He Hn]. apply not_elem_of_app in Hn as [Hn1 Hn2]. split; [|done]. rewrite Hx, He. by apply external_after_stays. }
  destruct (bridge_latched_step s o s1 e1) as (B1 & T1); [|done|].
  { destruct Hc as [[[-> _] _]|[-> _]]; [done|apply orb_true_r]. }
  destruct (IH s1 s' e2 E2) as (B2 & F2 & K1 & K2); [destruct Hc; [left|right]; auto|].
  rewrite beats_app, B1, B2. split_and!; auto. intros Ht. destruct (T1 Ht). apply Forall_app. auto.
Qed.

(** C9: While an e-stop is latched the bridge makes no heartbeat, whatever its threads do: once
    the operator has latched, until the operator calls to clear; once the hub has reported
    an ESTOP, until the hub reports a CLEAR, and the hub reports nothing that came down to it
    from the bridge, so the operator's own CLEAR does not lift that latch.  Every frame of a
    turn that has seen the latch tells the hub so.  The only heartbeats that still leave are
    those made before and waiting when the latch came (in the batch of the turn under way,
    or in the queue, where one goes that its own frame had no room for): the ones framed
    and the ones left waiting are exactly those.  If none waited, none leaves. *)
Theorem bridge_latched_silent `{RtosQueue} `{TwaiDlc} l x telem path fs born t0 start before h s ops s' es :
  run_bridge (bridge_start l x telem path fs born t0 start) before = Some (s, h) -> Forall op_ok before ->
  run_bridge s ops = Some (s', es) -> Forall op_ok ops ->
  (held s /\ Forall no_clear ops) \/ (o_external_latched s = true /\ EExternal false ∉ es) ->
  beats es = [] /\
  heartbeats (in_flight s' ++ o_queue s' ++ framed es) ≡ₚ heartbeats (in_flight s ++ o_queue s) /\
  (heartbeats (in_flight s ++ o_queue s) = [] -> heartbeats (framed es) = []) /\
  (turn_latched (o_turn s) -> Forall frame_latched es) /\
  (held s /\ Forall no_clear ops -> held s') /\ (o_external_latched s = true /\ EExternal false ∉ es -> o_external_latched s' = true) /\
  (forall g now rec ok, APush rec ok ∉ (gw_downlink_turn g now).2).
Proof.
  intros Hb Hob Hrun Hok Hc. destruct (latched_run ops s s' es Hrun Hc) as (L1 & L2 & L3 & L4).
  destruct (run_ok before _ s h (bridge_start_ok l x telem path fs born t0 start) Hob Hb) as [Hs _].
  destruct (run_heartbeats before _ s h (bridge_start_ok l x telem path fs born t0 start) Hob (start_no_stray l x telem path fs born t0 start) Hb) as [Hn _].
  pose proof (heartbeats_conserved ops s s' es Hs Hok Hn Hrun) as Hcons. rewrite L1, app_nil_r in Hcons. split_and!; try done.
  - intros E. rewrite E in Hcons. apply Permutation_nil_r in Hcons. unfold heartbeats in *. rewrite !filter_app in Hcons.
    by apply app_eq_nil in Hcons as [_ [_ ?]%app_eq_nil].
  - intros g now rec ok Hin. pose proof (downlink_no_push g now) as Hf. rewrite Forall_forall in Hf. by apply (Hf _ Hin).
Qed.

(** ** The operator's e-stop, to the nodes *)

(** A record of the service, as the hub puts it on the buses. *)
Lemma estop_record_frame svc now : svc_ok svc -> let r := estop_record svc now in let f := downlink_frame r in
  r_bus r <> PS_SPI_BUS_HUB_LOCAL /\ is_estop f /\ ps_can_id_dst (f_id f) = PS_NODE_BROADCAST.
Proof.
  intros [Ho Hq]. unfold estop_record, downlink_frame, is_estop. cbn [struct_record r_bus r_id r_dlc f_id f_dlc].
  change PS_CAN_ID_MASK with 536870911. rewrite (land_mask _ 29) by done. change (2 ^ 29) with 536870912.
  rewrite Z.mod_small by (apply pack_range; [done|apply u8_range]). rewrite unpack_pack by (done || apply u8_range). cbn [cls type].
  split_and!; try done. by apply dst_pack; [..|apply u8_range].
Qed.

Lemma estop_records_frames now n : forall i svc, svc_ok svc ->
  Forall (fun r => r_bus r <> PS_SPI_BUS_HUB_LOCAL /\ is_estop (downlink_frame r) /\ ps_can_id_dst (f_id (downlink_frame r)) = PS_NODE_BROADCAST)
    (estop_records n i svc now).2.
Proof.
  induction n as [|n IH]; intros i svc Hs; cbn [estop_records]; [constructor|].
  specialize (IH (S i) {| svc with es_seq_ := u16 (es_seq_ svc + 1) |}). destruct (estop_records n _ _ _) as [s' recs].
  constructor; [by apply estop_record_frame|]. apply IH. split; [apply Hs|apply u16_range].
Qed.

(** What is ahead of a new command when the thread gathers. *)
Definition ahead (s : sys) (rc : Z) (reads : nat -> option (list Z)) : list ps_can_record_t :=
  poll_outbound (o_xrce s) rc reads ++ relay_outbound_ (o_audio s) ++ o_queue s.

(** A whole turn of the transport thread. *)
Definition whole_turn now rc reads clock ros a p clock' rets : list op :=
  [OpGather now rc reads; OpSample clock ros; OpReport; OpExchange a p clock' rets].

(** A turn under a latch frames all that is ahead, if it fits. *)
Lemma latched_turn s now rc reads clock ros a p clock' rets s' es : sys_ok s -> o_turn s = TIdle ->
  latched_ (o_estop s) || o_external_latched s = true -> (length (ahead s rc reads) <= 31)%nat ->
  run_bridge s (whole_turn now rc reads clock ros a p clock' rets) = Some (s', es) ->
  exists flags ok, let recs := ahead s rc reads in
    EFrame flags recs (FrameParser_build (o_parser s) (replicate PS_SPI_XFER_SIZE 0) flags recs).2.1 ok ∈ es /\
    is_u8 flags /\ has flags PS_SPIF_ESTOP_LATCHED = true.
Proof.
  intros Hs Ht HL Hlen Hrun. unfold whole_turn in Hrun.
  apply run_cons in Hrun as (s1 & e1 & es1 & E1 & Hrun & ->). cbn [step] in E1. unfold gather in E1. rewrite Ht in E1.
  rewrite outbound_drain_spec in E1. unfold drain_outbound in E1. pose proof Hlen as Hq. unfold ahead in Hq. rewrite !length_app in Hq.
  rewrite firstn_all2 in E1 by (unfold PS_SPI_MAX_RECORDS; lia). injection E1 as <- <-. fold (ahead s rc reads). set (recs := ahead s rc reads).
  apply run_cons in Hrun as (s2 & e2 & es2 & E2 & Hrun & ->). cbn [step] in E2. unfold sample in E2. cbn [o_turn o_estop o_external_latched] in E2.
  unfold HeartbeatEmitter_tick, heartbeat_gate_open in E2. cbn [transport_healthy estop_latched rclcpp_ok] in E2.
  rewrite HL, andb_false_r in E2. cbn [andb negb] in E2. injection E2 as <- <-.
  apply run_cons in Hrun as (s3 & e3 & es3 & E3 & Hrun & ->). cbn [step] in E3. unfold report in E3. cbn [o_turn] in E3. injection E3 as <- <-.
  apply run_cons in Hrun as (s4 & e4 & es4 & E4 & _ & ->). cbn [step] in E4.
  apply exchange_spec in E4 as (n & batch & l & tx & ok & es' & Et & E4). injection Et as <- <- <-.
  change (poll_outbound (o_xrce s) rc reads ++ relay_outbound_ (o_audio s) ++ o_queue s) with recs in E4.
  pose proof (cap_flags recs true) as Hf. unfold cap in E4, Hf. rewrite (proj2 (Nat.ltb_ge PS_SPI_MAX_RECORDS (length recs)) Hlen) in E4, Hf.
  destruct E4 as (-> & -> & _). do 2 eexists. split; [|exact Hf]. cbn [app]. apply elem_of_cons. right. apply elem_of_cons. by left.
Qed.

(** A call that engages, with its three effects. *)
Lemma engage_effects s e reason clk rest s' es : sys_ok s -> o_pending s = [] ->
  run_bridge s ([OpCall e true reason clk; OpEffect; OpEffect; OpEffect] ++ rest) = Some (s', es) ->
  exists s1 es1, run_bridge s1 rest = Some (s', es1) /\ es = EIn (estop_records PS_ESTOP_REPEAT 0 (o_estop s) clk).2 :: es1 /\
    sys_ok s1 /\ o_turn s1 = o_turn s /\ held s1 /\ o_parser s1 = o_parser s /\
    forall rc reads, ahead s1 rc reads = ahead s rc reads ++ (estop_records PS_ESTOP_REPEAT 0 (o_estop s) clk).2.
Proof.
  intros Hs Hp Hrun. pose proof Hs as (S1 & S2 & S3 & S4 & S5 & S6 & S7 & S8). pose proof (estop_records_ok clk PS_ESTOP_REPEAT 0 (o_estop s) S5) as Hrec.
  cbn [app] in Hrun. apply run_cons in Hrun as (s1 & e1 & es1 & E1 & Hrun & ->). cbn [step] in E1. unfold call_estop in E1. rewrite bool_decide_true in E1 by done.
  unfold EstopService_handle in E1. destruct (estop_records _ _ _ _) as [svc estops]. destruct Hrec as ([Ho Hq] & Hrec & _). injection E1 as <- <-.
  apply run_cons in Hrun as (s2 & e2 & es2 & E2 & Hrun & ->). injection E2 as <- <-.
  apply run_cons in Hrun as (s3 & e3 & es3 & E3 & Hrun & ->). injection E3 as <- <-.
  apply run_cons in Hrun as (s4 & e4 & es4 & E4 & Hrun & ->). injection E4 as <- <-.
  do 2 eexists. split; [exact Hrun|]. split; [done|]. split; [|split; [done|split; [|split; [done|]]]].
  - split_and!; try done; try constructor; by apply Forall_app.
  - split; [done|apply not_elem_of_nil].
  - intros rc reads. unfold ahead. cbn. unfold outbound_push. by rewrite !app_assoc.
Qed.

(** C8: The operator's e-stop stops the suit, when it is called between two turns of the
    transport thread with at most 28 records ahead of it.  The next turn makes no heartbeat
    and offers the hub a frame with the latched flag and the three ESTOP records.  When a
    hub whose downlink queue was empty, with room for a frame, has taken that frame and its
    downlink task comes to one of the three, the frame goes to both buses, the hub's mirror
    stands in ESTOP and its SPI header says so; every node's receive filter passes the
    frame, and the node that handles it is latched and cannot actuate.  (With 31 or more
    records of the micro-ROS plane at every turn, no ESTOP is ever framed:
    [xrce_holds_back_safety].) *)
Theorem operator_estop_stops_suit `{RtosQueue} `{TwaiDlc} s e reason clk now rc reads clock ros a p clock' rets s' es (g : gw) i nows now' (k : nat) :
  sys_ok s -> o_pending s = [] -> o_turn s = TIdle -> (length (ahead s rc reads) <= 28)%nat ->
  (forall i bytes, reads i = Some bytes -> Forall is_u8 bytes) ->
  run_bridge s ([OpCall e true reason clk; OpEffect; OpEffect; OpEffect] ++ whole_turn now rc reads clock ros a p clock' rets) = Some (s', es) ->
  Gateway.published g -> s_started (bridge g) = true -> waiting (s_downlink_q (bridge g)) = [] -> (31 <= capacity (s_downlink_q (bridge g)))%nat ->
  (k < 3)%nat -> length nows = (length (ahead s rc reads) + k)%nat ->
  beats es = [] /\ exists flags recs tx ok f ok1 ok2,
    EFrame flags recs tx ok ∈ es /\ has flags PS_SPIF_ESTOP_LATCHED = true /\ downlink_frame <$> recs !! length nows = Some f /\
    (let g' := fold_left gstep (GSpi i tx PS_SPI_XFER_SIZE :: (GDownlink <$> nows)) g in
     let r := gw_downlink_turn g' now' in
     hub_gateway_safety_state r.1 = PS_STATE_ESTOP /\ flag_set r.1 = true /\
     r.2 = [ASend PS_PORT_CAN1 f ok1; ASend PS_PORT_CAN2 f ok2; ALocal f]) /\
    (forall c cb, cls_cb c !!! 0%nat = Some cb -> rx_dispatch c f = (c, Some (cb, f))) /\
    (forall n tn, latched (core (safety_rx n tn f).1) /\ ps_safety_can_actuate (safety_rx n tn f).1 = false).
Proof.
  intros Hs Hp Ht Hlen Hb Hrun Hpub Hst Hw Hcap Hk Hn.
  destruct (engage_effects _ _ _ _ _ _ _ Hs Hp Hrun) as (s1 & es1 & Hrun1 & -> & Hs1 & Ht1 & Hh & Hpar & Ha). rewrite Ht in Ht1.
  destruct Hs as (S1 & _ & (R1 & _) & _ & S5 & _ & S7 & _).
  pose proof (estop_records_ok clk PS_ESTOP_REPEAT 0 (o_estop s) S5) as Hrec. pose proof (estop_records_frames clk PS_ESTOP_REPEAT 0 (o_estop s) S5) as Hfr.
  destruct (estop_records _ _ _ _) as [svc estops]. cbn [snd] in *. destruct Hrec as (_ & Hrec & _ & _ & H3).
  assert (Forall record_ok (ahead s rc reads)) as Hah by (unfold ahead; repeat (apply Forall_app; split); try done; by apply poll_ok).
  destruct (latched_run _ _ _ _ Hrun1) as (B & _); [left; split; [done|by repeat constructor]|].
  edestruct (latched_turn s1 now rc reads) as (flags & ok & Hin & Hu & Hfl); [exact Hs1|exact Ht1|by rewrite (proj1 Hh)|rewrite Ha, length_app, H3; unfold PS_ESTOP_REPEAT; lia|exact Hrun1|].
  cbv zeta in Hin. rewrite Ha, Hpar in Hin. set (recs := ahead s rc reads ++ estops) in *.
  assert (Forall record_ok recs) as Hok by (by apply Forall_app). assert (length recs = length (ahead s rc reads) + 3)%nat as Hlr by (by subst recs; rewrite length_app, H3).
  rewrite build_frame in Hin by (done || unfold PS_SPI_MAX_RECORDS; lia). cbn [fst snd] in Hin.
  assert (exists r, estops !! k = Some r) as [r Hr] by (apply lookup_lt_is_Some; rewrite H3; done).
  assert (recs !! length nows = Some r) as Hlk by (subst recs; rewrite Hn, lookup_app_r by lia; rewrite <- Hr; f_equal; lia).
  pose proof (Forall_lookup_1 _ _ _ _ Hfr Hr) as (F1 & F2 & F3). cbv beta in *.
  split; [exact B|]. exists flags, recs, (frame_bytes flags (tx_seq_ (o_parser s)) recs), ok, (downlink_frame r).
  destruct (frame_estop g i flags (tx_seq_ (o_parser s)) recs nows now' r) as (G1 & G2 & ok1 & ok2 & G3); try done; try (unfold PS_SPI_MAX_RECORDS; lia).
  exists ok1, ok2. split_and!; try done; [by apply elem_of_cons; right|by rewrite Hlk|..].
  - intros c cb. apply dispatch_safety_broadcast; [apply F2|done].
  - intros n tn. apply estop_frame_latches, F2.
Qed.


(** ** The order of a frame *)

Lemma cap_takes batch latched : (cap batch latched).1.1 = take PS_SPI_MAX_RECORDS batch.
Proof. unfold cap. destruct (Nat.ltb_spec PS_SPI_MAX_RECORDS (length batch)); cbn [fst]; [done|]. by rewrite take_ge by lia. Qed.

(** A poll that fills a frame by itself. *)
Definition busy (x : XrceDemux) (o : op) : Prop :=
  match o with OpGather _ rc reads => (PS_SPI_MAX_RECORDS <= length (poll_outbound x rc reads))%nat | _ => True end.
Definition crowded (x : XrceDemux) (s : sys) : Prop := o_xrce s = x /\
  (o_turn s <> TIdle -> Forall is_xrce (take PS_SPI_MAX_RECORDS (in_flight s)) /\ (PS_SPI_MAX_RECORDS <= length (in_flight s))%nat).

Lemma crowded_step x s o s' es : crowded x s -> busy x o -> step s o = Some (s', es) -> crowded x s' /\ Forall is_xrce (framed es).
Proof.
  intros [Hx Ht] Hb. step_cases; unfold crowded, in_flight in *; cbn [o_turn o_xrce]; try (split; [done|by repeat constructor]).
  - destruct (pubs_no_records pubs) as [_ ->]. by split.
  - split; [|constructor]. split; [done|]. intros _. cbn [busy] in Hb. rewrite Hx, length_app. split; [|lia].
    rewrite take_app_le by done. apply Forall_take, poll_is_xrce.
  - rewrite Et in Ht. split; [|constructor]. split; [done|]. intros _. destruct Ht as [T1 T2]; [done|]. rewrite length_app. split; [|lia]. by rewrite take_app_le.
  - rewrite Et in Ht. split; [|constructor]. split; [done|]. intros _. by apply Ht.
  - rewrite Et in Ht. split; [|constructor]. split; [done|]. intros _. by apply Ht.
  - rewrite Et in Ht. destruct Ht as [T1 T2]; [done|]. pose proof (cap_takes batch tl) as Hc. rewrite Ecap in Hc. cbn [fst] in Hc. subst sent.
    destruct Hexch as (-> & _ & _ & -> & _ & _ & _ & _ & _ & _ & _ & -> & _ & _ & Q). split; [by split|].
    assert (framed es' = []) as E by (destruct Q as [[Q _]|(es'' & -> & Q & _)]; by apply quiet_no_records in Q as [_ Q]).
    cbn [framed flat_map]. fold (framed es'). by rewrite E, app_nil_r.
Qed.

(** XRCE traffic holds the safety plane back.  If at every turn the micro-ROS terminals alone
    yield 31 records, no other record is ever framed: no heartbeat, no ESTOP and no command,
    for they are appended behind, and what does not fit goes back behind the queue. *)
Theorem xrce_holds_back_safety l x telem path fs born t0 start ops s h :
  run_bridge (bridge_start l x telem path fs born t0 start) ops = Some (s, h) -> Forall (busy x) ops -> Forall is_xrce (framed h).
Proof.
  intros Hrun HF. enough (forall s1, crowded x s1 -> run_bridge s1 ops = Some (s, h) -> Forall is_xrce (framed h)) as Hk.
  { eapply Hk; [|exact Hrun]. by split. }
  clear Hrun. revert h HF. induction ops as [|o ops IH]; intros h HF s1 Hc; [intros [= <- <-]; constructor|].
  inversion_clear HF. intros (s2 & e1 & e2 & E1 & E2 & ->)%run_cons. rewrite framed_app.
  apply (crowded_step x) in E1 as [Hc2 F1]; [|done..]. apply Forall_app. split; [done|]. by eapply IH.
Qed.
End OrchSafety.

(** ** Pacing *)

(** Turns one after the other, each with the two readings of the clock at its end: the
    milliseconds each may wait. *)
Fixpoint paces (next_tick period : Z) (clocks : list (Z * Z)) : Z * list (option Z) :=
  match clocks with
  | [] => (next_tick, [])
  | (now, now') :: clocks =>
    let '(next_tick, wait) := pace next_tick period now now' in
    let '(next_tick, waits) := paces next_tick period clocks in (next_tick, wait :: waits)
  end.

(** Turns [d] apart, because DATA_READY ended each wait early. *)
Definition woken (t d : Z) (n : nat) : list (Z * Z) := (fun i => (t + Z.of_nat i * d, t + Z.of_nat i * d)) <$> seq 0 n.

Lemma woken_S t d n : woken t d (S n) = (t, t) :: woken (t + d) d n.
Proof.
  unfold woken. cbn [seq fmap list_fmap]. f_equal; [f_equal; lia|]. rewrite <- fmap_S_seq, <- list_fmap_compose.
  apply list_fmap_ext. intros i x _. cbn [compose]. f_equal; lia.
Qed.

Lemma paces_woken period d n : forall next t, d <= period -> t < next + period ->
  paces next period (woken t d n) =
    (next + Z.of_nat n * period, (fun i => Some (to_ms (next + (Z.of_nat i + 1) * period - (t + Z.of_nat i * d)))) <$> seq 0 n).
Proof.
  induction n as [|n IH]; intros next t Hd Ht; [cbn; f_equal; lia|]. rewrite woken_S. cbn [paces]. unfold pace.
  destruct (Z.ltb_spec 0 (next + period - t)); [|lia]. rewrite IH by lia. f_equal; [lia|]. cbn [seq fmap list_fmap]. f_equal; [do 2 f_equal; lia|].
  rewrite <- fmap_S_seq, <- list_fmap_compose. apply list_fmap_ext. intros i x _. cbn [compose]. do 2 f_equal; lia.
Qed.

(** The pacing of the transport thread.  A turn that is late sets the next one from the
    clock, so lateness is not made up for.  Turns that DATA_READY ends early are not set off:
    each adds its whole period to the time of the next, and after [n] of them, [d] apart,
    the thread may wait [n * (period - d)] longer, during which no turn runs and no
    heartbeat leaves.  At 1 kHz, a hundred turns 0.3 ms apart are enough for a wait beyond
    the 50 ms after which every node of the suit drops out of OPERATIONAL. *)
Theorem pacing next period now now' d n : d <= period ->
  (next + period <= now -> pace next period now now' = (now', None)) /\
  (now < next + period -> last (paces next period (woken now d (S n))).2 =
     Some (Some (to_ms (next + period - now + Z.of_nat n * (period - d))))) /\
  (next = now -> period = NS_PER_MS -> d = 300000 -> n = 100%nat ->
     exists wait, last (paces next period (woken now d (S n))).2 = Some (Some wait) /\ PS_HEARTBEAT_TIMEOUT_MS < wait).
Proof.
  intros Hd. assert (now < next + period -> last (paces next period (woken now d (S n))).2 =
     Some (Some (to_ms (next + period - now + Z.of_nat n * (period - d))))) as Hl.
  { intros Ht. rewrite paces_woken by done. cbn [snd]. rewrite seq_S, fmap_app. cbn [fmap list_fmap]. rewrite last_snoc. do 3 f_equal. lia. }
  split_and!; [|exact Hl|].
  - intros Hn. unfold pace. by destruct (Z.ltb_spec 0 (next + period - now)); [lia|].
  - intros -> -> -> ->. eexists. split; [apply Hl; unfold NS_PER_MS; lia|].
    replace (now + NS_PER_MS - now + Z.of_nat 100 * (NS_PER_MS - 300000)) with (71 * NS_PER_MS) by (unfold NS_PER_MS; lia). by vm_compute.
Qed.

Lemma pacing_witness : last (paces 5000000 1000000 (woken 5000000 300000 101)).2 = Some (Some 71).
Proof. destruct (pacing 5000000 1000000 5000000 5000000 300000 100 ltac:(lia)) as (_ & B & _). rewrite B by lia. reflexivity. Defined.

(** ** Witnesses *)

Section Demo.
#[local] Existing Instance spidev_transport.

(** A bridge on a spidev link with no terminal open, and turns in which the hub answers
    with an idle frame. *)
Definition demo_bridge : sys :=
  bridge_start {| i_fd := 3; gpio_ready := false; chip := false; request := false; line := false |} (XrceDemux_new "/tmp/x") demo_telem
    "/var/estop" ∅ 0 0 0.
Definition idle_answer : answers := (512, replicate 512 0).
Definition demo_turn (now : Z) : list op := whole_turn now 0 (fun _ => None) now true idle_answer demo_params now (fun _ => []).
Definition ms (n : Z) : Z := n * NS_PER_MS.
Definition demo_turns : list op := demo_turn (ms 1) ++ [OpGather (ms 20) 0 (fun _ => None)].

(** What the run left behind, for the conditions of a heartbeat. *)
Definition ready_to_beat (r : option (sys * list event)) : Prop :=
  match r with
  | Some (s, h) => o_turn s = TGathered (ms 20) [] /\ last (goods h) = Some (ms 1) /\ latched_ (o_estop s) = false /\
      external_after false h = false /\ beats h = []
  | None => False
  end.

Lemma demo_ready : ready_to_beat (run_bridge demo_bridge demo_turns).
Proof. vm_compute. repeat split. Qed.

Lemma demo_after : Forall (op_after 0) demo_turns.
Proof. unfold demo_turns, demo_turn, whole_turn. cbn [app]. repeat (apply Forall_cons; split; [first [exact I|vm_compute; discriminate]|]). apply Forall_nil_2. Qed.

Lemma demo_turns_ok : Forall op_ok demo_turns.
Proof. unfold demo_turns, demo_turn, whole_turn. cbn [app]. repeat (apply Forall_cons; split; [first [exact I|by intros ? ?]|]). apply Forall_nil_2. Qed.


Definition demo_fs : fs_env := {| can_open := fun _ => true; flushed := true |}.
Definition engage_ops : list op := [OpCall demo_fs true "stop" (fun _ => ms 1); OpEffect; OpEffect; OpEffect].

Lemma demo_stop_ok : Forall op_ok (engage_ops ++ demo_turn (ms 1)).
Proof. unfold engage_ops, demo_turn, whole_turn. cbn [app]. repeat (apply Forall_cons; split; [first [exact I|by intros ? ?]|]). apply Forall_nil_2. Qed.

Lemma bridge_frames_witness :
  match run_bridge demo_bridge (engage_ops ++ demo_turn (ms 1)) with
  | Some (s, h) => length (delivered h) = 3%nat /\ Forall frame_ok h /\ in_flight s ++ o_queue s ++ delivered h ++ lost h ≡ₚ ins h
  | None => False
  end.
Proof.
  assert (match run_bridge demo_bridge (engage_ops ++ demo_turn (ms 1)) with Some (_, h) => length (delivered h) = 3%nat | None => False end) as F
    by (vm_compute; reflexivity).
  destruct (run_bridge _ _) as [[s h]|] eqn:E; [|exact F]. destruct (bridge_frames _ _ _ _ _ _ _ _ _ _ _ demo_stop_ok E) as (_ & B1 & B2).
  exact (conj F (conj B1 B2)).
Defined.

(** A good frame; then a voice message of 248 bytes, whose 31 records and SYNC fill the next
    frame, so that the heartbeat of that turn goes behind the queue; then the operator
    latches. *)
Definition voice_message : AudioChunk := 
  {| ch_node_id := PS_NODE_ORCH; ch_codec := CODEC_ADPCM8K; ch_sample_rate := 8000; ch_seq := 0; ch_data := replicate 248 0 |}.
Definition crowded_turns : list op := demo_turn (ms 1) ++ OpVoice voice_message :: demo_turn (ms 20) ++ engage_ops.

(** The frames of the events that carry the latched flag and a heartbeat. *)
Definition flagged_heartbeats (es : list event) : nat :=
  length (filter (fun e => match e with EFrame flags recs _ _ => has flags PS_SPIF_ESTOP_LATCHED && negb (bool_decide (heartbeats recs = [])) | _ => false end = true) es).

(** In the model of the code as it is, a frame flagged ESTOP_LATCHED can carry a heartbeat:
    the one that went behind the queue is framed in the first turn after the latch. *)
Theorem stale_heartbeat_leaves :
  match run_bridge demo_bridge crowded_turns with
  | Some (s, h) => latched_ (o_estop s) = true /\ length (beats h) = 1%nat /\ heartbeats (framed h) = [] /\
      match run_bridge s (demo_turn (ms 21)) with
      | Some (_, es) => beats es = [] /\ flagged_heartbeats es = 1%nat
      | None => False end
  | None => False
  end.
Proof. vm_compute. repeat split. Qed.

Lemma crowded_turns_ok : Forall op_ok crowded_turns.
Proof.
  unfold crowded_turns, engage_ops, demo_turn, whole_turn. cbn [app].
  repeat (apply Forall_cons; split; [first [exact I|by intros ? ?|cbn [op_ok voice_message ch_data]; apply Forall_replicate; clia]|]). apply Forall_nil_2.
Qed.
Lemma demo_turn_ok n : Forall op_ok (demo_turn n) /\ Forall no_clear (demo_turn n).
Proof. unfold demo_turn, whole_turn. split; repeat (apply Forall_cons; split; [first [exact I|by intros ? ?]|]); apply Forall_nil_2. Qed.

Definition one_waits (r : option (sys * list event)) : Prop :=
  match r with
  | Some (s, _) => o_turn s = TIdle /\ latched_ (o_estop s) = true /\ o_pending s = [] /\ length (heartbeats (in_flight s ++ o_queue s)) = 1%nat /\
      is_Some (run_bridge s (demo_turn (ms 21)))
  | None => False
  end.

Lemma bridge_latched_silent_witness :
  match run_bridge demo_bridge crowded_turns with
  | Some (s, _) =>
    match run_bridge s (demo_turn (ms 21)) with
    | Some (s', es) => beats es = [] /\ Forall frame_latched es /\ held s' /\ length (heartbeats (in_flight s' ++ o_queue s' ++ framed es)) = 1%nat
    | None => False end
  | None => False
  end.
Proof.
  assert (one_waits (run_bridge demo_bridge crowded_turns)) as F by (vm_compute; repeat split; eauto).
  destruct (run_bridge demo_bridge crowded_turns) as [[s h]|] eqn:E; [|exact F]. destruct F as (F1 & F2 & F3 & F4 & F5).
  destruct (run_bridge s (demo_turn (ms 21))) as [[s' es]|] eqn:E2; [|by destruct F5].
  assert (held s) as Hh by (split; [exact F2|rewrite F3; apply not_elem_of_nil]).
  destruct (demo_turn_ok (ms 21)) as [Hok Hn].
  destruct (bridge_latched_silent _ _ _ _ _ _ _ _ crowded_turns h s (demo_turn (ms 21)) s' es E crowded_turns_ok E2 Hok (or_introl (conj Hh Hn)))
    as (B1 & B2 & _ & B3 & B4 & _).
  split; [exact B1|]. split; [apply B3; rewrite F1; exact I|]. split; [exact (B4 (conj Hh Hn))|].
  rewrite B2. exact F4.
Defined.

(** A hub with room for a frame. *)
Definition demo_hub_off : gw := {| demo_gw with bridge := (ps_spib_start (spib_off (xQueueCreate 0) (xQueueCreate 0)) (Some (40%nat, 40%nat)) all_ok).1 |}.
Definition demo_hub : gw := (hub_gateway_start demo_hub_off demo_bus demo_bus 5 true true true).1.
Lemma demo_hub_published : Gateway.published demo_hub.
Proof. refine (published_start demo_hub_off demo_bus demo_bus 5 true true true _ eq_refl eq_refl _). vm_compute. reflexivity. Qed.

Lemma operator_estop_stops_suit_witness :
  match run_bridge demo_bridge (engage_ops ++ demo_turn (ms 1)) with
  | Some (_, es) => beats es = [] /\ exists flags recs tx ok, EFrame flags recs tx ok ∈ es /\
      hub_gateway_safety_state (gw_downlink_turn (gstep demo_hub (GSpi 0 tx PS_SPI_XFER_SIZE)) 9).1 = PS_STATE_ESTOP
  | None => False
  end.
Proof.
  assert (is_Some (run_bridge demo_bridge (engage_ops ++ demo_turn (ms 1)))) as F by (vm_compute; eauto).
  destruct (run_bridge demo_bridge _) as [[s h]|] eqn:E; [|by destruct F].
  destruct (operator_estop_stops_suit demo_bridge demo_fs "stop" (fun _ => ms 1) (ms 1) 0 (fun _ => None) (ms 1) true idle_answer demo_params (ms 1) (fun _ => [])
    s h demo_hub 0 [] 9 0) as (B & flags & recs & tx & ok & f & ok1 & ok2 & Hin & _ & _ & (G & _) & _).
  - apply bridge_start_ok.
  - reflexivity.
  - reflexivity.
  - vm_compute. lia.
  - intros ? ? [=].
  - exact E.
  - exact demo_hub_published.
  - vm_compute. reflexivity.
  - vm_compute. reflexivity.
  - vm_compute. lia.
  - lia.
  - vm_compute. reflexivity.
  - split; [exact B|]. exists flags, recs, tx, ok. exact (conj Hin G).
Defined.
End Demo.
