(* ===== verification/XrcePath.v ===== *)
(** The byte streams of micro-ROS from end to end: from the terminal of the agent through
    the bridge, the SPI frame, the hub's queues and router to the bus of the node and the
    node's receive filter and stream buffer, and back from the node's writes to its own
    terminal. *)
From stdpp Require Import strings gmap.
From S2P Require Import Prelude CanId Wire Crc16 SpiFrame Float32 Float64 Bridge BridgeSpec Rtos Txq Can Safety SpiBridge Router Gateway HubLink Uros Demux DemuxSpec Adpcm Audio Relay Telem TelemSpec Orch OrchSpec OrchBeats OrchSafety.
From stdpp Require Import list.
#[local] Open Scope Z_scope.
#[local] Open Scope cint_scope.

Section XrcePath.
Context `{RtosQueue} `{TwaiDlc} `{RtosStream} `{SpiTransport}.

(** ** The hub *)

(** Turns of one of the hub's tasks. *)
Fixpoint turns (turn : gw -> Z -> gw * list action) (g : gw) (nows : list Z) : gw * list action :=
  match nows with
  | [] => (g, [])
  | now :: nows => let '(g, a) := turn g now in let '(g, b) := turns turn g nows in (g, a ++ b)
  end.

Definition accepted (a : action) : Prop := match a with ASend _ _ ok | APush _ ok => ok = true | _ => True end.

(** The frames that reach bus [p]. *)
Definition carried (p : Z) (acts : list action) : list ps_can_frame_t :=
  omap (fun a => match a with ASend p' f true => if decide (p' = p) then Some f else None | _ => None end) acts.

(** A record of a stream goes to the bus of its node, and nowhere else. *)
Definition sent_to_node (r : ps_can_record_t) (a : action) : Prop := exists j ok, (j < 6)%nat /\
  ps_can_id_dst (f_id (downlink_frame r)) = n_id (kEdgeNodes !!! j) /\ a = ASend (n_bus (kEdgeNodes !!! j)) (downlink_frame r) ok.

Lemma downlink_turn_xrce g now j r rest : (j < 6)%nat -> xrce_rec_ok (kEdgeNodes !!! j) r ->
  s_started (bridge g) = true -> waiting (s_downlink_q (bridge g)) = r :: rest ->
  exists a, (gw_downlink_turn g now).2 = [a] /\ sent_to_node r a.
Proof.
  intros Hj Hr Hst Hw. pose proof (downlink_xrce j r Hj Hr) as (_ & _ & Hroute & Hd & _). destruct Hr as (_ & Hb & _).
  unfold gw_downlink_turn, ps_spib_downlink_pop. rewrite Hst. cbn [negb orb].
  pose proof (receive_some (s_downlink_q (bridge g))) as Hs. destruct (xQueueReceive _) as [q got]. cbn [fst snd] in *. rewrite Hw in Hs. cbn in Hs. subst got.
  rewrite Hroute, Hb. set (f := downlink_frame r) in *. set (g1 := {| g with bridge := _ |}). clearbody g1.
  destruct (hub_forward_split g1 PS_PORT_SPI f (PS_PORT_BIT (n_bus (kEdgeNodes !!! j))) now) as (g2 & ok1 & ok2 & ok3 & _ & _ & E).
  assert (n_bus (kEdgeNodes !!! j) = PS_PORT_CAN1 \/ n_bus (kEdgeNodes !!! j) = PS_PORT_CAN2) as Hn
    by (do 6 (destruct j as [|j]; [first [left; reflexivity | right; reflexivity]|]); lia).
  destruct Hn as [Hn|Hn]; rewrite Hn in E |- *.
  - change (PS_PORT_CAN1 =? PS_SPI_BUS_HUB_LOCAL) with false. change (PS_PORT_BIT PS_PORT_CAN1 =? 0) with false. cbv zeta iota.
    rewrite E. eexists. split; [reflexivity|]. exists j, ok1. by rewrite Hn.
  - change (PS_PORT_CAN2 =? PS_SPI_BUS_HUB_LOCAL) with false. change (PS_PORT_BIT PS_PORT_CAN2 =? 0) with false. cbv zeta iota.
    rewrite E. eexists. split; [reflexivity|]. exists j, ok2. by rewrite Hn.
Qed.

Lemma downlink_turns_xrce recs : forall g nows rest, Forall (fun r => exists j, (j < 6)%nat /\ xrce_rec_ok (kEdgeNodes !!! j) r) recs ->
  s_started (bridge g) = true -> waiting (s_downlink_q (bridge g)) = recs ++ rest -> length nows = length recs ->
  Forall2 sent_to_node recs (turns gw_downlink_turn g nows).2.
Proof.
  induction recs as [|r recs IH]; intros g [|now nows] rest HF Hst Hw Hn; try done.
  inversion_clear HF as [|? ? (j & Hj & Hr) HF']. cbn [turns app] in *.
  destruct (downlink_turn_xrce g now j r (recs ++ rest) Hj Hr Hst Hw) as (a & Ha & Hs).
  destruct (downlink_turn_takes g now r (recs ++ rest) Hst Hw) as [K1 K2].
  destruct (gw_downlink_turn g now) as [g1 a1]. cbn [fst snd] in *. subst a1.
  specialize (IH g1 nows rest HF' K1 K2 ltac:(by injection Hn)). destruct (turns gw_downlink_turn g1 nows). by constructor.
Qed.

(** ** The node *)

(** A frame on the bus of a node: its driver's filter and dispatch, its stream. *)
Definition hear (n : ps_can_ctx * transport) (f : ps_can_frame_t) : ps_can_ctx * transport :=
  let '(c, got) := rx_dispatch n.1 f in
  (c, match got with Some (cb, f) => if cb =? xrce_rx_cb then xrce_rx n.2 f else n.2 | None => n.2 end).

Definition for_node (i : nat) (f : ps_can_frame_t) : Prop := ps_can_id_dst (f_id f) = n_id (kEdgeNodes !!! i).
#[local] Instance for_node_dec i f : Decision (for_node i f) := ltac:(unfold for_node; apply _).

Lemma hear_all i fs : forall c t, (i < 6)%nat -> node_id c = n_id (kEdgeNodes !!! i) -> cls_cb c !!! Z.to_nat PS_CLS_XRCE = Some xrce_rx_cb ->
  Forall (fun f => ps_can_id_cls (f_id f) = PS_CLS_XRCE /\ exists j, (j < 6)%nat /\ for_node j f) fs ->
  (foldl hear (c, t) fs).2 = foldl xrce_rx t (filter (for_node i) fs).
Proof.
  induction fs as [|f fs IH]; intros c t Hi Hc Hcb HF; [done|]. apply Forall_cons in HF as [(Hx & j & Hj & Hf) HF']. cbn [foldl].
  assert (hear (c, t) f = (c, if decide (for_node i f) then xrce_rx t f else t)) as ->.
  { destruct (edge_id i Hi) as [Ei _], (edge_id j Hj) as [Ej _]. unfold hear, rx_dispatch, for_node in *. cbn [fst snd].
    rewrite Hx, Hcb, Hc. destruct (decide _) as [Heq|Hne].
    - rewrite Heq, Z.eqb_refl, orb_true_r. done.
    - rewrite Hf, Ei, Ej in *. unfold PS_NODE_BROADCAST. rewrite !(proj2 (Z.eqb_neq _ _)) by lia. done. }
  rewrite IH by done. destruct (decide (for_node i f)); [by rewrite filter_cons_True|by rewrite filter_cons_False].
Qed.

(** What reaches a node of the frames on its bus: those of its own stream. *)
Lemma carried_mine i recs acts : (i < 6)%nat -> Forall2 sent_to_node recs acts -> Forall accepted acts ->
  filter (for_node i) (carried (n_bus (kEdgeNodes !!! i)) acts) =
  downlink_frame <$> filter (fun r => for_node i (downlink_frame r)) recs.
Proof.
  intros Hi HA. induction HA as [|r a recs acts (j & ok & Hj & Hd & ->) HA IH]; intros HF; [done|].
  inversion_clear HF as [|? ? Hok HF']. cbn in Hok. subst ok. cbn [carried omap list_omap]. fold (carried (n_bus (kEdgeNodes !!! i)) acts).
  destruct (decide (i = j)) as [<-|Hne].
  - rewrite decide_True by done. rewrite !filter_cons_True by done. cbn [fmap list_fmap]. by rewrite IH.
  - assert (~ for_node i (downlink_frame r)) as Hno.
    { unfold for_node. rewrite Hd. destruct (edge_id i Hi) as [-> _], (edge_id j Hj) as [-> _]. lia. }
    rewrite (filter_cons_False _ r) by done. rewrite <- IH by done. case_decide; [by rewrite filter_cons_False|done].
Qed.

Lemma carried_xrce p recs acts : Forall2 sent_to_node recs acts ->
  Forall (fun r => exists j, (j < 6)%nat /\ xrce_rec_ok (kEdgeNodes !!! j) r) recs ->
  Forall (fun f => ps_can_id_cls (f_id f) = PS_CLS_XRCE /\ exists j, (j < 6)%nat /\ for_node j f) (carried p acts).
Proof.
  induction 1 as [|r a recs acts (j & ok & Hj & Hd & ->) HA IH]; intros HF; [constructor|].
  apply Forall_cons in HF as [(k & Hk & Hr) HF]. cbn [carried omap list_omap]. fold (carried p acts). specialize (IH HF).
  destruct ok; [|done]. case_decide; [|done]. constructor; [|done]. split; [apply (downlink_xrce k r Hk Hr)|by exists j].
Qed.

(** ** Down *)

(** A turn of the bridge frames what it polled first, as far as it fits. *)
Lemma turn_frames_poll s now rc reads clock ros a p clock' rets s' es : sys_ok s -> o_turn s = TIdle ->
  (forall i bytes, reads i = Some bytes -> Forall is_u8 bytes) ->
  run_bridge s (whole_turn now rc reads clock ros a p clock' rets) = Some (s', es) ->
  exists flags sent ok rest, EFrame flags sent (frame_bytes flags (tx_seq_ (o_parser s)) sent) ok ∈ es /\
    is_u8 flags /\ Forall record_ok sent /\ (length sent <= PS_SPI_MAX_RECORDS)%nat /\
    sent = take PS_SPI_MAX_RECORDS (poll_outbound (o_xrce s) rc reads ++ rest).
Proof.
  intros Hs Ht Hb Hrun. unfold whole_turn in Hrun. set (pl := poll_outbound (o_xrce s) rc reads).
  apply run_cons in Hrun as (s1 & e1 & es1 & E1 & Hrun & ->). pose proof E1 as K1. apply step_ok in K1 as [K1 _]; [|done|done].
  cbn [step] in E1. unfold gather in E1. rewrite Ht in E1. destruct (outbound_drain _ _) as [q cmds]. unfold drain_outbound in E1. injection E1 as <- <-. fold pl in K1, Hrun |- *.
  apply run_cons in Hrun as (s2 & e2 & es2 & E2 & Hrun & ->). pose proof E2 as K2. apply step_ok in K2 as [K2 _]; [|done|done].
  cbn [step] in E2. unfold sample in E2. cbn [o_turn] in E2. destruct (HeartbeatEmitter_tick _ _ _ _ _ _ _) as [hb hrec].
  assert (exists rest latched beat st, o_turn s2 = TSampled now (pl ++ rest) latched beat st /\ o_parser s2 = o_parser s) as (rest & latched & beat & st & T2 & P2).
  { destruct hrec as [hrec|]; injection E2 as <- <-; do 4 eexists; (split; [|done]); cbn [o_turn]; [by rewrite <- !app_assoc|done]. }
  clear E2 K1. apply run_cons in Hrun as (s3 & e3 & es3 & E3 & Hrun & ->). pose proof E3 as K3. apply step_ok in K3 as [K3 _]; [|done|done].
  cbn [step] in E3. unfold report in E3. rewrite T2 in E3. injection E3 as <- <-.
  apply run_cons in Hrun as (s4 & e4 & es4 & E4 & _ & ->). cbn [step] in E4.
  apply exchange_spec in E4 as (n & batch & l & tx & ok & es' & Et & E4). injection Et as <- <- <-.
  pose proof (cap_takes (pl ++ rest) latched) as Htk. pose proof (cap_flags (pl ++ rest) latched) as Hf.
  destruct (cap (pl ++ rest) latched) as [[sent over] flags]. cbn [fst] in Htk. subst sent. destruct Hf as [Hf _], E4 as (-> & -> & _).
  assert (Forall record_ok (pl ++ rest)) as Hok by (destruct K3 as (_ & K3 & _); exact K3).
  assert (Forall record_ok (take PS_SPI_MAX_RECORDS (pl ++ rest))) as Hsent by (by apply Forall_take).
  assert (length (take PS_SPI_MAX_RECORDS (pl ++ rest)) <= PS_SPI_MAX_RECORDS)%nat as Hlen by (rewrite length_take; lia).
  exists flags, (take PS_SPI_MAX_RECORDS (pl ++ rest)), ok, rest. split_and!; try done.
  cbn [o_parser]. rewrite build_frame by done. cbn [fst snd]. rewrite P2.
  do 3 (apply elem_of_app; right). apply elem_of_app. left. apply elem_of_cons. by left.
Qed.

(** C35: What the micro-ROS agent writes for a node reaches that node, in order, and no other.
    In a turn of the bridge that polls at most 31 records, they head the frame to the hub.
    When a hub with an empty downlink queue has taken that frame, turn by turn its downlink
    task sends each of them on the bus of the node it is for and does nothing else with it.
    If no bus refused one, then every edge node that listens to its bus with its XRCE class
    registered and room in its stream gets appended exactly the bytes that were polled from
    its own terminal (none, if that is closed), whatever the other terminals held. *)
Theorem xrce_downlink s now rc reads clock ros a p clock' rets s' es (g : gw) slot nows :
  sys_ok s -> o_turn s = TIdle -> (forall i bytes, reads i = Some bytes -> Forall is_u8 bytes) ->
  let recs := poll_outbound (o_xrce s) rc reads in (length recs <= PS_SPI_MAX_RECORDS)%nat ->
  run_bridge s (whole_turn now rc reads clock ros a p clock' rets) = Some (s', es) ->
  s_started (bridge g) = true -> waiting (s_downlink_q (bridge g)) = [] -> (PS_SPI_MAX_RECORDS <= capacity (s_downlink_q (bridge g)))%nat ->
  length nows = length recs ->
  exists flags sent tx ok, EFrame flags sent tx ok ∈ es /\
    let acts := (turns gw_downlink_turn (gstep g (GSpi slot tx PS_SPI_XFER_SIZE)) nows).2 in
    Forall2 sent_to_node recs acts /\
    (Forall accepted acts -> forall i c t, (i < 6)%nat -> node_id c = n_id (kEdgeNodes !!! i) ->
     cls_cb c !!! Z.to_nat PS_CLS_XRCE = Some xrce_rx_cb -> (length (polled (o_xrce s) rc reads i) <= room (t_rx t))%nat ->
     let t' := (foldl hear (c, t) (carried (n_bus (kEdgeNodes !!! i)) acts)).2 in
     stored (t_rx t') = stored (t_rx t) ++ polled (o_xrce s) rc reads i /\ t_rx_overruns t' = t_rx_overruns t).
Proof.
  intros Hs Ht Hb recs Hlen Hrun Hst Hw Hcap Hn. pose proof Hs as (_ & _ & _ & _ & _ & _ & Hseq & _).
  destruct (turn_frames_poll s now rc reads clock ros a p clock' rets s' es Hs Ht Hb Hrun) as (flags & sent & ok & rest & Hin & Hf & Hok & Hsl & Hsent).
  fold recs in Hsent. exists flags, sent, (frame_bytes flags (tx_seq_ (o_parser s)) sent), ok. split; [done|].
  destruct (pump_takes_frame (bridge g) slot flags (tx_seq_ (o_parser s)) sent Hf Hseq Hok Hsl Hw ltac:(lia)) as [P1 P2].
  rewrite take_app_ge in Hsent by done. cbv zeta. set (g1 := gstep g _). set (acts := (turns _ g1 nows).2).
  assert (Forall (fun r => exists j, (j < 6)%nat /\ xrce_rec_ok (kEdgeNodes !!! j) r) recs) as Hx by apply (poll_of_node (o_xrce s) rc reads 0 ltac:(lia)).
  assert (Forall2 sent_to_node recs acts) as HA.
  { eapply downlink_turns_xrce; [done|exact (eq_trans P2 Hst)|exact (eq_trans P1 Hsent)|done]. }
  pose proof (fun q => carried_xrce q recs acts HA Hx) as Hcx. clearbody acts. split; [done|]. intros Hacc i c t Hi Hc Hcb Hroom. cbv zeta.
  destruct (poll_of_node (o_xrce s) rc reads i Hi) as (M1 & M2 & _). cbv zeta in M1, M2. fold recs in M1, M2.
  rewrite (hear_all i _ c t Hi Hc Hcb (Hcx _)), (carried_mine i recs acts Hi HA Hacc). unfold for_node.
  set (mine := filter _ recs) in *. clearbody mine. rewrite <- M2 in *.
  assert (payload <$> (downlink_frame <$> mine) = rec_payload <$> mine) as Hp.
  { rewrite <- list_fmap_compose. apply list_fmap_ext. intros k x Hk. apply (downlink_xrce i x Hi), (Forall_lookup_1 _ _ _ _ M1 Hk). }
  assert (Forall xrce_shape (downlink_frame <$> mine)) as Hsh.
  { apply Forall_fmap. eapply Forall_impl; [exact M1|]. intros x Hr. apply (downlink_xrce i x Hi Hr). }
  destruct (xrce_rx_all _ t Hsh) as (X1 & X2 & _); [by rewrite Hp|]. by rewrite X1, Hp.
Qed.

(** ** Up *)

Definition xrce_item (i : nat) (f : ps_can_frame_t) : gw_item_t := {| port := n_bus (kEdgeNodes !!! i); frame := f |}.

Lemma uplink_xrce i f now : (i < 6)%nat -> xrce_ok (n_id (kEdgeNodes !!! i)) f -> Forall is_u8 (f_data f) ->
  let r := uplink_record (n_bus (kEdgeNodes !!! i)) f now in
  record_ok r /\ ps_can_id_cls (r_id r) = PS_CLS_XRCE /\ ps_can_id_src (r_id r) = n_id (kEdgeNodes !!! i) /\ rec_payload r = payload f /\
  ps_router_route (n_bus (kEdgeNodes !!! i)) (f_id f) = PS_PORT_BIT PS_PORT_SPI.
Proof.
  intros Hi (Hid & Hd & Hl) Hu. cbv zeta. unfold uplink_record, record_ok, rec_payload, payload. cbn [r_id r_bus r_dlc r_ts_ms r_data].
  destruct (edge_id i Hi) as [Hn _]. rewrite (firstn_all2 (f_data f)) by lia.
  assert (0 <= f_id f < 536870912) as Hr
    by (rewrite Hid; apply pack_range; rewrite ?Hn; unfold PS_CLS_XRCE, PS_NODE_ORCH, PS_T_XRCE_STREAM; clia).
  assert (ps_can_id_src (f_id f) = n_id (kEdgeNodes !!! i)) as Hs
    by (rewrite Hid; apply src_pack; rewrite ?Hn; unfold PS_CLS_XRCE, PS_NODE_ORCH, PS_T_XRCE_STREAM; clia).
  split_and!; try (done || lia || apply u16_range).
  - do 6 (destruct i as [|i]; [by vm_compute|]). lia.
  - do 6 (destruct i as [|i]; [by vm_compute|]). lia.
  - rewrite Hid. apply cls_pack; rewrite ?Hn; unfold PS_CLS_XRCE, PS_NODE_ORCH, PS_T_XRCE_STREAM; clia.
  - rewrite Hid. do 6 (destruct i as [|i]; [by vm_compute|]). lia.
Qed.

(** A turn of the pump takes a frame of a stream up, and does nothing else with it. *)
Lemma pump_turn_xrce g now i f rest a : (i < 6)%nat -> xrce_ok (n_id (kEdgeNodes !!! i)) f -> Forall is_u8 (f_data f) ->
  waiting (s_route_q g) = xrce_item i f :: rest -> srel true (bridge g) a -> (length (up a) < up_max a)%nat ->
  let r := uplink_record (n_bus (kEdgeNodes !!! i)) f now in
  let t := gw_pump_turn g now in
  t.2 = [APush r true] /\ waiting (s_route_q t.1) = rest /\ srel true (bridge t.1) {| a with up := up a ++ [r] |}.
Proof.
  intros Hi Hf Hu Hw Hrel Hup. cbv zeta. destruct (uplink_xrce i f now Hi Hf Hu) as (Hok & _ & _ & _ & Hroute). unfold gw_pump_turn.
  pose proof (receive_some (s_route_q g)) as Hs. pose proof (receive_waiting (s_route_q g)) as Hr.
  destruct (xQueueReceive (s_route_q g)) as [q got]. cbn [fst snd] in *. rewrite Hw in *. cbn in Hs, Hr. subst got.
  cbn [xrce_item port frame]. rewrite Hroute. change (PS_PORT_BIT PS_PORT_SPI =? 0) with false. cbv iota zeta.
  unfold hub_forward. change (has (PS_PORT_BIT PS_PORT_SPI) (PS_PORT_BIT PS_PORT_CAN1)) with false.
  change (has (PS_PORT_BIT PS_PORT_SPI) (PS_PORT_BIT PS_PORT_CAN2)) with false. change (has (PS_PORT_BIT PS_PORT_SPI) (PS_PORT_BIT PS_PORT_LOCAL)) with false.
  change (has (PS_PORT_BIT PS_PORT_SPI) (PS_PORT_BIT PS_PORT_SPI)) with true. cbv iota. unfold forward_spi. cbn [bridge].
  destruct (push_rel (bridge g) a _ Hrel Hok) as [P1 P2]. cbn [sspec] in P1, P2. rewrite (proj2 (Nat.ltb_lt _ _) Hup) in P1, P2.
  destruct (ps_spib_uplink_push _ _) as [b ok]. cbn [fst snd] in *. injection P2 as ->. by split_and!.
Qed.

Lemma pump_turns_xrce i fs : forall g nows a, (i < 6)%nat -> Forall (xrce_ok (n_id (kEdgeNodes !!! i))) fs ->
  Forall (fun f => Forall is_u8 (f_data f)) fs -> waiting (s_route_q g) = xrce_item i <$> fs -> srel true (bridge g) a ->
  (length (up a) + length fs <= up_max a)%nat -> length nows = length fs ->
  let recs := zip_with (uplink_record (n_bus (kEdgeNodes !!! i))) fs nows in
  let t := turns gw_pump_turn g nows in
  t.2 = (fun r => APush r true) <$> recs /\ srel true (bridge t.1) {| a with up := up a ++ recs |}.
Proof.
  induction fs as [|f fs IH]; intros g [|now nows] a Hi HF HU Hw Hrel Hup Hn; try done; cbv zeta.
  { cbn. rewrite app_nil_r. split; [done|]. by destruct a. }
  apply Forall_cons in HF as [Hf HF], HU as [Hu HU]. cbn [length] in Hup. cbn [turns fmap list_fmap zip_with].
  destruct (pump_turn_xrce g now i f _ a Hi Hf Hu Hw Hrel ltac:(lia)) as (T1 & T2 & T3).
  destruct (gw_pump_turn g now) as [g1 a1]. cbn [fst snd] in *. subst a1.
  destruct (IH g1 nows {| a with up := up a ++ [uplink_record (n_bus (kEdgeNodes !!! i)) f now] |} Hi HF HU T2 T3) as [I1 I2].
  { cbn [up up_max]. rewrite length_app. cbn. lia. } { by injection Hn. }
  destruct (turns gw_pump_turn g1 nows) as [g2 a2]. cbn [fst snd] in *. subst a2. split; [done|]. cbn [up] in I2. by rewrite <- app_assoc in I2.
Qed.

(** The frame the hub offers next. *)
Lemma pump_frame b a slot rx len : srel true b a -> (slot < 2)%nat -> exists flags seq, is_u8 flags /\ is_u8 seq /\
  (spib_pump_turn b slot rx len).2 = frame_bytes flags seq (take 31 (up a)).
Proof.
  intros Hr Hi. unfold spib_pump_turn.
  set (s0 := {| b with s_stats := {| (s_stats b) with transactions := inc32 (transactions (s_stats b)) |} |}).
  assert (srel true s0 a) as Hr0 by (destruct Hr; by constructor).
  pose proof (handle_rx_rel true s0 a rx len Hr0) as Hr1. set (a1 := match decode rx len with Some m => _ | None => _ end) in *.
  assert (up a1 = up a) as <- by (subst a1; by destruct (decode rx len)). set (s1 := spib_handle_rx s0 rx len) in *. clearbody a1 s1.
  assert (length (s_tx s1 !!! slot) = PS_SPI_XFER_SIZE) as Hbuf.
  { apply (Forall_total (fun b => length b = PS_SPI_XFER_SIZE)); [apply (sr_bufs _ _ _ Hr1)|]. by rewrite (sr_tx _ _ _ Hr1). }
  unfold spib_build_tx. destruct (drain_spec PS_SPI_MAX_RECORDS (s_uplink_q s1)) as (_ & _ & Hrecs).
  destruct (drain PS_SPI_MAX_RECORDS (s_uplink_q s1)) as [q recs]. cbn [fst snd] in *. pose proof Hr1 as [_ sr_up0 _ _ _ _ _ sr_ovf0 sr_sticky0 sr_sticky_ok0 sr_seq0 sr_seq_ok0 _ _ sr_recs0]. rewrite sr_up0 in Hrecs. subst recs.
  cbn [s_overflow_pending s_sticky_flags s_uplink_q]. rewrite sr_ovf0, sr_sticky0.
  destruct (aflags_eq (sticky a1) (refused a1) (0 <? messages q)%nat sr_sticky_ok0) as [Hfl Hok]. cbv zeta in Hfl.
  exists (aflags (sticky a1) (refused a1) (0 <? messages q)%nat), (tx_next a1). split; [done|]. split; [done|].
  assert (Forall record_ok (take 31 (up a1))) as HF by (by apply Forall_take).
  destruct (refused a1); cbn [s_uplink_q s_tx_seq s_tx s_sticky_flags snd]; rewrite Hfl, sr_seq0;
    by rewrite build_eq by (done || rewrite length_take; unfold PS_SPI_MAX_RECORDS; lia).
Qed.

(** The bridge's handling of the records of one stream. *)
Lemma dispatch_xrce i (s : sys) p clock rets recs : forall k, (i < 6)%nat -> terminal_open (o_xrce s) i -> (forall k, writes_well (rets k)) ->
  Forall (fun r => record_ok r /\ ps_can_id_cls (r_id r) = PS_CLS_XRCE /\ ps_can_id_src (r_id r) = n_id (kEdgeNodes !!! i)) recs ->
  dispatch s p clock recs k rets = Some (s, (fun r => ETty (n_id (kEdgeNodes !!! i)) (rec_payload r)) <$> recs).
Proof.
  induction recs as [|r recs IH]; intros k Hi Ho Hw HF; [done|]. apply Forall_cons in HF as [(Hok & Hc & Hs) HF]. cbn [dispatch].
  assert (dispatch_record s p clock r (rets k) = Some (s, [ETty (n_id (kEdgeNodes !!! i)) (rec_payload r)])) as ->.
  { unfold dispatch_record. change (cls (ps_can_id_unpack (r_id r))) with (ps_can_id_cls (r_id r)).
    change (src (ps_can_id_unpack (r_id r))) with (ps_can_id_src (r_id r)). cbv zeta. rewrite Hc, Hs.
    change (PS_CLS_XRCE =? PS_CLS_TELEM) with false. change (PS_CLS_XRCE =? PS_CLS_XRCE) with true. cbv iota.
    unfold write_inbound. rewrite index_of_edge, Nat2Z.id by done. unfold terminal_open in Ho.
    rewrite (proj2 (Z.ltb_ge _ _)), (proj2 (Z.ltb_ge _ _)) by lia. cbn [orb]. fold (rec_payload r).
    destruct Hok as (_ & _ & Hd & _ & H8 & _), (Hw k) as [W1 W2].
    rewrite send_all_ends; [done|done|]. unfold rec_payload. rewrite length_take. lia. }
  cbn [mbind option_bind]. by rewrite IH by done.
Qed.

Lemma write_loop_bytes fuel : forall t buf w, Forall is_u8 buf -> Forall (fun f => Forall is_u8 (f_data f)) (write_loop fuel t buf w).2.
Proof.
  induction fuel as [|fuel IH]; intros t buf w Hb; cbn [write_loop]; [constructor|]. destruct (_ <=? _)%nat; [constructor|]. cbv zeta.
  destruct (ps_can_send _ _) as [c err]. destruct (negb _); [constructor|].
  match goal with |- context [write_loop fuel ?t1 buf ?w1] => specialize (IH t1 buf w1 Hb); destruct (write_loop fuel t1 buf w1) as [[t' w'] fs] end.
  constructor; [|done]. cbn [xrce_frame f_data]. apply Forall_app. split; [by apply Forall_take, Forall_drop|]. apply Forall_replicate. clia.
Qed.

(** C40: What a node writes to its stream reaches its own terminal, in order, and nothing else.
    The frames its driver took carry what [ps_uros_write] says it wrote.  When the hub's
    pump has them waiting (at most 31 of them, with room in an empty uplink queue), turn by
    turn it pushes each one up and does nothing else with it; the next frame of the hub holds
    them; and the bridge, on that frame, writes exactly those bytes to the terminal of that
    node, record by record, provided that it is open and its writes do not fail, and does
    nothing else but note the frame. *)
Theorem xrce_uplink i (t : transport) buf (g : gw) a nows slot rx len (s : sys) now p clock rets :
  (i < 6)%nat -> t_node_id t = n_id (kEdgeNodes !!! i) -> Forall is_u8 buf ->
  let w := ps_uros_write t buf in let fs := w.2 in
  waiting (s_route_q g) = xrce_item i <$> fs -> srel true (bridge g) a -> up a = [] ->
  (length fs <= PS_SPI_MAX_RECORDS)%nat -> (length fs <= up_max a)%nat -> length nows = length fs -> (slot < 2)%nat ->
  let r := turns gw_pump_turn g nows in
  o_rx s = (spib_pump_turn (bridge r.1) slot rx len).2 -> terminal_open (o_xrce s) i -> (forall k, writes_well (rets k)) ->
  mjoin (payload <$> fs) = take w.1.2.1 buf /\
  r.2 = zip_with (fun f now => APush (uplink_record (n_bus (kEdgeNodes !!! i)) f now) true) fs nows /\
  exists s', receive s now p clock rets = Some (s', EGood now :: ((fun f => ETty (n_id (kEdgeNodes !!! i)) (payload f)) <$> fs)).
Proof.
  intros Hi Ht Hu w fs Hw Hrel Hup Hfl Hmax Hn Hslot r Hrx Ho Hwr.
  assert (Forall (xrce_ok (n_id (kEdgeNodes !!! i))) fs /\ mjoin (payload <$> fs) = take w.1.2.1 buf /\
    Forall (fun f => Forall is_u8 (f_data f)) fs) as (F1 & F2 & F3).
  { subst fs w. unfold ps_uros_write. pose proof (write_loop_spec (length buf) t buf 0 ltac:(lia) ltac:(lia)) as Hl.
    pose proof (write_loop_bytes (length buf) t buf 0 Hu) as Hy. destruct (write_loop (length buf) t buf 0) as [[t' n] l].
    destruct Hl as (_ & L1 & L2 & _). cbn [fst snd] in *. rewrite drop_0, Nat.sub_0_r, Ht in *. done. }
  destruct (pump_turns_xrce i fs g nows a Hi F1 F3 Hw Hrel ltac:(rewrite Hup; done) Hn) as [R1 R2]. cbv zeta in R1, R2. fold r in R1, R2.
  clearbody fs r. clear Hw. split; [done|]. rewrite Hup in R2. cbn [app] in R2.
  assert (Forall (fun x => record_ok x /\ ps_can_id_cls (r_id x) = PS_CLS_XRCE /\ ps_can_id_src (r_id x) = n_id (kEdgeNodes !!! i))
      (zip_with (uplink_record (n_bus (kEdgeNodes !!! i))) fs nows) /\
    rec_payload <$> zip_with (uplink_record (n_bus (kEdgeNodes !!! i))) fs nows = payload <$> fs /\
    (fun x => APush x true) <$> zip_with (uplink_record (n_bus (kEdgeNodes !!! i))) fs nows =
      zip_with (fun f now => APush (uplink_record (n_bus (kEdgeNodes !!! i)) f now) true) fs nows) as (Z1 & Z2 & Z3).
  { clear -Hi F1 F3 Hn. revert nows Hn. induction fs as [|f fs IH]; intros [|n nows] Hn; try done.
    apply Forall_cons in F1 as [Hf F1], F3 as [Hy F3]. destruct (IH F1 F3 nows ltac:(by injection Hn)) as (I1 & I2 & I3).
    destruct (uplink_xrce i f n Hi Hf Hy) as (U1 & U2 & U3 & U4 & _). cbn [zip_with fmap list_fmap]. rewrite I2, I3, U4. by split; [constructor|]. }
  split; [by rewrite R1, Z3|]. set (recs := zip_with (uplink_record _) fs nows) in *.
  assert (length recs <= 31)%nat as Hrl by (subst recs; rewrite length_zip_with; unfold PS_SPI_MAX_RECORDS in *; lia). clearbody recs.
  destruct (pump_frame (bridge r.1) _ slot rx len R2 Hslot) as (flags & seq & Hfg & Hsq & Hb). cbn [up] in Hb. rewrite firstn_all2 in Hb by done.
  assert (Forall record_ok recs) as Hok by (eapply Forall_impl; [exact Z1|]; by intros x []).
  unfold receive. rewrite Hrx, Hb, frame_bytes_length by done. rewrite parse_built by done.
  rewrite bool_decide_false, bool_decide_true by done.
  match goal with |- context [dispatch ?s1 _ _ _ _ _] => rewrite (dispatch_xrce i s1 p clock rets recs 0 Hi Ho Hwr Z1) end.
  cbn [mbind option_bind]. eexists.
  change (fun r => ETty (n_id (kEdgeNodes !!! i)) (rec_payload r)) with (ETty (n_id (kEdgeNodes !!! i)) ∘ rec_payload).
  change (fun f => ETty (n_id (kEdgeNodes !!! i)) (payload f)) with (ETty (n_id (kEdgeNodes !!! i)) ∘ payload).
  by rewrite !list_fmap_compose, Z2.
Qed.
End XrcePath.

(** ** Witnesses *)

Section Demo.
#[local] Existing Instance spidev_transport.

(** The terminals of nodes 1 and 3 are open; the agent wrote to both. *)
Definition xrce_demo : XrceDemux := (open_all (XrceDemux_new "/tmp/x") true (fun i => (if (i =? 0)%nat || (i =? 2)%nat then Some (7, 8) else None, true))).1.
Definition xrce_bridge : sys := bridge_start (o_link demo_bridge) xrce_demo demo_telem "/var/estop" ∅ 0 0 0.
Definition leg_bytes : list Z := [126; 1; 2; 3; 4; 5; 6; 7; 8; 9; 126].
Definition agent (bytes : list Z) (i : nat) : option (list Z) :=
  if (i =? 0)%nat then Some [5; 6] else if (i =? 2)%nat then Some bytes else None.
Definition xrce_turn (now : Z) (reads : nat -> option (list Z)) : list op :=
  whole_turn now 1 reads now false idle_answer demo_params now (fun _ => []).
Definition leg_can : ps_can_ctx := {| (ps_can_open_ctx 3 0 0) with cls_cb := <[Z.to_nat PS_CLS_XRCE := Some xrce_rx_cb]> (replicate 8 None) |}.

Lemma agent_bytes bytes : Forall is_u8 bytes -> forall i l, agent bytes i = Some l -> Forall is_u8 l.
Proof. intros Hb i l. unfold agent. destruct (i =? 0)%nat; [intros [= <-]; repeat constructor; clia|]. destruct (i =? 2)%nat; [by intros [= <-]|done]. Qed.

Lemma xrce_downlink_witness :
  match run_bridge xrce_bridge (xrce_turn (ms 1) (agent leg_bytes)) with
  | Some (_, es) => exists flags sent tx ok, EFrame flags sent tx ok ∈ es /\
      let acts := (turns gw_downlink_turn (gstep demo_hub (GSpi 0 tx PS_SPI_XFER_SIZE)) [6; 7; 8]).2 in
      Forall accepted acts ->
      stored (t_rx (foldl hear (leg_can, demo_leg) (carried PS_PORT_CAN2 acts)).2) = leg_bytes
  | None => False
  end.
Proof.
  assert (is_Some (run_bridge xrce_bridge (xrce_turn (ms 1) (agent leg_bytes)))) as F by (vm_compute; eauto).
  destruct (run_bridge xrce_bridge _) as [[s h]|] eqn:E; [|by destruct F].
  destruct (xrce_downlink xrce_bridge (ms 1) 1 (agent leg_bytes) (ms 1) false idle_answer demo_params (ms 1) (fun _ => []) s h demo_hub 0 [6; 7; 8])
    as (flags & sent & tx & ok & Hin & _ & Hx).
  - apply bridge_start_ok.
  - reflexivity.
  - apply agent_bytes. repeat constructor; clia.
  - vm_compute. lia.
  - exact E.
  - vm_compute. reflexivity.
  - vm_compute. reflexivity.
  - vm_compute. lia.
  - vm_compute. reflexivity.
  - exists flags, sent, tx, ok. split; [exact Hin|]. intros acts Hacc.
    destruct (Hx Hacc 2%nat leg_can demo_leg) as [Hs _]; [lia|reflexivity|reflexivity|vm_compute; lia|]. exact Hs.
Defined.

(** The frame of that turn, taken by the hub: no bus refuses. *)
Definition first_tx (r : option (sys * list event)) : list Z :=
  match r with Some (_, es) => default [] (list.head (omap (fun e => match e with EFrame _ _ tx _ => Some tx | _ => None end) es)) | None => [] end.
Example xrce_downlink_accepts :
  let tx := first_tx (run_bridge xrce_bridge (xrce_turn (ms 1) (agent leg_bytes))) in
  (turns gw_downlink_turn (gstep demo_hub (GSpi 0 tx PS_SPI_XFER_SIZE)) [6; 7; 8]).2 =
  (fun '(p, r) => ASend p (downlink_frame r) true) <$>
    zip [PS_PORT_CAN1; PS_PORT_CAN2; PS_PORT_CAN2] (poll_outbound xrce_demo 1 (agent leg_bytes)).
Proof. vm_compute. reflexivity. Qed.

(** What a frame has no room for goes behind what the next poll brings: the bytes of one
    stream change their order.  Here the agent writes 256 bytes for node 3 and then eight
    more, the last eight of the 256 leave after those. *)
Definition long_bytes : list Z := seqZ 0 240.
Theorem xrce_overflow_reorders :
  match run_bridge xrce_bridge (xrce_turn (ms 1) (fun i => if (i =? 2)%nat then Some (long_bytes ++ replicate 16 7) else None) ++
                                xrce_turn (ms 2) (fun i => if (i =? 2)%nat then Some (replicate 8 9) else None)) with
  | Some (_, es) => mjoin (rec_payload <$> framed es) = long_bytes ++ replicate 8 7 ++ replicate 8 9 ++ replicate 8 7
  | None => False
  end.
Proof. vm_compute. reflexivity. Qed.

(** Node 3 writes; its two frames wait at the hub. *)
Definition leg_writer : transport := {| demo_leg with t_can := Some leg_can |}.
Definition leg_frames : list ps_can_frame_t := (ps_uros_write leg_writer leg_bytes).2.
Definition leg_hub : gw := foldl (fun g f => gw_rx_cb g PS_PORT_CAN2 f) demo_hub leg_frames.
Definition hub_tx : list Z := (spib_pump_turn (bridge (turns gw_pump_turn leg_hub [6; 7]).1) 0 [] 0).2.

Lemma leg_hub_rel : srel true (bridge leg_hub) (a_started 40 40).
Proof.
  assert (bridge leg_hub = (ps_spib_start (spib_off (xQueueCreate 0) (xQueueCreate 0)) (Some (40%nat, 40%nat)) all_ok).1) as ->
    by (vm_compute; reflexivity).
  eapply start_rel. rewrite (surjective_pairing (ps_spib_start _ _ _)). f_equal.
Qed.

Definition listening : sys := {| xrce_bridge with o_rx := hub_tx |}.
Definition eager : list wret := replicate 8 (Wrote 1).

Lemma xrce_uplink_witness :
  length leg_frames = 2%nat /\
  exists s', receive listening 7 demo_params 7 (fun _ => eager) =
    Some (s', EGood 7 :: ((fun f => ETty 3 (payload f)) <$> leg_frames)) /\ mjoin (payload <$> leg_frames) = leg_bytes.
Proof.
  split; [vm_compute; reflexivity|].
  destruct (xrce_uplink 2 leg_writer leg_bytes leg_hub (a_started 40 40) [6; 7] 0 [] 0 listening 7 demo_params 7 (fun _ => eager))
    as (H1 & _ & s' & H2).
  - lia.
  - reflexivity.
  - repeat constructor; clia.
  - vm_compute. reflexivity.
  - exact leg_hub_rel.
  - reflexivity.
  - vm_compute. lia.
  - vm_compute. lia.
  - reflexivity.
  - lia.
  - reflexivity.
  - unfold terminal_open. vm_compute. discriminate.
  - intros k. split; [repeat constructor; discriminate|vm_compute; lia].
  - exists s'. split; [exact H2|exact H1].
Defined.
End Demo.
