(* ===== verification/Main.v ===== *)
(** The bridge process from start to exit (main.cpp of suit_canspi_bridge): its parameters, the
    choice and opening of a transport, the micro-ROS terminals, and what is released when it
    ends.  What runs in between is [Orch].  Answers of the system are arguments; file
    descriptors opened and closed are a log. *)
From stdpp Require Import strings gmap.
From S2P Require Import Prelude CanId Wire SpiFrame Float32 Float64 Bridge Rtos Txq Can Uros Demux DemuxSpec Adpcm Audio Relay Telem Orch OrchSpec.
From stdpp Require Import list.
From Stdlib Require Import SpecFloat.
#[local] Open Scope Z_scope.

(** The parameters the process decides by; the others are handed to the system as they are. *)
Record main_params := { p_transport : string; p_gpiochip : string; p_rate_hz : f64; p_counter_path : string; p_symlink_dir : string }.

Definition declared_defaults : main_params :=
  {| p_transport := "spidev"; p_gpiochip := EmptyString; p_rate_hz := dof_Z 1000;
     p_counter_path := "/var/lib/powersuit/estop_counter"; p_symlink_dir := "/tmp/powersuit/xrce" |}.

(** Answers of the system: the addresses of the peer with the sockets made for them and whether
    they connect; libgpiod's generation; the device and its set-up; the terminals. *)
Record main_env := {
  me_resolved : option (list (Z * bool));
  me_v2 : bool; me_fd : Z; me_ioctls : bool; me_gpio : gpio_answers;
  me_dir_ok : bool; me_ptys : nat -> pty_answer }.

Inductive fdev := Opened (fd : Z) | Closed (fd : Z).

(** The descriptors of [connect_loop]. *)
Fixpoint connect_log (addrs : list (Z * bool)) : list fdev :=
  match addrs with
  | [] => []
  | (sock, ok) :: addrs =>
    if sock <? 0 then connect_log addrs else if ok then [Opened sock] else [Opened sock; Closed sock] ++ connect_log addrs
  end.

Inductive transport := Mock (t : MockTransport) | Spidev (i : Impl).

Definition if_open (fd : Z) (ev : fdev) : list fdev := if 0 <=? fd then [ev] else [].

(** The destructors. *)
Definition transport_destroy (e : main_env) (t : transport) : list fdev * list gcall :=
  match t with
  | Mock t => (if_open (sock_ t) (Closed (sock_ t)), [])
  | Spidev i => (if_open (i_fd i) (Closed (i_fd i)), Impl_destroy (me_v2 e) i)
  end.

(** The transport chosen, opened, and whether that worked. *)
Definition open_transport (p : main_params) (e : main_env) : transport * bool * list fdev * list gcall :=
  if String.eqb (p_transport p) "mock" then
    let '(t, ok) := MockTransport_open {| sock_ := -1 |} (me_resolved e) in
    (Mock t, ok, match me_resolved e with Some addrs => connect_log addrs | None => [] end, [])
  else
    let '(i, ok, calls) := SpidevTransport_open (me_v2 e) Impl_new (p_gpiochip p) (me_fd e) (me_ioctls e) (me_gpio e) in
    (Spidev i, ok, if_open (me_fd e) (Opened (me_fd e)), calls).

(** The descriptors of [open_all]. *)
Definition terminals_log (e : main_env) : list fdev :=
  if me_dir_ok e
  then flat_map (fun i => match (me_ptys e i).1 with Some (m, s) => [Opened m; Opened s] | None => [] end) (seq 0 (length kEdgeNodes))
  else [].

(** Up to the start of the transport thread: [None] is a return of 1, its destructors run.  Where
    the terminals could not be opened the process only says so. *)
Definition main_setup (p : main_params) (e : main_env) : option (transport * XrceDemux) * list fdev * list gcall :=
  let '(t, ok, log, calls) := open_transport p e in
  if negb ok then let '(log', calls') := transport_destroy e t in (None, log ++ log', calls ++ calls') else
  let '(d, _) := open_all (XrceDemux_new (p_symlink_dir p)) (me_dir_ok e) (me_ptys e) in
  (Some (t, d), log ++ terminals_log e, calls).

(** From the end of [spin]: [close_all], and the destructors in reverse order. *)
Definition main_shutdown (e : main_env) (t : transport) (d : XrceDemux) : list fdev * list gcall :=
  let '(d, fds) := close_all d in
  let '(_, fds') := close_all d in
  let '(log, calls) := transport_destroy e t in
  ((Closed <$> fds) ++ (Closed <$> fds') ++ log, calls).

(** The period of the transport thread in nanoseconds; [None] where the conversion is undefined. *)
Definition main_period (p : main_params) : option Z :=
  to_int (-9223372036854775808) 9223372036854775807 (dmul (ddiv (dof_Z 1) (p_rate_hz p)) (dof_Z 1000000000)).

Example default_period : main_period declared_defaults = Some 1000000.
Proof. vm_compute. reflexivity. Qed.

(** A rate of zero has no period, and a negative one a negative period: the thread never waits. *)
Example zero_rate : main_period {| declared_defaults with p_rate_hz := dof_Z 0 |} = None.
Proof. vm_compute. reflexivity. Qed.
Example negative_rate : main_period {| declared_defaults with p_rate_hz := dof_Z (-1000) |} = Some (-1000000).
Proof. vm_compute. reflexivity. Qed.

(** ** What the process holds *)

Definition opens (l : list fdev) : list Z := omap (fun ev => match ev with Opened fd => Some fd | Closed _ => None end) l.
Definition closes (l : list fdev) : list Z := omap (fun ev => match ev with Closed fd => Some fd | Opened _ => None end) l.

(** Every descriptor opened was closed, as often as it was opened. *)
Definition balanced (l : list fdev) : Prop := opens l ≡ₚ closes l.

Definition transport_fd (t : transport) : Z := match t with Mock t => sock_ t | Spidev i => i_fd i end.

(** A terminal the system hands out has descriptors. *)
Definition ptys_ok (e : main_env) : Prop := forall i m s, (me_ptys e i).1 = Some (m, s) -> 0 <= m /\ 0 <= s.

Lemma opens_app l l' : opens (l ++ l') = opens l ++ opens l'. Proof. apply omap_app. Qed.
Lemma closes_app l l' : closes (l ++ l') = closes l ++ closes l'. Proof. apply omap_app. Qed.
Lemma opens_closed l : opens (Closed <$> l) = []. Proof. induction l; [done|exact IHl]. Qed.
Lemma closes_closed l : closes (Closed <$> l) = l. Proof. induction l as [|x l IH]; [done|exact (f_equal (cons x) IH)]. Qed.

Lemma connect_log_spec addrs : opens (connect_log addrs) ≡ₚ closes (connect_log addrs) ++ (if 0 <=? connect_loop addrs then [connect_loop addrs] else []).
Proof.
  induction addrs as [|[sock ok] addrs IH]; [done|]. cbn [connect_log connect_loop]. destruct (Z.ltb_spec sock 0); [done|]. destruct ok.
  - rewrite (proj2 (Z.leb_le _ _)) by lia. done.
  - by apply (Permutation_cons eq_refl IH).
Qed.

(** A transport's descriptor is what it opened and did not close. *)
Lemma open_transport_spec p e : let '(t, ok, log, calls) := open_transport p e in
  opens log ≡ₚ closes log ++ (if 0 <=? transport_fd t then [transport_fd t] else []) /\
  (forall o, held o (calls ++ (transport_destroy e t).2) = 0) /\
  (ok = true <-> if String.eqb (p_transport p) "mock" then exists addrs, me_resolved e = Some addrs /\ 0 <= connect_loop addrs
                 else 0 <= me_fd e /\ me_ioctls e = true).
Proof.
  unfold open_transport. destruct (String.eqb (p_transport p) "mock").
  - unfold MockTransport_open. destruct (me_resolved e) as [addrs|]; [|split_and!; [done|by intros []|]; split; [done|]; by intros (? & ? & _)].
    pose proof (connect_log_spec addrs) as Hc. destruct addrs as [|a addrs].
    { split_and!; [done|by intros []|]. split; [done|]. intros (? & [= <-] & Hl). cbn in Hl. lia. }
    destruct (Z.ltb_spec (connect_loop (a :: addrs)) 0) as [Hl|Hl]; cbn [transport_fd sock_].
    + rewrite (proj2 (Z.leb_gt _ _)) in Hc by lia. split_and!; [done|by intros []|]. split; [done|]. intros (? & [= <-] & ?). lia.
    + split_and!; [done|by intros []|]. split; [|done]. intros _. eexists. done.
  - pose proof (fun o => gpio_no_leak (me_v2 e) (p_gpiochip p) (me_fd e) (me_ioctls e) (me_gpio e) o 0 0) as Hg.
    assert (i_fd (SpidevTransport_open (me_v2 e) Impl_new (p_gpiochip p) (me_fd e) (me_ioctls e) (me_gpio e)).1.1 = me_fd e) as Hfd.
    { unfold SpidevTransport_open. destruct (_ <? _); [done|]. destruct (negb _); [done|].
      destruct (me_v2 e); unfold open_gpio_v2, open_gpio_v1; repeat (match goal with |- context [if ?b then _ else _] => destruct b end; cbn); done. }
    destruct (SpidevTransport_open _ _ _ _ _ _) as [[i ok] calls]. cbn [fst transport_fd transport_destroy snd] in *. rewrite Hfd.
    split_and!; [|intros o; apply (Hg o)|apply (Hg Chip)]. unfold if_open. by destruct (0 <=? me_fd e).
Qed.

(** The descriptors of terminal [i]. *)
Definition pty_fds (e : main_env) (i : nat) : Z * Z := default (-1, -1) (me_ptys e i).1.

Lemma open_fold e dir n : (n <= 6)%nat ->
  let d := (fold_left (fun acc i => open_one acc i (me_ptys e i)) (seq 0 n) (XrceDemux_new dir, true)).1 in
  length (master_fd_ d) = 6%nat /\ length (slave_fd_ d) = 6%nat /\ forall i, (i < 6)%nat ->
  (master_fd_ d !!! i, slave_fd_ d !!! i) = if (i <? n)%nat then pty_fds e i else (-1, -1).
Proof.
  induction n as [|n IH]; intros Hn; cbv zeta.
  { split; [done|]. split; [done|]. intros i Hi. by do 6 (destruct i as [|i]; [done|]); lia. }
  rewrite seq_S, fold_left_app. cbn [fold_left Nat.add]. specialize (IH ltac:(lia)). cbv zeta in IH.
  destruct (fold_left _ (seq 0 n) _) as [d ok]. cbn [fst] in IH. destruct IH as (L1 & L2 & Hd). unfold open_one, pty_fds in *.
  assert (forall i, (i < 6)%nat -> i <> n -> (if (i <? S n)%nat then default (-1, -1) (me_ptys e i).1 else (-1, -1)) =
    if (i <? n)%nat then default (-1, -1) (me_ptys e i).1 else (-1, -1)) as Hne.
  { intros i Hi Hni. destruct (Nat.ltb_spec i (S n)), (Nat.ltb_spec i n); done || lia. }
  destruct (me_ptys e n).1 as [[m sl]|] eqn:Ep; cbn [fst master_fd_ slave_fd_].
  - rewrite !length_insert. split_and!; [done..|]. intros i Hi. destruct (decide (i = n)) as [->|Hni].
    + rewrite !list_lookup_total_insert_eq by lia. rewrite (proj2 (Nat.ltb_lt _ _)) by lia. by rewrite Ep.
    + rewrite !list_lookup_total_insert_ne by done. rewrite Hne by done. by apply Hd.
  - split_and!; [done..|]. intros i Hi. destruct (decide (i = n)) as [->|Hni]; [|rewrite Hne by done; by apply Hd].
    rewrite Hd by done. rewrite Nat.ltb_irrefl, (proj2 (Nat.ltb_lt _ _)) by lia. by rewrite Ep.
Qed.

Lemma open_all_fds e dir i : (i < 6)%nat -> let d := (open_all (XrceDemux_new dir) (me_dir_ok e) (me_ptys e)).1 in
  (master_fd_ d !!! i, slave_fd_ d !!! i) = if me_dir_ok e then pty_fds e i else (-1, -1).
Proof.
  intros Hi. cbv zeta. unfold open_all. destruct (me_dir_ok e); cbn [negb].
  - destruct (open_fold e dir 6 ltac:(lia)) as (_ & _ & Hd). change (length kEdgeNodes) with 6%nat. rewrite (Hd i Hi).
    by rewrite (proj2 (Nat.ltb_lt _ _)) by lia.
  - by do 6 (destruct i as [|i]; [done|]); lia.
Qed.

Lemma open_all_len e dir : let d := (open_all (XrceDemux_new dir) (me_dir_ok e) (me_ptys e)).1 in
  length (master_fd_ d) = 6%nat /\ length (slave_fd_ d) = 6%nat.
Proof.
  cbv zeta. unfold open_all. destruct (me_dir_ok e); cbn [negb]; [|done]. change (length kEdgeNodes) with 6%nat.
  by destruct (open_fold e dir 6 ltac:(lia)) as (L1 & L2 & _).
Qed.

Lemma opens_flat_map {A} (f : A -> list fdev) l : opens (flat_map f l) = flat_map (fun x => opens (f x)) l.
Proof. induction l as [|x l IH]; [done|]. cbn [flat_map]. by rewrite opens_app, IH. Qed.
Lemma closes_flat_map {A} (f : A -> list fdev) l : closes (flat_map f l) = flat_map (fun x => closes (f x)) l.
Proof. induction l as [|x l IH]; [done|]. cbn [flat_map]. by rewrite closes_app, IH. Qed.
Lemma flat_map_nil {A B} (f : A -> list B) l : (forall x, In x l -> f x = []) -> flat_map f l = [].
Proof. intros Hf. induction l as [|x l IH]; [done|]. cbn [flat_map]. rewrite Hf by (by left). apply IH. intros y Hy. apply Hf. by right. Qed.
Lemma flat_map_ext_in {A B} (f g : A -> list B) l : (forall x, In x l -> f x = g x) -> flat_map f l = flat_map g l.
Proof. intros Hf. induction l as [|x l IH]; [done|]. cbn [flat_map]. rewrite Hf by (by left). f_equal. apply IH. intros y Hy. apply Hf. by right. Qed.

(** [close_all] closes exactly the descriptors of the terminals that were opened. *)
Lemma terminals_closed e dir : ptys_ok e -> let d := (open_all (XrceDemux_new dir) (me_dir_ok e) (me_ptys e)).1 in
  (close_all d).2 = opens (terminals_log e) /\ closes (terminals_log e) = [].
Proof.
  intros He. cbv zeta. set (d := (open_all _ _ _).1). assert (forall i, (i < 6)%nat -> (master_fd_ d !!! i, slave_fd_ d !!! i) =
    if me_dir_ok e then pty_fds e i else (-1, -1)) as Hd by (intros i Hi; by apply open_all_fds). clearbody d.
  unfold close_all, terminals_log. cbn [snd]. change (length kEdgeNodes) with 6%nat. destruct (me_dir_ok e).
  - rewrite opens_flat_map, closes_flat_map. split.
    + apply flat_map_ext_in. intros i Hi%in_seq. specialize (Hd i ltac:(lia)). unfold pty_fds in Hd.
      destruct (me_ptys e i).1 as [[m s]|] eqn:Ep; injection Hd as -> ->; [|done]. destruct (He i m s Ep).
      by rewrite !filter_cons_True by done.
    + apply flat_map_nil. intros i _. by destruct (me_ptys e i).1 as [[]|].
  - split; [|done]. apply flat_map_nil. intros i Hi%in_seq. specialize (Hd i ltac:(lia)). by injection Hd as -> ->.
Qed.

Lemma close_twice d : length (master_fd_ d) = 6%nat -> length (slave_fd_ d) = 6%nat -> (close_all (close_all d).1).2 = [].
Proof.
  intros L1 L2. unfold close_all. cbn [fst snd master_fd_ slave_fd_]. change (length kEdgeNodes) with 6%nat.
  assert (forall l i, length l = 6%nat -> (i < 6)%nat -> ~ 0 <= (close_fd <$> l) !!! i) as Hc.
  { intros l i Hl Hi. rewrite (list_lookup_total_fmap (A := Z) (B := Z) close_fd l i) by lia. unfold close_fd. destruct (Z.leb_spec 0 (l !!! i)); lia. }
  apply flat_map_nil. intros i Hi%in_seq. rewrite !filter_cons_False by (apply Hc; done || lia). done.
Qed.

Lemma destroy_log e t : opens (transport_destroy e t).1 = [] /\
  closes (transport_destroy e t).1 = if 0 <=? transport_fd t then [transport_fd t] else [].
Proof. destruct t; cbn [transport_destroy fst transport_fd]; unfold if_open; by destruct (0 <=? _). Qed.

Section Process.
Context `{SpiTransport}.

Lemma step_xrce s o s' es : step s o = Some (s', es) -> o_xrce s' = o_xrce s.
Proof. step_cases; try done. apply Hexch. Qed.

Lemma run_xrce ops : forall s s' es, run_bridge s ops = Some (s', es) -> o_xrce s' = o_xrce s.
Proof.
  induction ops as [|o ops IH]; intros s s' es; [by intros [= <- _]|]. intros (s1 & e1 & e2 & H1 & H2 & _)%run_cons.
  rewrite (IH _ _ _ H2). by eapply step_xrce.
Qed.

(** The process from start to exit.  It returns 1 exactly if the transport it is configured for
    cannot be opened, and comes up otherwise, whatever terminals the system refuses; a
    terminal is then open exactly if its directory is there and the system gave one.
    Whichever way it ends, and whatever it did in between, every descriptor it opened is
    closed as often as it was opened, and every object of libgpiod is released. *)
Theorem bridge_process p e : ptys_ok e ->
  match main_setup p e with
  | (None, log, calls) =>
    ~ (if String.eqb (p_transport p) "mock" then exists addrs, me_resolved e = Some addrs /\ 0 <= connect_loop addrs
       else 0 <= me_fd e /\ me_ioctls e = true) /\
    balanced log /\ forall o, held o calls = 0
  | (Some (t, d), log, calls) =>
    (if String.eqb (p_transport p) "mock" then exists addrs, me_resolved e = Some addrs /\ 0 <= connect_loop addrs
     else 0 <= me_fd e /\ me_ioctls e = true) /\
    (forall i, (i < 6)%nat -> terminal_open d i <-> me_dir_ok e = true /\ is_Some (me_ptys e i).1) /\
    forall l telem fs born t0 start ops s h, run_bridge (bridge_start l d telem (p_counter_path p) fs born t0 start) ops = Some (s, h) ->
    let '(log', calls') := main_shutdown e t (o_xrce s) in balanced (log ++ log') /\ forall o, held o (calls ++ calls') = 0
  end.
Proof.
  intros He. unfold main_setup. pose proof (open_transport_spec p e) as Ht. destruct (open_transport p e) as [[[t ok] log] calls].
  destruct Ht as (Hl & Hg & Hok). destruct ok; cbn [negb].
  - pose proof (terminals_closed e (p_symlink_dir p) He) as Hc. pose proof (open_all_fds e (p_symlink_dir p)) as Hf.
    pose proof (open_all_len e (p_symlink_dir p)) as Hlen. cbv zeta in *. destruct (open_all _ _ _) as [d ok']. cbn [fst] in *.
    destruct Hc as [C1 C2]. destruct Hlen as [L1 L2]. split; [by apply Hok|]. split.
    + intros i Hi. specialize (Hf i Hi). unfold terminal_open, pty_fds in *.
      destruct (me_dir_ok e); [|injection Hf as -> _; split; [lia|by intros []]]. destruct (me_ptys e i).1 as [[m s]|] eqn:Ep.
      * injection Hf as -> _. split; [by eauto|]. intros _. by destruct (He i m s Ep).
      * injection Hf as -> _. split; [lia|by intros [_ []]].
    + intros l telem fs born t0 start ops s h Hrun. rewrite (run_xrce _ _ _ _ Hrun). cbn [bridge_start o_xrce]. unfold main_shutdown.
      pose proof (close_twice d L1 L2) as C3. destruct (close_all d) as [d1 fds]. cbn [fst snd] in *. destruct (close_all d1) as [d2 fds']. cbn [snd] in C3. subst fds fds'.
      destruct (destroy_log e t) as [D1 D2]. destruct (transport_destroy e t) as [log' calls']. cbn [fst snd] in *. split; [|exact Hg].
      unfold balanced. rewrite !opens_app, !closes_app, !opens_closed, !closes_closed, C2, D1, D2. cbn [app fmap list_fmap].
      rewrite Hl, !app_nil_r. rewrite <- !app_assoc. apply Permutation_app_head, Permutation_app_comm.
  - destruct (destroy_log e t) as [D1 D2]. destruct (transport_destroy e t) as [log' calls']. cbn [fst snd] in *. split_and!; [|unfold balanced|exact Hg].
    + intros Hy. by apply Hok in Hy.
    + rewrite opens_app, closes_app, Hl, D1, D2. by rewrite app_nil_r.
Qed.
End Process.
